(* ===== verification/_CoqProject ===== *)
-Q . S2P
Prelude.v
Errors.v
Config.v
Posix.v
DiskManager.v
Replacer.v
LruTest.v
BufferPool.v
BufferPoolSpec.v
BufferPoolProps.v
Bitmap.v
RecordFile.v
RecordPage.v
RecordSpec.v
RecordStore.v
RecordProps.v
RecordManager.v
RecordClaims.v
StrMap.v
Values.v
Text.v
Log.v
StorageTest.v
Meta.v
Ast.v
Analyze.v
Plan.v
Planner.v
PlannerProps.v
Compare.v
Executor.v
ExecutorProps.v
Index.v
IndexProps.v
Printer.v
PrinterProps.v
System.v
Dml.v
Txn.v
Ql.v
Server.v
Tables.v
SeqScan.v
Columns.v
Relational.v
Select.v
Sample.v
Query.v
Statements.v
Requests.v
CreateTable.v
Utility.v
Schema.v
Closing.v
Drop.v
Reopening.v
History.v
SemVal.v
ParserTables.v
Scanner.v
Lexical.v
LexicalProps.v
Grammar.v
Lexing.v
Yacc.v
Automaton.v
AutomatonProps.v
YaccProps.v
Parse.v
Sentence.v
SqlText.v
Meaning.v
AstPrinter.v
Client.v
Frontend.v
SqlServer.v
Dialogue.v
Process.v
FirstSession.v
Restart.v
