(* ===== verification/Prelude.v ===== *)
(** * RucBase (RMDB), verified

    The program is a small relational database server.  A client sends the text of a statement;
    the scanner and the parser make a syntax tree, [Analyze] a typed query, the planner and optimizer a plan,
    [Portal] a tree of executors, and [QlManager] runs it.  Executors reach the records of a
    table through [RmFileHandle], that the bytes of pages through [BufferPoolManager], and that
    the files through [DiskManager] and the operating system.  Paths below are under [src/src/],
    those of the terminal client under [src/rucbase_client/].

    ** The model

    A C++ function is a function into [outcome] (a value, a thrown [RMDBError], or a crash:
    failed assertion, null dereference, access out of bounds, lack of fuel) or, when it changes
    state, into the monad [M S] of [Errors.v], which threads an explicit state.  [int] is [Z]
    with the wrap-around of 32 bits written out ([wrap32]), [size_t] is taken modulo [2^64],
    [float] is its bit pattern; buffers are lists of bytes and every [memcpy] is a checked
    [mread] or [mwrite].  Objects that are shared are shared in the model: one buffer pool and one
    disk under all files ([Store]), handles and frames by number.  Memory whose contents C++
    leaves open is a parameter ([junk]), as is the order in which a hash table is iterated.

    ** The files, from the bottom up

    - [Prelude] (this file): integers, bytes, buffers.  [Errors]: [errors.h], outcomes, the
      monad, the predicate [keeps] (an operation preserves a property in every outcome) and the
      tactics on it.  [Config]: [common/config.h], [defs.h], [storage/page.h].
    - [Posix]: the files, descriptors and directories system calls work on.  [DiskManager]:
      [storage/disk_manager].  Theorems: the file tables stay inverse to each other, pages and
      log data are read back as written, the error branches.
    - [Replacer]: [replacer/], the interface as the classes [Replacer] and [ReplacerSpec]; the
      LRU implementation refines a recency list, discharges the interface, and evicts every
      evictable frame in time.  [LruTest]: its tests pass, with every shuffle and interleaving.
    - [BufferPool]: [storage/buffer_pool_manager], over any replacer.  [BufferPoolSpec] has the
      invariant [bp_inv] and the view of a page; [BufferPoolProps] the refinement of an abstract
      page store, stability of pinned pages, durability of [flush_all_pages].
    - [Bitmap], [RecordFile]: [record/bitmap.h], [record/rm_file_handle], [record/rm_scan.cpp],
      [record/rm_manager.h].  [RecordPage] (bytes of one page), [RecordSpec] (when a file stands
      for a map from record ids to records), [RecordStore] (the pool as record files use it),
      [RecordProps] and [RecordManager] (each operation), [RecordClaims] (the theorems: a record
      file is a finite map, scans, closing and reopening).
    - [Log]: [recovery/log_manager.h], serialization and printing of log records.
      [StorageTest]: the tests of the disk manager, and two of the buffer pool.
    - [StrMap], [Values], [Text], [Meta]: [std::map], [common/common.h], text streams,
      [system/sm_meta.h] with the round trip of [db.meta].
    - [Ast], [Analyze]: [parser/ast.h], [analyze/]; the analysis accepts exactly the well-typed
      statements.  [Plan], [Planner], [PlannerProps]: [optimizer/]; the planner scans every table
      once and keeps every condition once.
    - [Compare], [Executor], [ExecutorProps]: [ix_compare] and the executors of [execution/] as
      instances of the class [Cursor]; [CursorOk] is the contract of an executor, against which
      join and projection are proved.
    - [Index], [IndexProps]: [index/]; layout of nodes and headers, creating and opening.
    - [Printer], [PrinterProps]: [record_printer.h] and the reply buffer.
    - [System]: [system/sm_manager].  [Dml]: the executors of INSERT, UPDATE, DELETE.  [Txn]:
      [transaction/], [recovery/log_recovery].  [Ql]: [portal.h], [execution/execution_manager].
      [Server]: one round of [client_handler] in [rmdb.cpp].
    - [Tables] (what a statement relies on: [tables_inv], every open table is a record file with
      known records), [SeqScan] (a sequential scan meets [CursorOk]), [Columns], [Relational]
      (bindings of rows to tables, the answers of a query, and that a join tree computes them),
      [Select] (executors of a plan), [Sample] (a small database for the witnesses), [Query],
      [Statements], [Requests], [CreateTable], [Utility] (reports, statements with empty bodies,
      statements refused before they are run), [Schema] (CREATE TABLE as a request): the theorems
      about whole statements.  [Closing], [Drop], [Reopening]: [close_db], DROP TABLE as a request,
      and [create_db] and [open_db] in a new process.  [History]: a session of requests refines an abstract database.
    - [SemVal], [ParserTables]: the values of the parser and the tables of the generated files.
      [Scanner]: [parser/lex.yy.cpp]; [Lexical]: the regular expressions and rules of
      [parser/lex.l]; [LexicalProps], [Lexing]: the automaton finds the longest match of the
      rules, and the token stream of a text.  [Grammar]: the productions of [parser/yacc.y] with
      their actions.  [Yacc]: [parser/yacc.tab.cpp]; [Automaton] to [YaccProps]: the stacks that
      can occur, and each step of the machine.  [Parse]: the parser accepts exactly the texts of
      the grammar, with the tree of the derivation.  [Sentence], [SqlText]: the text of a tree
      is parsed to the tree.  [Meaning]: what a text means, and that the parser finds it.
      [AstPrinter]: [parser/ast_printer.h] and [parser/test_parser.cpp].
    - [Client]: [rucbase_client/main.cpp].  [Frontend]: [client_handler] of [rmdb.cpp] with
      scanner and parser in place and the globals they keep between requests.  [SqlServer],
      [Dialogue]: histories of texts, sent by clients and typed into the terminal client.
      [Process]: [main] from [start_db] to [close_db], and processes one after the other.
      [FirstSession]: a history on a machine without a database, as the witness.  [Restart]: two
      processes, what DROP TABLE leaves for the next one, and three processes as the witness.

    ** What the theorems show

    The theorems compose. At the top, [Process] shows that servers that are started, used and
    stopped one after the other on one machine answer as one abstract database: what [close_db]
    leaves on the disk is what [open_db] makes the same tables of. It rests on [Dialogue]: a
    user who types a history of lines into the client sees what an abstract database (a
    catalogue and a finite map from tables to records) may answer, and that the server ends with
    what it holds: CREATE TABLE, DROP TABLE, SELECT, INSERT, DELETE, UPDATE, SHOW TABLES, DESC,
    HELP, statements that are refused and texts that are none. It rests on the parser ([Parse]:
    the tables implement the grammar; [Lexing]: the scanner implements the rules) and on
    [History], that a server that is sent a history of statements answers as a finite map from
    tables to records would, and stores what that map holds. [Requests] and [Query] say what a
    client gets: a SELECT is answered with exactly the combinations of rows that satisfy its
    conditions, INSERT, DELETE and UPDATE change the stored rows as they say and nothing else, a
    statement that fails is answered with its message. They rest on [CursorOk] and on the plan's
    correctness, these on the record file being a map, this on the buffer pool being a page
    store over any replacer, this on the disk round trip. Where the code goes wrong the theorem
    says so: a join that is started again ([join_restart_ends]), conditions taken by the wrong
    scan ([first_scan_takes]), a leaked pin ([get_record_result]) or frame
    ([fetch_page_failure_leaks_frame]), an assertion a request can reach
    ([number_on_char_column_aborts]), an index whose first node overwrites its header
    ([restarted_index_reuses_leaf_header]), a comment that is not closed
    ([unclosed_comment_silences]), pages of a dropped table that come back
    ([dropped_rows_return]).

    ** Bounds and fuel

    Loops over pages take the page count as fuel, which bounds them; loops over the rows of a
    scan, join or result take the parameter [fuel], and the theorems ask only that it exceeds
    the number of rows involved and conclude that the result is reached, so [OutOfFuel] is
    excluded. Because [get_record] leaves a pin behind, the theorems about statements assume
    that the pool has more frames than the open tables have pages ([ti_room]). SELECT is proved
    for one or two tables without indexes and without ORDER BY, with a comparison of two columns
    of one table on the first table only: with three tables the restarted join loses rows, index
    scans are empty in the code, ORDER BY crashes, and other comparisons within a table are put
    on the wrong scan. The record count of a reply is below 10^14, so that it fits the room kept
    for it. Pin counts are not wrapped: the model is that of fewer than 2^31 pins of a page at a
    time.

    ** Not modelled

    Sockets, signals, threads and latches are left out: requests run one at a time, a message
    arrives whole, and no descriptor but those of files is in use. The options of the client,
    [readline] and the locations and messages of the generated parser, which only reach the
    terminal of the server, are left out. [atof] and the text of a float are parameters. Bodies
    the code leaves empty (index search and update, locking, commit and abort, log buffering,
    recovery) are empty in the model too. In histories DROP TABLE is accepted while no page of
    the table is in the pool, because of the pages it leaves behind otherwise; BEGIN crashes.
    [output.txt] is opened once per statement in the code and appended to line by line in the model.
    Of the tests, those of the LRU replacer, of the disk manager and of the parser are modelled
    completely, those of the buffer pool in part; the others drive a server over the network, need
    a B+ tree that the code does not have, or make long random histories of operations whose
    correctness is a theorem here.  googletest is vendored. *)

From Stdlib Require Export Strings.Byte ZArith Lia.
From stdpp Require Export base tactics gmap strings pretty fin_maps numbers list.
From stdpp Require Import options.

#[export] Set Default Proof Using "Type".
#[global] Open Scope Z_scope.

(** ** Machine integers and bytes

    A [char] is an 8-bit pattern ([byte]); its unsigned value is a [Z]. *)

Definition byte_val (b : byte) : Z := Z.of_N (Byte.to_N b).

Definition byte_of (z : Z) : byte :=
  match Byte.of_N (Z.to_N (z mod 256)) with
  | Some b => b
  | None => x00
  end.

#[global] Instance byte_eq_dec : EqDecision byte := Byte.byte_eq_dec.

Definition INT_MIN : Z := - 2 ^ 31.
Definition INT_MAX : Z := 2 ^ 31 - 1.
Definition is_int32 (z : Z) : Prop := INT_MIN <= z <= INT_MAX.

(** The value a 32-bit two's complement register holds after [z] was computed. *)
Definition wrap32 (z : Z) : Z := (z + 2 ^ 31) mod 2 ^ 32 - 2 ^ 31.

(** Little-endian images of integers, as [memcpy] from an [int] (4 bytes) or a
    [size_t] (8 bytes) produces them on the target. *)
Fixpoint le_encode (n : nat) (z : Z) : list byte :=
  match n with
  | O => []
  | S n' => byte_of z :: le_encode n' (z / 256)
  end.

Fixpoint le_decode (l : list byte) : Z :=
  match l with
  | [] => 0
  | b :: l' => byte_val b + 256 * le_decode l'
  end.

Definition int_bytes (z : Z) : list byte := le_encode 4 z.
Definition bytes_int (l : list byte) : Z := wrap32 (le_decode l).
Definition uint32_bytes (z : Z) : list byte := le_encode 4 z.
Definition bytes_uint32 (l : list byte) : Z := le_decode l.
Definition size_t_bytes (z : Z) : list byte := le_encode 8 z.
Definition bytes_size_t (l : list byte) : Z := le_decode l.

Lemma byte_val_range b : 0 <= byte_val b < 256.
Proof.
  unfold byte_val. pose proof (Byte.to_N_bounded b). lia.
Qed.

Lemma byte_val_of z : byte_val (byte_of z) = z mod 256.
Proof.
  unfold byte_val, byte_of.
  pose proof (Z.mod_pos_bound z 256 ltac:(lia)) as Hb.
  destruct (Byte.of_N (Z.to_N (z mod 256))) as [b|] eqn:E.
  - apply Byte.to_of_N in E. rewrite E. lia.
  - apply Byte.of_N_None_iff in E. lia.
Qed.

Lemma byte_val_inj b1 b2 : byte_val b1 = byte_val b2 → b1 = b2.
Proof.
  unfold byte_val. intros H%N2Z.inj.
  pose proof (Byte.of_to_N b1) as H1. rewrite H, Byte.of_to_N in H1. congruence.
Qed.

Lemma byte_of_val b : byte_of (byte_val b) = b.
Proof.
  apply byte_val_inj. rewrite byte_val_of. apply Z.mod_small, byte_val_range.
Qed.

Lemma length_le_encode n z : length (le_encode n z) = n.
Proof. revert z; induction n as [|n IH]; intros z; simpl; auto. Qed.

Lemma le_decode_encode n z : le_decode (le_encode n z) = z mod 256 ^ Z.of_nat n.
Proof.
  revert z; induction n as [|n IH]; intros z.
  - simpl. change (256 ^ Z.of_nat 0) with 1. by rewrite Z.mod_1_r.
  - cbn [le_encode le_decode].
    rewrite IH, byte_val_of, Nat2Z.inj_succ, Z.pow_succ_r by lia.
    rewrite Z.rem_mul_r by lia. lia.
Qed.

Lemma le_decode_range l : 0 <= le_decode l < 256 ^ Z.of_nat (length l).
Proof.
  induction l as [|b l IH].
  - simpl. change (256 ^ Z.of_nat 0) with 1. lia.
  - cbn [le_decode length]. rewrite Nat2Z.inj_succ, Z.pow_succ_r by lia.
    pose proof (byte_val_range b). nia.
Qed.

Lemma le_encode_decode l : le_encode (length l) (le_decode l) = l.
Proof.
  induction l as [|b l IH]; [done|]. cbn [le_decode length le_encode].
  pose proof (byte_val_range b) as Hb. f_equal.
  - apply byte_val_inj. rewrite byte_val_of.
    rewrite (Z.mul_comm 256), Z_mod_plus_full. by apply Z.mod_small.
  - rewrite (Z.mul_comm 256), Z.div_add, Z.div_small by lia. done.
Qed.

Lemma wrap32_id z : is_int32 z → wrap32 z = z.
Proof.
  unfold is_int32, INT_MIN, INT_MAX, wrap32. intros H.
  rewrite Z.mod_small; lia.
Qed.

Lemma wrap32_range z : is_int32 (wrap32 z).
Proof.
  unfold is_int32, INT_MIN, INT_MAX, wrap32.
  pose proof (Z.mod_pos_bound (z + 2 ^ 31) (2 ^ 32) ltac:(lia)). lia.
Qed.

Lemma wrap32_mod z : wrap32 (z mod 2 ^ 32) = wrap32 z.
Proof. unfold wrap32. by rewrite Zplus_mod_idemp_l. Qed.

Lemma bytes_int_bytes z : is_int32 z → bytes_int (int_bytes z) = z.
Proof.
  intros H. unfold bytes_int, int_bytes. rewrite le_decode_encode.
  change (256 ^ Z.of_nat 4) with (2 ^ 32). rewrite wrap32_mod. by apply wrap32_id.
Qed.

Lemma bytes_int_range l : is_int32 (bytes_int l).
Proof. apply wrap32_range. Qed.

Lemma bytes_uint32_bytes z : 0 <= z < 2 ^ 32 → bytes_uint32 (uint32_bytes z) = z.
Proof.
  intros H. unfold bytes_uint32, uint32_bytes. rewrite le_decode_encode.
  change (256 ^ Z.of_nat 4) with (2 ^ 32). by apply Z.mod_small.
Qed.

Lemma bytes_size_t_bytes z : 0 <= z < 2 ^ 64 → bytes_size_t (size_t_bytes z) = z.
Proof.
  intros H. unfold bytes_size_t, size_t_bytes. rewrite le_decode_encode.
  change (256 ^ Z.of_nat 8) with (2 ^ 64). by apply Z.mod_small.
Qed.

(** ** Buffers

    A [char] array is a list of bytes.  [mread]/[mwrite] are the memory accesses
    of [memcpy], casts and subscripts; [None] is an access out of bounds. *)

Definition mread (buf : list byte) (off len : Z) : option (list byte) :=
  if decide (0 <= off ∧ 0 <= len ∧ off + len <= Z.of_nat (length buf))
  then Some (take (Z.to_nat len) (drop (Z.to_nat off) buf))
  else None.

Definition mwrite (buf : list byte) (off : Z) (bs : list byte) : option (list byte) :=
  if decide (0 <= off ∧ off + Z.of_nat (length bs) <= Z.of_nat (length buf))
  then Some (take (Z.to_nat off) buf ++ bs ++ drop (Z.to_nat off + length bs) buf)
  else None.

Definition zeros (n : Z) : list byte := replicate (Z.to_nat n) x00.

Lemma mread_Some buf off len r :
  mread buf off len = Some r ↔
  0 <= off ∧ 0 <= len ∧ off + len <= Z.of_nat (length buf) ∧
  r = take (Z.to_nat len) (drop (Z.to_nat off) buf).
Proof. unfold mread. case_decide; naive_solver. Qed.

Lemma mread_is_Some buf off len :
  0 <= off → 0 <= len → off + len <= Z.of_nat (length buf) →
  is_Some (mread buf off len).
Proof. intros. unfold mread. rewrite decide_True by done. eauto. Qed.

Lemma mread_length buf off len r :
  mread buf off len = Some r → Z.of_nat (length r) = len.
Proof.
  rewrite mread_Some. intros (?&?&?&->). rewrite length_take, length_drop. lia.
Qed.

Lemma mread_lookup buf off len r i :
  mread buf off len = Some r → (i < Z.to_nat len)%nat →
  r !! i = buf !! (Z.to_nat off + i)%nat.
Proof.
  rewrite mread_Some. intros (?&?&?&->) ?.
  rewrite lookup_take_lt by done. by rewrite lookup_drop.
Qed.

Lemma mread_ext b1 b2 off len :
  length b1 = length b2 →
  (∀ i, (Z.to_nat off <= i < Z.to_nat off + Z.to_nat len)%nat → b1 !! i = b2 !! i) →
  mread b1 off len = mread b2 off len.
Proof.
  intros Hl Hi. unfold mread. rewrite Hl. case_decide; [|done]. f_equal.
  apply list_eq. intros i. destruct (decide (i < Z.to_nat len)%nat).
  - rewrite !lookup_take_lt, !lookup_drop by done. apply Hi. lia.
  - rewrite !lookup_take_ge by lia. done.
Qed.

Lemma mwrite_Some buf off bs buf' :
  mwrite buf off bs = Some buf' ↔
  0 <= off ∧ off + Z.of_nat (length bs) <= Z.of_nat (length buf) ∧
  buf' = take (Z.to_nat off) buf ++ bs ++ drop (Z.to_nat off + length bs) buf.
Proof. unfold mwrite. case_decide; naive_solver. Qed.

Lemma mwrite_is_Some buf off bs :
  0 <= off → off + Z.of_nat (length bs) <= Z.of_nat (length buf) →
  is_Some (mwrite buf off bs).
Proof. intros. unfold mwrite. rewrite decide_True by done. eauto. Qed.

Lemma mwrite_length buf off bs buf' :
  mwrite buf off bs = Some buf' → length buf' = length buf.
Proof.
  rewrite mwrite_Some. intros (?&?&->).
  rewrite !length_app, length_take, length_drop. lia.
Qed.

Lemma mwrite_lookup buf off bs buf' i :
  mwrite buf off bs = Some buf' →
  buf' !! i = if decide (Z.to_nat off <= i < Z.to_nat off + length bs)%nat
              then bs !! (i - Z.to_nat off)%nat else buf !! i.
Proof.
  rewrite mwrite_Some. intros (?&?&->). case_decide as Hd.
  - rewrite lookup_app_r by (rewrite length_take; lia).
    rewrite lookup_app_l by (rewrite length_take; lia).
    f_equal. rewrite length_take. lia.
  - destruct (decide (i < Z.to_nat off)%nat).
    + rewrite lookup_app_l by (rewrite length_take; lia).
      by rewrite lookup_take_lt.
    + rewrite lookup_app_r by (rewrite length_take; lia).
      rewrite lookup_app_r by (rewrite length_take; lia).
      rewrite lookup_drop. f_equal. rewrite length_take. lia.
Qed.

Lemma mread_mwrite_same buf off bs buf' :
  mwrite buf off bs = Some buf' →
  mread buf' off (Z.of_nat (length bs)) = Some bs.
Proof.
  intros Hw. pose proof (mwrite_length _ _ _ _ Hw) as Hl.
  apply mwrite_Some in Hw as (?&?&->).
  apply mread_Some. rewrite !length_app, length_take, length_drop.
  split_and!; [lia..|].
  rewrite drop_app_length' by (rewrite length_take; lia).
  rewrite take_app_length' by lia. done.
Qed.

Lemma mread_mwrite_other buf off bs buf' off2 len2 :
  mwrite buf off bs = Some buf' →
  off2 + len2 <= off ∨ off + Z.of_nat (length bs) <= off2 →
  0 <= len2 →
  mread buf' off2 len2 = mread buf off2 len2.
Proof.
  intros Hw Hd Hl. destruct (decide (0 <= off2)).
  - apply mread_ext; [by eapply mwrite_length|].
    intros i Hi. rewrite (mwrite_lookup _ _ _ _ _ Hw).
    rewrite decide_False; [done|].
    apply mwrite_Some in Hw as (?&?&_). lia.
  - unfold mread. rewrite !decide_False by lia. done.
Qed.

Lemma mread_split buf off l1 l2 r :
  0 <= l1 → 0 <= l2 → mread buf off (l1 + l2) = Some r →
  mread buf off l1 = Some (take (Z.to_nat l1) r) ∧
  mread buf (off + l1) l2 = Some (drop (Z.to_nat l1) r).
Proof.
  intros ?? Hr. apply mread_Some in Hr as (?&?&?&->).
  rewrite !mread_Some. split_and!; try lia.
  - rewrite take_take. f_equal. lia.
  - rewrite skipn_firstn_comm, drop_drop. f_equal; [lia|f_equal; lia].
Qed.

Lemma mread_all bs : mread bs 0 (Z.of_nat (length bs)) = Some bs.
Proof. apply mread_Some. split_and!; [lia|lia|lia|]. by rewrite drop_0, Nat2Z.id, firstn_all. Qed.

Lemma length_zeros n : length (zeros n) = Z.to_nat n.
Proof. apply length_replicate. Qed.

(** ** Lists *)

Lemma NoDup_fst_inj {A B} (l : list (A * B)) a b1 b2 :
  NoDup l.*1 → (a, b1) ∈ l → (a, b2) ∈ l → b1 = b2.
Proof.
  induction l as [|[a' b'] l IH]; simpl; [set_solver|].
  intros [Hn Hd]%NoDup_cons. rewrite !elem_of_cons.
  intros [[= <- <-]|H1] [[= <-]|H2]; auto.
  - exfalso. apply Hn, list_elem_of_fmap. eexists. split; [|exact H2]. done.
  - exfalso. apply Hn, list_elem_of_fmap. eexists. split; [|exact H1]. done.
Qed.

Lemma NoDup_fst_filter {A B} (P : A * B → Prop) `{∀ x, Decision (P x)} (l : list (A * B)) :
  NoDup l.*1 → NoDup (filter P l).*1.
Proof.
  induction l as [|[a b] l IH]; [done|]. simpl. intros [Hn Hd]%NoDup_cons.
  rewrite filter_cons. case_decide; [|auto]. simpl. constructor; [|auto].
  intros ([a' b']&E&[_ Hin]%list_elem_of_filter)%list_elem_of_fmap. simpl in E. subst.
  apply Hn, list_elem_of_fmap. by exists (a', b').
Qed.

Lemma fmap_filter_agree {A B} (f : A → B) (P : A → Prop) (Q : B → Prop)
    `{∀ x, Decision (P x)} `{∀ x, Decision (Q x)} (l : list A) :
  (∀ x, x ∈ l → P x ↔ Q (f x)) → f <$> filter P l = filter Q (f <$> l).
Proof.
  induction l as [|a l IH]; intros Hl; [done|].
  rewrite fmap_cons, !filter_cons, <- IH by set_solver. assert (Ha : P a ↔ Q (f a)) by set_solver.
  repeat case_decide; simpl; tauto.
Qed.

Lemma last_take_app {A} (l : list A) x : last l = Some x → l = take (length l - 1) l ++ [x].
Proof.
  intros [l' ->]%last_Some. rewrite length_app. simpl.
  rewrite take_app_length' by lia. done.
Qed.

Lemma filter_all {A} (P : A → Prop) `{∀ x, Decision (P x)} (l : list A) :
  (∀ x, x ∈ l → P x) → filter P l = l.
Proof.
  induction l as [|a l IH]; intros Hl; [done|].
  rewrite filter_cons_True by set_solver. f_equal. set_solver.
Qed.
