(* ===== verification/Errors.v ===== *)
(** * Errors and effects

    The exception classes of [errors.h] as an inductive type with the messages
    their constructors build, and the small state-and-exception monad in which
    the stateful operations of every component are written. *)

From S2P Require Import Prelude.
From stdpp Require Import options.

(** ** System error numbers

    The values of [errno] the modelled system calls can set, with the text
    [strerror] gives for them. *)

Inductive errno := EBADF | ENOENT | EINVAL | EEXIST | EMFILE | EFBIG.

#[global] Instance errno_eq_dec : EqDecision errno.
Proof. solve_decision. Defined.

Definition strerror (e : errno) : string :=
  match e with
  | EBADF => "Bad file descriptor"
  | ENOENT => "No such file or directory"
  | EINVAL => "Invalid argument"
  | EEXIST => "File exists"
  | EMFILE => "Too many open files"
  | EFBIG => "File too large"
  end.

(** ** The exception hierarchy of errors.h *)

Inductive RMDBError :=
  | InternalError (msg : string)
  | UnixError (e : errno)
  | FileNotOpenError (fd : Z)
  | FileNotClosedError (filename : string)
  | FileExistsError (filename : string)
  | FileNotFoundError (filename : string)
  | RecordNotFoundError (page_no slot_no : Z)
  | InvalidRecordSizeError (record_size : Z)
  | InvalidColLengthError (col_len : Z)
  | IndexEntryNotFoundError
  | DatabaseNotFoundError (db_name : string)
  | DatabaseExistsError (db_name : string)
  | TableNotFoundError (tab_name : string)
  | TableExistsError (tab_name : string)
  | ColumnNotFoundError (col_name : string)
  | IndexNotFoundError (tab_name : string) (col_names : list string)
  | IndexExistsError (tab_name : string) (col_names : list string)
  | InvalidValueCountError
  | StringOverflowError
  | IncompatibleTypeError (lhs rhs : string)
  | AmbiguousColumnError (col_name : string)
  | PageNotExistError (table_name : string) (page_no : Z).

#[global] Instance RMDBError_eq_dec : EqDecision RMDBError.
Proof. solve_decision. Defined.

(** [std::to_string] on an [int]. *)
Definition to_string (z : Z) : string := pretty z.

(** The loop of the two index errors:
    [for (i...) { if (i > 0) _msg += ", "; _msg += col_names[i]; }]. *)
Fixpoint join_cols (first : bool) (col_names : list string) : string :=
  match col_names with
  | [] => ""
  | c :: cs => (if first then "" else ", ") +:+ c +:+ join_cols false cs
  end.

(** [RMDBError::what]: the prefix ["Error: "] and the message of the class. *)
Definition what (e : RMDBError) : string :=
  "Error: " +:+
  match e with
  | InternalError msg => msg
  | UnixError en => strerror en
  | FileNotOpenError fd => "Invalid file descriptor: " +:+ to_string fd
  | FileNotClosedError f => "File is opened: " +:+ f
  | FileExistsError f => "File already exists: " +:+ f
  | FileNotFoundError f => "File not found: " +:+ f
  | RecordNotFoundError p s => "Record not found: (" +:+ to_string p +:+ "," +:+ to_string s +:+ ")"
  | InvalidRecordSizeError n => "Invalid record size: " +:+ to_string n
  | InvalidColLengthError n => "Invalid column length: " +:+ to_string n
  | IndexEntryNotFoundError => "Index entry not found"
  | DatabaseNotFoundError d => "Database not found: " +:+ d
  | DatabaseExistsError d => "Database already exists: " +:+ d
  | TableNotFoundError t => "Table not found: " +:+ t
  | TableExistsError t => "Table already exists: " +:+ t
  | ColumnNotFoundError c => "Column not found: " +:+ c
  | IndexNotFoundError t cs => "Index not found: " +:+ t +:+ ".(" +:+ join_cols true cs +:+ ")"
  | IndexExistsError t cs => "Index already exists: " +:+ t +:+ ".(" +:+ join_cols true cs +:+ ")"
  | InvalidValueCountError => "Invalid value count"
  | StringOverflowError => "String is too long"
  | IncompatibleTypeError l r => "Incompatible type error: lhs " +:+ l +:+ ", rhs " +:+ r
  | AmbiguousColumnError c => "Ambiguous column: " +:+ c
  | PageNotExistError t p => "Page " +:+ to_string p +:+ " in table " +:+ t +:+ "not exits"
  end.

(** [RMDBError::get_msg_len]. *)
Definition get_msg_len (e : RMDBError) : Z := Z.of_nat (String.length (what e)).

(** ** Outcomes

    A C++ operation returns, throws, or leaves the defined part of the language:
    a failed [assert], a null dereference, an access out of bounds, or (only for
    the fuel-indexed loops of the model) exhausted fuel. *)

Inductive crash := AssertFailed | NullDeref | OutOfBounds | OutOfFuel.

#[global] Instance crash_eq_dec : EqDecision crash.
Proof. solve_decision. Defined.

Inductive outcome (A : Type) :=
  | Ret (a : A)
  | Throw (e : RMDBError)
  | Crash (c : crash).
Arguments Ret {A} a.
Arguments Throw {A} e.
Arguments Crash {A} c.

#[global] Instance outcome_eq_dec `{EqDecision A} : EqDecision (outcome A).
Proof. solve_decision. Defined.

Definition M (S A : Type) : Type := S → outcome A * S.

Section monad.
Context {S : Type}.

Definition ret {A} (a : A) : M S A := λ s, (Ret a, s).
Definition throw {A} (e : RMDBError) : M S A := λ s, (Throw e, s).
Definition crashes {A} (c : crash) : M S A := λ s, (Crash c, s).
Definition bind {A B} (m : M S A) (k : A → M S B) : M S B := λ s,
  match m s with
  | (Ret a, s') => k a s'
  | (Throw e, s') => (Throw e, s')
  | (Crash c, s') => (Crash c, s')
  end.
Definition gets {A} (f : S → A) : M S A := λ s, (Ret (f s), s).
Definition modify (f : S → S) : M S unit := λ s, (Ret tt, f s).

(** [assert(b)] of a debug build. *)
Definition assert_ (b : bool) : M S unit := if b then ret tt else crashes AssertFailed.

(** A memory access: [None] is out of bounds. *)
Definition access {A} (o : option A) : M S A :=
  match o with Some a => ret a | None => crashes OutOfBounds end.

(** A pointer that is dereferenced next. *)
Definition deref {A} (o : option A) : M S A :=
  match o with Some a => ret a | None => crashes NullDeref end.

(** Range-for over a vector. *)
Fixpoint for_each {A} (f : A → M S unit) (l : list A) : M S unit :=
  match l with
  | [] => ret tt
  | x :: l' => bind (f x) (λ _, for_each f l')
  end.

(** A range-for that fills a result vector. *)
Fixpoint for_map {A B} (f : A → M S B) (l : list A) : M S (list B) :=
  match l with
  | [] => ret []
  | x :: l' => bind (f x) (λ y, bind (for_map f l') (λ ys, ret (y :: ys)))
  end.
End monad.

(** Running an operation of a component on the part of the state it owns. *)
Definition zoom {W S A} (get : W → S) (set : S → W → W) (m : M S A) : M W A := λ w,
  let '(r, s) := m (get w) in (r, set s w).

Declare Scope rmdb_scope.
Delimit Scope rmdb_scope with rmdb.
#[global] Open Scope rmdb_scope.

Notation "'let!' x ':=' c 'in' k" := (bind c (λ x, k))
  (at level 10, x pattern, c at level 100, k at level 200,
   format "'[v' 'let!'  x  ':='  c  'in' '/' k ']'") : rmdb_scope.
Notation "c ';;' k" := (bind c (λ _, k))
  (at level 100, k at level 200, right associativity,
   format "'[v' c  ';;' '/' k ']'") : rmdb_scope.

(** ** Pure computations that may throw

    Operations that read no shared state are computations in [outcome] itself,
    written with the monad notations of stdpp. *)

#[global] Instance outcome_ret : MRet outcome := @Ret.
#[global] Instance outcome_bind : MBind outcome := λ A B k m,
  match m with
  | Ret a => k a
  | Throw e => Throw e
  | Crash c => Crash c
  end.
#[global] Instance outcome_fmap : FMap outcome := λ A B f m,
  match m with
  | Ret a => Ret (f a)
  | Throw e => Throw e
  | Crash c => Crash c
  end.

Definition oassert (b : bool) : outcome unit := if b then Ret tt else Crash AssertFailed.
Definition oaccess {A} (o : option A) : outcome A := match o with Some a => Ret a | None => Crash OutOfBounds end.

(** A pure computation as a step of a stateful one. *)
Definition lift {S A} (o : outcome A) : M S A := λ s, (o, s).

Lemma obind_Ret {A B} (m : outcome A) (k : A → outcome B) b :
  (m ≫= k) = Ret b ↔ ∃ a, m = Ret a ∧ k a = Ret b.
Proof. destruct m; simpl; naive_solver. Qed.

(** A range-for over a vector that fills a result vector. *)
Fixpoint omap_list {A B} (f : A → outcome B) (l : list A) : outcome (list B) :=
  match l with
  | [] => Ret []
  | x :: l' => y ← f x; ys ← omap_list f l'; Ret (y :: ys)
  end.

Lemma omap_list_Ret {A B} (f : A → outcome B) l ys :
  omap_list f l = Ret ys ↔ Forall2 (λ x y, f x = Ret y) l ys.
Proof.
  revert ys; induction l as [|x l IH]; intros ys; simpl; split.
  - intros [= <-]. constructor.
  - by intros ->%Forall2_nil_inv_l.
  - intros (y&Hy&(ys'&?&[= <-])%obind_Ret)%obind_Ret. constructor; [done|by apply IH].
  - intros (y&ys'&Hy&Hl&->)%Forall2_cons_inv_l. rewrite obind_Ret. exists y. split; [done|].
    rewrite obind_Ret. exists ys'. by rewrite IH.
Qed.

(** ** Laws and inversion *)

Section laws.
Context {S : Type}.
Implicit Types s : S.

Lemma bind_Ret {A B} (m : M S A) (k : A → M S B) s a s' :
  m s = (Ret a, s') → bind m k s = k a s'.
Proof. intros H. unfold bind. by rewrite H. Qed.

Lemma bind_Throw {A B} (m : M S A) (k : A → M S B) s e s' :
  m s = (Throw e, s') → bind m k s = (Throw e, s').
Proof. intros H. unfold bind. by rewrite H. Qed.

Lemma bind_Crash {A B} (m : M S A) (k : A → M S B) s c s' :
  m s = (Crash c, s') → bind m k s = (Crash c, s').
Proof. intros H. unfold bind. by rewrite H. Qed.

Lemma bind_inv_Ret {A B} (m : M S A) (k : A → M S B) s b s' :
  bind m k s = (Ret b, s') →
  ∃ a s1, m s = (Ret a, s1) ∧ k a s1 = (Ret b, s').
Proof. unfold bind. destruct (m s) as [[]]; naive_solver. Qed.

Lemma bind_assoc {A B C} (m : M S A) (f : A → M S B) (g : B → M S C) s :
  bind (bind m f) g s = bind m (λ a, bind (f a) g) s.
Proof. unfold bind. destruct (m s) as [[]]; reflexivity. Qed.

Lemma zoom_eq {W A} (get : W → S) (set : S → W → W) (m : M S A) w r s :
  m (get w) = (r, s) → zoom get set m w = (r, set s w).
Proof. intros H. unfold zoom. by rewrite H. Qed.

Lemma for_each_app {A} (f : A → M S unit) l1 l2 s :
  for_each f (l1 ++ l2) s = (for_each f l1 ;; for_each f l2) s.
Proof.
  revert s; induction l1 as [|x l1 IH]; intros s; [done|].
  cbn [app for_each]. rewrite bind_assoc. unfold bind at 1 2.
  destruct (f x s) as [[] s1]; auto.
Qed.

(** Invariant rule: a property every iteration keeps holds after a loop that
    returns. *)
Lemma for_each_inv {A} (P : S → Prop) (f : A → M S unit) l s s' :
  (∀ x s1 s2, x ∈ l → P s1 → f x s1 = (Ret tt, s2) → P s2) →
  P s → for_each f l s = (Ret tt, s') → P s'.
Proof.
  revert s; induction l as [|x l IH]; intros s Hf HP; simpl.
  - unfold ret. naive_solver.
  - intros ([] & s1 & H1 & H2)%bind_inv_Ret.
    eapply IH; [|eapply Hf; [left|done..]|done].
    intros y ???. eapply Hf. by right.
Qed.
End laws.

(** ** State properties an operation keeps, whatever its outcome *)

Definition keeps {S A} (P : S → Prop) (m : M S A) : Prop := ∀ s, P s → P (m s).2.

Section keeps.
Context {S : Type} (P : S → Prop).

Lemma keeps_ret {A} (a : A) : keeps P (ret a).
Proof. by intros s. Qed.
Lemma keeps_throw {A} e : keeps P (throw (A := A) e).
Proof. by intros s. Qed.
Lemma keeps_crashes {A} c : keeps P (crashes (A := A) c).
Proof. by intros s. Qed.
Lemma keeps_gets {A} (f : S → A) : keeps P (gets f).
Proof. by intros s. Qed.
Lemma keeps_access {A} (o : option A) : keeps P (access o).
Proof. by destruct o; intros s. Qed.
Lemma keeps_assert b : keeps P (assert_ b).
Proof. by destruct b; intros s. Qed.
Lemma keeps_bind {A B} (m : M S A) (k : A → M S B) :
  keeps P m → (∀ a, keeps P (k a)) → keeps P (bind m k).
Proof.
  intros Hm Hk s HP. specialize (Hm s HP). unfold bind.
  destruct (m s) as [[] s']; simpl in *; auto. by apply Hk.
Qed.
Lemma keeps_modify f : (∀ s, P s → P (f s)) → keeps P (modify f).
Proof. intros H s. simpl. apply H. Qed.
Lemma keeps_for_each {A} (f : A → M S unit) l :
  (∀ x, keeps P (f x)) → keeps P (for_each f l).
Proof.
  intros Hf. induction l; [apply keeps_ret|]. by apply keeps_bind.
Qed.
End keeps.

Create HintDb rmdb.
#[export] Hint Resolve keeps_ret keeps_throw keeps_crashes keeps_gets keeps_access
  keeps_assert keeps_bind keeps_for_each : rmdb.

(** [keeps_tac] proves [keeps P m] by following the structure of [m]. *)
Ltac keeps_tac :=
  repeat match goal with
  | |- ∀ _, _ => intros ?
  | |- keeps _ (bind _ _) => apply keeps_bind
  | |- keeps _ (match ?x with _ => _ end) => destruct x
  | |- keeps _ (if ?x then _ else _) => destruct x
  | |- keeps _ _ => solve [auto with rmdb]
  end.

(** [mrun] steps through the monadic structure of the goal. *)
Ltac mrun := cbn [bind ret throw crashes gets modify assert_ access deref fst snd];
  unfold bind, ret, throw, crashes, gets, modify, assert_, access, deref; cbn [fst snd].

(** [minv] inverts a hypothesis saying that a sequence returned. *)
Ltac minv H :=
  let a := fresh "a" in let s := fresh "s" in
  let H1 := fresh "Hm" in let H2 := fresh "Hk" in
  apply bind_inv_Ret in H as (a & s & H1 & H2).
