(* ===== verification/Config.v ===== *)
(** * Shared constants and basic types

    The constants of [common/config.h], and [Rid], [ColType] and [PageId] of
    [defs.h] and [storage/page.h]. *)

From S2P Require Import Prelude Errors.
From stdpp Require Import options.

(** ** common/config.h *)

Definition BUFFER_LENGTH : Z := 8192.
Definition INVALID_FRAME_ID : Z := -1.
Definition INVALID_PAGE_ID : Z := -1.
Definition INVALID_TXN_ID : Z := -1.
Definition INVALID_TIMESTAMP : Z := -1.
Definition INVALID_LSN : Z := -1.
Definition HEADER_PAGE_ID : Z := 0.
Definition PAGE_SIZE : Z := 4096.
Definition BUFFER_POOL_SIZE : Z := 65536.
Definition LOG_BUFFER_SIZE : Z := 1024 * PAGE_SIZE.
Definition LOG_FILE_NAME : string := "db.log".
Definition REPLACER_TYPE : string := "LRU".
Definition DB_META_NAME : string := "db.meta".

Abbreviation frame_id_t := Z (only parsing).
Abbreviation page_id_t := Z (only parsing).
Abbreviation txn_id_t := Z (only parsing).
Abbreviation lsn_t := Z (only parsing).
Abbreviation timestamp_t := Z (only parsing).

(** ** defs.h *)

Record Rid := mkRid { page_no : Z; slot_no : Z }.

#[global] Instance Rid_eq_dec : EqDecision Rid.
Proof. solve_decision. Defined.
#[global] Instance Rid_countable : Countable Rid.
Proof.
  by apply (inj_countable' (λ r, (page_no r, slot_no r)) (λ p, mkRid p.1 p.2)); intros [].
Defined.

(** [operator==] on record ids. *)
Definition Rid_eqb (x y : Rid) : bool :=
  (page_no x =? page_no y) && (slot_no x =? slot_no y).

Lemma Rid_eqb_eq x y : Rid_eqb x y = true ↔ x = y.
Proof.
  unfold Rid_eqb. rewrite andb_true_iff, !Z.eqb_eq. destruct x, y; simpl; naive_solver.
Qed.

Inductive ColType := TYPE_INT | TYPE_FLOAT | TYPE_STRING.

#[global] Instance ColType_eq_dec : EqDecision ColType.
Proof. solve_decision. Defined.

Definition coltype2str (t : ColType) : string :=
  match t with
  | TYPE_INT => "INT"
  | TYPE_FLOAT => "FLOAT"
  | TYPE_STRING => "STRING"
  end.

(** The stream operators on enums go through the enumerator's number. *)
Definition coltype_to_int (t : ColType) : Z :=
  match t with TYPE_INT => 0 | TYPE_FLOAT => 1 | TYPE_STRING => 2 end.

Definition int_to_coltype (z : Z) : option ColType :=
  match z with
  | 0 => Some TYPE_INT
  | 1 => Some TYPE_FLOAT
  | 2 => Some TYPE_STRING
  | _ => None
  end.

(** ** storage/page.h *)

Record PageId := mkPageId { pid_fd : Z; pid_no : Z }.

#[global] Instance PageId_eq_dec : EqDecision PageId.
Proof. solve_decision. Defined.
#[global] Instance PageId_countable : Countable PageId.
Proof.
  by apply (inj_countable' (λ r, (pid_fd r, pid_no r)) (λ p, mkPageId p.1 p.2)); intros [].
Defined.

(** [operator==] on page ids: the equality the page table's keys use. *)
Definition PageId_eqb (x y : PageId) : bool :=
  (pid_fd x =? pid_fd y) && (pid_no x =? pid_no y).

(** [operator<] on page ids. *)
Definition PageId_ltb (self x : PageId) : bool :=
  if pid_fd self <? pid_fd x then true else pid_no self <? pid_no x.

(** [PageId::toString]. *)
Definition PageId_toString (x : PageId) : string :=
  "{fd: " +:+ to_string (pid_fd x) +:+ " page_no: " +:+ to_string (pid_no x) +:+ "}".

(** [PageId::Get]: [static_cast<int64_t>(fd << 16) | page_no]; the shift is done
    on the 32-bit [fd], and [page_no] is sign extended. *)
Definition PageId_Get (x : PageId) : Z :=
  Z.lor (wrap32 (Z.shiftl (pid_fd x) 16)) (pid_no x).

(** [PageIdHash]: the same mix as an [int], converted to [size_t]. *)
Definition PageIdHash (x : PageId) : Z :=
  Z.lor (wrap32 (Z.shiftl (pid_fd x) 16)) (pid_no x) mod 2 ^ 64.

Lemma PageId_eqb_eq x y : PageId_eqb x y = true ↔ x = y.
Proof.
  unfold PageId_eqb. rewrite andb_true_iff, !Z.eqb_eq. destruct x, y; simpl; naive_solver.
Qed.

(** Keys that compare equal hash equally: what [unordered_map] needs of
    [PageIdHash] and [operator==]. *)
Lemma PageIdHash_compat x y : PageId_eqb x y = true → PageIdHash x = PageIdHash y.
Proof. by intros ->%PageId_eqb_eq. Qed.

(** [operator<] is not a strict weak order: it holds both ways of a pair of ids
    whose components are ordered oppositely. *)
Lemma PageId_ltb_not_asym :
  PageId_ltb (mkPageId 1 5) (mkPageId 2 3) = true ∧
  PageId_ltb (mkPageId 2 3) (mkPageId 1 5) = true.
Proof. split; reflexivity. Qed.
