(* ===== verification/Posix.v ===== *)
(** * The operating-system interface

    The part of the POSIX file API that [DiskManager] and [SmManager] call
    ([open], [close], [read], [write], [lseek], [stat], [unlink], [chdir], the
    shell's [mkdir] and [rm -r]), as a state and functions on it.

    A path is the list of directory names from the directory the server was
    started in; names are opaque (a ['/'] inside a name is not interpreted).
    [os_limit] is the room a file may take: a [write] that runs past it is
    short, as POSIX specifies for a full device or a file-size limit. *)

From S2P Require Import Prelude Errors.
From stdpp Require Import options.

Abbreviation path := (list string).

Record OS := mkOS {
  os_files : gmap path (list byte);
  os_dirs : gset path;
  os_cwd : path;
  os_fds : gmap Z (path * Z);   (* open descriptors: file and offset *)
  os_limit : Z;
  os_nofile : Z;                (* descriptors are below this number *)
}.

Definition set_files (f : gmap path (list byte)) (o : OS) : OS :=
  mkOS f (os_dirs o) (os_cwd o) (os_fds o) (os_limit o) (os_nofile o).
Definition set_dirs (d : gset path) (o : OS) : OS :=
  mkOS (os_files o) d (os_cwd o) (os_fds o) (os_limit o) (os_nofile o).
Definition set_cwd (p : path) (o : OS) : OS :=
  mkOS (os_files o) (os_dirs o) p (os_fds o) (os_limit o) (os_nofile o).
Definition set_fds (f : gmap Z (path * Z)) (o : OS) : OS :=
  mkOS (os_files o) (os_dirs o) (os_cwd o) f (os_limit o) (os_nofile o).

Definition resolve (o : OS) (name : string) : path := os_cwd o ++ [name].

(** ** Queries *)

(** [stat(path) == 0 && S_ISREG], [... S_ISDIR], and [st_size]. *)
Definition stat_reg (o : OS) (name : string) : bool :=
  bool_decide (is_Some (os_files o !! resolve o name)).
Definition stat_dir (o : OS) (name : string) : bool :=
  bool_decide (resolve o name ∈ os_dirs o).
Definition stat_size (o : OS) (name : string) : option Z :=
  Z.of_nat ∘ length <$> os_files o !! resolve o name.

(** ** Descriptors *)

(** The lowest descriptor not in use, from 3 on (0-2 are the standard streams). *)
Fixpoint lowest_free (fds : gmap Z (path * Z)) (fuel : nat) (i : Z) : Z :=
  match fuel with
  | O => i
  | S n => match fds !! i with None => i | Some _ => lowest_free fds n (i + 1) end
  end.

Definition new_fd (o : OS) : Z := lowest_free (os_fds o) (size (os_fds o)) 3.

Definition sys_open_fd (p : path) (o : OS) : (Z + errno) * OS :=
  let fd := new_fd o in
  if decide (fd < os_nofile o) then (inl fd, set_fds (<[fd := (p, 0)]> (os_fds o)) o)
  else (inr EMFILE, o).

(** [open(path, O_CREAT | O_EXCL | O_WRONLY, 0644)]. *)
Definition sys_creat_excl (name : string) (o : OS) : (Z + errno) * OS :=
  let p := resolve o name in
  if decide (is_Some (os_files o !! p) ∨ p ∈ os_dirs o) then (inr EEXIST, o)
  else match sys_open_fd p o with
       | (inl fd, o') => (inl fd, set_files (<[p := []]> (os_files o')) o')
       | (inr e, o') => (inr e, o')
       end.

(** [open(path, O_RDWR)]. *)
Definition sys_open (name : string) (o : OS) : (Z + errno) * OS :=
  let p := resolve o name in
  match os_files o !! p with
  | None => (inr ENOENT, o)
  | Some _ => sys_open_fd p o
  end.

Definition sys_close (fd : Z) (o : OS) : (unit + errno) * OS :=
  match os_fds o !! fd with
  | None => (inr EBADF, o)
  | Some _ => (inl tt, set_fds (delete fd (os_fds o)) o)
  end.

Definition sys_unlink (name : string) (o : OS) : (unit + errno) * OS :=
  let p := resolve o name in
  match os_files o !! p with
  | None => (inr ENOENT, o)
  | Some _ => (inl tt, set_files (delete p (os_files o)) o)
  end.

(** [lseek(fd, off, SEEK_SET)]. *)
Definition sys_lseek (fd off : Z) (o : OS) : (Z + errno) * OS :=
  match os_fds o !! fd with
  | None => (inr EBADF, o)
  | Some (p, _) =>
      if decide (off < 0) then (inr EINVAL, o)
      else (inl off, set_fds (<[fd := (p, off)]> (os_fds o)) o)
  end.

(** [lseek(fd, 0, SEEK_END)]. *)
Definition sys_lseek_end (fd : Z) (o : OS) : (Z + errno) * OS :=
  match os_fds o !! fd with
  | None => (inr EBADF, o)
  | Some (p, _) =>
      let n := Z.of_nat (length (default [] (os_files o !! p))) in
      (inl n, set_fds (<[fd := (p, n)]> (os_fds o)) o)
  end.

(** Writing [bs] at offset [off] of a file; a gap is filled with zeros. *)
Definition file_write (c : list byte) (off : Z) (bs : list byte) : list byte :=
  let c' := c ++ zeros (off - Z.of_nat (length c)) in
  take (Z.to_nat off) c' ++ bs ++ drop (Z.to_nat off + length bs) c.

(** [write(fd, bs, |bs|)]: the number of bytes written.  Writing no bytes changes nothing. *)
Definition sys_write (fd : Z) (bs : list byte) (o : OS) : (Z + errno) * OS :=
  match os_fds o !! fd with
  | None => (inr EBADF, o)
  | Some (p, off) =>
      match os_files o !! p with
      | None => (inr EBADF, o)
      | Some c =>
          let room := os_limit o - off in
          if decide (bs = []) then (inl 0, o)
          else if decide (room <= 0) then (inr EFBIG, o)
          else
            let bs' := take (Z.to_nat room) bs in
            let n := Z.of_nat (length bs') in
            (inl n,
             set_fds (<[fd := (p, off + n)]> (os_fds o))
               (set_files (<[p := file_write c off bs']> (os_files o)) o))
      end
  end.

(** [read(fd, buf, n)]: the bytes read, at most [n]. *)
Definition sys_read (fd n : Z) (o : OS) : (list byte + errno) * OS :=
  match os_fds o !! fd with
  | None => (inr EBADF, o)
  | Some (p, off) =>
      match os_files o !! p with
      | None => (inr EBADF, o)
      | Some c =>
          let bs := take (Z.to_nat n) (drop (Z.to_nat off) c) in
          (inl bs, set_fds (<[fd := (p, off + Z.of_nat (length bs))]> (os_fds o)) o)
      end
  end.

(** ** Directories *)

Definition sys_chdir (name : string) (o : OS) : (unit + errno) * OS :=
  let p := if decide (name = "..") then take (length (os_cwd o) - 1) (os_cwd o)
           else resolve o name in
  if decide (p = [] ∨ p ∈ os_dirs o) then (inl tt, set_cwd p o) else (inr ENOENT, o).

(** [system("mkdir " + name)]: the shell's exit status (256 is exit code 1); it
    is negative only when no shell could be started. *)
Definition system_mkdir (name : string) (o : OS) : Z * OS :=
  let p := resolve o name in
  if decide (p ∈ os_dirs o ∨ is_Some (os_files o !! p)) then (256, o)
  else (0, set_dirs ({[p]} ∪ os_dirs o) o).

(** [system("rm -r " + name)]. *)
Definition under (p q : path) : bool := bool_decide (p `prefix_of` q).

Definition system_rm_r (name : string) (o : OS) : Z * OS :=
  let p := resolve o name in
  if decide (p ∈ os_dirs o ∨ is_Some (os_files o !! p)) then
    (0, set_files (filter (λ kv, under p kv.1 = false) (os_files o))
          (set_dirs (filter (λ d, under p d = false) (os_dirs o)) o))
  else (256, o).

(** ** Facts about descriptors *)

Lemma lowest_free_ge fds n i : i <= lowest_free fds n i.
Proof.
  revert i; induction n as [|n IH]; intros i; simpl; [lia|].
  destruct (fds !! i); [|lia]. specialize (IH (i + 1)). lia.
Qed.

Lemma lowest_free_used fds n i j : i <= j < lowest_free fds n i → is_Some (fds !! j).
Proof.
  revert i; induction n as [|n IH]; intros i; simpl; [lia|].
  destruct (fds !! i) eqn:E; [|lia]. intros Hj.
  destruct (decide (j = i)) as [->|]; [eauto|]. apply (IH (i + 1)). lia.
Qed.

(** Pigeonhole: the interval below the answer is in use, so fuel [size fds] is
    enough for the search. *)
Lemma lowest_free_fresh fds i : fds !! lowest_free fds (size fds) i = None.
Proof.
  assert (H : ∀ n j, fds !! lowest_free fds n j = None ∨
                     lowest_free fds n j = j + Z.of_nat n).
  { induction n as [|n IH]; intros j; simpl; [right; lia|].
    destruct (fds !! j) eqn:E; [|by left].
    destruct (IH (j + 1)) as [?|?]; [by left|right; lia]. }
  destruct (H (size fds) i) as [?|Heq]; [done|].
  destruct (fds !! lowest_free fds (size fds) i) eqn:E; [exfalso|done].
  set (k := size fds) in *.
  assert (Hsub : (list_to_set (seqZ i (Z.of_nat (S k))) : gset Z) ⊆ dom fds).
  { intros j. rewrite elem_of_list_to_set, elem_of_seqZ, elem_of_dom. intros Hj.
    destruct (decide (j = lowest_free fds k i)) as [->|]; [eauto|].
    eapply (lowest_free_used fds k i). lia. }
  apply subseteq_size in Hsub. rewrite size_dom in Hsub.
  rewrite size_list_to_set in Hsub by apply NoDup_seqZ.
  rewrite length_seqZ in Hsub. fold k in Hsub. lia.
Qed.

Lemma new_fd_fresh o : os_fds o !! new_fd o = None.
Proof. apply lowest_free_fresh. Qed.

Lemma new_fd_ge o : 3 <= new_fd o.
Proof. apply lowest_free_ge. Qed.

(** ** Facts about file contents *)

Lemma length_file_write c off bs :
  0 <= off →
  length (file_write c off bs) = Nat.max (length c) (Z.to_nat off + length bs).
Proof.
  intros Hoff. unfold file_write.
  rewrite !length_app, length_take, length_app, length_drop, length_zeros. lia.
Qed.

(** Bytes outside the written range are kept, and the range holds [bs]. *)
Lemma file_write_lookup c off bs i :
  0 <= off →
  file_write c off bs !! i =
    if decide (Z.to_nat off <= i < Z.to_nat off + length bs)%nat
    then bs !! (i - Z.to_nat off)%nat
    else if decide (length c <= i < Z.to_nat off)%nat then Some x00 else c !! i.
Proof.
  intros Hoff. unfold file_write.
  assert (Hlt : length (take (Z.to_nat off) (c ++ zeros (off - Z.of_nat (length c))))
                = Z.to_nat off).
  { rewrite length_take, length_app, length_zeros. lia. }
  case_decide as Hin.
  - rewrite lookup_app_r by lia. rewrite lookup_app_l by lia. f_equal. lia.
  - destruct (decide (i < Z.to_nat off)%nat) as [Hi|Hi].
    + rewrite lookup_app_l by lia. rewrite lookup_take_lt by done.
      case_decide as Hg.
      * rewrite lookup_app_r by lia. unfold zeros. rewrite lookup_replicate_2; [done|].
        lia.
      * rewrite lookup_app_l by lia. done.
    + rewrite (decide_False (P := (length c <= i < Z.to_nat off)%nat)) by lia.
      rewrite lookup_app_r by lia. rewrite lookup_app_r by lia.
      rewrite lookup_drop. f_equal. lia.
Qed.

Lemma file_write_read c off bs :
  0 <= off →
  take (length bs) (drop (Z.to_nat off) (file_write c off bs)) = bs.
Proof.
  intros Hoff. apply list_eq. intros i.
  destruct (decide (i < length bs)%nat) as [Hi|Hi].
  - rewrite lookup_take_lt, lookup_drop, file_write_lookup by done.
    rewrite decide_True by lia. f_equal. lia.
  - rewrite lookup_take_ge by lia. symmetry. apply lookup_ge_None. lia.
Qed.

Lemma file_write_other c off bs a n :
  0 <= off → (a + n <= length c)%nat →
  (a + n <= Z.to_nat off ∨ Z.to_nat off + length bs <= a)%nat →
  take n (drop a (file_write c off bs)) = take n (drop a c).
Proof.
  intros Hoff Hn Hd. apply list_eq. intros i.
  destruct (decide (i < n)%nat) as [Hi|Hi].
  - rewrite !lookup_take_lt, !lookup_drop, file_write_lookup by done.
    rewrite decide_False by lia. rewrite decide_False by lia. done.
  - rewrite !lookup_take_ge by lia. done.
Qed.
