(* ===== verification/DiskManager.v ===== *)
(** * DiskManager

    [storage/disk_manager.{h,cpp}]: files, their descriptors, pages in files and
    the log file.  The state is the operating system together with the members of
    the [DiskManager] object. *)

From S2P Require Import Prelude Errors Config Posix.
From stdpp Require Import options.

(** ** State *)

Record DiskManager := mkDM {
  path2fd_ : gmap string Z;
  fd2path_ : gmap Z string;
  log_fd_ : Z;
  fd2pageno_ : gmap Z Z;    (* the array of atomics; an absent key is the initial 0 *)
}.

Definition MAX_FD : Z := 8192.

(** The constructor. *)
Definition DiskManager_init : DiskManager := mkDM ∅ ∅ (-1) ∅.

Record Disk := mkDisk { os : OS; dm : DiskManager }.

Definition set_os (o : OS) (d : Disk) : Disk := mkDisk o (dm d).
Definition set_dm (m : DiskManager) (d : Disk) : Disk := mkDisk (os d) m.

(** A system call, run on the operating system's part of the state. *)
Definition syscall {A} (f : OS → A * OS) : M Disk A := λ d,
  let '(a, o) := f (os d) in (Ret a, set_os o d).

(** ** Pages *)

Definition write_page (fd : Z) (page_no : page_id_t) (offset : list byte) (num_bytes : Z) : M Disk unit :=
  let page_offset := page_no * PAGE_SIZE in
  let! r := syscall (sys_lseek fd page_offset) in
  match r with
  | inr e => throw (UnixError e)
  | inl _ =>
      let! data := access (mread offset 0 num_bytes) in
      let! w := syscall (sys_write fd data) in
      match w with
      | inl bytes_written =>
          if bytes_written =? num_bytes then ret tt
          else throw (InternalError "DiskManager::write_page Error")
      | inr _ => throw (InternalError "DiskManager::write_page Error")
      end
  end.

(** The destination buffer is part of the state: a short read has already
    overwritten the beginning of it when the exception is thrown. *)
Definition on_disk {A} (m : M Disk A) : M (list byte * Disk) A :=
  zoom snd (λ d w, (w.1, d)) m.

Definition store_bytes (bs : list byte) : M (list byte * Disk) unit := λ w,
  match mwrite w.1 0 bs with
  | Some buf => (Ret tt, (buf, w.2))
  | None => (Crash OutOfBounds, w)
  end.

Definition read_page (fd : Z) (page_no : page_id_t) (num_bytes : Z) : M (list byte * Disk) unit :=
  let page_offset := page_no * PAGE_SIZE in
  let! r := on_disk (syscall (sys_lseek fd page_offset)) in
  match r with
  | inr e => throw (UnixError e)
  | inl _ =>
      let! b := on_disk (syscall (sys_read fd num_bytes)) in
      match b with
      | inl bs =>
          store_bytes bs ;;
          if Z.of_nat (length bs) =? num_bytes then ret tt
          else throw (InternalError "DiskManager::read_page Error")
      | inr _ => throw (InternalError "DiskManager::read_page Error")
      end
  end.

(** [fd2pageno_[fd]] of the array with [MAX_FD] entries. *)
Definition pageno_at (m : DiskManager) (fd : Z) : option Z :=
  if decide (0 <= fd < MAX_FD) then Some (default 0 (fd2pageno_ m !! fd)) else None.

Definition set_pageno (fd n : Z) (m : DiskManager) : DiskManager :=
  mkDM (path2fd_ m) (fd2path_ m) (log_fd_ m) (<[fd := n]> (fd2pageno_ m)).

Definition set_fd2pageno (fd start_page_no : Z) : M Disk unit :=
  let! n := gets (λ d, pageno_at (dm d) fd) in
  access n ;;
  modify (λ d, set_dm (set_pageno fd start_page_no (dm d)) d).

Definition get_fd2pageno (fd : Z) : M Disk Z :=
  let! n := gets (λ d, pageno_at (dm d) fd) in
  access n.

Definition allocate_page (fd : Z) : M Disk page_id_t :=
  assert_ (bool_decide (0 <= fd ∧ fd < MAX_FD)) ;;
  let! n := get_fd2pageno fd in
  modify (λ d, set_dm (set_pageno fd (wrap32 (n + 1)) (dm d)) d) ;;
  ret n.

Definition deallocate_page (page_id : page_id_t) : M Disk unit := ret tt.

(** ** Directories *)

Definition is_dir (p : string) : M Disk bool := gets (λ d, stat_dir (os d) p).

Definition create_dir (p : string) : M Disk unit :=
  let! rc := syscall (system_mkdir p) in
  if rc <? 0 then throw (UnixError EINVAL) else ret tt.

Definition destroy_dir (p : string) : M Disk unit :=
  let! rc := syscall (system_rm_r p) in
  if rc <? 0 then throw (UnixError EINVAL) else ret tt.

(** ** Files *)

Definition is_file (p : string) : M Disk bool := gets (λ d, stat_reg (os d) p).

Definition create_file (p : string) : M Disk unit :=
  let! b := is_file p in
  if b : bool then throw (FileExistsError p)
  else
    let! r := syscall (sys_creat_excl p) in
    match r with
    | inr e => throw (UnixError e)
    | inl fd => syscall (sys_close fd) ;; ret tt
    end.

Definition path_is_open (p : string) : M Disk bool :=
  gets (λ d, bool_decide (is_Some (path2fd_ (dm d) !! p))).

Definition destroy_file (p : string) : M Disk unit :=
  let! b := is_file p in
  if negb b then throw (FileNotFoundError p)
  else
    let! op := path_is_open p in
    if op : bool then throw (FileNotClosedError p)
    else
      let! r := syscall (sys_unlink p) in
      match r with
      | inr e => throw (UnixError e)
      | inl _ => ret tt
      end.

Definition record_open (p : string) (fd : Z) (m : DiskManager) : DiskManager :=
  mkDM (<[p := fd]> (path2fd_ m)) (<[fd := p]> (fd2path_ m)) (log_fd_ m) (fd2pageno_ m).

Definition record_close (p : string) (fd : Z) (m : DiskManager) : DiskManager :=
  mkDM (delete p (path2fd_ m)) (delete fd (fd2path_ m)) (log_fd_ m) (fd2pageno_ m).

Definition open_file (p : string) : M Disk Z :=
  let! b := is_file p in
  if negb b then throw (FileNotFoundError p)
  else
    let! op := path_is_open p in
    if op : bool then throw (FileExistsError p)
    else
      let! r := syscall (sys_open p) in
      match r with
      | inr e => throw (UnixError e)
      | inl fd => modify (λ d, set_dm (record_open p fd (dm d)) d) ;; ret fd
      end.

Definition close_file (fd : Z) : M Disk unit :=
  let! o := gets (λ d, fd2path_ (dm d) !! fd) in
  match o with
  | None => throw (FileNotOpenError fd)
  | Some p =>
      let! r := syscall (sys_close fd) in
      match r with
      | inr e => throw (UnixError e)
      | inl _ => modify (λ d, set_dm (record_close p fd (dm d)) d)
      end
  end.

(** [stat_buf.st_size] converted to [int], or -1. *)
Definition get_file_size (file_name : string) : M Disk Z :=
  gets (λ d, match stat_size (os d) file_name with Some n => wrap32 n | None => -1 end).

Definition get_file_name (fd : Z) : M Disk string :=
  let! o := gets (λ d, fd2path_ (dm d) !! fd) in
  match o with
  | None => throw (FileNotOpenError fd)
  | Some p => ret p
  end.

Definition get_file_fd (file_name : string) : M Disk Z :=
  let! o := gets (λ d, path2fd_ (dm d) !! file_name) in
  match o with
  | None => open_file file_name
  | Some fd => ret fd
  end.

(** ** The log file *)

Definition SetLogFd (log_fd : Z) : M Disk unit :=
  modify (λ d, set_dm (mkDM (path2fd_ (dm d)) (fd2path_ (dm d)) log_fd (fd2pageno_ (dm d))) d).

Definition GetLogFd : M Disk Z := gets (λ d, log_fd_ (dm d)).

Definition ensure_log_open : M Disk unit :=
  let! fd := GetLogFd in
  if fd =? -1 then (let! fd' := open_file LOG_FILE_NAME in SetLogFd fd') else ret tt.

Definition read_log (size offset : Z) : M (list byte * Disk) Z :=
  on_disk ensure_log_open ;;
  let! file_size := on_disk (get_file_size LOG_FILE_NAME) in
  if offset >? file_size then ret (-1)
  else
    let size := Z.min size (file_size - offset) in
    if size =? 0 then ret 0
    else
      let! fd := on_disk GetLogFd in
      on_disk (syscall (sys_lseek fd offset)) ;;
      let! b := on_disk (syscall (sys_read fd size)) in
      match b with
      | inl bs =>
          store_bytes bs ;;
          assert_ (Z.of_nat (length bs) =? size) ;;
          ret (Z.of_nat (length bs))
      | inr _ => crashes AssertFailed
      end.

Definition write_log (log_data : list byte) (size : Z) : M Disk unit :=
  ensure_log_open ;;
  let! fd := GetLogFd in
  syscall (sys_lseek_end fd) ;;
  let! data := access (mread log_data 0 size) in
  let! w := syscall (sys_write fd data) in
  match w with
  | inl bytes_write => if bytes_write =? size then ret tt else throw (UnixError EFBIG)
  | inr e => throw (UnixError e)
  end.

(** ** What a page of a file holds

    [disk_page d pid] is the page as the file system has it: [None] when the
    descriptor is not open or the file ends before the end of the page. *)

Definition fd_content (o : OS) (fd : Z) : option (list byte) :=
  match os_fds o !! fd with
  | Some (p, _) => os_files o !! p
  | None => None
  end.

Definition disk_page (d : Disk) (pid : PageId) : option (list byte) :=
  match fd_content (os d) (pid_fd pid) with
  | Some c => mread c (pid_no pid * PAGE_SIZE) PAGE_SIZE
  | None => None
  end.

(** A page that can be written back: open file, page number not negative, room
    for the page. *)
Definition page_writable (d : Disk) (pid : PageId) : Prop :=
  is_Some (fd_content (os d) (pid_fd pid)) ∧
  0 <= pid_no pid ∧ (pid_no pid + 1) * PAGE_SIZE <= os_limit (os d).

(** Two descriptors never share a file. *)
Definition fds_distinct (o : OS) : Prop :=
  ∀ fd1 fd2 p o1 o2,
    os_fds o !! fd1 = Some (p, o1) → os_fds o !! fd2 = Some (p, o2) → fd1 = fd2.

(** The part of the disk state page transfers leave alone. *)
Definition same_files (d d' : Disk) : Prop :=
  dm d' = dm d ∧ os_cwd (os d') = os_cwd (os d) ∧ os_dirs (os d') = os_dirs (os d) ∧
  os_limit (os d') = os_limit (os d) ∧ os_nofile (os d') = os_nofile (os d) ∧
  (∀ fd, fst <$> os_fds (os d') !! fd = fst <$> os_fds (os d) !! fd) ∧
  (∀ p, is_Some (os_files (os d') !! p) ↔ is_Some (os_files (os d) !! p)).

#[global] Instance same_files_refl : Reflexive same_files.
Proof. intros d. unfold same_files. naive_solver. Qed.

#[global] Instance same_files_trans : Transitive same_files.
Proof.
  intros d1 d2 d3 (?&?&?&?&?&Hf&Hp) (?&?&?&?&?&Hf'&Hp'). unfold same_files.
  split_and!; [congruence..| |].
  - intros fd. by rewrite Hf', Hf.
  - intros p. by rewrite Hp', Hp.
Qed.

Lemma same_files_writable d d' pid :
  same_files d d' → page_writable d pid → page_writable d' pid.
Proof.
  intros (_&_&_&Hl&_&Hf&Hp) ([c Hc]&?&?). unfold page_writable. rewrite Hl.
  split_and!; [|done..]. unfold fd_content in *. specialize (Hf (pid_fd pid)).
  destruct (os_fds (os d) !! pid_fd pid) as [[q o1]|] eqn:E1; [|done].
  destruct (os_fds (os d') !! pid_fd pid) as [[q' o2]|] eqn:E2; [|done].
  simpl in Hf. simplify_eq. apply Hp. eauto.
Qed.

Lemma same_files_distinct d d' :
  same_files d d' → fds_distinct (os d) → fds_distinct (os d').
Proof.
  intros (_&_&_&_&_&Hf&_) Hd fd1 fd2 p o1 o2 H1 H2.
  pose proof (Hf fd1) as F1. pose proof (Hf fd2) as F2. rewrite H1 in F1. rewrite H2 in F2.
  destruct (os_fds (os d) !! fd1) as [[q1 p1]|] eqn:E1; [|done].
  destruct (os_fds (os d) !! fd2) as [[q2 p2]|] eqn:E2; [|done].
  simpl in *. simplify_eq. by eapply Hd.
Qed.

#[export] Hint Resolve same_files_writable same_files_distinct : rmdb.

(** ** Page transfers *)

Section transfers.
Implicit Types d : Disk.

(** [lseek] followed by [write] within the room of the file. *)
Lemma write_page_run d fd no buf n p off c :
  os_fds (os d) !! fd = Some (p, off) → os_files (os d) !! p = Some c →
  0 <= no → 0 < n → no * PAGE_SIZE + n <= os_limit (os d) →
  n <= Z.of_nat (length buf) →
  let data := take (Z.to_nat n) buf in
  write_page fd no buf n d =
    (Ret tt,
     set_os (set_fds (<[fd := (p, no * PAGE_SIZE + n)]> (os_fds (os d)))
              (set_files (<[p := file_write c (no * PAGE_SIZE) data]> (os_files (os d))) (os d))) d).
Proof.
  intros Hfd Hc Hno Hn Hlim Hbuf data. unfold write_page, PAGE_SIZE in *.
  unfold syscall, bind. unfold sys_lseek. rewrite Hfd, decide_False by lia.
  cbn [set_os os set_fds os_fds os_files].
  assert (Hr : mread buf 0 n = Some data).
  { apply mread_Some. split_and!; [lia..|]. done. }
  rewrite Hr. unfold access, ret. unfold sys_write. cbn.
  rewrite lookup_insert_eq. rewrite Hc.
  assert (Hdl : length data = Z.to_nat n) by (unfold data; rewrite length_take; lia).
  assert (Ht : take (Z.to_nat (os_limit (os d) - no * 4096)) data = data)
    by (apply take_ge; lia).
  rewrite decide_False by (intros E; apply (f_equal length) in E; simpl in E; lia). rewrite decide_False by lia. rewrite Ht, Hdl.
  rewrite Z2Nat.id, Z.eqb_refl by lia. unfold set_os, set_fds, set_files. cbn.
  by rewrite insert_insert_eq.
Qed.

Lemma read_page_run d fd no buf n p off c bs :
  os_fds (os d) !! fd = Some (p, off) → os_files (os d) !! p = Some c →
  mread c (no * PAGE_SIZE) n = Some bs → n <= Z.of_nat (length buf) →
  read_page fd no n (buf, d) =
    (Ret tt,
     (bs ++ drop (Z.to_nat n) buf,
      set_os (set_fds (<[fd := (p, no * PAGE_SIZE + n)]> (os_fds (os d))) (os d)) d)).
Proof.
  intros Hfd Hc Hr Hbuf. pose proof (mread_length _ _ _ _ Hr) as Hlen.
  apply mread_Some in Hr as (Ho&Hn&Hend&Hbs). unfold PAGE_SIZE in *.
  unfold read_page, on_disk, zoom, syscall, bind, PAGE_SIZE. cbn.
  unfold sys_lseek. rewrite Hfd, decide_False by lia. cbn.
  unfold sys_read. cbn. rewrite lookup_insert_eq, Hc. rewrite <- Hbs. cbn.
  unfold store_bytes. cbn. unfold mwrite.
  rewrite decide_True by lia. cbn. rewrite Hlen, Z.eqb_refl. unfold ret.
  rewrite insert_insert_eq. replace (length bs) with (Z.to_nat n) by lia. done.
Qed.
End transfers.

Lemma write_page_same_files d fd buf n p c r d' :
  os_fds (os d) !! fd = Some (p, r) → os_files (os d) !! p = Some c →
  d' = set_os (set_fds (<[fd := (p, n)]> (os_fds (os d)))
                (set_files (<[p := buf]> (os_files (os d))) (os d))) d →
  same_files d d'.
Proof.
  intros Hfd Hc ->. unfold same_files, set_os, set_fds, set_files. cbn.
  split_and!; try done.
  - intros fd'. destruct (decide (fd = fd')) as [<-|].
    + by rewrite lookup_insert_eq, Hfd.
    + by rewrite lookup_insert_ne.
  - intros q. destruct (decide (p = q)) as [<-|].
    + rewrite lookup_insert_eq, Hc. naive_solver.
    + by rewrite lookup_insert_ne.
Qed.

(** Writing a whole page: it succeeds, the page reads back, no other page of the
    same or of another open file changes, and nothing else of the disk does. *)
Lemma write_page_spec d pid data :
  page_writable d pid → fds_distinct (os d) → Z.of_nat (length data) = PAGE_SIZE →
  ∃ d', write_page (pid_fd pid) (pid_no pid) data PAGE_SIZE d = (Ret tt, d') ∧
    same_files d d' ∧
    disk_page d' pid = Some data ∧
    (∀ pid' x, pid' ≠ pid → disk_page d pid' = Some x → disk_page d' pid' = Some x).
Proof.
  intros ([c Hc]&Hno&Hlim) Hdist Hlen. unfold PAGE_SIZE in *.
  unfold fd_content in Hc.
  destruct (os_fds (os d) !! pid_fd pid) as [[p off]|] eqn:Hfd; [|done].
  eexists. split; [eapply write_page_run; unfold PAGE_SIZE; [done..| | |lia]; lia|].
  rewrite take_ge by lia.
  split; [eapply write_page_same_files; done|]. split.
  - unfold disk_page, fd_content. cbn. rewrite lookup_insert_eq, lookup_insert_eq.
    apply mread_Some. unfold PAGE_SIZE. rewrite length_file_write by lia.
    split_and!; [lia..|]. change (Z.to_nat 4096) with (Z.to_nat (Z.of_nat 4096)).
    replace (Z.to_nat (Z.of_nat 4096)) with (length data) by lia.
    symmetry. apply file_write_read. lia.
  - intros pid' x Hne. unfold disk_page, fd_content. cbn.
    destruct (decide (pid_fd pid = pid_fd pid')) as [Hf|Hf].
    + rewrite <- Hf, Hfd, lookup_insert_eq, lookup_insert_eq, Hc.
      rewrite !mread_Some. unfold PAGE_SIZE. rewrite length_file_write by lia.
      intros (?&?&?&->). split_and!; [lia..|].
      assert (pid_no pid' ≠ pid_no pid)
        by (destruct pid, pid'; simpl in *; congruence).
      symmetry. apply file_write_other; lia.
    + rewrite lookup_insert_ne by done.
      destruct (os_fds (os d) !! pid_fd pid') as [[q o2]|] eqn:Hq; [|done].
      rewrite lookup_insert_ne; [done|]. intros ->. apply Hf. by eapply Hdist.
Qed.

(** Any bytes of an open file. *)
Definition disk_bytes (d : Disk) (fd off len : Z) : option (list byte) :=
  fd_content (os d) fd ≫= λ c, mread c off len.

(** Writing a page keeps all bytes in front of it. *)
Lemma write_page_bytes d pid data d' fd off len r :
  page_writable d pid → fds_distinct (os d) → Z.of_nat (length data) = PAGE_SIZE →
  write_page (pid_fd pid) (pid_no pid) data PAGE_SIZE d = (Ret tt, d') →
  fd ≠ pid_fd pid ∨ off + len <= pid_no pid * PAGE_SIZE →
  disk_bytes d fd off len = Some r → disk_bytes d' fd off len = Some r.
Proof.
  intros ([c Hc]&Hno&Hlim) Hdist Hlen Hw Hdis. unfold PAGE_SIZE, fd_content in *.
  destruct (os_fds (os d) !! pid_fd pid) as [[p off']|] eqn:Hfd; [|done].
  rewrite (write_page_run d (pid_fd pid) (pid_no pid) data 4096 p off' c) in Hw
    by (unfold PAGE_SIZE; first [done|lia]).
  injection Hw as <-. rewrite take_ge by lia. unfold disk_bytes, fd_content, PAGE_SIZE. cbn.
  destruct (decide (fd = pid_fd pid)) as [->|Hf].
  - rewrite Hfd, lookup_insert_eq, lookup_insert_eq, Hc. simpl.
    rewrite !mread_Some, length_file_write by lia. intros (?&?&?&->). split_and!; [lia..|].
    symmetry. apply file_write_other; lia.
  - rewrite lookup_insert_ne by done.
    destruct (os_fds (os d) !! fd) as [[q o2]|] eqn:Hq; [|done].
    rewrite lookup_insert_ne; [done|]. intros ->. apply Hf. by eapply Hdist.
Qed.

(** Reading a whole page that the file holds fills the buffer with it. *)
Lemma read_page_spec d pid x buf :
  disk_page d pid = Some x → Z.of_nat (length buf) = PAGE_SIZE →
  ∃ d', read_page (pid_fd pid) (pid_no pid) PAGE_SIZE (buf, d) = (Ret tt, (x, d')) ∧
    same_files d d' ∧ (∀ pid', disk_page d' pid' = disk_page d pid').
Proof.
  unfold disk_page, fd_content. intros Hx Hlen.
  destruct (os_fds (os d) !! pid_fd pid) as [[p off]|] eqn:Hfd; [|done].
  destruct (os_files (os d) !! p) as [c|] eqn:Hc; [|done].
  eexists. split.
  { erewrite read_page_run by (done || lia).
    rewrite drop_ge, app_nil_r by lia. done. }
  split.
  - unfold same_files, set_os, set_fds. cbn. split_and!; try done.
    intros fd'. destruct (decide (pid_fd pid = fd')) as [<-|].
    + by rewrite lookup_insert_eq, Hfd.
    + by rewrite lookup_insert_ne.
  - intros pid'. cbn. destruct (decide (pid_fd pid = pid_fd pid')) as [<-|].
    + by rewrite lookup_insert_eq, Hfd.
    + by rewrite lookup_insert_ne.
Qed.

(** A page the file does not hold completely makes [read_page] throw, with the
    available bytes already copied into the buffer. *)
Lemma read_page_short d fd no buf p off c :
  os_fds (os d) !! fd = Some (p, off) → os_files (os d) !! p = Some c →
  0 <= no → Z.of_nat (length c) < (no + 1) * PAGE_SIZE →
  Z.of_nat (length buf) = PAGE_SIZE →
  let bs := drop (Z.to_nat (no * PAGE_SIZE)) c in
  ∃ d', read_page fd no PAGE_SIZE (buf, d) =
    (Throw (InternalError "DiskManager::read_page Error"),
     (bs ++ drop (length bs) buf, d')) ∧ same_files d d' ∧
    (∀ pid', disk_page d' pid' = disk_page d pid').
Proof.
  intros Hfd Hc Hno Hlen Hbuf bs. unfold PAGE_SIZE in *.
  assert (Hbl : (length bs < 4096)%nat) by (unfold bs; rewrite length_drop; lia).
  unfold read_page, on_disk, zoom, syscall, bind, PAGE_SIZE. cbn.
  unfold sys_lseek. rewrite Hfd, decide_False by lia. cbn.
  unfold sys_read. cbn. rewrite lookup_insert_eq, Hc.
  change (drop (Z.to_nat (no * 4096)) c) with bs. rewrite (take_ge bs) by lia.
  unfold store_bytes. cbn. unfold mwrite. rewrite decide_True by lia. cbn.
  replace (Z.of_nat (length bs) =? 4096) with false by (symmetry; apply Z.eqb_neq; lia).
  unfold throw. eexists. split; [done|].
  assert (Hl : ∀ fd', fst <$> <[fd := (p, no * 4096 + Z.of_nat (length bs))]> (os_fds (os d)) !! fd' =
    fst <$> os_fds (os d) !! fd').
  { intros fd'. destruct (decide (fd = fd')) as [<-|]; [by rewrite lookup_insert_eq, Hfd|].
    by rewrite lookup_insert_ne. }
  unfold same_files, set_os, set_fds. cbn. rewrite insert_insert_eq. split_and!; try done.
  intros pid'. unfold disk_page, fd_content. cbn. specialize (Hl (pid_fd pid')).
  destruct (<[fd := _]> _ !! pid_fd pid') as [[q1 ?]|], (os_fds (os d) !! pid_fd pid') as [[q2 ?]|];
    by simplify_eq/=.
Qed.

(** The page number counter: consecutive allocations on one file. *)
Lemma allocate_page_run d fd :
  0 <= fd < MAX_FD →
  let n := default 0 (fd2pageno_ (dm d) !! fd) in
  allocate_page fd d = (Ret n, set_dm (set_pageno fd (wrap32 (n + 1)) (dm d)) d).
Proof.
  intros Hfd n. unfold allocate_page, get_fd2pageno, pageno_at. mrun.
  rewrite bool_decide_eq_true_2 by done. cbn. by rewrite decide_True.
Qed.

(** ** The file table invariant

    The two hash tables are inverse to each other, every descriptor the process
    holds is recorded, and every recorded descriptor is open on an existing file. *)

Record disk_inv (d : Disk) : Prop := {
  di_maps : ∀ p fd, path2fd_ (dm d) !! p = Some fd ↔ fd2path_ (dm d) !! fd = Some p;
  di_fds : ∀ fd q off, os_fds (os d) !! fd = Some (q, off) →
    ∃ p, fd2path_ (dm d) !! fd = Some p ∧ q = resolve (os d) p;
  di_open : ∀ fd p, fd2path_ (dm d) !! fd = Some p →
    is_Some (os_fds (os d) !! fd) ∧ is_Some (os_files (os d) !! resolve (os d) p);
}.

Lemma disk_inv_distinct d : disk_inv d → fds_distinct (os d).
Proof.
  intros [Hm Hf _] fd1 fd2 q o1 o2 H1 H2.
  destruct (Hf _ _ _ H1) as (p1&P1&->). destruct (Hf _ _ _ H2) as (p2&P2&Hr).
  unfold resolve in Hr. apply app_inj_tail in Hr as [_ ->].
  apply Hm in P1, P2. congruence.
Qed.

Lemma disk_inv_same_files d d' : same_files d d' → disk_inv d → disk_inv d'.
Proof.
  intros (Hdm&Hcwd&_&_&_&Hf&Hp) [Hm Hd Ho]. unfold resolve in *.
  split; rewrite ?Hdm, ?Hcwd; unfold resolve; rewrite ?Hcwd; [done| |].
  - intros fd q off H. specialize (Hf fd). rewrite H in Hf. simpl in Hf.
    destruct (os_fds (os d) !! fd) as [[q' o']|] eqn:E; [|done].
    simpl in Hf. simplify_eq. eauto.
  - intros fd p H. destruct (Ho _ _ H) as [[[q o] Hq] Hfile]. rewrite Hp. split; [|done].
    specialize (Hf fd). rewrite Hq in Hf. destruct (os_fds (os d') !! fd); [eauto|done].
Qed.

(** A system call that moves offsets or changes contents only. *)
Definition quiet {A} (f : OS → A * OS) : Prop := ∀ d, same_files d (set_os (f (os d)).2 d).

Lemma same_files_fds (d : Disk) fd p off n :
  os_fds (os d) !! fd = Some (p, off) →
  same_files d (set_os (set_fds (<[fd := (p, n)]> (os_fds (os d))) (os d)) d).
Proof.
  intros Hfd. unfold same_files. cbn. split_and!; try done.
  intros fd'. destruct (decide (fd = fd')) as [<-|].
  - by rewrite lookup_insert_eq, Hfd.
  - by rewrite lookup_insert_ne.
Qed.

Lemma set_os_id d : set_os (os d) d = d.
Proof. by destruct d. Qed.

Lemma quiet_lseek fd off : quiet (sys_lseek fd off).
Proof.
  intros d. unfold sys_lseek. destruct (os_fds (os d) !! fd) as [[p o]|] eqn:E.
  - case_decide; simpl; [by rewrite set_os_id|by eapply same_files_fds].
  - simpl. by rewrite set_os_id.
Qed.
Lemma quiet_lseek_end fd : quiet (sys_lseek_end fd).
Proof.
  intros d. unfold sys_lseek_end. destruct (os_fds (os d) !! fd) as [[p o]|] eqn:E.
  - by eapply same_files_fds.
  - simpl. by rewrite set_os_id.
Qed.
Lemma quiet_read fd n : quiet (sys_read fd n).
Proof.
  intros d. unfold sys_read. destruct (os_fds (os d) !! fd) as [[p o]|] eqn:E;
    [destruct (os_files (os d) !! p)|]; simpl; rewrite ?set_os_id; try done.
  by eapply same_files_fds.
Qed.
Lemma quiet_write fd bs : quiet (sys_write fd bs).
Proof.
  intros d. unfold sys_write. destruct (os_fds (os d) !! fd) as [[p o]|] eqn:E;
    [destruct (os_files (os d) !! p) eqn:Ef; [do 2 try case_decide|]|]; simpl; rewrite ?set_os_id; try done.
  by eapply write_page_same_files.
Qed.

Lemma keeps_syscall {A} (f : OS → A * OS) : quiet f → keeps disk_inv (syscall f).
Proof.
  intros Hq d Hd. specialize (Hq d). unfold syscall.
  destruct (f (os d)) as [a o]. simpl in *. by eapply disk_inv_same_files.
Qed.

Lemma keeps_on_disk {A} (P : Disk → Prop) (m : M Disk A) :
  keeps P m → keeps (λ w, P w.2) (on_disk m).
Proof.
  intros Hm [buf d] Hd. specialize (Hm d Hd). unfold on_disk, zoom. simpl in *.
  by destruct (m d).
Qed.

Lemma keeps_store P bs : keeps (λ w : list byte * Disk, P w.2) (store_bytes bs).
Proof. intros [buf d] Hd. unfold store_bytes. simpl. by case_match. Qed.

#[export] Hint Resolve quiet_lseek quiet_lseek_end quiet_read quiet_write keeps_syscall
  keeps_on_disk keeps_store : rmdb.

(** ** Files come and go *)

(** Opening: the branches of [open_file]. *)
Lemma open_file_cases p d :
  open_file p d =
    if negb (stat_reg (os d) p) then (Throw (FileNotFoundError p), d)
    else if decide (is_Some (path2fd_ (dm d) !! p)) then (Throw (FileExistsError p), d)
    else if decide (new_fd (os d) < os_nofile (os d)) then
      (Ret (new_fd (os d)),
       mkDisk (set_fds (<[new_fd (os d) := (resolve (os d) p, 0)]> (os_fds (os d))) (os d))
              (record_open p (new_fd (os d)) (dm d)))
    else (Throw (UnixError EMFILE), d).
Proof.
  unfold open_file, is_file, path_is_open. mrun.
  unfold stat_reg. case_bool_decide as Hf; [|done]. simpl.
  case_bool_decide as Ho; [by rewrite decide_True|]. rewrite decide_False by done.
  unfold syscall, sys_open. destruct Hf as [c ->]. unfold sys_open_fd.
  case_decide; [done|]. by rewrite set_os_id.
Qed.

Lemma keeps_open_file p : keeps disk_inv (open_file p).
Proof.
  intros d [Hm Hf Ho]. rewrite open_file_cases.
  destruct (stat_reg (os d) p) eqn:Hreg; simpl; [|done].
  apply bool_decide_eq_true in Hreg.
  case_decide as Hp; [done|]. case_decide as Hn; [|done]. simpl.
  apply eq_None_not_Some in Hp. pose proof (new_fd_fresh (os d)) as Hfresh.
  set (fd := new_fd (os d)) in *.
  assert (Hnone : fd2path_ (dm d) !! fd = None).
  { destruct (fd2path_ (dm d) !! fd) as [q|] eqn:E; [|done].
    destruct (Ho _ _ E) as [[x Hx] _]. congruence. }
  split; cbn.
  - intros q fd'. rewrite !lookup_insert. repeat case_decide; simplify_eq; try naive_solver.
  - intros fd' q off. rewrite !lookup_insert. case_decide; [|by apply Hf].
    intros [= <- <-]. eauto.
  - intros fd' q. rewrite !lookup_insert. case_decide; [|by apply Ho].
    intros [= <-]. split; [eauto|done].
Qed.

Lemma keeps_create_file p : keeps disk_inv (create_file p).
Proof.
  intros d Hd. unfold create_file, is_file. mrun.
  destruct (stat_reg (os d) p) eqn:Hreg; [done|].
  unfold syscall, sys_creat_excl. case_decide as Hex; simpl.
  { by rewrite set_os_id. }
  unfold sys_open_fd. case_decide; simpl; [|by rewrite set_os_id].
  unfold sys_close. cbn. rewrite lookup_insert_eq. cbn. rewrite delete_insert_eq.
  rewrite delete_id by apply new_fd_fresh.
  destruct Hd as [Hm Hf Ho]. split; cbn; [done|done|].
  intros fd q Hq. destruct (Ho _ _ Hq) as [??]. split; [done|].
  change (resolve _ q) with (resolve (os d) q).
  rewrite lookup_insert. case_decide; [by eexists|done].
Qed.

Lemma keeps_destroy_file p : keeps disk_inv (destroy_file p).
Proof.
  intros d Hd. unfold destroy_file, is_file, path_is_open. mrun.
  destruct (stat_reg (os d) p); simpl; [|done].
  case_bool_decide as Hp; [done|]. unfold syscall, sys_unlink.
  destruct (os_files (os d) !! resolve (os d) p) eqn:E; simpl; [|by rewrite set_os_id].
  destruct Hd as [Hm Hf Ho]. split; cbn; [done|done|].
  intros fd q Hq. destruct (Ho _ _ Hq) as [??]. split; [done|].
  change (resolve _ q) with (resolve (os d) q).
  rewrite lookup_delete_ne; [done|]. unfold resolve. intros [_ ->]%app_inj_tail.
  apply Hp. apply Hm in Hq. eauto.
Qed.

Lemma keeps_close_file fd : keeps disk_inv (close_file fd).
Proof.
  intros d Hd. unfold close_file. mrun.
  destruct (fd2path_ (dm d) !! fd) as [p|] eqn:Hp; [|done].
  unfold syscall, sys_close. destruct (os_fds (os d) !! fd) eqn:E; simpl; [|by rewrite set_os_id].
  destruct Hd as [Hm Hf Ho]. split; cbn.
  - intros q fd'. rewrite !lookup_delete_Some. rewrite <- Hm. split; intros [? Hq]; split; try done.
    + intros ->. apply Hm in Hq. congruence.
    + intros ->. apply Hm in Hp. congruence.
  - intros fd' q off. rewrite !lookup_delete_Some. intros [? Hq].
    destruct (Hf _ _ _ Hq) as (q'&?&->). exists q'. by rewrite lookup_delete_ne.
  - intros fd' q. rewrite lookup_delete_Some. intros [? Hq]. rewrite lookup_delete_ne by done.
    by apply Ho.
Qed.

#[export] Hint Resolve keeps_open_file keeps_create_file keeps_destroy_file keeps_close_file : rmdb.

Lemma keeps_SetLogFd fd : keeps disk_inv (SetLogFd fd).
Proof. apply keeps_modify. intros d [Hm Hf Ho]. by split. Qed.

Lemma keeps_set_fd2pageno fd n : keeps disk_inv (set_fd2pageno fd n).
Proof.
  unfold set_fd2pageno. keeps_tac. apply keeps_modify. intros d [Hm Hf Ho]. by split.
Qed.

Lemma keeps_allocate_page fd : keeps disk_inv (allocate_page fd).
Proof.
  unfold allocate_page, get_fd2pageno. keeps_tac.
  apply keeps_modify. intros d [Hm Hf Ho]. by split.
Qed.

#[export] Hint Resolve keeps_SetLogFd keeps_set_fd2pageno keeps_allocate_page : rmdb.

Lemma keeps_ensure_log_open : keeps disk_inv ensure_log_open.
Proof. unfold ensure_log_open, GetLogFd. keeps_tac. Qed.
#[export] Hint Resolve keeps_ensure_log_open : rmdb.

(** ** Histories of disk operations *)

Inductive DiskOp :=
  | OpWritePage (fd no : Z) (buf : list byte) (n : Z)
  | OpReadPage (fd no n : Z) (buf : list byte)
  | OpAllocatePage (fd : Z)
  | OpSetFd2pageno (fd n : Z)
  | OpCreateFile (p : string)
  | OpDestroyFile (p : string)
  | OpOpenFile (p : string)
  | OpCloseFile (fd : Z)
  | OpGetFileFd (p : string)
  | OpWriteLog (data : list byte) (n : Z)
  | OpReadLog (size offset : Z) (buf : list byte).

(** The state after an operation, whether it returned, threw or crashed. *)
Definition run_disk_op (op : DiskOp) (d : Disk) : Disk :=
  match op with
  | OpWritePage fd no buf n => (write_page fd no buf n d).2
  | OpReadPage fd no n buf => (read_page fd no n (buf, d)).2.2
  | OpAllocatePage fd => (allocate_page fd d).2
  | OpSetFd2pageno fd n => (set_fd2pageno fd n d).2
  | OpCreateFile p => (create_file p d).2
  | OpDestroyFile p => (destroy_file p d).2
  | OpOpenFile p => (open_file p d).2
  | OpCloseFile fd => (close_file fd d).2
  | OpGetFileFd p => (get_file_fd p d).2
  | OpWriteLog data n => (write_log data n d).2
  | OpReadLog size off buf => (read_log size off (buf, d)).2.2
  end.

Definition run_disk_ops (ops : list DiskOp) (d : Disk) : Disk :=
  foldl (λ d op, run_disk_op op d) d ops.

Lemma run_disk_op_inv op d : disk_inv d → disk_inv (run_disk_op op d).
Proof.
  intros Hd. destruct op; simpl.
  - revert d Hd. change (keeps disk_inv (write_page fd no buf n)). unfold write_page. keeps_tac.
  - enough (keeps (λ w, disk_inv w.2) (read_page fd no n)) as H by by apply (H (buf, d)).
    unfold read_page. keeps_tac.
  - by apply keeps_allocate_page.
  - by apply keeps_set_fd2pageno.
  - by apply keeps_create_file.
  - by apply keeps_destroy_file.
  - by apply keeps_open_file.
  - by apply keeps_close_file.
  - revert d Hd. change (keeps disk_inv (get_file_fd p)). unfold get_file_fd. keeps_tac.
  - revert d Hd. change (keeps disk_inv (write_log data n)). unfold write_log, GetLogFd. keeps_tac.
  - enough (keeps (λ w, disk_inv w.2) (read_log size offset)) as H by by apply (H (buf, d)).
    unfold read_log, get_file_size, GetLogFd. keeps_tac.
Qed.

Lemma disk_inv_init o : os_fds o = ∅ → disk_inv (mkDisk o DiskManager_init).
Proof.
  intros H. split; simpl.
  - intros p fd. rewrite !lookup_empty. naive_solver.
  - intros fd q off. rewrite H, lookup_empty. naive_solver.
  - intros fd p. rewrite lookup_empty. naive_solver.
Qed.

(** C29: From a fresh [DiskManager] on, after any sequence of its operations, also
    of ones that threw, the two file tables [path2fd_] and [fd2path_] are inverse
    to each other, every descriptor the process holds is recorded in them and every
    recorded descriptor is open on an existing file. *)
Theorem disk_tables_consistent (o : OS) (ops : list DiskOp) :
  os_fds o = ∅ → disk_inv (run_disk_ops ops (mkDisk o DiskManager_init)).
Proof.
  intros Ho. unfold run_disk_ops.
  assert (H : ∀ d, disk_inv d → disk_inv (foldl (λ d op, run_disk_op op d) d ops)).
  { induction ops as [|op ops IH]; intros d Hd; simpl; [done|].
    apply IH. by apply run_disk_op_inv. }
  by apply H, disk_inv_init.
Qed.

Definition os_example : OS := mkOS {[ ["t1"] := zeros 4096 ]} ∅ [] ∅ 1000000 1024.

Lemma disk_tables_consistent_witness :
  os_fds os_example = ∅ ∧
  disk_inv (run_disk_ops [OpOpenFile "t1"; OpOpenFile "t1"; OpCreateFile "t2"; OpOpenFile "t2";
    OpCloseFile 3; OpDestroyFile "t2"] (mkDisk os_example DiskManager_init)).
Proof. split; [reflexivity|]. apply disk_tables_consistent. reflexivity. Defined.

(** C28: Writing a full page succeeds when the file is open and has room; afterwards
    reading that page back fills the caller's buffer with exactly the written bytes,
    and every other page of every open file reads as before. *)
Theorem write_read_page_roundtrip d pid data buf :
  disk_inv d → page_writable d pid →
  Z.of_nat (length data) = PAGE_SIZE → Z.of_nat (length buf) = PAGE_SIZE →
  ∃ d' d'', write_page (pid_fd pid) (pid_no pid) data PAGE_SIZE d = (Ret tt, d') ∧
    read_page (pid_fd pid) (pid_no pid) PAGE_SIZE (buf, d') = (Ret tt, (data, d'')) ∧
    ∀ pid' x, pid' ≠ pid → disk_page d pid' = Some x → disk_page d'' pid' = Some x.
Proof.
  intros Hd Hw Hl Hb.
  destruct (write_page_spec d pid data Hw (disk_inv_distinct d Hd) Hl) as (d'&H1&_&H2&H3).
  destruct (read_page_spec d' pid data buf H2 Hb) as (d''&H4&_&H5).
  exists d', d''. split_and!; [done..|]. intros. rewrite H5. eauto.
Qed.

Definition disk_example : Disk :=
  run_disk_op (OpOpenFile "t1") (mkDisk os_example DiskManager_init).

Lemma disk_example_inv : disk_inv disk_example.
Proof. apply run_disk_op_inv, disk_inv_init. reflexivity. Qed.

Lemma write_read_page_roundtrip_witness :
  ∃ d' d'', write_page 3 2 (replicate 4096 x01) PAGE_SIZE disk_example = (Ret tt, d') ∧
    read_page 3 2 PAGE_SIZE (zeros 4096, d') = (Ret tt, (replicate 4096 x01, d'')) ∧
    ∀ pid' x, pid' ≠ mkPageId 3 2 → disk_page disk_example pid' = Some x → disk_page d'' pid' = Some x.
Proof.
  apply (write_read_page_roundtrip disk_example (mkPageId 3 2)).
  - apply disk_example_inv.
  - split; [vm_compute; by eexists|]. vm_compute. split; discriminate.
  - reflexivity.
  - reflexivity.
Defined.

(** Closing a file that was just opened restores the state. *)
Lemma close_just_opened d p :
  disk_inv d → path2fd_ (dm d) !! p = None →
  let fd := new_fd (os d) in
  close_file fd (mkDisk (set_fds (<[fd := (resolve (os d) p, 0)]> (os_fds (os d))) (os d)) (record_open p fd (dm d))) = (Ret tt, d).
Proof.
  intros [Hm Hf Ho] Hp fd. pose proof (new_fd_fresh (os d)) as Hfresh. fold fd in Hfresh.
  assert (Hnone : fd2path_ (dm d) !! fd = None).
  { destruct (fd2path_ (dm d) !! fd) as [q|] eqn:E; [|done]. destruct (Ho _ _ E) as [[x Hx] _]. congruence. }
  unfold close_file. mrun. cbn [dm record_open fd2path_]. rewrite lookup_insert_eq. unfold syscall, sys_close. cbn. rewrite lookup_insert_eq. cbn.
  unfold set_dm, set_os, set_fds, record_close, record_open. cbn.
  rewrite !delete_insert_eq, !delete_id by done. by destruct d as [[] []].
Qed.

(** Destroying: the branches of [destroy_file]. *)
Lemma destroy_file_cases p d :
  destroy_file p d =
    if negb (stat_reg (os d) p) then (Throw (FileNotFoundError p), d)
    else if decide (is_Some (path2fd_ (dm d) !! p)) then (Throw (FileNotClosedError p), d)
    else (Ret tt, set_os (set_files (delete (resolve (os d) p) (os_files (os d))) (os d)) d).
Proof.
  unfold destroy_file, is_file, path_is_open. mrun. unfold stat_reg. case_bool_decide as Hf; [|done]. simpl.
  case_bool_decide as Ho; [by rewrite decide_True|]. rewrite decide_False by done.
  unfold syscall, sys_unlink. by destruct Hf as [c ->].
Qed.

(** A file that can be opened, while it is open and when it is closed again. *)
Lemma open_file_opens d p :
  disk_inv d → stat_reg (os d) p = true → path2fd_ (dm d) !! p = None → new_fd (os d) < os_nofile (os d) →
  ∃ fd d', open_file p d = (Ret fd, d') ∧
    get_file_name fd d' = (Ret p, d') ∧ get_file_fd p d' = (Ret fd, d') ∧
    open_file p d' = (Throw (FileExistsError p), d') ∧
    destroy_file p d' = (Throw (FileNotClosedError p), d') ∧
    close_file fd d' = (Ret tt, d).
Proof.
  intros Hdi Hreg Hp Hn. exists (new_fd (os d)). eexists. split.
  { rewrite open_file_cases, Hreg. simpl. rewrite decide_False by (rewrite Hp; apply is_Some_None).
    by rewrite decide_True. }
  set (d' := mkDisk _ _).
  assert (Hreg' : stat_reg (os d') p = true) by exact Hreg.
  assert (Hp' : path2fd_ (dm d') !! p = Some (new_fd (os d))) by apply lookup_insert_eq.
  assert (Hq' : fd2path_ (dm d') !! new_fd (os d) = Some p) by apply lookup_insert_eq.
  split_and!.
  - unfold get_file_name. mrun. by rewrite Hq'.
  - unfold get_file_fd. mrun. by rewrite Hp'.
  - rewrite open_file_cases, Hreg'. cbn [negb]. rewrite decide_True; [done|]. eauto.
  - rewrite destroy_file_cases, Hreg'. cbn [negb]. rewrite decide_True; [done|]. eauto.
  - by apply close_just_opened.
Qed.

(** C37: Opening, closing and destroying a file, on every branch.  [open_file] throws and changes
    nothing when the file does not exist, is open already, or no descriptor is left; otherwise it
    returns a descriptor under which the file is found, and while it is open, opening it again
    and destroying it throw, and closing it gives the state before.  [close_file] throws
    and changes nothing for a descriptor that is not open; for an open one it releases the descriptor,
    removes both table entries and keeps every file.  [destroy_file] throws when the file does not exist
    or is open, and otherwise removes that file alone. *)
Theorem open_close_file d p :
  disk_inv d →
  (stat_reg (os d) p = false → open_file p d = (Throw (FileNotFoundError p), d) ∧ destroy_file p d = (Throw (FileNotFoundError p), d)) ∧
  (stat_reg (os d) p = true → is_Some (path2fd_ (dm d) !! p) →
     open_file p d = (Throw (FileExistsError p), d) ∧ destroy_file p d = (Throw (FileNotClosedError p), d)) ∧
  (stat_reg (os d) p = true → path2fd_ (dm d) !! p = None →
     destroy_file p d = (Ret tt, set_os (set_files (delete (resolve (os d) p) (os_files (os d))) (os d)) d) ∧
     (os_nofile (os d) <= new_fd (os d) → open_file p d = (Throw (UnixError EMFILE), d)) ∧
     (new_fd (os d) < os_nofile (os d) →
      ∃ fd d', open_file p d = (Ret fd, d') ∧
        get_file_name fd d' = (Ret p, d') ∧ get_file_fd p d' = (Ret fd, d') ∧
        open_file p d' = (Throw (FileExistsError p), d') ∧
        destroy_file p d' = (Throw (FileNotClosedError p), d') ∧
        close_file fd d' = (Ret tt, d))) ∧
  (∀ fd, fd2path_ (dm d) !! fd = None → close_file fd d = (Throw (FileNotOpenError fd), d)) ∧
  (∀ fd q, fd2path_ (dm d) !! fd = Some q →
     ∃ d', close_file fd d = (Ret tt, d') ∧ os_files (os d') = os_files (os d) ∧
       os_fds (os d') = delete fd (os_fds (os d)) ∧
       path2fd_ (dm d') = delete q (path2fd_ (dm d)) ∧ fd2path_ (dm d') = delete fd (fd2path_ (dm d))).
Proof.
  intros Hdi. split_and!.
  - intros Hreg. by rewrite open_file_cases, destroy_file_cases, Hreg.
  - intros Hreg Hp. rewrite open_file_cases, destroy_file_cases, Hreg. cbn [negb]. by rewrite !decide_True.
  - intros Hreg Hp. split_and!; [|intros Hn|intros Hn].
    + rewrite destroy_file_cases, Hreg. cbn [negb]. by rewrite decide_False by (rewrite Hp; apply is_Some_None).
    + rewrite open_file_cases, Hreg. cbn [negb]. rewrite decide_False by (rewrite Hp; apply is_Some_None). by rewrite decide_False by lia.
    + by apply open_file_opens.
  - intros fd Hfd. unfold close_file, gets, bind. by rewrite Hfd.
  - intros fd q Hfd. destruct (di_open _ Hdi _ _ Hfd) as [[x Hx] _]. eexists. split.
    { unfold close_file, gets, bind. rewrite Hfd. unfold syscall, sys_close. by rewrite Hx. }
    by split_and!.
Qed.

Lemma open_close_file_witness :
  open_file "t2" (mkDisk os_example DiskManager_init) = (Throw (FileNotFoundError "t2"), mkDisk os_example DiskManager_init) ∧
  (∃ fd d', open_file "t1" (mkDisk os_example DiskManager_init) = (Ret fd, d') ∧
    get_file_name fd d' = (Ret "t1", d') ∧ get_file_fd "t1" d' = (Ret fd, d') ∧
    open_file "t1" d' = (Throw (FileExistsError "t1"), d') ∧
    destroy_file "t1" d' = (Throw (FileNotClosedError "t1"), d') ∧
    close_file fd d' = (Ret tt, mkDisk os_example DiskManager_init)) ∧
  close_file 7 (mkDisk os_example DiskManager_init) = (Throw (FileNotOpenError 7), mkDisk os_example DiskManager_init).
Proof.
  assert (Hi : disk_inv (mkDisk os_example DiskManager_init)) by (apply disk_inv_init; reflexivity).
  split; [|split].
  - destruct (open_close_file _ "t2" Hi) as (H&_). apply H. reflexivity.
  - destruct (open_close_file _ "t1" Hi) as (_&_&H&_). destruct H as (_&_&H); [reflexivity|reflexivity|]. apply H. reflexivity.
  - destruct (open_close_file _ "t1" Hi) as (_&_&_&H&_). apply H. reflexivity.
Defined.

(** ** The log file *)

(** The log is open and holds [c]. *)
Definition log_holds (d : Disk) (c : list byte) : Prop :=
  log_fd_ (dm d) ≠ -1 ∧
  (∃ off, os_fds (os d) !! log_fd_ (dm d) = Some (resolve (os d) LOG_FILE_NAME, off)) ∧
  os_files (os d) !! resolve (os d) LOG_FILE_NAME = Some c.

Lemma file_write_end c bs : file_write c (Z.of_nat (length c)) bs = c ++ bs.
Proof.
  unfold file_write. rewrite Z.sub_diag. unfold zeros. simpl. rewrite app_nil_r.
  rewrite take_ge by lia. rewrite drop_ge, app_nil_r by lia. done.
Qed.

Lemma ensure_log_open_run d c : log_holds d c → ensure_log_open d = (Ret tt, d).
Proof.
  intros [H _]. unfold ensure_log_open, GetLogFd. mrun.
  by rewrite (proj2 (Z.eqb_neq _ _) H).
Qed.

Lemma write_log_run d c data :
  log_holds d c → Z.of_nat (length c) + Z.of_nat (length data) <= os_limit (os d) →
  ∃ d', write_log data (Z.of_nat (length data)) d = (Ret tt, d') ∧
    log_holds d' (c ++ data) ∧ os_limit (os d') = os_limit (os d).
Proof.
  intros Hl Hlim. pose proof Hl as (Hn&[off Hfd]&Hc).
  unfold write_log. rewrite (bind_Ret _ _ _ _ _ (ensure_log_open_run d c Hl)).
  unfold GetLogFd, bind, gets, syscall. unfold sys_lseek_end. rewrite Hfd. cbn.
  rewrite Hc. cbn.
  assert (Hr : mread data 0 (Z.of_nat (length data)) = Some data).
  { apply mread_Some. rewrite Nat2Z.id. split_and!; [lia..|]. by rewrite take_ge. }
  rewrite Hr. unfold access, ret. unfold sys_write. cbn. rewrite lookup_insert_eq, Hc.
  case_decide as Hd0.
  { subst data. eexists. split; [done|]. rewrite app_nil_r. split; [|done]. unfold log_holds. cbn. split; [done|].
    split; [eexists; by rewrite lookup_insert_eq|done]. }
  rewrite decide_False by (destruct data; simpl in *; [done|lia]).
  rewrite (take_ge data) by lia. rewrite Z.eqb_refl, insert_insert_eq. cbn.
  eexists. split; [done|]. split; [|done]. unfold log_holds. cbn.
  split; [done|]. split.
  - eexists. rewrite lookup_insert_eq. done.
  - change (resolve _ LOG_FILE_NAME) with (resolve (os d) LOG_FILE_NAME).
    by rewrite lookup_insert_eq, file_write_end.
Qed.

Lemma read_log_run d c a bs e buf :
  log_holds d c → c = a ++ bs ++ e → bs ≠ [] → Z.of_nat (length c) <= INT_MAX →
  (length bs <= length buf)%nat →
  ∃ d', read_log (Z.of_nat (length bs)) (Z.of_nat (length a)) (buf, d) =
          (Ret (Z.of_nat (length bs)), (bs ++ drop (length bs) buf, d')).
Proof.
  intros Hl -> Hne Hmax Hbuf. pose proof Hl as (Hn&[off Hfd]&Hc).
  assert (0 < length bs)%nat by (destruct bs; [done|simpl; lia]).
  unfold read_log, on_disk, zoom, bind. cbn [snd fst].
  rewrite (ensure_log_open_run d _ Hl). unfold get_file_size, GetLogFd, gets, stat_size. cbn.
  rewrite Hc. cbn. rewrite !length_app in *.
  rewrite wrap32_id by (unfold is_int32, INT_MIN, INT_MAX in *; lia).
  rewrite Z.min_l by lia.
  rewrite Z.gtb_ltb, (proj2 (Z.ltb_ge _ _)) by lia.
  replace (Z.of_nat (length bs) =? 0) with false by lia.
  unfold syscall. cbn [fst snd]. unfold sys_lseek. rewrite Hfd, decide_False by lia. cbn.
  unfold sys_read. cbn. rewrite lookup_insert_eq, Hc, !Nat2Z.id.
  rewrite drop_app_length, take_app_length. unfold store_bytes. cbn.
  unfold mwrite. rewrite decide_True by lia. cbn. rewrite Z.eqb_refl. eexists. done.
Qed.

(** [write_log] appends: after it the log file is the old contents followed by
    the written bytes, and [read_log] at the old end of the file returns exactly the
    number of bytes written and copies exactly them into the buffer. *)
Theorem write_log_read_log d c data buf :
  log_holds d c → data ≠ [] →
  Z.of_nat (length c + length data) <= os_limit (os d) →
  Z.of_nat (length c + length data) <= INT_MAX → (length data <= length buf)%nat →
  ∃ d' d'', write_log data (Z.of_nat (length data)) d = (Ret tt, d') ∧
    log_holds d' (c ++ data) ∧
    read_log (Z.of_nat (length data)) (Z.of_nat (length c)) (buf, d') =
      (Ret (Z.of_nat (length data)), (data ++ drop (length data) buf, d'')).
Proof.
  intros Hl Hne Hlim Hmax Hbuf.
  destruct (write_log_run d c data Hl ltac:(lia)) as (d'&H1&H2&_).
  destruct (read_log_run d' (c ++ data) c data [] buf H2) as (d''&H3);
    [by rewrite app_nil_r|done|rewrite length_app; lia|done|]. eauto.
Qed.

Definition log_example : Disk :=
  mkDisk (mkOS {[ ["db.log"] := [x01; x02] ]} ∅ [] {[ 3 := (["db.log"], 0) ]} 1000 1024)
         (mkDM {[ "db.log" := 3 ]} {[ 3 := "db.log" ]} 3 ∅).

Lemma write_log_read_log_witness :
  ∃ d' d'', write_log [x0a; x0b] 2 log_example = (Ret tt, d') ∧
    log_holds d' ([x01; x02] ++ [x0a; x0b]) ∧
    read_log 2 2 ([x00; x00; x00], d') = (Ret 2, ([x0a; x0b] ++ drop 2 [x00; x00; x00], d'')).
Proof.
  apply (write_log_read_log log_example [x01; x02] [x0a; x0b] [x00; x00; x00]).
  - split; [discriminate|]. split; [by exists 0|reflexivity].
  - discriminate.
  - vm_compute. discriminate.
  - vm_compute. discriminate.
  - simpl. lia.
Defined.
