(* ===== verification/Replacer.v ===== *)
(** * Replacer and LRUReplacer

    [replacer/replacer.h] is an abstract class: here the type class [Replacer] with
    its operations, and [ReplacerSpec] with what [BufferPoolManager] relies on.
    [replacer/lru_replacer.{h,cpp}] implements it with a linked list and a hash
    table of iterators; a list node is modelled with an identity, so that an
    iterator is the identity of a node and [erase(iterator)] removes that node. *)

From S2P Require Import Prelude Errors Config.
From stdpp Require Import options.

(** ** The interface *)

Class Replacer (R : Type) := {
  victim : R → option frame_id_t * R;
  pin : frame_id_t → R → R;
  unpin : frame_id_t → R → R;
  Size : R → Z;
}.

(** What a replacer promises: it holds a set of evictable frames of bounded size. *)
Class ReplacerSpec (R : Type) `{Replacer R} := {
  rep_inv : R → Prop;
  evictable : R → gset frame_id_t;
  capacity : R → Z;
  victim_none r : rep_inv r → evictable r = ∅ → victim r = (None, r);
  victim_some r : rep_inv r → evictable r ≠ ∅ →
    ∃ f r', victim r = (Some f, r') ∧ f ∈ evictable r ∧
      evictable r' = evictable r ∖ {[f]} ∧ rep_inv r' ∧ capacity r' = capacity r;
  pin_spec f r : rep_inv r →
    rep_inv (pin f r) ∧ evictable (pin f r) = evictable r ∖ {[f]} ∧
    capacity (pin f r) = capacity r;
  unpin_spec f r : rep_inv r →
    f ∈ evictable r ∨ Z.of_nat (size (evictable r)) < capacity r →
    rep_inv (unpin f r) ∧ evictable (unpin f r) = {[f]} ∪ evictable r ∧
    capacity (unpin f r) = capacity r;
  Size_spec r : rep_inv r → Size r = Z.of_nat (size (evictable r));
}.

(** ** The LRU implementation *)

Record LRUReplacer := mkLRU {
  LRUlist_ : list (nat * frame_id_t);     (* nodes; the front is the most recent *)
  LRUhash_ : gmap frame_id_t nat;         (* frame -> iterator (node identity) *)
  lru_next : nat;                         (* the next node identity to allocate *)
  max_size_ : Z;
}.

Definition LRUReplacer_init (num_pages : Z) : LRUReplacer := mkLRU [] ∅ 0 num_pages.

(** [LRUlist_.erase(it)]. *)
Definition list_erase (it : nat) (l : list (nat * frame_id_t)) : list (nat * frame_id_t) :=
  filter (λ x, x.1 ≠ it) l.

Definition lru_victim (r : LRUReplacer) : option frame_id_t * LRUReplacer :=
  match last (LRUlist_ r) with
  | None => (None, r)
  | Some (_, victim_frame) =>
      (Some victim_frame,
       mkLRU (take (length (LRUlist_ r) - 1) (LRUlist_ r))
             (delete victim_frame (LRUhash_ r)) (lru_next r) (max_size_ r))
  end.

Definition lru_pin (frame_id : frame_id_t) (r : LRUReplacer) : LRUReplacer :=
  match LRUhash_ r !! frame_id with
  | Some it => mkLRU (list_erase it (LRUlist_ r)) (delete frame_id (LRUhash_ r))
                     (lru_next r) (max_size_ r)
  | None => r
  end.

Definition lru_unpin (frame_id : frame_id_t) (r : LRUReplacer) : LRUReplacer :=
  match LRUhash_ r !! frame_id with
  | Some _ => r
  | None =>
      if Z.of_nat (length (LRUlist_ r)) >=? max_size_ r then r
      else mkLRU ((lru_next r, frame_id) :: LRUlist_ r)
                 (<[frame_id := lru_next r]> (LRUhash_ r)) (S (lru_next r)) (max_size_ r)
  end.

Definition lru_Size (r : LRUReplacer) : Z := Z.of_nat (length (LRUlist_ r)).

#[global] Instance LRU_Replacer : Replacer LRUReplacer :=
  {| victim := lru_victim; pin := lru_pin; unpin := lru_unpin; Size := lru_Size |}.

(** ** Invariant *)

Record lru_inv (r : LRUReplacer) : Prop := {
  li_nodup : NoDup (LRUlist_ r).*1;
  li_fresh : ∀ x, x ∈ LRUlist_ r → (x.1 < lru_next r)%nat;
  li_hash : ∀ f it, LRUhash_ r !! f = Some it ↔ (it, f) ∈ LRUlist_ r;
  li_size : Z.of_nat (length (LRUlist_ r)) <= Z.max 0 (max_size_ r);
}.

Lemma lru_inv_init n : lru_inv (LRUReplacer_init n).
Proof.
  split; simpl; [apply NoDup_nil_2|set_solver| |lia].
  intros f it. rewrite lookup_empty. set_solver.
Qed.

Lemma lru_frames_nodup r : lru_inv r → NoDup (LRUlist_ r).*2.
Proof.
  intros [Hn _ Hh _]. apply NoDup_fmap_2_strong.
  - intros [i f] [j g] H1 H2 E. simpl in E. subst.
    apply Hh in H1, H2. congruence.
  - by apply NoDup_fmap_1 in Hn.
Qed.

Lemma list_erase_length it l : (length (list_erase it l) <= length l)%nat.
Proof. apply length_filter. Qed.

Lemma lru_pin_inv f r : lru_inv r → lru_inv (lru_pin f r).
Proof.
  intros Hr. pose proof Hr as [Hn Hf Hh Hs]. unfold lru_pin.
  destruct (LRUhash_ r !! f) as [it|] eqn:E; [|done]. split; simpl.
  - by apply NoDup_fst_filter.
  - intros x [_ Hx]%list_elem_of_filter. auto.
  - intros g jt. unfold list_erase. rewrite lookup_delete_Some, list_elem_of_filter, Hh. simpl.
    apply Hh in E. split; intros [Hne Hin]; split; try done.
    + intros ->. apply Hne.
      by eapply NoDup_fst_inj.
    + intros ->. apply Hh in Hin, E. congruence.
  - pose proof (list_erase_length it (LRUlist_ r)). lia.
Qed.

Lemma lru_unpin_inv f r : lru_inv r → lru_inv (lru_unpin f r).
Proof.
  intros Hr. pose proof Hr as [Hn Hf Hh Hs]. unfold lru_unpin.
  destruct (LRUhash_ r !! f) as [it|] eqn:E; [done|].
  destruct (Z.geb_spec (Z.of_nat (length (LRUlist_ r))) (max_size_ r)) as [|Hlt]; [done|].
  split; simpl.
  - constructor; [|done]. intros (x&Hx&Hin)%list_elem_of_fmap.
    apply Hf in Hin. lia.
  - intros x [->|Hx]%elem_of_cons; simpl; [lia|]. apply Hf in Hx. lia.
  - intros g jt. rewrite lookup_insert, elem_of_cons, <- Hh.
    case_decide as Hd; [subst g|].
    + split; [intros [= <-]; by left|]. intros [[= ->]|H]; congruence.
    + split; [by right|]. intros [[= ? ?]|?]; congruence.
  - lia.
Qed.

Lemma lru_victim_inv r : lru_inv r → lru_inv (lru_victim r).2.
Proof.
  intros Hr. pose proof Hr as [Hn Hf Hh Hs]. unfold lru_victim.
  destruct (last (LRUlist_ r)) as [[it f]|] eqn:E; [|done].
  apply last_take_app in E. simpl.
  set (l' := take (length (LRUlist_ r) - 1) (LRUlist_ r)) in *.
  rewrite E, fmap_app in Hn. simpl in Hn. apply NoDup_app in Hn as (Hn&Hdis&_).
  split; simpl.
  - done.
  - intros x Hx. apply Hf. rewrite E. set_solver.
  - intros g jt. rewrite lookup_delete_Some, Hh, E, elem_of_app, list_elem_of_singleton.
    assert (Hit : ∀ g', (it, g') ∉ l').
    { intros g' H. apply (Hdis it); [|set_solver].
      apply list_elem_of_fmap. by exists (it, g'). }
    assert (Hff : ∀ jt', (jt', f) ∉ l').
    { intros jt' H. assert (LRUhash_ r !! f = Some jt') as H1 by (apply Hh; rewrite E; set_solver).
      assert (LRUhash_ r !! f = Some it) as H2 by (apply Hh; rewrite E; set_solver).
      simplify_eq. by eapply Hit. }
    naive_solver.
  - unfold l'. rewrite length_take. lia.
Qed.
#[export] Hint Resolve lru_pin_inv lru_unpin_inv lru_victim_inv lru_inv_init : rmdb.

(** ** Abstraction: the recency list

    The abstract state is the list of evictable frames, most recently unpinned
    first; the specification of each operation is a function on it. *)

Definition lru_abs (r : LRUReplacer) : list frame_id_t := (LRUlist_ r).*2.

Definition spec_victim (l : list frame_id_t) : option frame_id_t * list frame_id_t :=
  (last l, take (length l - 1) l).
Definition spec_pin (f : frame_id_t) (l : list frame_id_t) : list frame_id_t :=
  filter (λ g, g ≠ f) l.
Definition spec_unpin (max : Z) (f : frame_id_t) (l : list frame_id_t) : list frame_id_t :=
  if decide (f ∈ l) then l
  else if decide (max <= Z.of_nat (length l)) then l else f :: l.

Lemma lru_hash_dom r f : lru_inv r → is_Some (LRUhash_ r !! f) ↔ f ∈ lru_abs r.
Proof.
  intros [_ _ Hh _]. unfold lru_abs. rewrite list_elem_of_fmap. split.
  - intros [it H%Hh]. by exists (it, f).
  - intros ([it g]&->&H%Hh). eauto.
Qed.

Lemma lru_victim_abs r :
  ((lru_victim r).1, lru_abs (lru_victim r).2) = spec_victim (lru_abs r).
Proof.
  unfold lru_victim, spec_victim, lru_abs. rewrite fmap_last, length_fmap.
  destruct (last (LRUlist_ r)) as [[it f]|] eqn:E; simpl.
  - by rewrite fmap_take.
  - apply last_None in E. by rewrite E.
Qed.

Lemma lru_pin_abs f r : lru_inv r → lru_abs (lru_pin f r) = spec_pin f (lru_abs r).
Proof.
  intros Hr. pose proof Hr as [Hn _ Hh _]. unfold lru_pin, spec_pin, lru_abs.
  destruct (LRUhash_ r !! f) as [it|] eqn:E; simpl.
  - apply fmap_filter_agree. intros [jt g] Hin. simpl. apply Hh in E.
    split; intros Hne ->; apply Hne; [|by eapply NoDup_fst_inj].
    apply Hh in E, Hin. congruence.
  - symmetry. apply filter_all. intros g Hg ->.
    apply (lru_hash_dom r f Hr) in Hg as [? ?]. congruence.
Qed.

Lemma lru_unpin_abs f r :
  lru_inv r → lru_abs (lru_unpin f r) = spec_unpin (max_size_ r) f (lru_abs r).
Proof.
  intros Hr. unfold lru_unpin, spec_unpin. pose proof (lru_hash_dom r f Hr) as Hd.
  destruct (LRUhash_ r !! f) as [it|] eqn:E.
  - rewrite decide_True; [done|]. apply Hd. eauto.
  - rewrite decide_False by (intros [? ?]%Hd; congruence).
    unfold lru_abs. rewrite length_fmap.
    destruct (Z.geb_spec (Z.of_nat (length (LRUlist_ r))) (max_size_ r)).
    + by rewrite decide_True by lia.
    + by rewrite decide_False by lia.
Qed.

Lemma lru_max r f :
  max_size_ (lru_victim r).2 = max_size_ r ∧ max_size_ (lru_pin f r) = max_size_ r ∧
  max_size_ (lru_unpin f r) = max_size_ r.
Proof.
  unfold lru_victim, lru_pin, lru_unpin.
  split_and!; repeat case_match; done.
Qed.

(** ** Histories *)

Inductive ReplacerOp := RVictim | RPin (f : frame_id_t) | RUnpin (f : frame_id_t) | RSize.
Inductive ReplacerOut := OVictim (o : option frame_id_t) | OUnit | OSize (n : Z).

Definition lru_step (r : LRUReplacer) (op : ReplacerOp) : ReplacerOut * LRUReplacer :=
  match op with
  | RVictim => let '(o, r') := lru_victim r in (OVictim o, r')
  | RPin f => (OUnit, lru_pin f r)
  | RUnpin f => (OUnit, lru_unpin f r)
  | RSize => (OSize (lru_Size r), r)
  end.

Definition spec_step (max : Z) (l : list frame_id_t) (op : ReplacerOp)
    : ReplacerOut * list frame_id_t :=
  match op with
  | RVictim => let '(o, l') := spec_victim l in (OVictim o, l')
  | RPin f => (OUnit, spec_pin f l)
  | RUnpin f => (OUnit, spec_unpin max f l)
  | RSize => (OSize (Z.of_nat (length l)), l)
  end.

Fixpoint run_trace {S O} (step : S → ReplacerOp → O * S) (s : S) (ops : list ReplacerOp)
    : list O * S :=
  match ops with
  | [] => ([], s)
  | op :: ops' =>
      let '(o, s') := step s op in
      let '(os, s'') := run_trace step s' ops' in (o :: os, s'')
  end.

Lemma lru_step_refines r op :
  lru_inv r →
  (lru_step r op).1 = (spec_step (max_size_ r) (lru_abs r) op).1 ∧
  lru_abs (lru_step r op).2 = (spec_step (max_size_ r) (lru_abs r) op).2 ∧
  lru_inv (lru_step r op).2 ∧ max_size_ (lru_step r op).2 = max_size_ r.
Proof.
  intros Hr. destruct op as [|f|f|]; simpl.
  - pose proof (lru_victim_abs r) as Ha. pose proof (lru_victim_inv r Hr) as Hi.
    pose proof (proj1 (lru_max r 0)) as Hm.
    destruct (lru_victim r) as [o r']. simpl in *. unfold spec_victim in *. by simplify_eq.
  - split_and!; [done|by apply lru_pin_abs|auto with rmdb|apply lru_max].
  - split_and!; [done|by apply lru_unpin_abs|auto with rmdb|apply lru_max].
  - unfold lru_Size, lru_abs. by rewrite length_fmap.
Qed.

(** C22: For every sequence of [victim], [pin], [unpin] and [Size] calls on a new
    [LRUReplacer], the answers are those of the recency-list specification: [victim]
    removes and returns the frame that was unpinned longest ago, [pin] removes a
    frame wherever it is, [unpin] puts a frame that is not there at the front unless
    the replacer is full, [Size] is the number of frames. *)
Theorem lru_refines_recency_list num_pages ops :
  (run_trace lru_step (LRUReplacer_init num_pages) ops).1 =
  (run_trace (spec_step num_pages) [] ops).1.
Proof.
  assert (H : ∀ r, lru_inv r → max_size_ r = num_pages →
    (run_trace lru_step r ops).1 = (run_trace (spec_step num_pages) (lru_abs r) ops).1).
  { induction ops as [|op ops IH]; intros r Hr Hm; [done|]. simpl.
    pose proof (lru_step_refines r op Hr) as (H1&H2&H3&H4). rewrite Hm in *.
    destruct (lru_step r op) as [o r'], (spec_step num_pages (lru_abs r) op) as [o' l'].
    simpl in *. subst. specialize (IH r' H3 ltac:(congruence)).
    destruct (run_trace lru_step r' ops), (run_trace (spec_step _) (lru_abs r') ops).
    simpl in *. congruence. }
  by apply (H (LRUReplacer_init num_pages)); auto with rmdb.
Qed.

(** Three frames unpinned in the order 1, 2, 3; pinning 1 and unpinning it again
    makes 2 the next victim. *)
Example lru_order :
  (run_trace lru_step (LRUReplacer_init 4)
    [RUnpin 1; RUnpin 2; RUnpin 3; RPin 1; RUnpin 1; RSize; RVictim; RVictim; RVictim; RVictim]).1
  = [OUnit; OUnit; OUnit; OUnit; OUnit; OSize 3; OVictim (Some 2); OVictim (Some 3);
     OVictim (Some 1); OVictim None].
Proof. reflexivity. Qed.

(** ** The LRU replacer keeps the promises of the interface *)

Definition lru_set (r : LRUReplacer) : gset frame_id_t := list_to_set (lru_abs r).

Lemma lru_victim_evicts r :
  lru_inv r → lru_set r ≠ ∅ →
  ∃ f r', lru_victim r = (Some f, r') ∧ f ∈ lru_set r ∧ lru_set r' = lru_set r ∖ {[f]} ∧
    lru_inv r' ∧ max_size_ r' = max_size_ r.
Proof.
  intros Hr Hne. pose proof (lru_victim_abs r) as Ha. pose proof (lru_victim_inv r Hr) as Hi.
  pose proof (proj1 (lru_max r 0)) as Hm. pose proof (lru_frames_nodup r Hr) as Hnd.
  destruct (lru_victim r) as [o r']. simpl in *. unfold spec_victim in Ha.
  injection Ha as -> Habs. destruct (last (lru_abs r)) as [f|] eqn:El.
  2:{ apply last_None in El. unfold lru_set in Hne. by rewrite El in Hne. }
  exists f, r'. apply last_Some in El as [l' El]. fold (lru_abs r) in Hnd.
  assert (Hl' : lru_abs r' = l').
  { rewrite Habs, El, length_app. simpl. by rewrite take_app_length' by lia. }
  unfold lru_set. rewrite Hl', El. rewrite El, NoDup_app in Hnd. destruct Hnd as (_&Hd&_).
  split_and!; [done|set_solver| |done|done]. set_solver.
Qed.

#[global] Program Instance LRU_ReplacerSpec : ReplacerSpec LRUReplacer :=
  {| rep_inv := lru_inv; evictable := lru_set; capacity := max_size_ |}.
Next Obligation.
  intros r Hr Hs. simpl. unfold lru_victim.
  destruct (last (LRUlist_ r)) as [[it f]|] eqn:E; [|done].
  exfalso. apply last_Some in E as [l' El]. unfold lru_set, lru_abs in Hs.
  rewrite El in Hs. set_solver.
Qed.
Next Obligation. intros r. apply lru_victim_evicts. Qed.
Next Obligation.
  intros f r Hr. split_and!; [by apply lru_pin_inv| |apply lru_max].
  unfold lru_set. simpl. rewrite lru_pin_abs by done. unfold spec_pin.
  apply set_eq. intros g. rewrite elem_of_list_to_set, list_elem_of_filter. set_solver.
Qed.
Next Obligation.
  intros f r Hr Hc. split_and!; [by apply lru_unpin_inv| |apply lru_max].
  unfold lru_set in *. simpl. rewrite lru_unpin_abs by done. unfold spec_unpin.
  case_decide as Hin; [set_solver|]. rewrite decide_False; [set_solver|].
  destruct Hc as [Hc|Hc]; [set_solver|].
  rewrite size_list_to_set in Hc by by apply lru_frames_nodup. lia.
Qed.
Next Obligation.
  intros r Hr. unfold lru_set. rewrite size_list_to_set by by apply lru_frames_nodup.
  simpl. unfold lru_Size, lru_abs. by rewrite length_fmap.
Qed.

(** ** Every evictable frame is evicted in time *)

Fixpoint victim_calls (ops : list ReplacerOp) : nat :=
  match ops with [] => 0 | RVictim :: ops' => S (victim_calls ops') | _ :: ops' => victim_calls ops' end.

(** One call: the frame [f] is returned, or it stays, with no more frames before it. *)
Lemma spec_step_older max l1 f l2 op :
  op ≠ RPin f →
  (op = RVictim ∧ l2 = [] ∧ (spec_step max (l1 ++ f :: l2) op).1 = OVictim (Some f)) ∨
  ∃ l1' l2', (spec_step max (l1 ++ f :: l2) op).2 = l1' ++ f :: l2' ∧
    (length l2' + victim_calls [op] <= length l2)%nat.
Proof.
  intros Hop. destruct op as [|g|g|]; simpl.
  - destruct l2 as [|x l2 _] using rev_ind; [left; by rewrite last_snoc|right].
    exists l1, l2. rewrite app_comm_cons, app_assoc, length_app. simpl.
    rewrite take_app_length' by (simpl; lia). rewrite length_app. simpl. split; [done|lia].
  - right. exists (spec_pin g l1), (spec_pin g l2). unfold spec_pin. rewrite filter_app, filter_cons_True by congruence.
    split; [done|]. pose proof (length_filter (λ h, h ≠ g) l2). lia.
  - right. unfold spec_unpin. case_decide; [exists l1, l2; split; [done|lia]|].
    case_decide; [exists l1, l2; split; [done|lia]|]. exists (g :: l1), l2. split; [done|lia].
  - right. exists l1, l2. split; [done|lia].
Qed.

(** C21: No evictable frame waits for ever.  When the frame [f] has [length l2] frames before
    it in the order of eviction, then in any history of calls that does not pin [f], whatever
    other frames are pinned and unpinned meanwhile, [f] is returned by one of the first
    [length l2 + 1] calls of [victim]. *)
Theorem lru_evicts_in_time r l1 f l2 ops :
  lru_inv r → lru_abs r = l1 ++ f :: l2 → RPin f ∉ ops → (length l2 < victim_calls ops)%nat →
  OVictim (Some f) ∈ (run_trace lru_step r ops).1.
Proof.
  intros Hr Hl Hpin Hv. revert r l1 l2 Hr Hl Hv. induction ops as [|op ops IH]; intros r l1 l2 Hr Hl Hv; [simpl in Hv; lia|].
  apply not_elem_of_cons in Hpin as [Hop Hpin]. pose proof (lru_step_refines r op Hr) as (H1&H2&H3&_). rewrite Hl in *.
  simpl. destruct (lru_step r op) as [o r'] eqn:E. simpl in H1, H2, H3.
  destruct (run_trace lru_step r' ops) as [os r''] eqn:Et. simpl.
  destruct (spec_step_older (max_size_ r) l1 f l2 op) as [(_&_&Ho)|(l1'&l2'&Hs&Hlen)]; [congruence| |].
  - rewrite H1, Ho. left.
  - right. specialize (IH Hpin r' l1' l2' H3). rewrite Et in IH. apply IH; [by rewrite H2|].
    destruct op; simpl in *; lia.
Qed.

Lemma lru_evicts_in_time_witness :
  OVictim (Some 1) ∈ (run_trace lru_step (lru_unpin 2 (lru_unpin 1 (lru_unpin 3 (LRUReplacer_init 4))))
    [RVictim; RUnpin 3; RPin 2; RVictim]).1.
Proof.
  apply (lru_evicts_in_time _ [2] 1 [3]).
  - repeat apply lru_unpin_inv. apply lru_inv_init.
  - reflexivity.
  - intros H. repeat (apply elem_of_cons in H as [H|H]; [discriminate H|]). by apply not_elem_of_nil in H.
  - simpl. lia.
Defined.
