(* ===== verification/LruTest.v ===== *)
(** * The tests of the LRU replacer

    [test/storage/lru_replacer_test.cpp], run on the model: an [EXPECT_EQ] that fails is a failed
    assertion.  The shuffled values are a parameter, and so is the order in which the threads of
    the concurrency test are served (the latch of the replacer makes every call atomic). *)

From stdpp Require Import sorting.
From S2P Require Import Prelude Errors Config Replacer.
From stdpp Require Import options.

(** ** The tests *)

(** The replacer, and the variable [victim] writes to. *)
Record LruTest := mkLruTest { lt_lru : LRUReplacer; lt_value : Z }.

Definition test_unpin (f : Z) : M LruTest unit := modify (λ s, mkLruTest (lru_unpin f (lt_lru s)) (lt_value s)).
Definition test_pin (f : Z) : M LruTest unit := modify (λ s, mkLruTest (lru_pin f (lt_lru s)) (lt_value s)).
Definition test_Size : M LruTest Z := gets (λ s, lru_Size (lt_lru s)).
Definition test_victim : M LruTest bool := λ s,
  match lru_victim (lt_lru s) with
  | (Some f, r) => (Ret true, mkLruTest r f)
  | (None, r) => (Ret false, mkLruTest r (lt_value s))
  end.

Definition expect_size (k : Z) : M LruTest unit := let! n := test_Size in assert_ (k =? n).
Definition expect_victim (f : Z) : M LruTest unit :=
  let! b := test_victim in assert_ b ;; let! v := gets lt_value in assert_ (f =? v).

(** [SimpleTest]; it does not look at the results of [victim]. *)
Definition simple_victim (f : Z) : M LruTest unit := test_victim ;; let! v := gets lt_value in assert_ (f =? v).

Definition lru_simple_test : M LruTest unit :=
  for_each test_unpin [1; 2; 3; 4; 5; 6; 1] ;; expect_size 6 ;;
  for_each simple_victim [1; 2; 3] ;;
  test_pin 3 ;; test_pin 4 ;; expect_size 2 ;;
  test_unpin 4 ;;
  for_each simple_victim [5; 6; 4].

(** [MixTest] on the shuffled values; [other] are the values that are not moved to the end before. *)
Definition other (v0 : Z) (value : list Z) : list Z := filter (λ v, v ≠ v0 ∧ v ≠ 777) value.

Definition lru_mix_test (value : list Z) : M LruTest unit :=
  let half := (length value / 2)%nat in
  let! v0 := access (head value) in
  for_each test_unpin value ;;
  expect_size (Z.of_nat (length value)) ;;
  test_pin 777 ;; test_unpin 777 ;;
  expect_victim v0 ;; test_unpin v0 ;;
  for_each (λ v, if decide (v ≠ v0 ∧ v ≠ 777) then test_pin v ;; test_unpin v else ret tt) (take half value) ;;
  let lru_array := other v0 (drop half value) ++ [777; v0] ++ other v0 (take half value) in
  expect_size (Z.of_nat (length value)) ;;
  for_each expect_victim lru_array ;;
  expect_size (Z.of_nat (length value) - Z.of_nat (length lru_array)).

(** Some order in which the steps of threads can be taken. *)
Inductive interleaving {A} : list (list A) → list A → Prop :=
  | inter_done ls : Forall (λ l, l = []) ls → interleaving ls []
  | inter_step ls1 x l ls2 order : interleaving (ls1 ++ l :: ls2) order → interleaving (ls1 ++ (x :: l) :: ls2) (x :: order).

(** A run of [ConcurrencyTest]: the threads unpin their shares of the values in the given order. *)
Definition lru_concurrency_run (value order : list Z) : M LruTest unit :=
  for_each test_unpin order ;;
  let! out_values := for_map (λ _, let! b := test_victim in assert_ b ;; gets lt_value) value in
  assert_ (bool_decide (merge_sort (≤) value = merge_sort (≤) out_values)) ;;
  let! b := test_victim in assert_ (negb b).

(** The share of each of the five threads. *)
Definition shares (value : list Z) : list (list Z) :=
  let share := (length value / 5)%nat in (λ tid, take share (drop (tid * share) value)) <$> seq 0 5.

(** ** The queue of a replacer *)

(** The frames of the replacer, the next victim first. *)
Definition at_queue (q : list Z) (max : Z) (s : LruTest) : Prop :=
  lru_inv (lt_lru s) ∧ lru_abs (lt_lru s) = reverse q ∧ max_size_ (lt_lru s) = max.

Section queue.
Context (max : Z).

Lemma queue_unpin q f s : at_queue q max s → f ∉ q → Z.of_nat (length q) < max →
  ∃ s', test_unpin f s = (Ret tt, s') ∧ at_queue (q ++ [f]) max s'.
Proof.
  intros (Hi&Ha&Hm) Hf Hl. eexists. split; [done|]. split_and!; [by apply lru_unpin_inv| |by rewrite <- Hm; apply lru_max].
  cbn [lt_lru]. rewrite lru_unpin_abs, Ha, Hm by done. unfold spec_unpin. rewrite decide_False by by rewrite elem_of_reverse.
  rewrite length_reverse, decide_False by lia. by rewrite reverse_snoc.
Qed.

Lemma queue_pin q f s : at_queue q max s → ∃ s', test_pin f s = (Ret tt, s') ∧ at_queue (filter (λ g, g ≠ f) q) max s'.
Proof.
  intros (Hi&Ha&Hm). eexists. split; [done|]. split_and!; [by apply lru_pin_inv| |by rewrite <- Hm; apply lru_max].
  cbn [lt_lru]. rewrite lru_pin_abs, Ha by done. unfold spec_pin. by rewrite filter_reverse.
Qed.

Lemma queue_victim q f s : at_queue (f :: q) max s → ∃ s', expect_victim f s = (Ret tt, s') ∧ at_queue q max s' ∧ lt_value s' = f ∧ test_victim s = (Ret true, s').
Proof.
  intros (Hi&Ha&Hm). pose proof (lru_victim_abs (lt_lru s)) as Hv. pose proof (lru_victim_inv _ Hi) as Hi'.
  pose proof (proj1 (lru_max (lt_lru s) 0)) as Hmax. unfold expect_victim, test_victim, bind at 1.
  destruct (lru_victim (lt_lru s)) as [o r]. rewrite Ha, reverse_cons in Hv. unfold spec_victim in Hv.
  rewrite last_snoc, length_app, take_app_length' in Hv by (simpl; lia). simplify_eq/=. 
  exists (mkLruTest r f). split; [|by split_and!].
  unfold bind, gets, assert_, ret. cbn. by rewrite Z.eqb_refl.
Qed.

Lemma queue_none s : at_queue [] max s → ∃ s', test_victim s = (Ret false, s').
Proof.
  intros (Hi&Ha&Hm). pose proof (lru_victim_abs (lt_lru s)) as Hv. unfold test_victim. destruct (lru_victim (lt_lru s)) as [o r].
  rewrite Ha in Hv. simpl in Hv. unfold spec_victim in Hv. simplify_eq/=. by eexists.
Qed.

Lemma queue_size q s : at_queue q max s → expect_size (Z.of_nat (length q)) s = (Ret tt, s).
Proof.
  intros (_&Ha&_). unfold expect_size, bind, test_Size, gets, lru_Size. apply (f_equal length) in Ha.
  unfold lru_abs in Ha. rewrite length_fmap, length_reverse in Ha. by rewrite Ha, Z.eqb_refl.
Qed.

(** The loops of the tests. *)
Lemma queue_unpin_all l q s : at_queue q max s → NoDup (q ++ l) → Z.of_nat (length q + length l) <= max →
  ∃ s', for_each test_unpin l s = (Ret tt, s') ∧ at_queue (q ++ l) max s'.
Proof.
  revert q s. induction l as [|f l IH]; intros q s Hs Hnd Hl; [exists s; by rewrite app_nil_r|]. simpl in Hl.
  destruct (queue_unpin q f s Hs) as (s1&Hr1&Hs1); [intros Hin; apply NoDup_app in Hnd as (_&Hd&_); apply (Hd f Hin); by left|lia|].
  destruct (IH (q ++ [f]) s1 Hs1) as (s2&Hr2&Hs2); [by rewrite <- app_assoc|rewrite length_app; simpl; lia|].
  exists s2. rewrite <- app_assoc in Hs2. split; [|done]. cbn [for_each]. by rewrite (bind_Ret _ _ _ _ _ Hr1).
Qed.

Lemma queue_victims q q' s : at_queue (q ++ q') max s → ∃ s', for_each expect_victim q s = (Ret tt, s') ∧ at_queue q' max s'.
Proof.
  revert s. induction q as [|f q IH]; intros s Hs; [by exists s|]. destruct (queue_victim _ _ s Hs) as (s1&Hr1&Hs1&_).
  destruct (IH s1 Hs1) as (s2&Hr2&Hs2). exists s2. split; [|done]. cbn [for_each]. by rewrite (bind_Ret _ _ _ _ _ Hr1).
Qed.
End queue.

(** ** The tests pass *)

Definition new_test (n : Z) : LruTest := mkLruTest (LRUReplacer_init n) 0.

Lemma new_queue n : at_queue [] n (new_test n).
Proof. split_and!; [apply lru_inv_init|done|done]. Qed.

Example lru_simple_test_passes : (lru_simple_test (new_test 7)).1 = Ret tt.
Proof. vm_compute. reflexivity. Qed.

Lemma other_cons v0 v l : other v0 (v :: l) = if decide (v ≠ v0 ∧ v ≠ 777) then v :: other v0 l else other v0 l.
Proof. unfold other. rewrite filter_cons. by repeat case_decide. Qed.

Lemma filter_out x (l : list Z) : x ∉ l → filter (λ g, g ≠ x) l = l.
Proof. intros Hx. apply filter_all. by intros g Hg ->. Qed.

Lemma list_filter_ext (P Q : Z → Prop) `{!∀ x, Decision (P x), !∀ x, Decision (Q x)} (l : list Z) :
  (∀ x, x ∈ l → P x ↔ Q x) → filter P l = filter Q l.
Proof.
  induction l as [|x l IH]; intros HPQ; [done|]. rewrite !filter_cons, IH by (intros y Hy; apply HPQ; by right).
  pose proof (HPQ x ltac:(by left)). repeat case_decide; naive_solver.
Qed.

(** Moving the values of [l] to the end, one by one. *)
Lemma touch_all max v0 l q s : at_queue (other v0 l ++ q) max s → NoDup (other v0 l ++ q) → Z.of_nat (length (other v0 l ++ q)) <= max →
  ∃ s', for_each (λ v, if decide (v ≠ v0 ∧ v ≠ 777) then test_pin v ;; test_unpin v else ret tt) l s = (Ret tt, s') ∧
    at_queue (q ++ other v0 l) max s'.
Proof.
  revert q s. induction l as [|v l IH]; intros q s Hs Hnd Hl; [exists s; by rewrite app_nil_r|]. rewrite other_cons in *.
  destruct (decide (v ≠ v0 ∧ v ≠ 777)) as [Hv|Hv].
  - simpl in Hnd, Hl. apply NoDup_cons in Hnd as [Hn Hnd].
    destruct (queue_pin max _ v s Hs) as (s1&Hr1&Hs1). simpl in Hs1. rewrite filter_cons_False, filter_out in Hs1 by (done || naive_solver).
    destruct (queue_unpin max _ v s1 Hs1 Hn) as (s2&Hr2&Hs2); [lia|]. rewrite <- app_assoc in Hs2.
    destruct (IH (q ++ [v]) s2 Hs2) as (s3&Hr3&Hs3).
    + rewrite app_assoc. apply NoDup_app. split_and!; [done| |apply NoDup_singleton]. by intros x Hx ->%list_elem_of_singleton.
    + rewrite app_assoc, length_app. simpl. lia.
    + exists s3. rewrite <- app_assoc in Hs3. split; [|done]. cbn [for_each]. rewrite decide_True by done.
      rewrite (bind_Ret _ _ _ _ _ (eq_trans (bind_Ret _ _ _ _ _ Hr1) Hr2)). done.
  - destruct (IH q s Hs Hnd Hl) as (s3&Hr3&Hs3). exists s3. split; [|done]. cbn [for_each]. by rewrite decide_False.
Qed.

Lemma length_filter_out x (l : list Z) : NoDup l → x ∈ l → length l = S (length (filter (λ g, g ≠ x) l)).
Proof.
  intros Hnd [k Hk]%elem_of_Permutation. rewrite Hk in Hnd |- *. apply NoDup_cons in Hnd as [Hx _].
  rewrite filter_cons_False by naive_solver. by rewrite filter_out.
Qed.

(** The mixed test passes for every shuffle that does not put 777 first (whatever the number of
    values): the order in which the frames come out is the one the test expects. *)
Theorem lru_mix_test_passes v0 vs :
  let value := v0 :: vs in NoDup value → 777 ∈ vs → (lru_mix_test value (new_test (Z.of_nat (length value)))).1 = Ret tt.
Proof.
  intros value Hnd Hin. pose proof Hnd as [Hv0 Hnd']%NoDup_cons. set (n := Z.of_nat (length value)). set (half := (length value / 2)%nat).
  assert (Hne : v0 ≠ 777) by by intros ->.
  destruct (queue_unpin_all n value [] _ (new_queue n) Hnd) as (s1&Hr1&Hs1); [unfold n; simpl; lia|]. simpl app in Hs1.
  destruct (queue_pin n _ 777 s1 Hs1) as (s2&Hr2&Hs2). unfold value in Hs2 at 1. rewrite filter_cons_True in Hs2 by done.
  set (rest := filter (λ g, g ≠ 777) vs) in *.
  assert (Hlen : length value = S (S (length rest))) by (simpl; by rewrite (length_filter_out 777 vs)).
  assert (H777 : 777 ∉ v0 :: rest). { intros [?|[? _]%list_elem_of_filter]%elem_of_cons; congruence. }
  destruct (queue_unpin n _ 777 s2 Hs2 H777) as (s3&Hr3&Hs3); [unfold n; rewrite Hlen; simpl; lia|]. simpl app in Hs3.
  destruct (queue_victim n _ v0 s3 Hs3) as (s4&Hr4&Hs4&_).
  assert (Hrest : v0 ∉ rest ++ [777]).
  { rewrite elem_of_app, list_elem_of_singleton. intros [[_ ?]%list_elem_of_filter|?]; done. }
  destruct (queue_unpin n _ v0 s4 Hs4 Hrest) as (s5&Hr5&Hs5); [unfold n; rewrite Hlen, length_app; simpl; lia|].
  assert (Hother : rest = other v0 (take half value) ++ other v0 (drop half value)).
  { unfold other. rewrite <- filter_app, take_drop. unfold value. rewrite filter_cons_False by naive_solver. unfold rest.
    apply list_filter_ext. intros x Hx. split; [|by intros []]. intros ?. split; [by intros ->|done]. }
  set (F := other v0 (take half value)) in *. set (G := other v0 (drop half value)) in *.
  assert (Hq : (rest ++ [777]) ++ [v0] = F ++ (G ++ [777; v0])) by by rewrite Hother, <- !app_assoc.
  rewrite Hq in Hs5.
  assert (Hnd5 : NoDup (F ++ (G ++ [777; v0]))).
  { rewrite <- Hq. apply NoDup_app. split_and!; [|by intros x Hx ->%list_elem_of_singleton|apply NoDup_singleton].
    apply NoDup_app. split_and!; [by apply NoDup_filter| |apply NoDup_singleton]. intros x Hx ->%list_elem_of_singleton. apply H777. by right. }
  assert (Hlen5 : length (F ++ (G ++ [777; v0])) = length value) by (rewrite <- Hq, Hlen, !length_app; simpl; lia).
  destruct (touch_all n v0 _ _ s5 Hs5 Hnd5) as (s6&Hr6&Hs6); [unfold n; apply Nat2Z.inj_le; rewrite <- Hlen5; done|].
  rewrite <- app_assoc in Hs6. fold F in Hs6.
  assert (Hlen6 : length (G ++ [777; v0] ++ F) = length value).
  { rewrite <- Hlen5, !length_app. lia. }
  destruct (queue_victims n (G ++ [777; v0] ++ F) [] s6) as (s7&Hr7&Hs7); [by rewrite app_nil_r|].
  unfold lru_mix_test. fold half. cbn [head]. change (head value) with (Some v0). fold F G.
  unfold bind at 1, access, ret at 1. rewrite (bind_Ret _ _ _ _ _ Hr1), (bind_Ret _ _ _ _ _ (queue_size n _ _ Hs1)).
  rewrite (bind_Ret _ _ _ _ _ Hr2), (bind_Ret _ _ _ _ _ Hr3), (bind_Ret _ _ _ _ _ Hr4), (bind_Ret _ _ _ _ _ Hr5), (bind_Ret _ _ _ _ _ Hr6).
  cbv zeta. fold F G.  pose proof (queue_size n _ _ Hs6) as Hsz. rewrite Hlen6 in Hsz. rewrite (bind_Ret _ _ _ _ _ Hsz), (bind_Ret _ _ _ _ _ Hr7), Hlen6.
  rewrite Z.sub_diag. change 0 with (Z.of_nat (length ([] : list Z))). by rewrite (queue_size n _ _ Hs7).
Qed.

Lemma lru_mix_test_passes_witness :
  NoDup [3; 777; 5] ∧ 777 ∈ [777; 5] ∧ (lru_mix_test [3; 777; 5] (new_test 3)).1 = Ret tt.
Proof.
  split_and!; [by eapply bool_decide_unpack; vm_compute|by left|].
  apply (lru_mix_test_passes 3 [777; 5]); [by eapply bool_decide_unpack; vm_compute|by left].
Defined.

(** With 777 in front the next victim is another one, and the test fails. *)
Example lru_mix_test_unlucky : (lru_mix_test [777; 3; 5] (new_test 3)).1 = Crash AssertFailed.
Proof. vm_compute. reflexivity. Qed.

(** ** Threads *)

Lemma interleaving_perm {A} (ls : list (list A)) order : interleaving ls order → order ≡ₚ concat ls.
Proof.
  induction 1 as [ls Hall|ls1 x l ls2 order _ IH].
  - induction Hall as [|l ls -> _ IH]; [done|]. simpl. exact IH.
  - rewrite IH. rewrite !concat_app. simpl. by rewrite Permutation_middle.
Qed.

Lemma concat_shares value : (length value mod 5 = 0)%nat → concat (shares value) = value.
Proof.
  intros Hm. unfold shares. set (k := (length value / 5)%nat).
  assert (Hk : length value = (5 * k)%nat) by (unfold k; pose proof (Nat.div_mod_eq (length value) 5); lia).
  assert (H : ∀ m, concat ((λ tid, take k (drop (tid * k) value)) <$> seq 0 m) ++ drop (m * k) value = value).
  { induction m as [|m IH]; [by rewrite drop_0|]. rewrite seq_S, fmap_app, concat_app. simpl concat. rewrite app_nil_r, <- app_assoc.
    replace (S m * k)%nat with (m * k + k)%nat by lia. by rewrite <- drop_drop, take_drop. }
  specialize (H 5%nat). rewrite (drop_ge _ (5 * k)) in H by lia. by rewrite app_nil_r in H.
Qed.

Lemma queue_out max q l s : at_queue q max s → length l = length q →
  ∃ s', for_map (λ _ : Z, let! b := test_victim in assert_ b ;; gets lt_value) l s = (Ret q, s') ∧ at_queue [] max s'.
Proof.
  revert q s. induction l as [|x l IH]; intros [|f q] s Hs Hl; try done; [by exists s|].
  destruct (queue_victim max q f s Hs) as (s1&_&Hs1&Hv&Hr). destruct (IH q s1 Hs1) as (s2&Hr2&Hs2); [by injection Hl|].
  assert (E : (let! b := test_victim in assert_ b ;; gets lt_value) s = (Ret f, s1)).
  { rewrite (bind_Ret _ _ _ _ _ Hr). unfold bind, assert_, ret, gets. by rewrite Hv. }
  exists s2. split; [|done]. cbn [for_map]. rewrite (bind_Ret _ _ _ _ _ E). by rewrite (bind_Ret _ _ _ _ _ Hr2).
Qed.

(** The concurrency test passes however the five threads are interleaved: every value comes out once,
    and then none. *)
Theorem lru_concurrency_test_passes value order :
  NoDup value → (length value mod 5 = 0)%nat → interleaving (shares value) order →
  (lru_concurrency_run value order (new_test (Z.of_nat (length value)))).1 = Ret tt.
Proof.
  intros Hnd Hm Hord%interleaving_perm. rewrite concat_shares in Hord by done. set (n := Z.of_nat (length value)).
  destruct (queue_unpin_all n order [] _ (new_queue n)) as (s1&Hr1&Hs1); [by rewrite app_nil_l, Hord|unfold n; rewrite Hord; simpl; lia|].
  destruct (queue_out n order value s1 Hs1) as (s2&Hr2&Hs2); [by rewrite Hord|]. destruct (queue_none n s2 Hs2) as [s3 Hr3].
  unfold lru_concurrency_run. rewrite (bind_Ret _ _ _ _ _ Hr1), (bind_Ret _ _ _ _ _ Hr2).
  rewrite bool_decide_eq_true_2; [|apply (Sorted_unique (≤)); [apply Sorted_merge_sort, _..|by rewrite !merge_sort_Permutation]].
  unfold bind at 1, assert_, ret. by rewrite (bind_Ret _ _ _ _ _ Hr3).
Qed.

Lemma lru_concurrency_test_passes_witness :
  NoDup [3; 1; 2; 5; 4] ∧ interleaving (shares [3; 1; 2; 5; 4]) [2; 3; 4; 1; 5] ∧
  (lru_concurrency_run [3; 1; 2; 5; 4] [2; 3; 4; 1; 5] (new_test 5)).1 = Ret tt.
Proof.
  assert (Hi : interleaving [[3]; [1]; [2]; [5]; [4]] [2; 3; 4; 1; 5]).
  { apply (inter_step [[3]; [1]] 2 [] [[5]; [4]]). apply (inter_step [] 3 [] [[1]; []; [5]; [4]]).
    apply (inter_step [[]; [1]; []; [5]] 4 [] []). apply (inter_step [[]] 1 [] [[]; [5]; []]).
    apply (inter_step [[]; []; []] 5 [] [[]]). apply inter_done. repeat constructor. }
  split_and!; [by eapply bool_decide_unpack; vm_compute|exact Hi|].
  apply (lru_concurrency_test_passes [3; 1; 2; 5; 4]); [by eapply bool_decide_unpack; vm_compute|reflexivity|exact Hi].
Defined.
