(* ===== verification/BufferPool.v ===== *)
(** * Page and BufferPoolManager

    [storage/page.h] and [storage/buffer_pool_manager.{h,cpp}].  The array of
    frames is a finite map from frame numbers; a [Page *] is the number of the
    frame it points to, so that holders of the same pointer see each other's
    writes.  The pool is generic in the replacement policy: operations use the class
    [Replacer], proofs use only [ReplacerSpec]. *)

From S2P Require Import Prelude Errors Config Posix DiskManager Replacer.
From stdpp Require Import options.

(** ** Page *)

Record Page := mkPage {
  id_ : PageId;
  data_ : list byte;
  is_dirty_ : bool;
  pin_count_ : Z;
}.

Definition OFFSET_PAGE_START : Z := 0.
Definition OFFSET_LSN : Z := 0.
Definition OFFSET_PAGE_HDR : Z := 4.

(** [memset(data_, OFFSET_PAGE_START, PAGE_SIZE)]: fills with the value 0. *)
Definition reset_memory (p : Page) : Page :=
  mkPage (id_ p) (replicate (Z.to_nat PAGE_SIZE) (byte_of OFFSET_PAGE_START)) (is_dirty_ p) (pin_count_ p).

(** A page as [new Page[n]] builds it.  Its [fd] is left uninitialised by the code
    and is never used while [page_no] is [INVALID_PAGE_ID]; here it is 0. *)
Definition Page_init : Page :=
  reset_memory (mkPage (mkPageId 0 INVALID_PAGE_ID) [] false 0).

Definition get_page_lsn (p : Page) : option lsn_t :=
  bytes_int <$> mread (data_ p) OFFSET_LSN 4.
Definition set_page_lsn (lsn : lsn_t) (p : Page) : option Page :=
  (λ d, mkPage (id_ p) d (is_dirty_ p) (pin_count_ p)) <$> mwrite (data_ p) OFFSET_LSN (int_bytes lsn).

Definition set_data (d : list byte) (p : Page) : Page := mkPage (id_ p) d (is_dirty_ p) (pin_count_ p).
Definition set_dirty (b : bool) (p : Page) : Page := mkPage (id_ p) (data_ p) b (pin_count_ p).
Definition set_pin (n : Z) (p : Page) : Page := mkPage (id_ p) (data_ p) (is_dirty_ p) n.
Definition set_id (i : PageId) (p : Page) : Page := mkPage i (data_ p) (is_dirty_ p) (pin_count_ p).

(** ** BufferPoolManager *)

Section bpm.
Context {R : Type} `{!Replacer R}.

Record BufferPoolManager := mkBPM {
  pool_size_ : Z;
  pages_ : gmap frame_id_t Page;
  page_table_ : gmap PageId frame_id_t;
  free_list_ : list frame_id_t;
  replacer_ : R;
}.

Record Store := mkStore { bpm : BufferPoolManager; disk : Disk }.

(** The constructor, given the new replacer. *)
Definition BufferPoolManager_init (pool_size : Z) (r : R) : BufferPoolManager :=
  mkBPM pool_size
    (list_to_map ((λ i, (i, Page_init)) <$> seqZ 0 pool_size))
    ∅ (seqZ 0 pool_size) r.

(** Assignments to the members. *)
Definition set_bpm (b : BufferPoolManager) (s : Store) : Store := mkStore b (disk s).
Definition set_disk (d : Disk) (s : Store) : Store := mkStore (bpm s) d.
Definition upd_pages (f : gmap frame_id_t Page → gmap frame_id_t Page) (s : Store) : Store :=
  let b := bpm s in
  set_bpm (mkBPM (pool_size_ b) (f (pages_ b)) (page_table_ b) (free_list_ b) (replacer_ b)) s.
Definition upd_table (f : gmap PageId frame_id_t → gmap PageId frame_id_t) (s : Store) : Store :=
  let b := bpm s in
  set_bpm (mkBPM (pool_size_ b) (pages_ b) (f (page_table_ b)) (free_list_ b) (replacer_ b)) s.
Definition upd_free (f : list frame_id_t → list frame_id_t) (s : Store) : Store :=
  let b := bpm s in
  set_bpm (mkBPM (pool_size_ b) (pages_ b) (page_table_ b) (f (free_list_ b)) (replacer_ b)) s.
Definition upd_replacer (f : R → R) (s : Store) : Store :=
  let b := bpm s in
  set_bpm (mkBPM (pool_size_ b) (pages_ b) (page_table_ b) (free_list_ b) (f (replacer_ b))) s.

(** [pages_[f]] read, and a member of it changed. *)
Definition frame (f : frame_id_t) : M Store Page := λ s,
  match pages_ (bpm s) !! f with
  | Some pg => (Ret pg, s)
  | None => (Crash OutOfBounds, s)
  end.
Definition modify_frame (f : frame_id_t) (g : Page → Page) : M Store unit :=
  let! pg := frame f in modify (upd_pages <[f := g pg]>).

Definition with_disk {A} (m : M Disk A) : M Store A := zoom disk set_disk m.

(** [disk_manager_->read_page(..., page->get_data(), PAGE_SIZE)]. *)
Definition read_into_frame (f : frame_id_t) (pid : PageId) : M Store unit := λ s,
  match pages_ (bpm s) !! f with
  | None => (Crash OutOfBounds, s)
  | Some pg =>
      let '(r, (buf, d)) := read_page (pid_fd pid) (pid_no pid) PAGE_SIZE (data_ pg, disk s) in
      (r, set_disk d (upd_pages <[f := set_data buf pg]> s))
  end.

Definition mark_dirty (f : frame_id_t) : M Store unit := modify_frame f (set_dirty true).

Definition find_victim_page : M Store (option frame_id_t) := λ s,
  match free_list_ (bpm s) with
  | f :: rest => (Ret (Some f), upd_free (λ _, rest) s)
  | [] => let '(o, r) := victim (replacer_ (bpm s)) in (Ret o, upd_replacer (λ _, r) s)
  end.

(** The block [fetch_page] and [new_page] share: a dirty victim is written to its
    own page, then the victim's page id leaves the page table. *)
Definition evict_frame (f : frame_id_t) : M Store unit :=
  let! pg := frame f in
  (if is_dirty_ pg then
     with_disk (write_page (pid_fd (id_ pg)) (pid_no (id_ pg)) (data_ pg) PAGE_SIZE) ;;
     modify_frame f (set_dirty false)
   else ret tt) ;;
  if pid_no (id_ pg) =? INVALID_PAGE_ID then ret tt
  else modify (upd_table (delete (id_ pg))).

Definition fetch_page (page_id : PageId) : M Store (option frame_id_t) :=
  let! e := gets (λ s, page_table_ (bpm s) !! page_id) in
  match e with
  | Some frame_id =>
      modify_frame frame_id (λ pg, set_pin (pin_count_ pg + 1) pg) ;;
      modify (upd_replacer (pin frame_id)) ;;
      ret (Some frame_id)
  | None =>
      let! v := find_victim_page in
      match v with
      | None => ret None
      | Some frame_id =>
          evict_frame frame_id ;;
          read_into_frame frame_id page_id ;;
          modify_frame frame_id (λ pg, mkPage page_id (data_ pg) false 1) ;;
          modify (upd_table <[page_id := frame_id]>) ;;
          modify (upd_replacer (pin frame_id)) ;;
          ret (Some frame_id)
      end
  end.

Definition unpin_page (page_id : PageId) (is_dirty : bool) : M Store bool :=
  let! e := gets (λ s, page_table_ (bpm s) !! page_id) in
  match e with
  | None => ret false
  | Some frame_id =>
      let! page := frame frame_id in
      if pin_count_ page <=? 0 then ret false
      else
        modify_frame frame_id (λ pg, set_pin (pin_count_ pg - 1) pg) ;;
        let! page := frame frame_id in
        (if pin_count_ page =? 0 then modify (upd_replacer (unpin frame_id)) else ret tt) ;;
        (if is_dirty then modify_frame frame_id (set_dirty true) else ret tt) ;;
        ret true
  end.

Definition flush_page (page_id : PageId) : M Store bool :=
  let! e := gets (λ s, page_table_ (bpm s) !! page_id) in
  match e with
  | None => ret false
  | Some frame_id =>
      let! page := frame frame_id in
      with_disk (write_page (pid_fd page_id) (pid_no page_id) (data_ page) PAGE_SIZE) ;;
      modify_frame frame_id (set_dirty false) ;;
      ret true
  end.

(** [Page *new_page(PageId *page_id)]: the frame and the id stored through the
    pointer; only the [fd] of the argument is used. *)
Definition new_page (fd : Z) : M Store (option (frame_id_t * PageId)) :=
  let! v := find_victim_page in
  match v with
  | None => ret None
  | Some frame_id =>
      evict_frame frame_id ;;
      let! no := with_disk (allocate_page fd) in
      let new_page_id := mkPageId fd no in
      modify_frame frame_id (λ pg, reset_memory (mkPage new_page_id (data_ pg) false 1)) ;;
      modify (upd_table <[new_page_id := frame_id]>) ;;
      modify (upd_replacer (pin frame_id)) ;;
      ret (Some (frame_id, new_page_id))
  end.

Definition delete_page (page_id : PageId) : M Store bool :=
  let! e := gets (λ s, page_table_ (bpm s) !! page_id) in
  match e with
  | None => ret true
  | Some frame_id =>
      let! page := frame frame_id in
      if negb (pin_count_ page =? 0) then ret false
      else
        (if is_dirty_ page then
           with_disk (write_page (pid_fd page_id) (pid_no page_id) (data_ page) PAGE_SIZE) ;;
           modify_frame frame_id (set_dirty false)
         else ret tt) ;;
        modify (upd_table (delete page_id)) ;;
        modify_frame frame_id (λ pg,
          reset_memory (mkPage (mkPageId (pid_fd (id_ pg)) INVALID_PAGE_ID) (data_ pg) false 0)) ;;
        modify (upd_free (λ l, l ++ [frame_id])) ;;
        ret true
  end.

(** One iteration of the loop of [flush_all_pages]. *)
Definition flush_frame (fd : Z) (i : frame_id_t) : M Store unit :=
  let! page := frame i in
  if bool_decide (pid_fd (id_ page) = fd) && negb (pid_no (id_ page) =? INVALID_PAGE_ID) then
    with_disk (write_page (pid_fd (id_ page)) (pid_no (id_ page)) (data_ page) PAGE_SIZE) ;;
    modify_frame i (set_dirty false)
  else ret tt.

Definition flush_all_pages (fd : Z) : M Store unit :=
  let! n := gets (λ s, pool_size_ (bpm s)) in
  for_each (flush_frame fd) (seqZ 0 n).

(** A store into the page a pointer designates ([page->get_data()[off..] = bs]). *)
Definition frame_write (f : frame_id_t) (off : Z) (bs : list byte) : M Store unit :=
  let! pg := frame f in
  let! d := access (mwrite (data_ pg) off bs) in
  modify_frame f (set_data d).

End bpm.

Arguments BufferPoolManager R : clear implicits.
Arguments Store R : clear implicits.
