(* ===== verification/BufferPoolSpec.v ===== *)
(** * Correctness of the buffer pool

    The invariant of [BufferPoolManager], the pages a client sees through the pool
    ([view]), and the theorems: the pool is a transparent cache of the disk, pinned
    frames are never taken, flushing makes the disk agree with the pool.  All proofs
    use the replacer through [ReplacerSpec]. *)

From S2P Require Import Prelude Errors Config Posix DiskManager Replacer BufferPool.
From stdpp Require Import options.

Section spec.
Context {R : Type} `{!Replacer R, !ReplacerSpec R}.
Implicit Types s : Store R.

(** ** What a client sees *)

Definition view s (pid : PageId) : option (list byte) :=
  match page_table_ (bpm s) !! pid with
  | Some f => data_ <$> pages_ (bpm s) !! f
  | None => disk_page (disk s) pid
  end.

Definition resident (pg : Page) : Prop := pid_no (id_ pg) ≠ INVALID_PAGE_ID.

(** Some frame is free or evictable. *)
Definition available s : Prop :=
  free_list_ (bpm s) ≠ [] ∨ evictable (replacer_ (bpm s)) ≠ ∅.

(** ** Invariant

    [H] is the set of frames that are being replaced (empty between operations);
    [T] is the set of frames whose holder has written to them, or that hold a new
    page, and that have not been unpinned dirty yet. *)

Record bp_inv (H T : gset frame_id_t) s : Prop := {
  bi_rep : rep_inv (replacer_ (bpm s));
  bi_cap : capacity (replacer_ (bpm s)) = pool_size_ (bpm s);
  bi_dom : ∀ f, is_Some (pages_ (bpm s) !! f) ↔ 0 <= f < pool_size_ (bpm s);
  bi_table : ∀ pid f, page_table_ (bpm s) !! pid = Some f ↔
    (f ∉ H) ∧ ∃ pg, pages_ (bpm s) !! f = Some pg ∧ id_ pg = pid ∧ resident pg;
  bi_free : ∀ f, f ∈ free_list_ (bpm s) ↔
    (f ∉ H) ∧ ∃ pg, pages_ (bpm s) !! f = Some pg ∧ ¬ resident pg;
  bi_nodup : NoDup (free_list_ (bpm s));
  bi_len : ∀ f pg, pages_ (bpm s) !! f = Some pg → Z.of_nat (length (data_ pg)) = PAGE_SIZE;
  bi_pin : ∀ f pg, f ∉ H → pages_ (bpm s) !! f = Some pg → 0 <= pin_count_ pg;
  bi_idle : ∀ f pg, f ∉ H → pages_ (bpm s) !! f = Some pg → ¬ resident pg →
    pin_count_ pg = 0 ∧ is_dirty_ pg = false;
  bi_evict : ∀ f, f ∈ evictable (replacer_ (bpm s)) →
    ∃ pg, pages_ (bpm s) !! f = Some pg ∧ (f ∈ H ∨ pin_count_ pg = 0);
  bi_unpinned : ∀ f pg, f ∉ H → pages_ (bpm s) !! f = Some pg → resident pg →
    pin_count_ pg = 0 → f ∈ evictable (replacer_ (bpm s));
  bi_taint : ∀ f, f ∈ T → (f ∉ H) ∧ ∃ pg, pages_ (bpm s) !! f = Some pg ∧ resident pg ∧ 0 < pin_count_ pg;
  bi_clean : ∀ f pg, f ∉ H → f ∉ T → pages_ (bpm s) !! f = Some pg → resident pg →
    is_dirty_ pg = false → disk_page (disk s) (id_ pg) = Some (data_ pg);
  bi_writable : ∀ f pg, f ∉ H → pages_ (bpm s) !! f = Some pg → resident pg →
    page_writable (disk s) (id_ pg);
  bi_distinct : fds_distinct (os (disk s));
}.

(** What a client saw, it still sees. *)
Definition view_kept s s' : Prop := ∀ pid x, view s pid = Some x → view s' pid = Some x.

#[global] Instance view_kept_refl : Reflexive view_kept.
Proof. intros s pid x. done. Qed.
#[global] Instance view_kept_trans : Transitive view_kept.
Proof. intros s1 s2 s3 H1 H2 pid x Hx. auto. Qed.

(** ** Running the helpers *)

Lemma frame_run s f pg :
  pages_ (bpm s) !! f = Some pg → frame f s = (Ret pg, s).
Proof. intros H. unfold frame. by rewrite H. Qed.

Lemma modify_frame_run s f g pg :
  pages_ (bpm s) !! f = Some pg →
  modify_frame f g s = (Ret tt, upd_pages <[f := g pg]> s).
Proof. intros H. unfold modify_frame. by rewrite (bind_Ret _ _ _ _ _ (frame_run _ _ _ H)). Qed.

Lemma with_disk_run {A} (m : M Disk A) s r d :
  m (disk s) = (r, d) → with_disk m s = (r, set_disk d s).
Proof. apply zoom_eq. Qed.

Lemma bp_inv_table_frame H T s pid f :
  bp_inv H T s → page_table_ (bpm s) !! pid = Some f →
  (f ∉ H) ∧ ∃ pg, pages_ (bpm s) !! f = Some pg ∧ id_ pg = pid ∧ resident pg.
Proof. intros Hi. apply (bi_table _ _ _ Hi). Qed.

Lemma bp_inv_view_frame H T s pid f pg :
  bp_inv H T s → page_table_ (bpm s) !! pid = Some f → pages_ (bpm s) !! f = Some pg →
  view s pid = Some (data_ pg).
Proof. intros Hi Ht Hp. unfold view. by rewrite Ht, Hp. Qed.

(** A frame that is not evictable leaves room in the replacer. *)
Lemma evictable_room H T s f :
  bp_inv H T s → is_Some (pages_ (bpm s) !! f) → f ∉ evictable (replacer_ (bpm s)) →
  Z.of_nat (size (evictable (replacer_ (bpm s)))) < capacity (replacer_ (bpm s)).
Proof.
  intros Hi Hf Hn. rewrite (bi_cap _ _ _ Hi). set (E := evictable _) in *.
  set (n := pool_size_ (bpm s)).
  assert (Hsub : {[f]} ∪ E ⊆ (list_to_set (seqZ 0 n) : gset Z)).
  { intros g. rewrite elem_of_list_to_set, elem_of_seqZ, elem_of_union, elem_of_singleton.
    assert (Hg : is_Some (pages_ (bpm s) !! g) → 0 <= g < 0 + n) by (intros ?%(bi_dom _ _ _ Hi); lia).
    intros [->|Hin]; [auto|]. apply Hg. destruct (bi_evict _ _ _ Hi g Hin) as (pg&?&_). eauto. }
  apply subseteq_size in Hsub. rewrite size_union, size_singleton in Hsub by set_solver.
  rewrite size_list_to_set in Hsub by apply NoDup_seqZ. rewrite length_seqZ in Hsub.
  apply (bi_dom _ _ _ Hi) in Hf. fold n in Hf. lia.
Qed.

(** ** Replacing a frame

    [claim] is [find_victim_page] followed by [evict_frame]: it yields a frame that
    belongs to nobody, and nobody's pages changed. *)

Definition claimed f s s' : Prop :=
  (∀ pid, page_table_ (bpm s) !! pid = None → page_table_ (bpm s') !! pid = None) ∧
  (∀ g, g ≠ f → pages_ (bpm s') !! g = pages_ (bpm s) !! g) ∧
  (∀ pg, pages_ (bpm s) !! f = Some pg → pin_count_ pg = 0) ∧
  view_kept s s' ∧ same_files (disk s) (disk s').

Lemma find_victim_spec T s :
  bp_inv ∅ T s → available s →
  ∃ f s1, find_victim_page s = (Ret (Some f), s1) ∧
    (∃ pg, pages_ (bpm s) !! f = Some pg ∧ pin_count_ pg = 0) ∧
    pages_ (bpm s1) = pages_ (bpm s) ∧ page_table_ (bpm s1) = page_table_ (bpm s) ∧
    disk s1 = disk s ∧ pool_size_ (bpm s1) = pool_size_ (bpm s) ∧
    rep_inv (replacer_ (bpm s1)) ∧ capacity (replacer_ (bpm s1)) = pool_size_ (bpm s) ∧
    (∀ g, g ≠ f → g ∈ free_list_ (bpm s1) ↔ g ∈ free_list_ (bpm s)) ∧
    (f ∉ free_list_ (bpm s1)) ∧ NoDup (free_list_ (bpm s1)) ∧
    (∀ g, g ∈ evictable (replacer_ (bpm s1)) → g ∈ evictable (replacer_ (bpm s))) ∧
    (∀ g, g ≠ f → g ∈ evictable (replacer_ (bpm s)) → g ∈ evictable (replacer_ (bpm s1))).
Proof.
  intros Hi Hav. unfold find_victim_page. destruct (free_list_ (bpm s)) as [|f rest] eqn:Hfl.
  - destruct Hav as [Hav|Hav]; [by rewrite Hfl in Hav|].
    destruct (victim_some _ (bi_rep _ _ _ Hi) Hav) as (f&r'&Hv&Hin&He&Hr&Hc).
    rewrite Hv. exists f. eexists. split; [done|]. cbn.
    destruct (bi_evict _ _ _ Hi f Hin) as (pg&Hpg&[?|Hpin]); [set_solver|].
    pose proof (bi_cap _ _ _ Hi). rewrite He, Hfl.
    split_and!; try done; [eauto|congruence|set_solver|apply NoDup_nil_2|set_solver|set_solver].
  - exists f. eexists. split; [done|]. cbn.
    pose proof (bi_nodup _ _ _ Hi) as Hnd. rewrite Hfl in Hnd. apply NoDup_cons in Hnd as [Hnf Hnd].
    assert (Hf : f ∈ free_list_ (bpm s)) by (rewrite Hfl; set_solver).
    apply (bi_free _ _ _ Hi) in Hf as (_&pg&Hpg&Hnr).
    destruct (bi_idle _ _ _ Hi f pg ltac:(set_solver) Hpg Hnr) as [Hpin _].
    pose proof (bi_cap _ _ _ Hi). pose proof (bi_rep _ _ _ Hi).
    split_and!; try done; [eauto|set_solver].
Qed.

Lemma evict_frame_spec s1 f pg :
  pages_ (bpm s1) !! f = Some pg → Z.of_nat (length (data_ pg)) = PAGE_SIZE →
  (is_dirty_ pg = true → page_writable (disk s1) (id_ pg)) → fds_distinct (os (disk s1)) →
  ∃ s2, evict_frame f s1 = (Ret tt, s2) ∧
    pages_ (bpm s2) = <[f := set_dirty false pg]> (pages_ (bpm s1)) ∧
    page_table_ (bpm s2) = (if pid_no (id_ pg) =? INVALID_PAGE_ID then page_table_ (bpm s1)
                            else delete (id_ pg) (page_table_ (bpm s1))) ∧
    free_list_ (bpm s2) = free_list_ (bpm s1) ∧ replacer_ (bpm s2) = replacer_ (bpm s1) ∧
    pool_size_ (bpm s2) = pool_size_ (bpm s1) ∧ same_files (disk s1) (disk s2) ∧
    (is_dirty_ pg = true → disk_page (disk s2) (id_ pg) = Some (data_ pg)) ∧
    (is_dirty_ pg = false → disk s2 = disk s1) ∧
    (∀ pid x, pid ≠ id_ pg → disk_page (disk s1) pid = Some x → disk_page (disk s2) pid = Some x).
Proof.
  intros Hpg Hlen Hw Hd. unfold evict_frame.
  rewrite (bind_Ret _ _ _ _ _ (frame_run _ _ _ Hpg)).
  destruct (is_dirty_ pg) eqn:Hdirty.
  - destruct (write_page_spec (disk s1) (id_ pg) (data_ pg) (Hw eq_refl) Hd Hlen)
      as (d'&Hwr&Hsf&Hrd&Hoth).
    unfold bind. rewrite (with_disk_run _ _ _ _ Hwr).
    rewrite (modify_frame_run _ f _ pg) by done.
    destruct (pid_no (id_ pg) =? INVALID_PAGE_ID); eexists; (split; [done|]); cbn;
      split_and!; try done; auto.
  - exists (if pid_no (id_ pg) =? INVALID_PAGE_ID then s1 else upd_table (delete (id_ pg)) s1).
    assert (Hs : set_dirty false pg = pg) by (destruct pg; simpl in *; by subst).
    unfold bind, ret. rewrite Hs.
    destruct (pid_no (id_ pg) =? INVALID_PAGE_ID); cbn; rewrite insert_id by done;
      split_and!; try done; auto.
Qed.

(** The page table, seen from the frames. *)
Lemma bp_inv_None H T s pid f pg :
  bp_inv H T s → f ∉ H → pages_ (bpm s) !! f = Some pg → id_ pg = pid →
  page_table_ (bpm s) !! pid = None → ¬ resident pg.
Proof.
  intros Hi Hf Hpg Hid Hn Hr.
  assert (page_table_ (bpm s) !! pid = Some f) by (apply (bi_table _ _ _ Hi); eauto). congruence.
Qed.

(** The state [s2] after frame [f], which held [pg], was taken in [s]. *)
Record evicted s s2 f pg : Prop := {
  ev_frame : pages_ (bpm s) !! f = Some pg;
  ev_pin : pin_count_ pg = 0;
  ev_pages : pages_ (bpm s2) = <[f := set_dirty false pg]> (pages_ (bpm s));
  ev_table : page_table_ (bpm s2) = if pid_no (id_ pg) =? INVALID_PAGE_ID then page_table_ (bpm s)
                                    else delete (id_ pg) (page_table_ (bpm s));
  ev_pool : pool_size_ (bpm s2) = pool_size_ (bpm s);
  ev_rep : rep_inv (replacer_ (bpm s2));
  ev_cap : capacity (replacer_ (bpm s2)) = pool_size_ (bpm s);
  ev_free : ∀ g, g ≠ f → g ∈ free_list_ (bpm s2) ↔ g ∈ free_list_ (bpm s);
  ev_notfree : f ∉ free_list_ (bpm s2);
  ev_nodup : NoDup (free_list_ (bpm s2));
  ev_evict1 : ∀ g, g ∈ evictable (replacer_ (bpm s2)) → g ∈ evictable (replacer_ (bpm s));
  ev_evict2 : ∀ g, g ≠ f → g ∈ evictable (replacer_ (bpm s)) → g ∈ evictable (replacer_ (bpm s2));
  ev_files : same_files (disk s) (disk s2);
  ev_written : is_dirty_ pg = true → disk_page (disk s2) (id_ pg) = Some (data_ pg);
  ev_unwritten : is_dirty_ pg = false → disk s2 = disk s;
  ev_others : ∀ pid x, pid ≠ id_ pg → disk_page (disk s) pid = Some x → disk_page (disk s2) pid = Some x;
}.

Lemma evicted_untainted T s s2 f pg : bp_inv ∅ T s → evicted s s2 f pg → f ∉ T.
Proof.
  intros Hi He (_&pg'&Hpg&_&Hpin)%(bi_taint _ _ _ Hi).
  rewrite (ev_frame _ _ _ _ He) in Hpg. simplify_eq. pose proof (ev_pin _ _ _ _ He). lia.
Qed.

(** Taking a frame runs to completion. *)
Lemma claim_run T s :
  bp_inv ∅ T s → available s →
  ∃ f s1 s2 pg, find_victim_page s = (Ret (Some f), s1) ∧ evict_frame f s1 = (Ret tt, s2) ∧
    evicted s s2 f pg.
Proof.
  intros Hi Hav.
  destruct (find_victim_spec T s Hi Hav) as
    (f&s1&Hfv&(pg&Hpg&Hpin)&Ep&Et&Ed&En&Hr&Hc&Hfree&Hnf&Hnd&Hev1&Hev2).
  destruct (evict_frame_spec s1 f pg) as (s2&He&Ep2&Et2&Ef2&Er2&En2&Hsf&Hw&Hnw&Hoth).
  - by rewrite Ep.
  - by eapply (bi_len _ _ _ Hi).
  - rewrite Ed. intros Hd. eapply (bi_writable _ _ _ Hi f); [apply not_elem_of_empty|done|].
    intros Hnr. destruct (bi_idle _ _ _ Hi f pg) as [_ ?]; [apply not_elem_of_empty|done| |congruence].
    unfold resident. tauto.
  - rewrite Ed. apply (bi_distinct _ _ _ Hi).
  - exists f, s1, s2, pg. split_and!; [done..|].
    rewrite Ep in Ep2. rewrite Et in Et2. rewrite Ed in *.
    split; rewrite ?Er2, ?Ef2, ?En2, ?En; done.
Qed.

Section evicted.
Context (T : gset frame_id_t) (s s2 : Store R) (f : frame_id_t) (pg : Page).
Context (Hi : bp_inv ∅ T s) (He : evicted s s2 f pg).

Lemma evicted_frame g : g ≠ f → pages_ (bpm s2) !! g = pages_ (bpm s) !! g.
Proof using He. intros. by rewrite (ev_pages _ _ _ _ He), lookup_insert_ne. Qed.

Lemma evicted_table pid g :
  page_table_ (bpm s2) !! pid = Some g ↔ g ≠ f ∧ page_table_ (bpm s) !! pid = Some g.
Proof using Hi He.
  pose proof (ev_frame _ _ _ _ He) as Hpg. rewrite (ev_table _ _ _ _ He).
  destruct (Z.eqb_spec (pid_no (id_ pg)) INVALID_PAGE_ID) as [Hno|Hno].
  - split; [|tauto]. intros Ht. split; [|done]. intros ->.
    apply (bi_table _ _ _ Hi) in Ht as (_&pg'&?&?&Hr'). simplify_eq. by apply Hr'.
  - assert (Hf : page_table_ (bpm s) !! id_ pg = Some f)
      by (apply (bi_table _ _ _ Hi); split; [apply not_elem_of_empty|eauto]).
    rewrite lookup_delete_Some. split; intros [Hne Ht]; split; try done.
    + intros ->. apply (bi_table _ _ _ Hi) in Ht as (_&pg'&?&?&_). by simplify_eq.
    + intros <-. congruence.
Qed.

Lemma evicted_inv : bp_inv {[f]} T s2.
Proof using Hi He.
  pose proof (evicted_untainted _ _ _ _ _ Hi He) as HfT.
  pose proof (ev_frame _ _ _ _ He) as Hpg. pose proof (bi_len _ _ _ Hi f pg Hpg) as Hlen.
  assert (Hne : ∀ g, g ∉ ({[f]} : gset Z) → g ≠ f ∧ g ∉ (∅ : gset Z)) by set_solver.
  assert (Hp : ∀ g pg', g ∉ ({[f]} : gset Z) → pages_ (bpm s2) !! g = Some pg' →
                        g ≠ f ∧ (g ∉ (∅ : gset Z)) ∧ pages_ (bpm s) !! g = Some pg').
  { intros g pg' [Hg ?]%Hne. rewrite evicted_frame by done. done. }
  split.
  - apply (ev_rep _ _ _ _ He).
  - rewrite (ev_pool _ _ _ _ He). apply (ev_cap _ _ _ _ He).
  - intros g. rewrite (ev_pool _ _ _ _ He), <- (bi_dom _ _ _ Hi), (ev_pages _ _ _ _ He), lookup_insert.
    case_decide; [subst; rewrite Hpg; split; by eauto|done].
  - intros pid g. rewrite evicted_table, (bi_table _ _ _ Hi). split.
    + intros (Hg&_&Hx). rewrite evicted_frame by done. split; [set_solver|done].
    + intros ([Hg Hg']%Hne&Hx). rewrite evicted_frame in Hx by done. done.
  - intros g. destruct (decide (g = f)) as [->|Hg].
    + split; [intros ?%(ev_notfree _ _ _ _ He); done|set_solver].
    + rewrite (ev_free _ _ _ _ He), (bi_free _ _ _ Hi), evicted_frame by done. set_solver.
  - apply (ev_nodup _ _ _ _ He).
  - intros g pg'. rewrite (ev_pages _ _ _ _ He), lookup_insert. case_decide; [|by apply (bi_len _ _ _ Hi)].
    by intros [= <-].
  - intros g pg' Hg (?&?&?)%(Hp g pg' Hg). by eapply (bi_pin _ _ _ Hi).
  - intros g pg' Hg (?&?&?)%(Hp g pg' Hg). by eapply (bi_idle _ _ _ Hi).
  - intros g (pg'&?&Hpin)%(ev_evict1 _ _ _ _ He)%(bi_evict _ _ _ Hi).
    destruct (decide (g = f)) as [->|].
    + exists (set_dirty false pg). rewrite (ev_pages _ _ _ _ He), lookup_insert_eq. set_solver.
    + exists pg'. rewrite evicted_frame by done. set_solver.
  - intros g pg' Hg (?&?&?)%(Hp g pg' Hg) ??. apply (ev_evict2 _ _ _ _ He); [done|].
    by eapply (bi_unpinned _ _ _ Hi).
  - intros g Hg. assert (Hgf : g ≠ f) by congruence. split; [set_solver|].
    rewrite evicted_frame by done. by apply (bi_taint _ _ _ Hi).
  - intros g pg' Hg HgT (Hgf&?&Hpg')%(Hp g pg' Hg) Hr' Hd'.
    apply (ev_others _ _ _ _ He); [|by eapply (bi_clean _ _ _ Hi)]. intros Heq. apply Hgf.
    assert (page_table_ (bpm s) !! id_ pg' = Some g) as H1 by (apply (bi_table _ _ _ Hi); eauto).
    assert (page_table_ (bpm s) !! id_ pg' = Some f) as H2.
    { apply (bi_table _ _ _ Hi). split; [apply not_elem_of_empty|]. exists pg.
      unfold resident. rewrite <- Heq. done. }
    congruence.
  - intros g pg' Hg (?&?&?)%(Hp g pg' Hg) ?. eapply same_files_writable; [apply He|].
    by eapply (bi_writable _ _ _ Hi).
  - eapply same_files_distinct; [apply He|apply Hi].
Qed.

Lemma evicted_view : view_kept s s2.
Proof using Hi He.
  pose proof (ev_frame _ _ _ _ He) as Hpg. intros pid x. unfold view.
  destruct (page_table_ (bpm s) !! pid) as [g|] eqn:Eg.
  - destruct (decide (g = f)) as [->|Hg].
    + rewrite Hpg. intros [= <-].
      destruct (page_table_ (bpm s2) !! pid) as [g|] eqn:E2; [apply evicted_table in E2; naive_solver|].
      apply (bi_table _ _ _ Hi) in Eg as (_&pg'&?&<-&?). simplify_eq.
      destruct (is_dirty_ pg) eqn:Ed'; [by apply (ev_written _ _ _ _ He)|].
      rewrite (ev_unwritten _ _ _ _ He) by done.
      eapply (bi_clean _ _ _ Hi f); try done. by eapply evicted_untainted.
    + assert (page_table_ (bpm s2) !! pid = Some g) as -> by by apply evicted_table.
      by rewrite evicted_frame.
  - intros Hx. destruct (page_table_ (bpm s2) !! pid) as [g|] eqn:E2;
      [apply evicted_table in E2; naive_solver|].
    destruct (decide (pid = id_ pg)) as [->|]; [|by apply (ev_others _ _ _ _ He)].
    rewrite (ev_unwritten _ _ _ _ He); [done|].
    eapply (bi_idle _ _ _ Hi f); [apply not_elem_of_empty|done|].
    eapply bp_inv_None; eauto. apply not_elem_of_empty.
Qed.
End evicted.

Lemma claim_spec T s :
  bp_inv ∅ T s → available s →
  ∃ f s1 s2, find_victim_page s = (Ret (Some f), s1) ∧ evict_frame f s1 = (Ret tt, s2) ∧
    bp_inv {[f]} T s2 ∧ claimed f s s2 ∧ is_Some (pages_ (bpm s2) !! f) ∧ (f ∉ T).
Proof.
  intros Hi Hav. destruct (claim_run T s Hi Hav) as (f&s1&s2&pg&H1&H2&He).
  exists f, s1, s2. split_and!; [done..|by eapply evicted_inv| | |by eapply evicted_untainted].
  - split_and!.
    + intros pid Hn. apply eq_None_not_Some. intros [g Hg].
      eapply evicted_table in Hg as [_ ?]; eauto. congruence.
    + intros g Hg. by eapply evicted_frame.
    + intros pg' Hpg'. rewrite (ev_frame _ _ _ _ He) in Hpg'. simplify_eq. apply (ev_pin _ _ _ _ He).
    + by eapply evicted_view.
    + apply (ev_files _ _ _ _ He).
  - rewrite (ev_pages _ _ _ _ He), lookup_insert_eq. eauto.
Qed.

(** ** Filling the frame *)

Lemma bp_inv_change_disk H T s d' :
  bp_inv H T s → fds_distinct (os d') →
  (∀ pid, is_Some (page_table_ (bpm s) !! pid) →
     (page_writable (disk s) pid → page_writable d' pid) ∧
     ∀ x, disk_page (disk s) pid = Some x → disk_page d' pid = Some x) →
  bp_inv H T (set_disk d' s).
Proof.
  intros Hi Hds Hd.
  assert (Ht : ∀ f pg, f ∉ H → pages_ (bpm s) !! f = Some pg → resident pg →
    is_Some (page_table_ (bpm s) !! id_ pg)).
  { intros f pg Hf Hpg Hr. exists f. apply (bi_table _ _ _ Hi). eauto. }
  split; simpl; try apply Hi; [| |done].
  - intros f pg Hf HfT Hpg Hr Hdirty. apply Hd; [by eapply Ht|]. by apply (bi_clean _ _ _ Hi f).
  - intros f pg Hf Hpg Hr. apply Hd; [by eapply Ht|]. by apply (bi_writable _ _ _ Hi f).
Qed.

Lemma bp_inv_set_disk H T s d' :
  bp_inv H T s → same_files (disk s) d' →
  (∀ pid x, disk_page (disk s) pid = Some x → disk_page d' pid = Some x) →
  bp_inv H T (set_disk d' s).
Proof.
  intros Hi Hsf Hd. apply bp_inv_change_disk; [done| |].
  - eapply same_files_distinct; [done|]. apply Hi.
  - intros pid _. split; [|by apply Hd]. intros. by eapply same_files_writable.
Qed.

Lemma hole_frame H T s f pg pg' :
  bp_inv H T s → f ∈ H → pages_ (bpm s) !! f = Some pg →
  Z.of_nat (length (data_ pg')) = PAGE_SIZE →
  bp_inv H T (upd_pages <[f := pg']> s).
Proof.
  intros Hi Hf Hpg Hlen.
  assert (Hl : ∀ g, g ∉ H → <[f := pg']> (pages_ (bpm s)) !! g = pages_ (bpm s) !! g)
    by (intros g Hg; rewrite lookup_insert_ne by congruence; done).
  assert (Hs : ∀ g q, g ∉ H → <[f := pg']> (pages_ (bpm s)) !! g = Some q → pages_ (bpm s) !! g = Some q)
    by (intros g q Hg; by rewrite Hl).
  split; simpl; try apply Hi.
  - intros g. rewrite <- (bi_dom _ _ _ Hi), lookup_insert. case_decide; [subst|done].
    rewrite Hpg. split; by eauto.
  - intros pid g. rewrite (bi_table _ _ _ Hi). split; intros [Hg Hx]; (split; [done|]);
      by rewrite Hl in *.
  - intros g. rewrite (bi_free _ _ _ Hi). split; intros [Hg Hx]; (split; [done|]);
      by rewrite Hl in *.
  - intros g q. rewrite lookup_insert. case_decide; [by intros [= <-]|]. by apply (bi_len _ _ _ Hi).
  - intros g q Hg Hq%Hs; [|done]. by apply (bi_pin _ _ _ Hi g).
  - intros g q Hg Hq%Hs; [|done]. by apply (bi_idle _ _ _ Hi g).
  - intros g (q&Hq&Hp)%(bi_evict _ _ _ Hi). destruct (decide (g = f)) as [->|].
    + exists pg'. rewrite lookup_insert_eq. auto.
    + exists q. by rewrite lookup_insert_ne.
  - intros g q Hg Hq%Hs; [|done]. by apply (bi_unpinned _ _ _ Hi g).
  - intros g [Hg Hx]%(bi_taint _ _ _ Hi). split; [done|]. by rewrite Hl.
  - intros g q Hg HgT Hq%Hs; [|done]. by apply (bi_clean _ _ _ Hi g).
  - intros g q Hg Hq%Hs; [|done]. by apply (bi_writable _ _ _ Hi g).
Qed.

(** The last three assignments of [fetch_page] and [new_page]. *)
Definition installed f pg s : Store R :=
  upd_replacer (pin f) (upd_table <[id_ pg := f]> (upd_pages <[f := pg]> s)).

Lemma installed_inv T T' s f pg :
  bp_inv {[f]} T s → is_Some (pages_ (bpm s) !! f) → page_table_ (bpm s) !! id_ pg = None →
  resident pg → Z.of_nat (length (data_ pg)) = PAGE_SIZE → 0 < pin_count_ pg →
  page_writable (disk s) (id_ pg) →
  (T' = T ∪ {[f]} ∨ T' = T ∧ disk_page (disk s) (id_ pg) = Some (data_ pg)) →
  bp_inv ∅ T' (installed f pg s).
Proof.
  intros Hi Hf Hn Hr Hlen Hpin Hw HT.
  destruct (pin_spec f _ (bi_rep _ _ _ Hi)) as (Hrep&Hev&Hcap).
  assert (Hs : ∀ g q, <[f := pg]> (pages_ (bpm s)) !! g = Some q →
    (g = f ∧ q = pg) ∨ (g ∉ ({[f]} : gset Z)) ∧ pages_ (bpm s) !! g = Some q).
  { intros g q. rewrite lookup_insert_Some. set_solver. }
  assert (HTs : ∀ g, g ∈ T → g ∈ T') by (destruct HT as [->|[-> _]]; set_solver).
  split; simpl.
  - done.
  - rewrite Hcap. apply Hi.
  - intros g. rewrite <- (bi_dom _ _ _ Hi), lookup_insert. case_decide; [subst|done]. split; by eauto.
  - intros pid g. rewrite lookup_insert_Some, (bi_table _ _ _ Hi). split.
    + intros [[<- <-]|(Hne&Hg&q&Hq&<-&?)]; (split; [apply not_elem_of_empty|]).
      * exists pg. by rewrite lookup_insert_eq.
      * exists q. by rewrite lookup_insert_ne by set_solver.
    + intros (_&q&[[-> ->]|[Hg Hq]]%Hs&<-&?); [by left|]. right. split; [|eauto].
      intros Heq. assert (page_table_ (bpm s) !! id_ q = Some g) by (apply (bi_table _ _ _ Hi); eauto).
      congruence.
  - intros g. rewrite (bi_free _ _ _ Hi). split.
    + intros (Hg&q&Hq&?). split; [apply not_elem_of_empty|]. exists q.
      by rewrite lookup_insert_ne by set_solver.
    + intros (_&q&[[-> ->]|[Hg Hq]]%Hs&?); [done|eauto].
  - apply Hi.
  - intros g q [[-> ->]|[Hg Hq]]%Hs; [done|]. by eapply (bi_len _ _ _ Hi).
  - intros g q _ [[-> ->]|[Hg Hq]]%Hs; [lia|]. by eapply (bi_pin _ _ _ Hi).
  - intros g q _ [[-> ->]|[Hg Hq]]%Hs; [done|]. by eapply (bi_idle _ _ _ Hi).
  - intros g. rewrite Hev. intros [(q&Hq&Hp)%(bi_evict _ _ _ Hi) Hg]%elem_of_difference.
    exists q. rewrite lookup_insert_ne by set_solver. split; [done|]. right. set_solver.
  - intros g q _ [[-> ->]|[Hg Hq]]%Hs; [lia|]. rewrite Hev. intros.
    apply elem_of_difference. split; [|done]. by eapply (bi_unpinned _ _ _ Hi).
  - intros g Hg. split; [apply not_elem_of_empty|]. destruct (decide (g = f)) as [->|Hgf].
    + exists pg. by rewrite lookup_insert_eq.
    + rewrite lookup_insert_ne by done. apply (bi_taint _ _ _ Hi). destruct HT as [->|[-> _]]; set_solver.
  - intros g q _ HgT [[-> ->]|[Hg Hq]]%Hs.
    + destruct HT as [->|[_ ?]]; [set_solver|done].
    + apply (bi_clean _ _ _ Hi g); auto.
  - intros g q _ [[-> ->]|[Hg Hq]]%Hs; [done|]. by eapply (bi_writable _ _ _ Hi).
  - apply Hi.
Qed.

Lemma installed_view T s f pg pid :
  bp_inv {[f]} T s →
  view (installed f pg s) pid = if decide (pid = id_ pg) then Some (data_ pg) else view s pid.
Proof.
  intros Hi. unfold view. simpl. case_decide as Hd.
  - subst. by rewrite lookup_insert_eq, lookup_insert_eq.
  - rewrite lookup_insert_ne by done.
    destruct (page_table_ (bpm s) !! pid) as [g|] eqn:E; [|done].
    apply (bi_table _ _ _ Hi) in E as [Hg _]. by rewrite lookup_insert_ne by set_solver.
Qed.

(** ** Changing a resident frame in place *)

Lemma bp_inv_id_inj T s f g pg q :
  bp_inv ∅ T s → pages_ (bpm s) !! f = Some pg → pages_ (bpm s) !! g = Some q →
  resident pg → id_ q = id_ pg → g ≠ f → False.
Proof.
  intros Hi Hpg Hq Hr Heq Hne.
  assert (page_table_ (bpm s) !! id_ pg = Some f) by (apply (bi_table _ _ _ Hi); set_solver).
  assert (page_table_ (bpm s) !! id_ pg = Some g).
  { apply (bi_table _ _ _ Hi). split; [apply not_elem_of_empty|]. exists q.
    unfold resident. rewrite Heq. done. }
  congruence.
Qed.

Definition updated f pg' r' d' s : Store R :=
  mkStore (mkBPM (pool_size_ (bpm s)) (<[f := pg']> (pages_ (bpm s))) (page_table_ (bpm s))
                 (free_list_ (bpm s)) r') d'.

Lemma updated_inv T T' s f pg pg' r' d' :
  bp_inv ∅ T s → pages_ (bpm s) !! f = Some pg → resident pg → id_ pg' = id_ pg →
  Z.of_nat (length (data_ pg')) = PAGE_SIZE → 0 <= pin_count_ pg' →
  rep_inv r' → capacity r' = capacity (replacer_ (bpm s)) →
  (∀ g, g ∈ evictable r' ↔
        (g ≠ f ∧ g ∈ evictable (replacer_ (bpm s))) ∨ (g = f ∧ pin_count_ pg' = 0)) →
  (∀ g, g ≠ f → g ∈ T' ↔ g ∈ T) → (f ∈ T' → 0 < pin_count_ pg') →
  (f ∉ T' → is_dirty_ pg' = false → disk_page d' (id_ pg) = Some (data_ pg')) →
  same_files (disk s) d' →
  (∀ pid x, pid ≠ id_ pg → disk_page (disk s) pid = Some x → disk_page d' pid = Some x) →
  bp_inv ∅ T' (updated f pg' r' d' s).
Proof.
  intros Hi Hpg Hr Hid Hlen Hpin Hrep Hcap Hev HT HfT Hcl Hsf Hoth.
  assert (Hr' : resident pg') by (unfold resident in *; by rewrite Hid).
  assert (Hs : ∀ g q, <[f := pg']> (pages_ (bpm s)) !! g = Some q →
    (g = f ∧ q = pg') ∨ (g ≠ f ∧ pages_ (bpm s) !! g = Some q)).
  { intros g q. rewrite lookup_insert_Some. naive_solver. }
  split; simpl.
  - done.
  - rewrite Hcap. apply Hi.
  - intros g. rewrite <- (bi_dom _ _ _ Hi), lookup_insert. case_decide; [subst|done]. split; by eauto.
  - intros pid g. rewrite (bi_table _ _ _ Hi). split; intros (_&q&Hq&<-&?);
      (split; [apply not_elem_of_empty|]).
    + destruct (decide (g = f)) as [->|].
      * exists pg'. rewrite lookup_insert_eq. by simplify_eq.
      * exists q. by rewrite lookup_insert_ne.
    + apply Hs in Hq as [[-> ->]|[??]]; [exists pg|exists q]; auto.
  - intros g. rewrite (bi_free _ _ _ Hi). split; intros (_&q&Hq&?);
      (split; [apply not_elem_of_empty|]).
    + exists q. rewrite lookup_insert_ne by (intros ->; by simplify_eq). done.
    + apply Hs in Hq as [[-> ->]|[??]]; [done|eauto].
  - apply Hi.
  - intros g q [[-> ->]|[? Hq]]%Hs; [done|]. by eapply (bi_len _ _ _ Hi).
  - intros g q ? [[-> ->]|[? Hq]]%Hs; [done|]. by eapply (bi_pin _ _ _ Hi).
  - intros g q ? [[-> ->]|[? Hq]]%Hs; [done|]. by eapply (bi_idle _ _ _ Hi).
  - intros g [[Hg (q&Hq&Hp)%(bi_evict _ _ _ Hi)]|[-> Hp]]%Hev.
    + exists q. by rewrite lookup_insert_ne.
    + exists pg'. rewrite lookup_insert_eq. auto.
  - intros g q ? [[-> ->]|[? Hq]]%Hs ??; apply Hev; [by right|]. left.
    split; [done|]. by eapply (bi_unpinned _ _ _ Hi).
  - intros g Hg. split; [apply not_elem_of_empty|]. destruct (decide (g = f)) as [->|Hgf].
    + exists pg'. rewrite lookup_insert_eq. auto.
    + rewrite lookup_insert_ne by done. apply (bi_taint _ _ _ Hi). by apply HT.
  - intros g q ? HgT [[-> ->]|[? Hq]]%Hs ??; [rewrite Hid; by apply Hcl|].
    apply Hoth; [|apply (bi_clean _ _ _ Hi g); [done|by rewrite <- HT|done..]].
    intros Heq. by eapply (bp_inv_id_inj T s f g pg q).
  - intros g q ? [[-> ->]|[? Hq]]%Hs ?; (eapply same_files_writable; [done|]);
      [rewrite Hid|]; by eapply (bi_writable _ _ _ Hi).
  - eapply same_files_distinct; [done|]. apply Hi.
Qed.

Lemma updated_view T s f pg pg' r' d' pid :
  bp_inv ∅ T s → pages_ (bpm s) !! f = Some pg → resident pg →
  view (updated f pg' r' d' s) pid =
    if decide (pid = id_ pg) then Some (data_ pg')
    else match page_table_ (bpm s) !! pid with
         | Some _ => view s pid
         | None => disk_page d' pid
         end.
Proof.
  intros Hi Hpg Hr. unfold view. simpl. case_decide as Hd.
  - subst. assert (page_table_ (bpm s) !! id_ pg = Some f) as ->
      by (apply (bi_table _ _ _ Hi); split; [apply not_elem_of_empty|eauto]).
    by rewrite lookup_insert_eq.
  - destruct (page_table_ (bpm s) !! pid) as [g|] eqn:E; [|done].
    apply (bi_table _ _ _ Hi) in E as (_&q&Hq&<-&_).
    rewrite lookup_insert_ne; [done|]. intros ->. by simplify_eq.
Qed.

(** The replacer's set is exactly the unpinned resident frames, plus free ones. *)
Lemma evictable_iff T s f pg :
  bp_inv ∅ T s → pages_ (bpm s) !! f = Some pg → resident pg →
  f ∈ evictable (replacer_ (bpm s)) ↔ pin_count_ pg = 0.
Proof.
  intros Hi Hpg Hr. split.
  - intros (q&Hq&[?|?])%(bi_evict _ _ _ Hi); [set_solver|]. by simplify_eq.
  - by apply (bi_unpinned _ _ _ Hi f pg (not_elem_of_empty f)).
Qed.

Lemma evictable_same T s f pg n :
  bp_inv ∅ T s → pages_ (bpm s) !! f = Some pg → resident pg → n = pin_count_ pg →
  ∀ g, g ∈ evictable (replacer_ (bpm s)) ↔
       (g ≠ f ∧ g ∈ evictable (replacer_ (bpm s))) ∨ (g = f ∧ n = 0).
Proof.
  intros Hi Hpg Hr -> g. pose proof (evictable_iff T s f pg Hi Hpg Hr).
  destruct (decide (g = f)) as [->|]; naive_solver.
Qed.

(** ** fetch_page *)

Lemma fetch_hit T s pid f pg :
  bp_inv ∅ T s → page_table_ (bpm s) !! pid = Some f → pages_ (bpm s) !! f = Some pg →
  let pg' := set_pin (pin_count_ pg + 1) pg in
  let s' := updated f pg' (pin f (replacer_ (bpm s))) (disk s) s in
  fetch_page pid s = (Ret (Some f), s') ∧ bp_inv ∅ T s'.
Proof.
  intros Hi Ht Hpg pg' s'. split.
  - unfold fetch_page, bind at 1, gets. rewrite Ht.
    by rewrite (bind_Ret _ _ _ _ _ (modify_frame_run _ _ _ _ Hpg)).
  - destruct (bp_inv_table_frame _ _ _ _ _ Hi Ht) as (_&q&?&Hid&Hr). simplify_eq.
    destruct (pin_spec f _ (bi_rep _ _ _ Hi)) as (Hrep&Hev&Hcap).
    pose proof (bi_pin _ _ _ Hi f pg (not_elem_of_empty f) Hpg).
    pose proof (bi_len _ _ _ Hi f pg Hpg).
    eapply (updated_inv T); simpl;
      [done|done|done|done|done|lia|done|done| |done|lia| |done|done].
    + intros g. rewrite Hev. set_solver by lia.
    + intros. by eapply (bi_clean _ _ _ Hi f).
Qed.

Lemma fetch_miss T s pid x :
  bp_inv ∅ T s → page_table_ (bpm s) !! pid = None → available s →
  disk_page (disk s) pid = Some x → page_writable (disk s) pid →
  ∃ f s', fetch_page pid s = (Ret (Some f), s') ∧ bp_inv ∅ T s' ∧ view_kept s s' ∧
    page_table_ (bpm s') !! pid = Some f ∧ pages_ (bpm s') !! f = Some (mkPage pid x false 1) ∧
    (∀ g, g ≠ f → pages_ (bpm s') !! g = pages_ (bpm s) !! g) ∧
    (∀ q, pages_ (bpm s) !! f = Some q → pin_count_ q = 0) ∧
    same_files (disk s) (disk s').
Proof.
  intros Hi Hn Hav Hx Hw.
  destruct (claim_spec T s Hi Hav) as (f&s1&s2&Hfv&Hev&Hi2&(Hn2&Hpg2&Hpin2&Hvk&Hsf)&[pgf Hf]&HfT).
  assert (Hlen : Z.of_nat (length (data_ pgf)) = PAGE_SIZE) by by eapply (bi_len _ _ _ Hi2).
  assert (Hx2 : disk_page (disk s2) pid = Some x).
  { specialize (Hvk pid x). unfold view in Hvk. rewrite Hn, Hn2 in Hvk by done. auto. }
  destruct (read_page_spec (disk s2) pid x (data_ pgf) Hx2 Hlen) as (d3&Hrd&Hsf3&Hd3).
  set (s3 := set_disk d3 (upd_pages <[f := set_data x pgf]> s2)).
  assert (Hlx : Z.of_nat (length x) = PAGE_SIZE).
  { unfold disk_page in Hx2. destruct (fd_content _ _); [|done]. by apply mread_length in Hx2. }
  assert (Hi3 : bp_inv {[f]} T s3).
  { apply bp_inv_set_disk; [|done|intros; by rewrite Hd3].
    eapply hole_frame; [done|set_solver|done|done]. }
  assert (Hf3 : pages_ (bpm s3) !! f = Some (set_data x pgf)) by apply lookup_insert_eq.
  exists f, (installed f (mkPage pid x false 1) s3).
  assert (Hres : resident (mkPage pid x false 1)).
  { destruct Hw as (_&?&_). unfold resident, INVALID_PAGE_ID. simpl. lia. }
  split_and!.
  - unfold fetch_page, bind at 1, gets. rewrite Hn.
    rewrite (bind_Ret _ _ _ _ _ Hfv), (bind_Ret _ _ _ _ _ Hev).
    rewrite (bind_Ret _ _ s2 tt s3) by (unfold read_into_frame; by rewrite Hf, Hrd).
    rewrite (bind_Ret _ _ _ _ _ (modify_frame_run _ _ _ _ Hf3)).
    unfold installed, upd_pages, bind, modify, ret. cbn. by rewrite insert_insert_eq.
  - eapply installed_inv; try done; simpl; [by apply Hn2| |].
    + eapply same_files_writable; [|done]. by etrans.
    + right. split; [done|]. by rewrite Hd3.
  - intros pid' y Hy%Hvk. rewrite (installed_view T) by done. case_decide as Hd.
    + simpl in Hd. subst pid'. unfold view in Hy. rewrite Hn2 in Hy by done. simpl. congruence.
    + unfold view in *. simpl. destruct (page_table_ (bpm s2) !! pid') as [g|] eqn:Eg; [|by rewrite Hd3].
      apply (bi_table _ _ _ Hi2) in Eg as [Hg _]. by rewrite lookup_insert_ne by set_solver.
  - apply lookup_insert_eq.
  - apply lookup_insert_eq.
  - intros g Hg. simpl. rewrite !lookup_insert_ne by done. auto.
  - done.
  - by etrans.
Qed.

(** ** unpin_page and writes through a page pointer *)

Lemma unpin_ok T s pid f pg (dirty : bool) :
  bp_inv ∅ T s → page_table_ (bpm s) !! pid = Some f → pages_ (bpm s) !! f = Some pg →
  0 < pin_count_ pg → (dirty = false → f ∈ T → 1 < pin_count_ pg) →
  let pg' := mkPage (id_ pg) (data_ pg) (is_dirty_ pg || dirty) (pin_count_ pg - 1) in
  let r := replacer_ (bpm s) in
  let s' := updated f pg' (if pin_count_ pg - 1 =? 0 then unpin f r else r) (disk s) s in
  unpin_page pid dirty s = (Ret true, s') ∧
  bp_inv ∅ (if dirty then T ∖ {[f]} else T) s' ∧ (∀ pid', view s' pid' = view s pid').
Proof.
  intros Hi Ht Hpg Hpin HT pg' r s'.
  destruct (bp_inv_table_frame _ _ _ _ _ Hi Ht) as (_&q&?&Hid&Hr). simplify_eq.
  split_and!.
  - unfold unpin_page, bind at 1, gets. rewrite Ht. rewrite (bind_Ret _ _ _ _ _ (frame_run _ _ _ Hpg)).
    rewrite (proj2 (Z.leb_gt _ _)) by lia.
    rewrite (bind_Ret _ _ _ _ _ (modify_frame_run _ _ _ _ Hpg)).
    unfold bind, frame. cbn. rewrite lookup_insert_eq. cbn. subst s' pg' r.
    destruct (pin_count_ pg - 1 =? 0), dirty; cbn; unfold modify_frame, bind, frame, modify; cbn;
      rewrite ?lookup_insert_eq; cbn; unfold updated, upd_pages, upd_replacer, set_bpm; cbn;
      rewrite ?insert_insert_eq, ?orb_true_r, ?orb_false_r; done.
  - pose proof (bi_len _ _ _ Hi f pg Hpg).
    assert (Hnev : f ∉ evictable r)
      by (unfold r; rewrite (evictable_iff T s f pg) by done; lia).
    destruct (unpin_spec f r (bi_rep _ _ _ Hi)) as (Hrep&Hev&Hcap).
    { right. eapply evictable_room; eauto. }
    eapply (updated_inv T); simpl; [done|done|done|done|done|lia|..].
    + destruct (pin_count_ pg - 1 =? 0); [done|apply Hi].
    + destruct (pin_count_ pg - 1 =? 0); [apply Hcap|done].
    + intros g. destruct (Z.eqb_spec (pin_count_ pg - 1) 0) as [E|E]; [rewrite Hev|];
        destruct (decide (g = f)) as [->|]; set_solver.
    + intros g Hg. destruct dirty; set_solver.
    + destruct dirty; [set_solver|]. intros Hf. specialize (HT eq_refl Hf). lia.
    + destruct dirty; rewrite ?orb_true_r, ?orb_false_r; [done|]. intros.
      by eapply (bi_clean _ _ _ Hi f).
    + done.
    + done.
  - intros pid'. unfold s'. erewrite updated_view by done. case_decide.
    + subst pid'. symmetry. by apply (bp_inv_view_frame ∅ T s _ f pg).
    + unfold view. by destruct (page_table_ (bpm s) !! pid').
Qed.

Lemma frame_write_ok T s f pg off bs d :
  bp_inv ∅ T s → pages_ (bpm s) !! f = Some pg → resident pg → 0 < pin_count_ pg →
  mwrite (data_ pg) off bs = Some d →
  let s' := updated f (set_data d pg) (replacer_ (bpm s)) (disk s) s in
  frame_write f off bs s = (Ret tt, s') ∧ bp_inv ∅ (T ∪ {[f]}) s' ∧
  (∀ pid, view s' pid = if decide (pid = id_ pg) then Some d else view s pid).
Proof.
  intros Hi Hpg Hr Hpin Hw s'. split_and!.
  - unfold frame_write. rewrite (bind_Ret _ _ _ _ _ (frame_run _ _ _ Hpg)), Hw.
    unfold access, ret, bind at 1. by rewrite (modify_frame_run _ _ _ _ Hpg).
  - pose proof (bi_len _ _ _ Hi f pg Hpg). pose proof (mwrite_length _ _ _ _ Hw).
    eapply (updated_inv T); simpl;
      [done|done|done|done|lia|lia|apply Hi|done|by eapply evictable_same|set_solver|done|set_solver|done|done].
  - intros pid. unfold s'. erewrite updated_view by done. case_decide; [done|].
    unfold view. by destruct (page_table_ (bpm s) !! pid).
Qed.

(** ** Writing a frame back *)

Lemma write_back_ok T s f pg :
  bp_inv ∅ T s → pages_ (bpm s) !! f = Some pg → resident pg →
  ∃ d', write_page (pid_fd (id_ pg)) (pid_no (id_ pg)) (data_ pg) PAGE_SIZE (disk s) = (Ret tt, d') ∧
    let s' := updated f (set_dirty false pg) (replacer_ (bpm s)) d' s in
    bp_inv ∅ (T ∖ {[f]}) s' ∧ bp_inv ∅ T s' ∧ view_kept s s' ∧
    disk_page d' (id_ pg) = Some (data_ pg) ∧ same_files (disk s) d' ∧
    (∀ pid' x, pid' ≠ id_ pg → disk_page (disk s) pid' = Some x → disk_page d' pid' = Some x).
Proof.
  intros Hi Hpg Hr. pose proof (bi_len _ _ _ Hi f pg Hpg) as Hlen.
  destruct (write_page_spec (disk s) (id_ pg) (data_ pg)) as (d'&Hw&Hsf&Hd&Ho); [|apply Hi|done|].
  { by eapply (bi_writable _ _ _ Hi f). }
  assert (Hinv : ∀ T', (∀ g, g ≠ f → g ∈ T' ↔ g ∈ T) → (f ∈ T' → f ∈ T) →
    bp_inv ∅ T' (updated f (set_dirty false pg) (replacer_ (bpm s)) d' s)).
  { intros T' HT Hf. eapply (updated_inv T); simpl;
      [done|done|done|done|done| |apply Hi|done|by eapply evictable_same|done| |done|done|done].
    - by apply (bi_pin _ _ _ Hi f).
    - intros (_&q&?&_&?)%Hf%(bi_taint _ _ _ Hi). by simplify_eq. }
  exists d'. split; [done|]. split_and!; [apply Hinv; set_solver|by apply Hinv| |done..].
  - intros pid x Hx. erewrite updated_view by done. case_decide as Hp.
    + subst. rewrite <- Hx. symmetry. apply (bp_inv_view_frame ∅ T s _ f pg); [done| |done].
      apply (bi_table _ _ _ Hi). split; [apply not_elem_of_empty|eauto].
    + unfold view in *. destruct (page_table_ (bpm s) !! pid); auto.
Qed.

Lemma flush_run s pid f pg d' :
  page_table_ (bpm s) !! pid = Some f → pages_ (bpm s) !! f = Some pg →
  write_page (pid_fd pid) (pid_no pid) (data_ pg) PAGE_SIZE (disk s) = (Ret tt, d') →
  flush_page pid s = (Ret true, updated f (set_dirty false pg) (replacer_ (bpm s)) d' s).
Proof.
  intros Ht Hpg Hw. unfold flush_page, bind at 1, gets. rewrite Ht.
  rewrite (bind_Ret _ _ _ _ _ (frame_run _ _ _ Hpg)).
  rewrite (bind_Ret _ _ _ _ _ (with_disk_run _ _ _ _ Hw)).
  by rewrite (bind_Ret _ _ _ _ _ (modify_frame_run (set_disk d' s) _ _ _ Hpg)).
Qed.

Lemma flush_ok T s pid f pg :
  bp_inv ∅ T s → page_table_ (bpm s) !! pid = Some f → pages_ (bpm s) !! f = Some pg →
  ∃ s', flush_page pid s = (Ret true, s') ∧ bp_inv ∅ (T ∖ {[f]}) s' ∧ view_kept s s' ∧
    disk_page (disk s') pid = Some (data_ pg) ∧ same_files (disk s) (disk s').
Proof.
  intros Hi Ht Hpg. destruct (bp_inv_table_frame _ _ _ _ _ Hi Ht) as (_&q&?&<-&Hr). simplify_eq.
  destruct (write_back_ok T s f pg Hi Hpg Hr) as (d'&Hw&Hi'&_&Hv&Hd&Hsf&_).
  eexists. split; [by eapply flush_run|]. done.
Qed.

(** ** flush_all_pages *)

(** Frame [f] is not of file [fd], or its content is on disk. *)
Definition synced (fd : Z) (d : Disk) (pg : Page) : Prop :=
  pid_fd (id_ pg) = fd → resident pg → disk_page d (id_ pg) = Some (data_ pg).

Definition synced_below fd (n : Z) s : Prop :=
  ∀ f pg, f < n → pages_ (bpm s) !! f = Some pg → synced fd (disk s) pg.

(** No frame holds a page of file [fd] that starts before byte [n]. *)
Definition in_front (fd n : Z) s : Prop :=
  ∀ f pg, pages_ (bpm s) !! f = Some pg → resident pg → pid_fd (id_ pg) = fd → n <= pid_no (id_ pg) * PAGE_SIZE.

(** What the loop of [flush_all_pages] keeps. *)
Definition flushing s s' : Prop :=
  view_kept s s' ∧ same_files (disk s) (disk s') ∧ pool_size_ (bpm s') = pool_size_ (bpm s) ∧
  page_table_ (bpm s') = page_table_ (bpm s) ∧
  (∀ f, set_dirty false <$> pages_ (bpm s') !! f = set_dirty false <$> pages_ (bpm s) !! f) ∧
  (∀ fd off len r, in_front fd (off + len) s → disk_bytes (disk s) fd off len = Some r →
     disk_bytes (disk s') fd off len = Some r).

#[global] Instance flushing_refl : Reflexive flushing.
Proof. intros s. unfold flushing. split_and!; done. Qed.
#[global] Instance flushing_trans : Transitive flushing.
Proof.
  intros s1 s2 s3 (?&?&?&?&HA&HB) (?&?&?&?&HC&HD). unfold flushing.
  split_and!; [by etrans|by etrans|congruence|congruence| |].
  - intros f. by rewrite HC.
  - intros fd off len r Hf Hr. apply HD; [|by apply HB]. intros f pg Hpg Hres Hfd. specialize (HA f).
    rewrite Hpg in HA. destruct (pages_ (bpm s1) !! f) as [q|] eqn:Eq; [|done].
    injection HA as E1 _ _. unfold resident in *. rewrite E1 in *. by apply (Hf f q Eq).
Qed.

Lemma write_back_flushing T s f pg d' :
  bp_inv ∅ T s → pages_ (bpm s) !! f = Some pg → resident pg →
  write_page (pid_fd (id_ pg)) (pid_no (id_ pg)) (data_ pg) PAGE_SIZE (disk s) = (Ret tt, d') →
  view_kept s (updated f (set_dirty false pg) (replacer_ (bpm s)) d' s) → same_files (disk s) d' →
  flushing s (updated f (set_dirty false pg) (replacer_ (bpm s)) d' s).
Proof.
  intros Hi Hpg Hr Hw Hv Hsf. unfold flushing. split_and!; [done..| |].
  - intros g. simpl. rewrite lookup_insert. case_decide; [by subst; rewrite Hpg|done].
  - intros fd off len r Hf. eapply write_page_bytes; [by eapply (bi_writable _ _ _ Hi f)|apply Hi| |done|].
    + by eapply (bi_len _ _ _ Hi).
    + destruct (decide (fd = pid_fd (id_ pg))) as [->|]; [right|by left]. by apply (Hf f).
Qed.

Lemma flush_frame_ok fd s i T :
  bp_inv ∅ T s → 0 <= i < pool_size_ (bpm s) → synced_below fd i s →
  ∃ s', flush_frame fd i s = (Ret tt, s') ∧ bp_inv ∅ T s' ∧
    synced_below fd (i + 1) s' ∧ flushing s s'.
Proof.
  intros Hi Hin Hsy. destruct (proj2 (bi_dom _ _ _ Hi i) Hin) as [pg Hpg].
  unfold flush_frame. rewrite (bind_Ret _ _ _ _ _ (frame_run _ _ _ Hpg)).
  destruct (bool_decide_reflect (pid_fd (id_ pg) = fd)) as [Hfd|Hfd];
    destruct (Z.eqb_spec (pid_no (id_ pg)) INVALID_PAGE_ID) as [Hno|Hno]; cbn.
  2: {
    destruct (write_back_ok T s i pg Hi Hpg Hno) as (d'&Hw&_&Hi'&Hv&Hd&Hsf&Hoth).
    rewrite (bind_Ret _ _ _ _ _ (with_disk_run _ _ _ _ Hw)).
    rewrite (modify_frame_run (set_disk d' s) _ _ _ Hpg).
    eexists. split; [done|]. change (upd_pages _ _) with (updated i (set_dirty false pg) (replacer_ (bpm s)) d' s).
    split_and!; [done| |by eapply write_back_flushing].
    - intros f q Hf. simpl. rewrite lookup_insert_Some.
      intros [[<- <-]|[Hne Hq]] Hqfd Hqr; [done|]. apply Hoth.
      + intros Heq. by eapply (bp_inv_id_inj T s i f pg q).
      + eapply Hsy; eauto. lia. }
  all: exists s; (split; [done|]); split; [done|]; split; [|done];
    intros f q Hf Hq; destruct (decide (f = i)) as [->|]; [|eapply Hsy; eauto; lia];
    intros ??; by simplify_eq.
Qed.

Lemma flush_loop_ok fd T (k : nat) s i :
  bp_inv ∅ T s → 0 <= i → i + Z.of_nat k = pool_size_ (bpm s) → synced_below fd i s →
  ∃ s', for_each (flush_frame fd) (seqZ i (Z.of_nat k)) s = (Ret tt, s') ∧ bp_inv ∅ T s' ∧
    synced_below fd (pool_size_ (bpm s)) s' ∧ flushing s s'.
Proof.
  revert s i. induction k as [|k IH]; intros s i Hi H0 Hn Hsy.
  - exists s. rewrite Z.add_0_r in Hn. subst i. by split_and!.
  - rewrite seqZ_cons by lia. simpl for_each.
    destruct (flush_frame_ok fd s i T) as (s1&Hr&Hi1&Hsy1&Hf1); [done|lia|done|].
    pose proof Hf1 as (_&_&Hp&_).
    rewrite (bind_Ret _ _ _ _ _ Hr). replace (Z.pred (Z.of_nat (S k))) with (Z.of_nat k) by lia.
    destruct (IH s1 (Z.succ i)) as (s2&Hr2&Hi2&Hsy2&Hf2); [done|lia|lia|done|].
    exists s2. rewrite <- Hp. split_and!; [done..|by etrans].
Qed.

Lemma flush_all_ok fd T s :
  bp_inv ∅ T s →
  ∃ s', flush_all_pages fd s = (Ret tt, s') ∧ bp_inv ∅ T s' ∧ flushing s s' ∧
    ∀ f pg, pages_ (bpm s') !! f = Some pg → synced fd (disk s') pg.
Proof.
  intros Hi. unfold flush_all_pages, bind at 1, gets.
  destruct (Z.le_gt_cases 0 (pool_size_ (bpm s))) as [Hp|Hp].
  - destruct (flush_loop_ok fd T (Z.to_nat (pool_size_ (bpm s))) s 0) as (s'&Hr&Hi'&Hsy&Hf);
      [done|done|lia| |].
    + intros f pg Hf Hpg. assert (0 <= f < pool_size_ (bpm s)) by (apply (bi_dom _ _ _ Hi); eauto). lia.
    + rewrite Z2Nat.id in Hr by done. exists s'. split_and!; [done..|]. intros f pg Hpg.
      eapply Hsy; [|done]. destruct Hf as (_&_&<-&_).
      assert (0 <= f < pool_size_ (bpm s')) by (apply (bi_dom _ _ _ Hi'); eauto). lia.
  - exists s. rewrite seqZ_nil by lia. split_and!; [done..|]. intros f pg Hpg.
    assert (0 <= f < pool_size_ (bpm s)) by (apply (bi_dom _ _ _ Hi); eauto). lia.
Qed.

(** Afterwards the file holds the current bytes of its pages. *)
Lemma synced_disk T s fd pid x :
  bp_inv ∅ T s → (∀ f pg, pages_ (bpm s) !! f = Some pg → synced fd (disk s) pg) →
  pid_fd pid = fd → view s pid = Some x → disk_page (disk s) pid = Some x.
Proof.
  intros Hi Hsy Hfd Hx. unfold view in Hx.
  destruct (page_table_ (bpm s) !! pid) as [g|] eqn:Ht; [|done].
  destruct (bp_inv_table_frame _ _ _ _ _ Hi Ht) as (_&pg&Hpg&<-&Hr).
  rewrite Hpg in Hx. simplify_eq/=. by apply (Hsy g pg).
Qed.

(** ** new_page *)

(** The invariant reads the page counters of [DiskManager] nowhere. *)
Lemma bp_inv_set_dm H T s m : bp_inv H T s → bp_inv H T (set_disk (set_dm m (disk s)) s).
Proof. intros Hi. split; simpl; apply Hi. Qed.

Lemma view_set_dm s m pid : view (set_disk (set_dm m (disk s)) s) pid = view s pid.
Proof. done. Qed.

Definition next_page (d : Disk) (fd : Z) : Z := default 0 (fd2pageno_ (dm d) !! fd).

Lemma new_ok T s fd :
  bp_inv ∅ T s → available s → 0 <= fd < MAX_FD →
  let pid := mkPageId fd (next_page (disk s) fd) in
  page_table_ (bpm s) !! pid = None → page_writable (disk s) pid →
  ∃ f s', new_page fd s = (Ret (Some (f, pid)), s') ∧ bp_inv ∅ (T ∪ {[f]}) s' ∧
    (∀ pid' x, pid' ≠ pid → view s pid' = Some x → view s' pid' = Some x) ∧
    view s' pid = Some (zeros PAGE_SIZE) ∧
    page_table_ (bpm s') !! pid = Some f ∧
    pages_ (bpm s') !! f = Some (mkPage pid (zeros PAGE_SIZE) false 1) ∧
    (∀ g, g ≠ f → pages_ (bpm s') !! g = pages_ (bpm s) !! g) ∧
    (∀ q, pages_ (bpm s) !! f = Some q → pin_count_ q = 0) ∧
    next_page (disk s') fd = wrap32 (next_page (disk s) fd + 1) ∧
    (∀ fd', fd' ≠ fd → next_page (disk s') fd' = next_page (disk s) fd') ∧
    (∀ pid', page_writable (disk s) pid' → page_writable (disk s') pid').
Proof.
  intros Hi Hav Hfd pid Hn Hw.
  destruct (claim_spec T s Hi Hav) as (f&s1&s2&Hfv&Hev&Hi2&(Hn2&Hpg2&Hpin2&Hvk&Hsf)&[pgf Hf]&HfT).
  pose proof Hsf as (Hdm&_).
  set (d3 := set_dm (set_pageno fd (wrap32 (next_page (disk s) fd + 1)) (dm (disk s2))) (disk s2)).
  set (s3 := set_disk d3 s2).
  assert (Hal : with_disk (allocate_page fd) s2 = (Ret (next_page (disk s) fd), s3)).
  { apply with_disk_run. rewrite allocate_page_run by done. unfold d3, next_page. by rewrite Hdm. }
  assert (Hi3 : bp_inv {[f]} T s3) by by apply bp_inv_set_dm.
  set (pg := mkPage pid (zeros PAGE_SIZE) false 1).
  exists f, (installed f pg s3).
  assert (Hres : resident pg).
  { destruct Hw as (_&?&_). unfold resident, INVALID_PAGE_ID. simpl in *. lia. }
  assert (Hw3 : page_writable (disk s3) pid).
  { change (page_writable (disk s2) pid). by eapply same_files_writable. }
  split_and!.
  - unfold new_page.
    rewrite (bind_Ret _ _ _ _ _ Hfv), (bind_Ret _ _ _ _ _ Hev), (bind_Ret _ _ _ _ _ Hal).
    by rewrite (bind_Ret _ _ _ _ _ (modify_frame_run s3 f _ pgf Hf)).
  - eapply installed_inv; try done; simpl; [by apply Hn2|]. by left.
  - intros pid' x Hne Hx. rewrite (installed_view T) by done. rewrite decide_False by done. by apply Hvk.
  - rewrite (installed_view T) by done. by rewrite decide_True.
  - apply lookup_insert_eq.
  - apply lookup_insert_eq.
  - intros g Hg. simpl. rewrite !lookup_insert_ne by done. auto.
  - done.
  - unfold next_page. simpl. by rewrite lookup_insert_eq.
  - intros fd' Hne. unfold next_page. simpl. rewrite lookup_insert_ne by done. by rewrite Hdm.
  - intros pid' Hp'. change (page_writable (disk s2) pid'). by eapply same_files_writable.
Qed.

(** ** delete_page *)

(** Putting a claimed frame on the free list. *)
Lemma freed_inv T s f pg :
  bp_inv {[f]} T s → pages_ (bpm s) !! f = Some pg → ¬ resident pg →
  pin_count_ pg = 0 → is_dirty_ pg = false →
  bp_inv ∅ T (upd_free (λ l, l ++ [f]) s).
Proof.
  intros Hi Hpg Hr Hpin Hd.
  assert (Hc : ∀ g q, pages_ (bpm s) !! g = Some q →
    (g = f ∧ q = pg) ∨ (g ∉ ({[f]} : gset Z))).
  { intros g q Hq. destruct (decide (g = f)) as [->|]; [left; by simplify_eq|set_solver]. }
  split; simpl.
  - apply Hi.
  - apply Hi.
  - apply Hi.
  - intros pid g. rewrite (bi_table _ _ _ Hi). split; [set_solver|].
    intros (_&q&Hq&<-&?). destruct (Hc g q Hq) as [[-> ->]|]; [done|eauto].
  - intros g. rewrite elem_of_app, list_elem_of_singleton, (bi_free _ _ _ Hi). split.
    + intros [(Hg&Hq)| ->]; (split; [apply not_elem_of_empty|eauto]).
    + intros (_&q&Hq&?). destruct (Hc g q Hq) as [[-> ->]|]; [by right|left; eauto].
  - apply NoDup_app. split_and!; [apply Hi| |apply NoDup_singleton].
    intros g Hg%(bi_free _ _ _ Hi). set_solver.
  - apply Hi.
  - intros g q _ Hq. destruct (Hc g q Hq) as [[-> ->]|]; [lia|]. by apply (bi_pin _ _ _ Hi g).
  - intros g q _ Hq. destruct (Hc g q Hq) as [[-> ->]|]; [done|]. by apply (bi_idle _ _ _ Hi g).
  - intros g (q&Hq&Hg)%(bi_evict _ _ _ Hi). exists q. split; [done|]. right.
    destruct (Hc g q Hq) as [[-> ->]|]; [done|set_solver].
  - intros g q _ Hq. destruct (Hc g q Hq) as [[-> ->]|]; [done|]. by apply (bi_unpinned _ _ _ Hi g).
  - intros g [? ?]%(bi_taint _ _ _ Hi). split; [apply not_elem_of_empty|done].
  - intros g q _ ? Hq. destruct (Hc g q Hq) as [[-> ->]|]; [done|]. by apply (bi_clean _ _ _ Hi g).
  - intros g q _ Hq. destruct (Hc g q Hq) as [[-> ->]|]; [done|]. by apply (bi_writable _ _ _ Hi g).
  - apply Hi.
Qed.

(** On a resident frame, the write-back of [delete_page] and the erasure of the table
    entry are [evict_frame]. *)
Lemma delete_page_alt s pid f pg :
  page_table_ (bpm s) !! pid = Some f → pages_ (bpm s) !! f = Some pg → id_ pg = pid →
  resident pg → pin_count_ pg = 0 →
  delete_page pid s =
    (evict_frame f ;;
     modify_frame f (λ q, reset_memory (mkPage (mkPageId (pid_fd (id_ q)) INVALID_PAGE_ID) (data_ q) false 0)) ;;
     modify (upd_free (λ l, l ++ [f])) ;;
     ret true) s.
Proof.
  intros Ht Hpg Hid Hr Hpin. unfold delete_page, evict_frame, bind at 1, gets. rewrite Ht.
  rewrite bind_assoc. rewrite !(bind_Ret _ _ _ _ _ (frame_run _ _ _ Hpg)), Hid.
  rewrite (proj2 (Z.eqb_eq _ _) Hpin). cbn [negb].
  rewrite bind_assoc. unfold resident in Hr. rewrite Hid in Hr.
  by rewrite (proj2 (Z.eqb_neq _ _) Hr).
Qed.

Lemma evicted_resident T s s2 f pg :
  bp_inv ∅ T s → pages_ (bpm s) !! f = Some pg → resident pg → pin_count_ pg = 0 →
  evict_frame f s = (Ret tt, s2) → evicted s s2 f pg.
Proof.
  intros Hi Hpg Hr Hpin He.
  destruct (evict_frame_spec s f pg) as (s2'&He'&Ep2&Et2&Ef2&Er2&En2&Hsf&Hw&Hnw&Hoth).
  - done.
  - by eapply (bi_len _ _ _ Hi).
  - intros _. by eapply (bi_writable _ _ _ Hi f).
  - apply Hi.
  - assert (s2' = s2) as -> by congruence. split; rewrite ?Er2, ?Ef2, ?En2; try done; try apply Hi.
    intros (_&q&?&?)%(bi_free _ _ _ Hi). by simplify_eq.
Qed.

Lemma delete_ok T s pid f pg :
  bp_inv ∅ T s → page_table_ (bpm s) !! pid = Some f → pages_ (bpm s) !! f = Some pg →
  pin_count_ pg = 0 →
  ∃ s', delete_page pid s = (Ret true, s') ∧ bp_inv ∅ T s' ∧ view_kept s s' ∧
    page_table_ (bpm s') !! pid = None ∧ last (free_list_ (bpm s')) = Some f ∧
    disk_page (disk s') pid = Some (data_ pg) ∧ same_files (disk s) (disk s') ∧
    (∀ g, g ≠ f → pages_ (bpm s') !! g = pages_ (bpm s) !! g).
Proof.
  intros Hi Ht Hpg Hpin.
  destruct (bp_inv_table_frame _ _ _ _ _ Hi Ht) as (_&q&?&Hid&Hr). simplify_eq.
  rewrite (delete_page_alt s (id_ pg) f pg) by done.
  destruct (evict_frame_spec s f pg) as (s2&He&_);
    [done|by eapply (bi_len _ _ _ Hi)|intros _; by eapply (bi_writable _ _ _ Hi f)|apply Hi|].
  pose proof (evicted_resident T s s2 f pg Hi Hpg Hr Hpin He) as Hev.
  pose proof (evicted_inv T s s2 f pg Hi Hev) as Hi2.
  pose proof (evicted_view T s s2 f pg Hi Hev) as Hvk.
  assert (Hf2 : pages_ (bpm s2) !! f = Some (set_dirty false pg))
    by (rewrite (ev_pages _ _ _ _ Hev); apply lookup_insert_eq).
  assert (Hn2 : page_table_ (bpm s2) !! id_ pg = None).
  { apply eq_None_not_Some. intros [g Hg]. apply (evicted_table T s s2 f pg Hi Hev) in Hg as [? Hg]. congruence. }
  set (idle := reset_memory (mkPage (mkPageId (pid_fd (id_ pg)) INVALID_PAGE_ID) (data_ pg) false 0)).
  assert (Hi3 : bp_inv {[f]} T (upd_pages <[f := idle]> s2))
    by (eapply hole_frame; [done|set_solver|done|done]).
  rewrite (bind_Ret _ _ _ _ _ He), (bind_Ret _ _ _ _ _ (modify_frame_run _ _ _ _ Hf2)).
  eexists. split; [done|]. split_and!.
  - apply (freed_inv T _ f idle); [done|apply lookup_insert_eq|by intros []|done|done].
  - intros pid x Hx%Hvk. unfold view in *. simpl.
    destruct (page_table_ (bpm s2) !! pid) as [g|] eqn:Eg; [|done].
    apply (bi_table _ _ _ Hi2) in Eg as [Hg _]. by rewrite lookup_insert_ne by set_solver.
  - done.
  - simpl. by rewrite last_snoc.
  - assert (Hx : view s (id_ pg) = Some (data_ pg)) by by eapply bp_inv_view_frame.
    apply Hvk in Hx. unfold view in Hx. by rewrite Hn2 in Hx.
  - apply (ev_files _ _ _ _ Hev).
  - intros g Hg. simpl. rewrite lookup_insert_ne by done. by eapply evicted_frame.
Qed.

(** ** The new pool *)

Lemma init_lookup n f :
  (list_to_map ((λ i, (i, Page_init)) <$> seqZ 0 n) : gmap Z Page) !! f =
  if decide (0 <= f < n) then Some Page_init else None.
Proof.
  assert (Hk : ((λ i, (i, Page_init)) <$> seqZ 0 n).*1 = seqZ 0 n).
  { rewrite <- list_fmap_compose. apply list_fmap_id. }
  case_decide as Hd.
  - apply elem_of_list_to_map_1; [rewrite Hk; apply NoDup_seqZ|].
    apply list_elem_of_fmap. exists f. rewrite elem_of_seqZ. split; [done|lia].
  - apply not_elem_of_list_to_map_1. rewrite Hk, elem_of_seqZ. lia.
Qed.

Lemma bp_inv_init n r d :
  rep_inv r → evictable r = ∅ → capacity r = n → fds_distinct (os d) →
  bp_inv ∅ ∅ (mkStore (BufferPoolManager_init n r) d).
Proof.
  intros Hr He Hc Hd.
  assert (Hp : ∀ f pg, pages_ (BufferPoolManager_init n r) !! f = Some pg → pg = Page_init ∧ 0 <= f < n).
  { intros f pg. simpl. rewrite init_lookup. case_decide; naive_solver. }
  assert (Hnr : ¬ resident Page_init) by (intros H; by apply H).
  split; cbn [bpm disk].
  - done.
  - done.
  - intros f. simpl. rewrite init_lookup. case_decide; (split; [|by eauto]); [done|by intros []].
  - intros pid f. simpl. rewrite lookup_empty. split; [done|]. intros (_&pg&[-> _]%Hp&_&?). done.
  - intros f. simpl. rewrite elem_of_seqZ, init_lookup. split.
    + intros. split; [apply not_elem_of_empty|]. exists Page_init. by rewrite decide_True by lia.
    + intros (_&pg&Hx&_). case_decide; [lia|done].
  - apply NoDup_seqZ.
  - intros f pg [-> _]%Hp. unfold Page_init, reset_memory, data_. rewrite length_replicate. by rewrite Z2Nat.id.
  - intros f pg _ [-> _]%Hp. simpl. lia.
  - intros f pg _ [-> _]%Hp _. split; reflexivity.
  - simpl. rewrite He. set_solver.
  - intros f pg _ [-> _]%Hp Hx. destruct (Hnr Hx).
  - set_solver.
  - intros f pg _ _ [-> _]%Hp Hx. destruct (Hnr Hx).
  - intros f pg _ [-> _]%Hp Hx. destruct (Hnr Hx).
  - done.
Qed.
End spec.
