(* ===== verification/BufferPoolProps.v ===== *)
(** * What the buffer pool guarantees its clients

    The pool seen as an abstract page store: clients fetch, write through the page
    pointer they hold, unpin, flush, delete and create pages.  The abstract store
    ([PageStore]) has no frames, no pins and no disk; the refinement theorem says that
    a client that follows the pin discipline cannot tell the pool from it. *)

From S2P Require Import Prelude Errors Config Posix DiskManager Replacer BufferPool BufferPoolSpec.
From stdpp Require Import options.

(** ** The abstract store *)

Record PageStore := mkPS {
  ps_page : PageId → option (list byte);
  ps_next : Z → Z;                        (* next page number of each file *)
}.

Inductive PoolOp :=
  | OFetch (pid : PageId)
  | OWrite (pid : PageId) (off : Z) (bs : list byte)   (* through the pointer to page [pid] *)
  | OUnpin (pid : PageId) (dirty : bool)
  | OFlush (pid : PageId)
  | OFlushAll (fd : Z)
  | ODelete (pid : PageId)
  | ONew (fd : Z).

Definition fn_upd {A B} `{EqDecision A} (k : A) (v : B) (f : A → B) : A → B :=
  λ x, if decide (x = k) then v else f x.

Definition spec_op (op : PoolOp) (a : PageStore) : PageStore :=
  match op with
  | OWrite pid off bs =>
      mkPS (fn_upd pid (ps_page a pid ≫= λ x, mwrite x off bs) (ps_page a)) (ps_next a)
  | ONew fd =>
      mkPS (fn_upd (mkPageId fd (ps_next a fd)) (Some (zeros PAGE_SIZE)) (ps_page a))
           (fn_upd fd (wrap32 (ps_next a fd + 1)) (ps_next a))
  | _ => a
  end.

Section props.
Context {R : Type} `{!Replacer R, !ReplacerSpec R}.
Implicit Types s : Store R.

Definition discard {A} (m : M (Store R) A) : M (Store R) unit := m ;; ret tt.

(** The pool's side of an operation. *)
Definition pool_op (op : PoolOp) : M (Store R) unit :=
  match op with
  | OFetch pid => discard (fetch_page pid)
  | OWrite pid off bs =>
      let! f := gets (λ s, page_table_ (bpm s) !! pid) in
      let! f := deref f in frame_write f off bs
  | OUnpin pid dirty => discard (unpin_page pid dirty)
  | OFlush pid => discard (flush_page pid)
  | OFlushAll fd => flush_all_pages fd
  | ODelete pid => discard (delete_page pid)
  | ONew fd => discard (new_page fd)
  end.

Definition pool_ops (ops : list PoolOp) : M (Store R) unit := for_each pool_op ops.

(** The pin discipline.  [T] is the set of frames written or created since they were
    last unpinned dirty or flushed: the holder of the last pin on such a frame must not
    release it as clean. *)
Definition legal (T : gset frame_id_t) (op : PoolOp) s : Prop :=
  match op with
  | OFetch pid => is_Some (view s pid) ∧ page_writable (disk s) pid ∧
      (is_Some (page_table_ (bpm s) !! pid) ∨ available s)
  | OWrite pid off bs => ∃ f pg, page_table_ (bpm s) !! pid = Some f ∧ pages_ (bpm s) !! f = Some pg ∧
      0 < pin_count_ pg ∧ is_Some (mwrite (data_ pg) off bs)
  | OUnpin pid dirty => ∃ f pg, page_table_ (bpm s) !! pid = Some f ∧ pages_ (bpm s) !! f = Some pg ∧
      0 < pin_count_ pg ∧ (dirty = false → f ∈ T → 1 < pin_count_ pg)
  | OFlush _ | OFlushAll _ | ODelete _ => True
  | ONew fd => available s ∧ 0 <= fd < MAX_FD ∧
      let pid := mkPageId fd (next_page (disk s) fd) in
      page_table_ (bpm s) !! pid = None ∧ page_writable (disk s) pid
  end.

Definition taint (op : PoolOp) (T : gset frame_id_t) s s' : gset frame_id_t :=
  match op with
  | OWrite pid _ _ => from_option (λ f, T ∪ {[f]}) T (page_table_ (bpm s) !! pid)
  | OUnpin pid true | OFlush pid => from_option (λ f, T ∖ {[f]}) T (page_table_ (bpm s) !! pid)
  | ONew fd => from_option (λ f, T ∪ {[f]}) T
      (page_table_ (bpm s') !! mkPageId fd (next_page (disk s) fd))
  | _ => T
  end.

(** A history in which every operation is legal when it runs. *)
Inductive legal_history : gset frame_id_t → list PoolOp → Store R → Prop :=
  | lh_nil T s : legal_history T [] s
  | lh_cons T op ops s :
      legal T op s → (let s' := (pool_op op s).2 in legal_history (taint op T s s') ops s') →
      legal_history T (op :: ops) s.

Definition refines (a : PageStore) s : Prop :=
  (∀ pid x, ps_page a pid = Some x → view s pid = Some x) ∧
  (∀ fd, ps_next a fd = next_page (disk s) fd).

(** A pointer to a pinned frame stays good: same page, same bytes. *)
Definition pinned_kept (op : PoolOp) s s' : Prop :=
  ∀ f pg, pages_ (bpm s) !! f = Some pg → 0 < pin_count_ pg →
  ∃ pg', pages_ (bpm s') !! f = Some pg' ∧ id_ pg' = id_ pg ∧
    (match op with
     | OWrite pid _ _ => id_ pg ≠ pid → data_ pg' = data_ pg
     | _ => data_ pg' = data_ pg
     end) ∧
    (match op with
     | OUnpin pid _ => id_ pg ≠ pid → pin_count_ pg' = pin_count_ pg
     | _ => pin_count_ pg <= pin_count_ pg'
     end).

Lemma pinned_kept_other op s s' f :
  (∀ g, g ≠ f → pages_ (bpm s') !! g = pages_ (bpm s) !! g) →
  (∀ q, pages_ (bpm s) !! f = Some q → pin_count_ q = 0) →
  pinned_kept op s s'.
Proof.
  intros Hoth Hpin g pg Hg Hp. exists pg. rewrite Hoth.
  - split_and!; [done|done|by destruct op|by destruct op].
  - intros ->. apply Hpin in Hg. lia.
Qed.

Lemma same_files_next d d' fd : same_files d d' → next_page d' fd = next_page d fd.
Proof. intros [Hdm _]. unfold next_page. by rewrite Hdm. Qed.

Lemma refines_kept a s s' :
  view_kept s s' → same_files (disk s) (disk s') → refines a s → refines a s'.
Proof.
  intros Hv Hsf [Hp Hn]. split; [by auto|]. intros fd. rewrite Hn. symmetry.
  by apply same_files_next.
Qed.

Lemma discard_run {A} (m : M (Store R) A) s r s' : m s = (Ret r, s') → discard m s = (Ret tt, s').
Proof. intros H. unfold discard. by rewrite (bind_Ret _ _ _ _ _ H). Qed.

(** One step: what each operation does to the invariant, the abstract store and
    the frames other clients hold. *)
Definition step_ok (op : PoolOp) T s : Prop :=
  ∃ s', pool_op op s = (Ret tt, s') ∧ bp_inv ∅ (taint op T s s') s' ∧
    (∀ a, refines a s → refines (spec_op op a) s') ∧ pinned_kept op s s'.

Lemma fetch_hit_view T s f pg r pid :
  bp_inv ∅ T s → pages_ (bpm s) !! f = Some pg → resident pg →
  view (updated f (set_pin (pin_count_ pg + 1) pg) r (disk s) s) pid = view s pid.
Proof.
  intros Hi Hpg Hr. erewrite updated_view by done. case_decide as Hd.
  - subst. symmetry. apply (bp_inv_view_frame ∅ T s _ f pg); [done| |done].
    apply (bi_table _ _ _ Hi). split; [apply not_elem_of_empty|eauto].
  - unfold view. by destruct (page_table_ (bpm s) !! pid).
Qed.

Lemma step_fetch T pid s : bp_inv ∅ T s → legal T (OFetch pid) s → step_ok (OFetch pid) T s.
Proof.
  intros Hi ([x Hx]&Hw&Hav). destruct (page_table_ (bpm s) !! pid) as [f|] eqn:Ht.
  - destruct (bp_inv_table_frame _ _ _ _ _ Hi Ht) as (_&pg&Hpg&Hid&Hr).
    destruct (fetch_hit T s pid f pg Hi Ht Hpg) as [Hrun Hi'].
    eexists. split; [by eapply discard_run|]. split; [done|]. split.
    + intros a. apply refines_kept; [|done]. intros pid' y Hy.
      by rewrite (fetch_hit_view T s f pg).
    + intros g q Hq Hp. simpl. rewrite lookup_insert. case_decide; subst.
      * eexists. split; [done|]. simplify_eq. simpl. split_and!; [done..|lia].
      * exists q. by split_and!.
  - destruct Hav as [[? ?]|Hav]; [done|]. unfold view in Hx. rewrite Ht in Hx.
    destruct (fetch_miss T s pid x Hi Ht Hav Hx Hw) as (f&s'&Hrun&Hi'&Hv&_&_&Ho&Hp&Hsf).
    exists s'. split; [by eapply discard_run|]. split; [done|]. split.
    + intros a. by apply refines_kept.
    + by eapply pinned_kept_other.
Qed.

Lemma step_write T pid off bs s :
  bp_inv ∅ T s → legal T (OWrite pid off bs) s → step_ok (OWrite pid off bs) T s.
Proof.
  intros Hi (f&pg&Ht&Hpg&Hpin&[d Hd]).
  destruct (bp_inv_table_frame _ _ _ _ _ Hi Ht) as (_&q&?&Hid&Hr). simplify_eq.
  destruct (frame_write_ok T s f pg off bs d Hi Hpg Hr Hpin Hd) as (Hrun&Hi'&Hv).
  assert (Hvf : view s (id_ pg) = Some (data_ pg)) by by eapply bp_inv_view_frame.
  eexists. split; [unfold pool_op, bind at 1, gets; rewrite Ht; exact Hrun|].
  simpl. rewrite Ht. split; [done|]. split.
  - intros a [Hp Hn]. split; [|done]. intros pid x. simpl. unfold fn_upd. rewrite Hv.
    case_decide; [subst|by auto]. destruct (ps_page a (id_ pg)) as [y|] eqn:Ey; [|done].
    apply Hp in Ey. simpl. congruence.
  - intros g q Hq Hp. simpl. rewrite lookup_insert. case_decide; subst.
    + eexists. split; [done|]. simplify_eq. by split_and!.
    + exists q. by split_and!.
Qed.

Lemma step_unpin T pid dirty s :
  bp_inv ∅ T s → legal T (OUnpin pid dirty) s → step_ok (OUnpin pid dirty) T s.
Proof.
  intros Hi (f&pg&Ht&Hpg&Hpin&HT).
  destruct (bp_inv_table_frame _ _ _ _ _ Hi Ht) as (_&q&?&Hid&Hr). simplify_eq.
  destruct (unpin_ok T s (id_ pg) f pg dirty Hi Ht Hpg Hpin HT) as (Hrun&Hi'&Hv).
  eexists. split; [by eapply discard_run|]. simpl. rewrite Ht. simpl. split; [by destruct dirty|]. split.
  - intros a. apply refines_kept; [|done]. intros ? x Hx. by rewrite Hv.
  - intros g q Hq Hp. simpl. rewrite lookup_insert. case_decide; subst.
    + eexists. split; [done|]. simplify_eq. by split_and!.
    + exists q. by split_and!.
Qed.

Lemma pinned_kept_flushing op s s' :
  flushing s s' → pinned_kept op s s'.
Proof.
  intros (_&_&_&_&Hf&_) f pg Hpg Hp. specialize (Hf f). rewrite Hpg in Hf.
  destruct (pages_ (bpm s') !! f) as [q|]; [|done]. exists q. injection Hf as E1 E2 E3.
  rewrite E1, E2, E3. split_and!; [done|done|by destruct op|by destruct op].
Qed.

Lemma step_flush T pid s : bp_inv ∅ T s → step_ok (OFlush pid) T s.
Proof.
  intros Hi. unfold step_ok, taint, pool_op, spec_op.
  destruct (page_table_ (bpm s) !! pid) as [f|] eqn:Ht.
  - destruct (bp_inv_table_frame _ _ _ _ _ Hi Ht) as (_&pg&Hpg&Hid&Hr).
    destruct (write_back_ok T s f pg Hi Hpg Hr) as (d'&Hw&Hi'&_&Hv&Hd&Hsf&_).
    rewrite Hid in Hw. eexists. split; [by eapply discard_run, flush_run|]. split; [done|]. split.
    + intros a. by apply refines_kept.
    + apply pinned_kept_flushing. eapply write_back_flushing; try done. by rewrite Hid.
  - exists s. split; [|split; [done|split; [done|by apply pinned_kept_flushing]]].
    apply (discard_run _ _ false). unfold flush_page, bind at 1, gets. by rewrite Ht.
Qed.

Lemma step_flush_all T fd s : bp_inv ∅ T s → step_ok (OFlushAll fd) T s.
Proof.
  intros Hi. destruct (flush_all_ok fd T s Hi) as (s'&Hrun&Hi'&Hf&_).
  exists s'. split_and!; [done|done| |by apply pinned_kept_flushing].
  intros a. apply refines_kept; apply Hf.
Qed.

Lemma delete_refused s pid f pg :
  page_table_ (bpm s) !! pid = Some f → pages_ (bpm s) !! f = Some pg → pin_count_ pg ≠ 0 →
  delete_page pid s = (Ret false, s).
Proof.
  intros Ht Hpg Hpin. unfold delete_page, bind at 1, gets. rewrite Ht.
  rewrite (bind_Ret _ _ _ _ _ (frame_run _ _ _ Hpg)). by rewrite (proj2 (Z.eqb_neq _ _)).
Qed.

Lemma step_delete T pid s : bp_inv ∅ T s → step_ok (ODelete pid) T s.
Proof.
  intros Hi. destruct (page_table_ (bpm s) !! pid) as [f|] eqn:Ht.
  - destruct (bp_inv_table_frame _ _ _ _ _ Hi Ht) as (_&pg&Hpg&Hid&Hr).
    destruct (decide (pin_count_ pg = 0)) as [Hpin|Hpin].
    + destruct (delete_ok T s pid f pg Hi Ht Hpg Hpin) as (s'&Hrun&Hi'&Hv&_&_&_&Hsf&Ho).
      exists s'. split; [by eapply discard_run|]. split; [done|]. split.
      * intros a. by apply refines_kept.
      * eapply pinned_kept_other; [done|]. intros q Hq. by simplify_eq.
    + exists s. split_and!; [|done|done|by apply pinned_kept_flushing].
      by eapply discard_run, delete_refused.
  - exists s. split_and!; [|done|done|by apply pinned_kept_flushing].
    apply (discard_run _ _ true). unfold delete_page, bind at 1, gets. by rewrite Ht.
Qed.

Lemma step_new T fd s : bp_inv ∅ T s → legal T (ONew fd) s → step_ok (ONew fd) T s.
Proof.
  intros Hi (Hav&Hfd&Hn&Hw).
  destruct (new_ok T s fd Hi Hav Hfd Hn Hw) as (f&s'&Hrun&Hi'&Hv&Hz&Ht&_&Ho&Hp&Hnx&Hnx'&_).
  exists s'. split; [by eapply discard_run|]. simpl. rewrite Ht. split; [done|]. split.
  - intros a [Hpa Hna]. split; simpl; rewrite Hna.
    + intros pid x. unfold fn_upd. case_decide; [subst; by intros [= <-]|]. auto.
    + intros fd'. unfold fn_upd. case_decide; [by subst|]. rewrite Hnx' by done. auto.
  - by eapply pinned_kept_other.
Qed.

Lemma pool_step T op s : bp_inv ∅ T s → legal T op s → step_ok op T s.
Proof.
  destruct op; auto using step_fetch, step_write, step_unpin, step_flush, step_flush_all,
    step_delete, step_new.
Qed.

Lemma pool_history T ops s :
  bp_inv ∅ T s → legal_history T ops s →
  ∃ s' T', pool_ops ops s = (Ret tt, s') ∧ bp_inv ∅ T' s' ∧
    (∀ a, refines a s → refines (foldl (λ b op, spec_op op b) a ops) s').
Proof.
  revert T s. induction ops as [|op ops IH]; intros T s Hi Hl.
  - exists s, T. by split_and!.
  - inversion Hl as [|? ? ? ? Hop Hrest]; subst.
    destruct (pool_step T op s Hi Hop) as (s1&Hrun&Hi1&Hr1&_).
    unfold pool_ops in *. simpl in *. rewrite Hrun in Hrest. simpl in Hrest.
    destruct (IH _ s1 Hi1 Hrest) as (s2&T2&Hrun2&Hi2&Hr2).
    exists s2, T2. rewrite (bind_Ret _ _ _ _ _ Hrun). by split_and!; auto.
Qed.

(** Fetching when no frame can be taken. *)
Lemma fetch_exhausted H T s pid :
  bp_inv H T s → page_table_ (bpm s) !! pid = None → ¬ available s →
  fetch_page pid s = (Ret None, s).
Proof.
  intros Hi Hn Hav. unfold fetch_page, bind at 1, gets. rewrite Hn.
  unfold bind, find_victim_page. destruct (free_list_ (bpm s)) as [|f l] eqn:Ef.
  - rewrite victim_none; [by destruct s as [[] ?]|apply Hi|].
    destruct (decide (evictable (replacer_ (bpm s)) = ∅)) as [|Hne]; [done|].
    destruct Hav. by right.
  - destruct Hav. left. by rewrite Ef.
Qed.

(** Fetching a page the file does not hold, into a free frame. *)
Lemma fetch_short T s pid f rest c :
  bp_inv ∅ T s → page_table_ (bpm s) !! pid = None → free_list_ (bpm s) = f :: rest →
  fd_content (os (disk s)) (pid_fd pid) = Some c → 0 <= pid_no pid →
  Z.of_nat (length c) < (pid_no pid + 1) * PAGE_SIZE →
  ∃ s', fetch_page pid s = (Throw (InternalError "DiskManager::read_page Error"), s') ∧
    bp_inv {[f]} T s' ∧ view_kept s s' ∧ same_files (disk s) (disk s') ∧
    replacer_ (bpm s') = replacer_ (bpm s).
Proof.
  intros Hi Hn Hfree Hc Hno Hlen.
  destruct (claim_run T s Hi) as (f'&s1&s2&pg&Hfv&Hev&He); [left; by rewrite Hfree|].
  assert (f' = f) as ->.
  { unfold find_victim_page in Hfv. rewrite Hfree in Hfv. by simplify_eq. }
  assert (Hidle : is_dirty_ pg = false).
  { assert (f ∈ free_list_ (bpm s)) as (Hf&q&Hq&Hr)%(bi_free _ _ _ Hi) by (rewrite Hfree; left).
    rewrite (ev_frame _ _ _ _ He) in Hq. simplify_eq.
    by apply (bi_idle _ _ _ Hi f q Hf (ev_frame _ _ _ _ He)). }
  pose proof (ev_unwritten _ _ _ _ He Hidle) as Hd.
  pose proof (evicted_inv _ _ _ _ _ Hi He) as Hi2.
  assert (Hf2 : pages_ (bpm s2) !! f = Some (set_dirty false pg))
    by (rewrite (ev_pages _ _ _ _ He); apply lookup_insert_eq).
  assert (Hl : Z.of_nat (length (data_ (set_dirty false pg))) = PAGE_SIZE) by by eapply (bi_len _ _ _ Hi2).
  unfold fd_content in Hc. destruct (os_fds (os (disk s)) !! pid_fd pid) as [[p off]|] eqn:Efd; [|done].
  destruct (read_page_short (disk s) (pid_fd pid) (pid_no pid) (data_ (set_dirty false pg)) p off c)
    as (d'&Hrd&Hsf&Hdp); [done..|].
  eexists. split; [|split; [|split]].
  - unfold fetch_page, bind at 1, gets. rewrite Hn.
    rewrite (bind_Ret _ _ _ _ _ Hfv), (bind_Ret _ _ _ _ _ Hev).
    apply bind_Throw. unfold read_into_frame. rewrite Hf2, Hd. by rewrite Hrd.
  - apply bp_inv_set_disk; [|by rewrite <- Hd in Hsf|by intros ??; rewrite Hdp, <- Hd].
    eapply hole_frame; [done|set_solver|done|]. simpl. rewrite length_app, !length_drop.
    simpl in Hl. unfold PAGE_SIZE in *. lia.
  - intros pid' x Hx%(evicted_view _ _ _ _ _ Hi He). unfold view in *. simpl.
    destruct (page_table_ (bpm s2) !! pid') as [g|] eqn:Eg; [|by rewrite Hdp, <- Hd].
    apply (bi_table _ _ _ Hi2) in Eg as [Hg _]. by rewrite lookup_insert_ne by set_solver.
  - split; [done|]. unfold find_victim_page in Hfv. rewrite Hfree in Hfv. simplify_eq.
    pose proof (ev_frame _ _ _ _ He) as Hpg.
    unfold evict_frame in Hev. rewrite (bind_Ret _ _ _ _ _ (frame_run (upd_free _ s) f pg Hpg)), Hidle in Hev.
    unfold bind, ret in Hev. destruct (pid_no (id_ pg) =? INVALID_PAGE_ID); by inversion Hev.
Qed.

(** ** The claims *)

(** C10: A client that follows the pin discipline (it fetches only pages that exist,
    writes only pages it has pinned, and does not release the last pin of a page it
    wrote as clean) sees an abstract page store: the pool never throws and never
    crashes on such a history, keeps its invariant, and after the history every page
    reads as the history says, whatever was evicted, flushed or deleted meanwhile. *)
Theorem pool_refines_page_store T s a ops :
  bp_inv ∅ T s → legal_history T ops s → refines a s →
  ∃ s' T', pool_ops ops s = (Ret tt, s') ∧ bp_inv ∅ T' s' ∧
    refines (foldl (λ b op, spec_op op b) a ops) s'.
Proof.
  intros Hi Hl Ha. destruct (pool_history T ops s Hi Hl) as (s'&T'&Hr&Hi'&Hs). eauto 6.
Qed.

(** C19: A page pointer stays good while its holder has a pin: in any history that
    follows the discipline and neither writes nor unpins page [id_ pg] itself, the
    frame still holds the same page with the same bytes at the end. *)
Theorem pinned_page_stable T s ops f pg :
  bp_inv ∅ T s → legal_history T ops s →
  pages_ (bpm s) !! f = Some pg → 0 < pin_count_ pg →
  Forall (λ op, match op with OWrite pid _ _ | OUnpin pid _ => pid ≠ id_ pg | _ => True end) ops →
  ∃ s' pg', pool_ops ops s = (Ret tt, s') ∧ pages_ (bpm s') !! f = Some pg' ∧
    id_ pg' = id_ pg ∧ data_ pg' = data_ pg ∧ pin_count_ pg <= pin_count_ pg'.
Proof.
  revert T s pg. induction ops as [|op ops IH]; intros T s pg Hi Hl Hpg Hpin Hf.
  - exists s, pg. by split_and!.
  - inversion Hl as [|? ? ? ? Hop Hrest]; subst. inversion Hf as [|? ? Hop' Hf']; subst.
    destruct (pool_step T op s Hi Hop) as (s1&Hrun&Hi1&_&Hk).
    rewrite Hrun in Hrest. simpl in Hrest.
    destruct (Hk f pg Hpg Hpin) as (pg1&Hpg1&Hid&Hdata&Hp1).
    assert (data_ pg1 = data_ pg) as Hd1 by (destruct op; auto).
    assert (pin_count_ pg <= pin_count_ pg1) as Hle
      by (destruct op; auto; rewrite Hp1 by auto; lia).
    destruct (IH _ s1 pg1 Hi1 Hrest Hpg1) as (s2&pg2&Hrun2&Hpg2&Hid2&Hd2&Hp2); [lia|by rewrite Hid|].
    exists s2, pg2. unfold pool_ops. simpl. rewrite (bind_Ret _ _ _ _ _ Hrun).
    split_and!; [done|done|congruence|congruence|lia].
Qed.

(** C30: [fetch_page] of an existing page: when the page is resident or a frame can be
    taken, the caller gets a pinned frame that holds the page's current bytes, and
    every page still reads as before; otherwise it gets the null pointer and nothing
    changes. *)
Theorem fetch_page_result T s pid x :
  bp_inv ∅ T s → view s pid = Some x → page_writable (disk s) pid →
  (is_Some (page_table_ (bpm s) !! pid) ∨ available s →
   ∃ f pg s', fetch_page pid s = (Ret (Some f), s') ∧ pages_ (bpm s') !! f = Some pg ∧
     id_ pg = pid ∧ data_ pg = x ∧ 0 < pin_count_ pg ∧ bp_inv ∅ T s' ∧ view_kept s s') ∧
  (page_table_ (bpm s) !! pid = None → ¬ available s → fetch_page pid s = (Ret None, s)).
Proof.
  intros Hi Hx Hw. split; [|by eapply fetch_exhausted]. intros Hav.
  destruct (page_table_ (bpm s) !! pid) as [f|] eqn:Ht.
  - destruct (bp_inv_table_frame _ _ _ _ _ Hi Ht) as (_&pg&Hpg&Hid&Hr).
    destruct (fetch_hit T s pid f pg Hi Ht Hpg) as [Hrun Hi'].
    rewrite (bp_inv_view_frame ∅ T s _ f pg) in Hx by done. simplify_eq.
    pose proof (bi_pin _ _ _ Hi f pg (not_elem_of_empty f) Hpg).
    exists f, (set_pin (pin_count_ pg + 1) pg). eexists. split; [done|]. simpl.
    split_and!; [apply lookup_insert_eq|done|done|lia|done|].
    intros pid y Hy. by rewrite (fetch_hit_view T s f pg).
  - destruct Hav as [[? ?]|Hav]; [done|]. unfold view in Hx. rewrite Ht in Hx.
    destruct (fetch_miss T s pid x Hi Ht Hav Hx Hw) as (f&s'&Hrun&Hi'&Hv&_&Hpg&_).
    exists f, (mkPage pid x false 1), s'. by split_and!.
Qed.

(** C20: After [flush_all_pages(fd)] the file system holds the current bytes of every
    page of the file, nothing else changed for any client, and the pool keeps its
    invariant. *)
Theorem flush_all_durable T s fd :
  bp_inv ∅ T s →
  ∃ s', flush_all_pages fd s = (Ret tt, s') ∧ bp_inv ∅ T s' ∧ view_kept s s' ∧
    ∀ pid x, pid_fd pid = fd → view s pid = Some x → disk_page (disk s') pid = Some x.
Proof.
  intros Hi. destruct (flush_all_ok fd T s Hi) as (s'&Hrun&Hi'&Hf&Hsy).
  exists s'. split_and!; [done|done|apply Hf|]. intros pid x Hfd Hx%(proj1 Hf).
  by eapply synced_disk.
Qed.

(** When the page is not in the file, [fetch_page] throws from [read_page] after it
    has taken a free frame, and the frame is lost: it is on no list of the pool, no
    page maps to it, and it is not a candidate for eviction (unless it already was). *)
Theorem fetch_page_failure_leaks_frame T s pid f rest c :
  bp_inv ∅ T s → page_table_ (bpm s) !! pid = None → free_list_ (bpm s) = f :: rest →
  fd_content (os (disk s)) (pid_fd pid) = Some c → 0 <= pid_no pid →
  Z.of_nat (length c) < (pid_no pid + 1) * PAGE_SIZE →
  ∃ s', fetch_page pid s = (Throw (InternalError "DiskManager::read_page Error"), s') ∧
    view_kept s s' ∧ (f ∉ free_list_ (bpm s')) ∧
    (∀ pid', page_table_ (bpm s') !! pid' ≠ Some f) ∧
    replacer_ (bpm s') = replacer_ (bpm s).
Proof.
  intros Hi Hn Hfree Hc Hno Hlen.
  destruct (fetch_short T s pid f rest c) as (s'&Hrun&Hi'&Hv&_&Hrep); [done..|].
  exists s'. split_and!; [done|done| | |done].
  - intros [? _]%(bi_free _ _ _ Hi'). set_solver.
  - intros pid' [? _]%(bi_table _ _ _ Hi'). set_solver.
Qed.
End props.

(** ** Witnesses: a pool of two frames with the LRU replacer over a one-page file *)

Definition pool_example : Store LRUReplacer :=
  mkStore (BufferPoolManager_init 2 (LRUReplacer_init 2)) disk_example.

Lemma pool_example_inv : bp_inv ∅ ∅ pool_example.
Proof. apply bp_inv_init; [apply lru_inv_init|reflexivity|reflexivity|]. apply disk_inv_distinct, disk_example_inv. Qed.

Definition history_example : list PoolOp :=
  [OFetch (mkPageId 3 0); OWrite (mkPageId 3 0) 7 [x41; x42]; OUnpin (mkPageId 3 0) true; OFlushAll 3;
   ODelete (mkPageId 3 0); OFetch (mkPageId 3 0)].

Definition store_example : PageStore :=
  mkPS (λ pid, if decide (pid = mkPageId 3 0) then Some (zeros PAGE_SIZE) else None) (λ _, 0).

Lemma refines_example : refines store_example pool_example.
Proof.
  split.
  - intros pid x. simpl. case_decide; [subst|done]. intros [= <-]. vm_compute. reflexivity.
  - reflexivity.
Qed.

Lemma history_example_legal : legal_history ∅ history_example pool_example.
Proof.
  constructor; [|constructor; [|constructor; [|constructor; [|constructor; [|constructor; [|constructor]]]]]];
    unfold legal.
  - split; [vm_compute; eauto|]. split; [|right; left; vm_compute; discriminate].
    split; [vm_compute; eauto|]. vm_compute. split; discriminate.
  - eexists _, _. split; [vm_compute; reflexivity|]. split; [vm_compute; reflexivity|].
    split; [vm_compute; reflexivity|]. vm_compute; eauto.
  - eexists _, _. split; [vm_compute; reflexivity|]. split; [vm_compute; reflexivity|].
    split; [vm_compute; reflexivity|]. discriminate.
  - done.
  - done.
  - split; [vm_compute; eauto|]. split; [|right; left; vm_compute; discriminate].
    split; [vm_compute; eauto|]. vm_compute. split; discriminate.
Qed.

Lemma pool_refines_page_store_witness :
  ∃ s' T', pool_ops history_example pool_example = (Ret tt, s') ∧ bp_inv ∅ T' s' ∧
    refines (foldl (λ b op, spec_op op b) store_example history_example) s'.
Proof.
  apply (pool_refines_page_store ∅).
  - apply pool_example_inv.
  - apply history_example_legal.
  - apply refines_example.
Defined.

(** A frame pinned by the first fetch, while another client creates a page. *)
Definition pinned_example : Store LRUReplacer := (pool_ops [OFetch (mkPageId 3 0)] pool_example).2.

Lemma pinned_example_inv : bp_inv ∅ ∅ pinned_example.
Proof.
  destruct (pool_step ∅ (OFetch (mkPageId 3 0)) pool_example pool_example_inv) as (s'&Hr&Hi&_).
  - pose proof history_example_legal as Hl. inversion Hl. done.
  - unfold pinned_example, pool_ops. simpl for_each. by rewrite (bind_Ret _ _ _ _ _ Hr).
Qed.

Lemma pinned_page_stable_witness :
  ∃ s' pg', pool_ops [OFetch (mkPageId 3 0); OFlush (mkPageId 3 0)] pinned_example = (Ret tt, s') ∧
    pages_ (bpm s') !! 0 = Some pg' ∧ id_ pg' = mkPageId 3 0 ∧ data_ pg' = zeros 4096 ∧ 1 <= pin_count_ pg'.
Proof.
  apply (pinned_page_stable ∅ pinned_example _ 0 (mkPage (mkPageId 3 0) (zeros 4096) false 1)).
  - apply pinned_example_inv.
  - constructor; [|constructor; [done|constructor]].
    split; [vm_compute; eauto|]. split; [|left; vm_compute; eauto].
    split; [vm_compute; eauto|]. vm_compute. split; discriminate.
  - vm_compute. reflexivity.
  - reflexivity.
  - repeat constructor.
Defined.

Lemma fetch_page_result_witness :
  ∃ f pg s', fetch_page (mkPageId 3 0) pool_example = (Ret (Some f), s') ∧ pages_ (bpm s') !! f = Some pg ∧
     id_ pg = mkPageId 3 0 ∧ data_ pg = zeros 4096 ∧ 0 < pin_count_ pg ∧ bp_inv ∅ ∅ s' ∧ view_kept pool_example s'.
Proof.
  apply (fetch_page_result ∅ pool_example (mkPageId 3 0) (zeros 4096)).
  - apply pool_example_inv.
  - vm_compute. reflexivity.
  - split; [vm_compute; eauto|]. vm_compute. split; discriminate.
  - right; left. vm_compute. discriminate.
Defined.

Lemma flush_all_durable_witness :
  ∃ s', flush_all_pages 3 pinned_example = (Ret tt, s') ∧ bp_inv ∅ ∅ s' ∧ view_kept pinned_example s' ∧
    ∀ pid x, pid_fd pid = 3 → view pinned_example pid = Some x → disk_page (disk s') pid = Some x.
Proof. apply (flush_all_durable ∅ pinned_example 3). apply pinned_example_inv. Defined.

Lemma fetch_page_failure_leaks_frame_witness :
  ∃ s', fetch_page (mkPageId 3 5) pool_example = (Throw (InternalError "DiskManager::read_page Error"), s') ∧
    view_kept pool_example s' ∧ (0 ∉ free_list_ (bpm s')) ∧
    (∀ pid', page_table_ (bpm s') !! pid' ≠ Some 0) ∧
    replacer_ (bpm s') = replacer_ (bpm pool_example).
Proof.
  apply (fetch_page_failure_leaks_frame ∅ pool_example (mkPageId 3 5) 0 [1] (zeros 4096)).
  - apply pool_example_inv.
  - reflexivity.
  - reflexivity.
  - vm_compute. reflexivity.
  - simpl. lia.
  - reflexivity.
Defined.
