(* ===== verification/Bitmap.v ===== *)
(** * Bitmap

    [record/bitmap.h]: a bitmap stored in [char]s, highest bit first.  A bitmap is
    addressed as a buffer and the offset [bm] at which it starts; an access outside
    the buffer gives [None].  [char] is signed on the target, and the bit tests of the
    code go through [int], so the model keeps the sign extension. *)

From S2P Require Import Prelude Errors Config.
From stdpp Require Import options.

Definition BITMAP_WIDTH : Z := 8.
Definition BITMAP_HIGHEST_BIT : Z := 128.

(** The value of a [char], and the [char] an [int] is truncated to. *)
Definition to_char (z : Z) : Z := (z + 128) mod 256 - 128.
Definition char_val (b : byte) : Z := to_char (byte_val b).

Definition char_at (buf : list byte) (off : Z) : option byte :=
  mread buf off 1 ≫= head.

Definition get_bucket (pos : Z) : Z := Z.quot pos BITMAP_WIDTH.

Definition get_bit (pos : Z) : Z :=
  to_char (Z.shiftr BITMAP_HIGHEST_BIT (Z.rem pos BITMAP_WIDTH)).

Definition bitmap_init (buf : list byte) (bm size : Z) : option (list byte) :=
  mwrite buf bm (zeros size).

(** A negative position shifts by a negative amount: undefined, [None]. *)
Definition bitmap_set (buf : list byte) (bm pos : Z) : option (list byte) :=
  if pos <? 0 then None
  else b ← char_at buf (bm + get_bucket pos);
       mwrite buf (bm + get_bucket pos) [byte_of (Z.lor (char_val b) (get_bit pos))].

Definition bitmap_reset (buf : list byte) (bm pos : Z) : option (list byte) :=
  if pos <? 0 then None
  else b ← char_at buf (bm + get_bucket pos);
       mwrite buf (bm + get_bucket pos) [byte_of (Z.land (char_val b) (to_char (Z.lnot (get_bit pos))))].

Definition is_set (buf : list byte) (bm pos : Z) : option bool :=
  if pos <? 0 then None
  else b ← char_at buf (bm + get_bucket pos);
       Some (negb (Z.land (char_val b) (get_bit pos) =? 0)).

(** The loop of [next_bit] at index [i], with [fuel] iterations left. *)
Fixpoint next_bit_loop (bit : bool) (buf : list byte) (bm max_n i : Z) (fuel : nat) : option Z :=
  match fuel with
  | O => Some max_n
  | S fuel' =>
      b ← is_set buf bm i;
      if bool_decide (b = bit) then Some i else next_bit_loop bit buf bm max_n (i + 1) fuel'
  end.

(** The loop makes [max_n - (curr + 1)] iterations at most. *)
Definition next_bit (bit : bool) (buf : list byte) (bm max_n curr : Z) : option Z :=
  next_bit_loop bit buf bm max_n (curr + 1) (Z.to_nat (max_n - (curr + 1))).

Definition first_bit (bit : bool) (buf : list byte) (bm max_n : Z) : option Z :=
  next_bit bit buf bm max_n (-1).

(** ** One byte *)

(** Bit [i] of a byte, counted from the highest. *)
Definition byte_bit (b : byte) (i : Z) : bool := Z.testbit (byte_val b) (7 - i).

Definition all_bytes : list byte := byte_of <$> seqZ 0 256.
Definition bit_positions : list Z := seqZ 0 8.

Lemma all_bytes_spec b : b ∈ all_bytes.
Proof.
  apply list_elem_of_fmap. exists (byte_val b). rewrite byte_of_val, elem_of_seqZ.
  pose proof (byte_val_range b). split; [done|lia].
Qed.

(** A fact about all bytes and two bit positions is checked by evaluation. *)
Lemma byte_cases (P : byte → Z → Z → bool) :
  forallb (λ b, forallb (λ i, forallb (P b i) bit_positions) bit_positions) all_bytes = true →
  ∀ b i j, 0 <= i < 8 → 0 <= j < 8 → P b i j = true.
Proof.
  intros H b i j Hi Hj. rewrite forallb_forall in H.
  assert (Hin : ∀ k, 0 <= k < 8 → In k bit_positions).
  { intros k Hk. apply list_elem_of_In. apply elem_of_seqZ. lia. }
  specialize (H b (proj1 (list_elem_of_In _ _) (all_bytes_spec b))). rewrite forallb_forall in H.
  specialize (H i (Hin i Hi)). rewrite forallb_forall in H. auto.
Qed.

Lemma byte_test b i : 0 <= i < 8 → negb (Z.land (char_val b) (get_bit i) =? 0) = byte_bit b i.
Proof.
  intros Hi. apply eqb_prop.
  apply (byte_cases (λ b i _, eqb (negb (Z.land (char_val b) (get_bit i) =? 0)) (byte_bit b i))) with (j := 0);
    [vm_compute; reflexivity|lia..].
Qed.

Lemma byte_set b i j : 0 <= i < 8 → 0 <= j < 8 →
  byte_bit (byte_of (Z.lor (char_val b) (get_bit i))) j = (i =? j) || byte_bit b j.
Proof.
  intros Hi Hj. apply eqb_prop.
  apply (byte_cases (λ b i j, eqb (byte_bit (byte_of (Z.lor (char_val b) (get_bit i))) j)
    ((i =? j) || byte_bit b j))); [vm_compute; reflexivity|lia..].
Qed.

Lemma byte_reset b i j : 0 <= i < 8 → 0 <= j < 8 →
  byte_bit (byte_of (Z.land (char_val b) (to_char (Z.lnot (get_bit i))))) j =
  negb (i =? j) && byte_bit b j.
Proof.
  intros Hi Hj. apply eqb_prop.
  apply (byte_cases (λ b i j, eqb (byte_bit (byte_of (Z.land (char_val b) (to_char (Z.lnot (get_bit i))))) j)
    (negb (i =? j) && byte_bit b j))); [vm_compute; reflexivity|lia..].
Qed.

Lemma byte_bit_zero i : 0 <= i < 8 → byte_bit x00 i = false.
Proof. intros. unfold byte_bit. change (byte_val x00) with 0. apply Z.testbit_0_l. Qed.

(** ** The abstract bitmap *)

(** Bit [pos] of the bitmap at [bm]; false outside the buffer. *)
Definition bit_at (buf : list byte) (bm pos : Z) : bool :=
  from_option (λ b, byte_bit b (pos mod 8)) false (buf !! Z.to_nat (bm + pos / 8)).

Lemma char_at_lookup buf off b :
  char_at buf off = Some b ↔ 0 <= off ∧ buf !! Z.to_nat off = Some b.
Proof.
  unfold char_at. destruct (mread buf off 1) as [r|] eqn:E; simpl.
  - pose proof (mread_length _ _ _ _ E). pose proof (mread_lookup _ _ _ _ 0 E) as Hl.
    rewrite Nat.add_0_r in Hl. apply mread_Some in E as (?&_&_&_).
    destruct r as [|c [|]]; [simpl in *; lia| |simpl in *; lia].
    simpl in *. rewrite <- Hl by lia. naive_solver.
  - split; [done|]. intros [Ho Hl]. apply lookup_lt_Some in Hl.
    destruct (mread_is_Some buf off 1) as [r Hr]; [lia..|]. congruence.
Qed.

Lemma get_bucket_div pos : 0 <= pos → get_bucket pos = pos / 8.
Proof. intros. unfold get_bucket, BITMAP_WIDTH. by apply Z.quot_div_nonneg. Qed.

Lemma get_bit_mod pos : 0 <= pos → get_bit pos = get_bit (pos mod 8).
Proof.
  intros. unfold get_bit, BITMAP_WIDTH. rewrite !Z.rem_mod_nonneg by (try lia; apply Z.mod_pos_bound; lia).
  by rewrite Z.mod_mod.
Qed.

(** The bitmap of [n] bits at [bm] lies in the buffer. *)
Definition bitmap_in (buf : list byte) (bm n : Z) : Prop :=
  0 <= bm ∧ bm + (n + 7) / 8 <= Z.of_nat (length buf).

Lemma bitmap_byte buf bm n pos :
  bitmap_in buf bm n → 0 <= pos < n →
  ∃ b, char_at buf (bm + get_bucket pos) = Some b ∧
    bit_at buf bm pos = byte_bit b (pos mod 8).
Proof.
  intros [Hbm Hlen] Hpos. rewrite get_bucket_div by lia.
  assert (Hlt : (Z.to_nat (bm + pos / 8) < length buf)%nat).
  { assert (pos / 8 < (n + 7) / 8); [|assert (0 <= pos / 8) by (apply Z.div_pos; lia); lia].
    apply Z.lt_le_trans with (pos / 8 + 1); [lia|].
    replace (pos / 8 + 1) with ((pos + 1 * 8) / 8) by (rewrite Z.div_add; lia).
    apply Z.div_le_mono; lia. }
  destruct (lookup_lt_is_Some_2 _ _ Hlt) as [b Hb]. exists b.
  split; [apply char_at_lookup; split; [assert (0 <= pos / 8) by (apply Z.div_pos; lia); lia|done]|].
  unfold bit_at. by rewrite Hb.
Qed.

Lemma is_set_spec buf bm n pos :
  bitmap_in buf bm n → 0 <= pos < n → is_set buf bm pos = Some (bit_at buf bm pos).
Proof.
  intros Hin Hpos. destruct (bitmap_byte buf bm n pos Hin Hpos) as (b&Hb&->).
  unfold is_set. rewrite (proj2 (Z.ltb_ge _ _)) by lia. rewrite Hb. simpl. f_equal.
  rewrite get_bit_mod by lia. apply byte_test, Z.mod_pos_bound. lia.
Qed.

(** A write of one bitmap byte, seen bit by bit. *)
Lemma bit_at_write buf buf' bm pos pos' b :
  0 <= bm → 0 <= pos → 0 <= pos' →
  mwrite buf (bm + pos / 8) [b] = Some buf' →
  bit_at buf' bm pos' =
    if decide (pos' / 8 = pos / 8) then byte_bit b (pos' mod 8) else bit_at buf bm pos'.
Proof.
  intros Hbm Hp Hp' Hw. unfold bit_at. rewrite (mwrite_lookup _ _ _ _ _ Hw). simpl.
  assert (0 <= pos / 8) by (apply Z.div_pos; lia). assert (0 <= pos' / 8) by (apply Z.div_pos; lia).
  case_decide as Hd; case_decide as Hd'; try lia; [|done].
  by replace (Z.to_nat (bm + pos' / 8) - Z.to_nat (bm + pos / 8))%nat with 0%nat by lia.
Qed.

(** What [set] and [reset] do: one bit changes, and no byte outside the bitmap. *)
Definition bit_written (buf : list byte) (bm n pos : Z) (v : bool) (buf' : list byte) : Prop :=
  length buf' = length buf ∧
  (∀ pos', 0 <= pos' < n → bit_at buf' bm pos' = if decide (pos' = pos) then v else bit_at buf bm pos') ∧
  (∀ i, (i < Z.to_nat bm ∨ Z.to_nat (bm + (n + 7) / 8) <= i)%nat → buf' !! i = buf !! i).

Lemma bit_written_byte buf bm n pos v b b' :
  bitmap_in buf bm n → 0 <= pos < n → char_at buf (bm + get_bucket pos) = Some b →
  (∀ j, 0 <= j < 8 → byte_bit b' j = if decide (j = pos mod 8) then v else byte_bit b j) →
  ∃ buf', mwrite buf (bm + get_bucket pos) [b'] = Some buf' ∧ bit_written buf bm n pos v buf'.
Proof.
  intros Hin Hpos Hb Hb'. pose proof Hin as [Hbm _].
  rewrite get_bucket_div in * by lia. apply char_at_lookup in Hb as [Hoff Hb].
  pose proof (lookup_lt_Some _ _ _ Hb) as Hlt.
  destruct (mwrite_is_Some buf (bm + pos / 8) [b']) as [buf' Hw]; [done|simpl; lia|].
  exists buf'. split; [done|]. split_and!.
  - by eapply mwrite_length.
  - intros pos' Hp'. rewrite (bit_at_write buf buf' bm pos pos' b') by (done || lia).
    pose proof (Z.mod_pos_bound pos' 8). pose proof (Z_div_mod_eq_full pos' 8).
    pose proof (Z_div_mod_eq_full pos 8).
    case_decide as Hd.
    + rewrite Hb' by lia. case_decide; case_decide; try lia; [done|].
      unfold bit_at. by rewrite Hd, Hb.
    + rewrite decide_False; [done|]. by intros ->.
  - intros i Hi. rewrite (mwrite_lookup _ _ _ _ _ Hw). rewrite decide_False; [done|]. simpl.
    assert (pos / 8 < (n + 7) / 8); [|assert (0 <= pos / 8) by (apply Z.div_pos; lia); lia].
    apply Z.lt_le_trans with (pos / 8 + 1); [lia|].
    replace (pos / 8 + 1) with ((pos + 1 * 8) / 8) by (rewrite Z.div_add; lia).
    apply Z.div_le_mono; lia.
Qed.

Lemma bitmap_set_spec buf bm n pos :
  bitmap_in buf bm n → 0 <= pos < n →
  ∃ buf', bitmap_set buf bm pos = Some buf' ∧ bit_written buf bm n pos true buf'.
Proof.
  intros Hin Hpos. destruct (bitmap_byte buf bm n pos Hin Hpos) as (b&Hb&_).
  unfold bitmap_set. rewrite (proj2 (Z.ltb_ge _ _)) by lia. rewrite Hb. simpl.
  eapply bit_written_byte; [done..|]. intros j Hj. rewrite get_bit_mod by lia.
  rewrite byte_set by (try apply Z.mod_pos_bound; lia). case_decide as Hd; [subst; by rewrite Z.eqb_refl|].
  by rewrite (proj2 (Z.eqb_neq _ _)) by congruence.
Qed.

Lemma bitmap_reset_spec buf bm n pos :
  bitmap_in buf bm n → 0 <= pos < n →
  ∃ buf', bitmap_reset buf bm pos = Some buf' ∧ bit_written buf bm n pos false buf'.
Proof.
  intros Hin Hpos. destruct (bitmap_byte buf bm n pos Hin Hpos) as (b&Hb&_).
  unfold bitmap_reset. rewrite (proj2 (Z.ltb_ge _ _)) by lia. rewrite Hb. simpl.
  eapply bit_written_byte; [done..|]. intros j Hj. rewrite get_bit_mod by lia.
  rewrite byte_reset by (try apply Z.mod_pos_bound; lia). case_decide as Hd; [subst; by rewrite Z.eqb_refl|].
  by rewrite (proj2 (Z.eqb_neq _ _)) by congruence.
Qed.

Lemma bitmap_init_spec buf bm n :
  bitmap_in buf bm n → 0 <= n →
  ∃ buf', bitmap_init buf bm ((n + 7) / 8) = Some buf' ∧ length buf' = length buf ∧
    (∀ pos, 0 <= pos < n → bit_at buf' bm pos = false) ∧
    (∀ i, (i < Z.to_nat bm ∨ Z.to_nat (bm + (n + 7) / 8) <= i)%nat → buf' !! i = buf !! i).
Proof.
  intros [Hbm Hlen] Hn. assert (0 <= (n + 7) / 8) by (apply Z.div_pos; lia).
  destruct (mwrite_is_Some buf bm (zeros ((n + 7) / 8))) as [buf' Hw];
    [done|rewrite length_zeros; lia|].
  exists buf'. split; [done|]. split_and!.
  - by eapply mwrite_length.
  - intros pos Hp. unfold bit_at. rewrite (mwrite_lookup _ _ _ _ _ Hw), length_zeros.
    assert (0 <= pos / 8) by (apply Z.div_pos; lia).
    assert (pos / 8 < (n + 7) / 8).
    { apply Z.lt_le_trans with (pos / 8 + 1); [lia|].
      replace (pos / 8 + 1) with ((pos + 1 * 8) / 8) by (rewrite Z.div_add; lia).
      apply Z.div_le_mono; lia. }
    rewrite decide_True by lia. unfold zeros. rewrite lookup_replicate_2 by lia. simpl.
    apply byte_bit_zero, Z.mod_pos_bound. lia.
  - intros i Hi. rewrite (mwrite_lookup _ _ _ _ _ Hw), length_zeros.
    rewrite decide_False; [done|lia].
Qed.

(** ** Searching *)

Lemma next_bit_loop_spec bit buf bm n fuel i :
  bitmap_in buf bm n → 0 <= i → i + Z.of_nat fuel = n →
  ∃ r, next_bit_loop bit buf bm n i fuel = Some r ∧ i <= r <= n ∧
    (∀ k, i <= k < r → bit_at buf bm k = negb bit) ∧ (r < n → bit_at buf bm r = bit).
Proof.
  intros Hin. revert i. induction fuel as [|fuel IH]; intros i Hi Hn; simpl.
  - exists n. split_and!; [done|lia|lia|lia|lia].
  - rewrite (is_set_spec _ _ n) by (done || lia). simpl. case_bool_decide as Hd.
    + exists i. split_and!; [done|lia|lia|lia|done].
    + destruct (IH (i + 1)) as (r&Hr&?&Hk&Hb); [lia|lia|]. exists r.
      split_and!; [done|lia|lia| |done]. intros k Hki. destruct (decide (k = i)) as [->|].
      * by destruct bit, (bit_at buf bm i).
      * apply Hk. lia.
Qed.

Lemma next_bit_spec bit buf bm n curr :
  bitmap_in buf bm n → -1 <= curr < n →
  ∃ r, next_bit bit buf bm n curr = Some r ∧ curr < r <= n ∧
    (∀ k, curr < k < r → bit_at buf bm k = negb bit) ∧ (r < n → bit_at buf bm r = bit).
Proof.
  intros Hin Hc. unfold next_bit.
  destruct (next_bit_loop_spec bit buf bm n (Z.to_nat (n - (curr + 1))) (curr + 1) Hin) as (r&Hr&?&Hk&Hb);
    [lia|lia|].
  exists r. split_and!; [done|lia|lia| |done]. intros. apply Hk. lia.
Qed.

(** ** The claim *)

(** C38: On a bitmap that lies in its buffer, [set] and [reset] change exactly one bit
    and no byte outside the bitmap, [is_set] reads the bit, [init] clears all bits, and
    [next_bit] returns the first position after [curr] whose bit is [bit], or [max_n] when
    there is none. *)
Theorem bitmap_correct buf bm n pos curr bit :
  bitmap_in buf bm n → 0 <= pos < n → -1 <= curr < n →
  is_set buf bm pos = Some (bit_at buf bm pos) ∧
  (∃ b1, bitmap_set buf bm pos = Some b1 ∧ bit_written buf bm n pos true b1) ∧
  (∃ b2, bitmap_reset buf bm pos = Some b2 ∧ bit_written buf bm n pos false b2) ∧
  (∃ r, next_bit bit buf bm n curr = Some r ∧ curr < r <= n ∧
     (∀ k, curr < k < r → bit_at buf bm k = negb bit) ∧ (r < n → bit_at buf bm r = bit)) ∧
  (∃ b3, bitmap_init buf bm ((n + 7) / 8) = Some b3 ∧ ∀ k, 0 <= k < n → bit_at b3 bm k = false).
Proof.
  intros Hin Hp Hc. destruct (bitmap_init_spec buf bm n Hin) as (b3&?&?&?&?); [lia|].
  split_and!; [by eapply is_set_spec|by apply bitmap_set_spec|by apply bitmap_reset_spec|
    by apply next_bit_spec|eauto].
Qed.

Lemma bitmap_correct_witness :
  ∃ r, next_bit true [x00; x21; x80] 1 16 2 = Some r ∧ 2 < r <= 16 ∧
     (∀ k, 2 < k < r → bit_at [x00; x21; x80] 1 k = false) ∧ (r < 16 → bit_at [x00; x21; x80] 1 r = true).
Proof.
  apply (bitmap_correct [x00; x21; x80] 1 16 3 2 true); [split; vm_compute; discriminate|lia|lia].
Defined.
