(* ===== verification/RecordFile.v ===== *)
(** * Record files

    [record/rm_defs.h], [record/rm_file_handle.{h,cpp}] and [record/rm_manager.h].  A
    handle is the file descriptor and the header the code keeps in memory; operations
    run on a handle together with the store of pages ([RmState]).  An [RmPageHandle]
    is the frame its page sits in, and the offsets of its three parts in the page. *)

From S2P Require Import Prelude Errors Config Posix DiskManager Replacer BufferPool Bitmap.
From stdpp Require Import options.

(** ** rm_defs.h *)

Definition RM_NO_PAGE : Z := -1.
Definition RM_FILE_HDR_PAGE : Z := 0.
Definition RM_FIRST_RECORD_PAGE : Z := 1.
Definition RM_MAX_RECORD_SIZE : Z := 512.

Record RmFileHdr := mkRmFileHdr {
  record_size : Z;
  num_pages : Z;
  num_records_per_page : Z;
  first_free_page_no : Z;
  bitmap_size : Z;
}.

Definition sizeof_RmFileHdr : Z := 20.
Definition sizeof_RmPageHdr : Z := 8.

(** [RmPageHdr]: the offsets of its two members. *)
Definition OFFSET_next_free_page_no : Z := 0.
Definition OFFSET_num_records : Z := 4.

(** The memory image of the file header, and back. *)
Definition RmFileHdr_bytes (h : RmFileHdr) : list byte :=
  int_bytes (record_size h) ++ int_bytes (num_pages h) ++ int_bytes (num_records_per_page h) ++
  int_bytes (first_free_page_no h) ++ int_bytes (bitmap_size h).

Definition bytes_RmFileHdr (bs : list byte) : RmFileHdr :=
  let field i := bytes_int (take 4 (drop (4 * i) bs)) in
  mkRmFileHdr (field 0%nat) (field 1%nat) (field 2%nat) (field 3%nat) (field 4%nat).

Definition set_num_pages (n : Z) (h : RmFileHdr) : RmFileHdr :=
  mkRmFileHdr (record_size h) n (num_records_per_page h) (first_free_page_no h) (bitmap_size h).
Definition set_first_free (n : Z) (h : RmFileHdr) : RmFileHdr :=
  mkRmFileHdr (record_size h) (num_pages h) (num_records_per_page h) n (bitmap_size h).

(** A record in memory. *)
Record RmRecord := mkRmRecord { rec_data : list byte; rec_size : Z; allocated_ : bool }.

(** [RmRecord(int size_, char* data_)]: copies [size_] bytes. *)
Definition RmRecord_make (size_ : Z) (data_ : list byte) : option RmRecord :=
  (λ d, mkRmRecord d size_ true) <$> mread data_ 0 size_.

(** The copy constructor. *)
Definition RmRecord_copy (other : RmRecord) : option RmRecord :=
  RmRecord_make (rec_size other) (rec_data other).

Definition SetData (data_ : list byte) (r : RmRecord) : option RmRecord :=
  (λ d, mkRmRecord d (rec_size r) (allocated_ r)) <$> mread data_ 0 (rec_size r).

(** [Deserialize] does not set [allocated_]. *)
Definition RmRecord_Deserialize (data_ : list byte) (r : RmRecord) : option RmRecord :=
  sz ← mread data_ 0 4;
  (λ d, mkRmRecord d (bytes_int sz) (allocated_ r)) <$> mread data_ 4 (bytes_int sz).

(** ** The handle *)

Record RmFileHandle := mkRmFileHandle { fd_ : Z; file_hdr_ : RmFileHdr }.

Record RmPageHandle := mkRmPageHandle { ph_page : frame_id_t; ph_hdr : Z; ph_bitmap : Z; ph_slots : Z }.

(** [RmPageHandle(fhdr_, page_)]. *)
Definition RmPageHandle_make (h : RmFileHdr) (page : frame_id_t) : RmPageHandle :=
  let bitmap := sizeof_RmPageHdr + OFFSET_PAGE_HDR in
  mkRmPageHandle page OFFSET_PAGE_HDR bitmap (bitmap + bitmap_size h).

Definition get_slot (h : RmFileHdr) (p : RmPageHandle) (slot : Z) : Z :=
  ph_slots p + slot * record_size h.

Section rm.
Context {R : Type} `{!Replacer R}.

Record RmState := mkRm { rm_handle : RmFileHandle; rm_store : Store R }.

Definition with_store {A} (m : M (Store R) A) : M RmState A :=
  zoom rm_store (λ s w, mkRm (rm_handle w) s) m.

Definition the_hdr : M RmState RmFileHdr := gets (λ w, file_hdr_ (rm_handle w)).
Definition the_fd : M RmState Z := gets (λ w, fd_ (rm_handle w)).
Definition upd_hdr (f : RmFileHdr → RmFileHdr) : M RmState unit :=
  modify (λ w, mkRm (mkRmFileHandle (fd_ (rm_handle w)) (f (file_hdr_ (rm_handle w)))) (rm_store w)).

(** Reading and changing the bytes of the page a handle points to. *)
Definition page_get {A} (f : frame_id_t) (g : list byte → option A) : M (Store R) A :=
  let! pg := frame f in access (g (data_ pg)).
Definition page_update (f : frame_id_t) (g : list byte → option (list byte)) : M (Store R) unit :=
  let! pg := frame f in
  let! d := access (g (data_ pg)) in
  modify_frame f (set_data d).

Definition page_get_int (f : frame_id_t) (off : Z) : M (Store R) Z :=
  page_get f (λ d, bytes_int <$> mread d off 4).
Definition page_set_int (f : frame_id_t) (off v : Z) : M (Store R) unit :=
  page_update f (λ d, mwrite d off (int_bytes v)).

(** [page->get_page_id()]. *)
Definition page_id_of (f : frame_id_t) : M (Store R) PageId :=
  let! pg := frame f in ret (id_ pg).

(** The null page pointer makes the constructor of the handle undefined. *)
Definition fetch_page_handle (page_no : Z) : M RmState RmPageHandle :=
  let! h := the_hdr in
  let! fd := the_fd in
  if page_no >=? num_pages h then throw (PageNotExistError "" page_no)
  else
    let! page := with_store (fetch_page (mkPageId fd page_no)) in
    let! page := deref page in
    ret (RmPageHandle_make h page).

Definition create_new_page_handle : M RmState RmPageHandle :=
  let! h := the_hdr in
  let! fd := the_fd in
  let! page := with_store (new_page fd) in
  let! page := deref page in
  let f := page.1 in
  let ph := RmPageHandle_make h f in
  with_store (page_set_int f (ph_hdr ph + OFFSET_next_free_page_no) RM_NO_PAGE) ;;
  with_store (page_set_int f (ph_hdr ph + OFFSET_num_records) 0) ;;
  with_store (page_update f (λ d, bitmap_init d (ph_bitmap ph) (bitmap_size h))) ;;
  upd_hdr (λ h, set_num_pages (wrap32 (num_pages h + 1)) h) ;;
  let! pid := with_store (page_id_of f) in
  upd_hdr (set_first_free (pid_no pid)) ;;
  ret ph.

Definition create_page_handle : M RmState RmPageHandle :=
  let! h := the_hdr in
  if first_free_page_no h =? RM_NO_PAGE then create_new_page_handle
  else fetch_page_handle (first_free_page_no h).

Definition release_page_handle (ph : RmPageHandle) : M RmState unit :=
  let! h := the_hdr in
  with_store (page_set_int (ph_page ph) (ph_hdr ph + OFFSET_next_free_page_no) (first_free_page_no h)) ;;
  let! pid := with_store (page_id_of (ph_page ph)) in
  upd_hdr (set_first_free (pid_no pid)).

(** [unpin_page(page_handle.page->get_page_id(), dirty)]. *)
Definition unpin_handle (ph : RmPageHandle) (dirty : bool) : M RmState bool :=
  let! pid := with_store (page_id_of (ph_page ph)) in
  with_store (unpin_page pid dirty).

Definition is_record (rid : Rid) : M RmState bool :=
  let! ph := fetch_page_handle (page_no rid) in
  with_store (page_get (ph_page ph) (λ d, is_set d (ph_bitmap ph) (slot_no rid))).

(** [None] is the null record pointer. *)
Definition get_record (rid : Rid) : M RmState (option RmRecord) :=
  let! ph := fetch_page_handle (page_no rid) in
  let! b := with_store (page_get (ph_page ph) (λ d, is_set d (ph_bitmap ph) (slot_no rid))) in
  if negb b then ret None
  else
    let! h := the_hdr in
    let! r := with_store (page_get (ph_page ph) (λ d,
      mread d (get_slot h ph (slot_no rid)) (record_size h) ≫= RmRecord_make (record_size h))) in
    ret (Some r).

(** [memcpy(slot_data, buf, file_hdr_.record_size)]. *)
Definition write_slot (h : RmFileHdr) (ph : RmPageHandle) (slot : Z) (buf : list byte) (d : list byte)
    : option (list byte) :=
  bs ← mread buf 0 (record_size h); mwrite d (get_slot h ph slot) bs.

Definition insert_record (buf : list byte) : M RmState Rid :=
  let! ph := create_page_handle in
  let! h := the_hdr in
  let f := ph_page ph in
  let! slot := with_store (page_get f (λ d, first_bit false d (ph_bitmap ph) (num_records_per_page h))) in
  with_store (page_update f (write_slot h ph slot buf)) ;;
  with_store (page_update f (λ d, bitmap_set d (ph_bitmap ph) slot)) ;;
  let! n := with_store (page_get_int f (ph_hdr ph + OFFSET_num_records)) in
  with_store (page_set_int f (ph_hdr ph + OFFSET_num_records) (n + 1)) ;;
  let! n := with_store (page_get_int f (ph_hdr ph + OFFSET_num_records)) in
  (if n =? num_records_per_page h then
     let! next := with_store (page_get_int f (ph_hdr ph + OFFSET_next_free_page_no)) in
     upd_hdr (set_first_free next)
   else ret tt) ;;
  unpin_handle ph true ;;
  let! pid := with_store (page_id_of f) in
  ret (mkRid (pid_no pid) slot).

(** The overload that takes a position has an empty body. *)
Definition insert_record_at (rid : Rid) (buf : list byte) : M RmState unit := ret tt.

Definition delete_record (rid : Rid) : M RmState unit :=
  let! ph := fetch_page_handle (page_no rid) in
  let f := ph_page ph in
  let! b := with_store (page_get f (λ d, is_set d (ph_bitmap ph) (slot_no rid))) in
  if negb b then ret tt
  else
    let! h := the_hdr in
    let! n := with_store (page_get_int f (ph_hdr ph + OFFSET_num_records)) in
    let was_full := n =? num_records_per_page h in
    with_store (page_update f (λ d, bitmap_reset d (ph_bitmap ph) (slot_no rid))) ;;
    let! n := with_store (page_get_int f (ph_hdr ph + OFFSET_num_records)) in
    with_store (page_set_int f (ph_hdr ph + OFFSET_num_records) (n - 1)) ;;
    (if was_full then release_page_handle ph else ret tt) ;;
    unpin_handle ph true ;;
    ret tt.

Definition update_record (rid : Rid) (buf : list byte) : M RmState unit :=
  let! ph := fetch_page_handle (page_no rid) in
  let f := ph_page ph in
  let! b := with_store (page_get f (λ d, is_set d (ph_bitmap ph) (slot_no rid))) in
  if negb b then ret tt
  else
    let! h := the_hdr in
    with_store (page_update f (write_slot h ph (slot_no rid) buf)) ;;
    unpin_handle ph true ;;
    ret tt.

(** ** RmScan *)

Record RmScan := mkRmScan { scan_rid : Rid }.

(** One iteration of the loop of [RmScan::next] at [rid]; [true] when the loop ends. *)
Definition scan_step (rid : Rid) : M RmState (bool * Rid) :=
  let! h := the_hdr in
  if page_no rid <? num_pages h then
    let! ph := fetch_page_handle (page_no rid) in
    let! k := with_store (page_get (ph_page ph) (λ d,
      next_bit true d (ph_bitmap ph) (num_records_per_page h) (slot_no rid))) in
    unpin_handle ph false ;;
    if k <? num_records_per_page h then ret (true, mkRid (page_no rid) k)
    else ret (false, mkRid (page_no rid + 1) (-1))
  else ret (true, mkRid RM_NO_PAGE (-1)).

Fixpoint scan_loop (fuel : nat) (rid : Rid) : M RmState Rid :=
  match fuel with
  | O => crashes OutOfFuel
  | S fuel' =>
      let! r := scan_step rid in
      if r.1 then ret r.2 else scan_loop fuel' r.2
  end.

(** Every iteration moves to the next page, so the page count bounds the loop. *)
Definition scan_next (sc : RmScan) : M RmState RmScan :=
  let! h := the_hdr in
  let! rid := scan_loop (S (Z.to_nat (num_pages h - page_no (scan_rid sc)))) (scan_rid sc) in
  ret (mkRmScan rid).

Definition RmScan_make : M RmState RmScan :=
  scan_next (mkRmScan (mkRid RM_FIRST_RECORD_PAGE (-1))).

Definition scan_is_end (sc : RmScan) : bool := page_no (scan_rid sc) =? RM_NO_PAGE.

(** ** RmManager *)

Definition rm_records_per_page (rsize : Z) : Z :=
  (BITMAP_WIDTH * (PAGE_SIZE - 1 - sizeof_RmFileHdr) + 1) `quot` (1 + rsize * BITMAP_WIDTH).

Definition rm_initial_hdr (rsize : Z) : RmFileHdr :=
  let n := rm_records_per_page rsize in
  mkRmFileHdr rsize 1 n RM_NO_PAGE ((n + BITMAP_WIDTH - 1) `quot` BITMAP_WIDTH).

Definition rm_create_file (filename : string) (rsize : Z) : M Disk unit :=
  if (rsize <? 1) || (rsize >? RM_MAX_RECORD_SIZE) then throw (InvalidRecordSizeError rsize)
  else
    create_file filename ;;
    let! fd := open_file filename in
    write_page fd RM_FILE_HDR_PAGE (RmFileHdr_bytes (rm_initial_hdr rsize)) sizeof_RmFileHdr ;;
    close_file fd.

Definition rm_destroy_file (filename : string) : M Disk unit := destroy_file filename.

(** The constructor [RmFileHandle(disk_manager, buffer_pool_manager, fd)]. *)
Definition RmFileHandle_make (fd : Z) : M Disk RmFileHandle :=
  let! buf := λ d, let '(r, (buf, d')) := read_page fd RM_FILE_HDR_PAGE sizeof_RmFileHdr (zeros sizeof_RmFileHdr, d) in
                   (match r with Ret _ => Ret buf | Throw e => Throw e | Crash c => Crash c end, d') in
  let h := bytes_RmFileHdr buf in
  set_fd2pageno fd (num_pages h) ;;
  ret (mkRmFileHandle fd h).

Definition rm_open_file (filename : string) : M Disk RmFileHandle :=
  let! fd := open_file filename in RmFileHandle_make fd.

Definition rm_close_file (fh : RmFileHandle) : M (Store R) unit :=
  with_disk (write_page (fd_ fh) RM_FILE_HDR_PAGE (RmFileHdr_bytes (file_hdr_ fh)) sizeof_RmFileHdr) ;;
  flush_all_pages (fd_ fh) ;;
  with_disk (close_file (fd_ fh)).

End rm.
Arguments RmState R : clear implicits.
