(* ===== verification/RecordPage.v ===== *)
(** * Pages of a record file as pure data

    The layout of a record page (LSN, page header, bitmap, slots), what each write the
    code makes does to the four parts, and the representation relation [file_ok]
    between the pages of a file and the finite map from record ids to records they
    stand for. *)

From S2P Require Import Prelude Errors Config BufferPool Bitmap RecordFile.
From stdpp Require Import options.

(** ** Agreement outside a region *)

Definition agree_out (lo hi : Z) (x x' : list byte) : Prop :=
  length x' = length x ∧
  ∀ i, (i < Z.to_nat lo ∨ Z.to_nat hi <= i)%nat → x' !! i = x !! i.

Lemma mwrite_agree x off bs x' :
  mwrite x off bs = Some x' → agree_out off (off + Z.of_nat (length bs)) x x'.
Proof.
  intros Hw. split; [by eapply mwrite_length|]. intros i Hi.
  rewrite (mwrite_lookup _ _ _ _ _ Hw). apply mwrite_Some in Hw as (?&?&_).
  rewrite decide_False; [done|]. lia.
Qed.

Lemma agree_mread lo hi x x' off len :
  agree_out lo hi x x' → 0 <= off → 0 <= len → off + len <= lo ∨ hi <= off →
  mread x' off len = mread x off len.
Proof. intros [Hl Hi] ???. apply mread_ext; [done|]. intros i ?. apply Hi. lia. Qed.

Lemma agree_bit lo hi x x' bm pos :
  agree_out lo hi x x' → 0 <= bm → 0 <= pos → bm + (pos + 8) / 8 <= lo ∨ hi <= bm →
  bit_at x' bm pos = bit_at x bm pos.
Proof.
  intros [Hl Hi] Hb Hp Hd. unfold bit_at. rewrite Hi; [done|].
  replace (pos + 8) with (pos + 1 * 8) in Hd by lia. rewrite Z.div_add in Hd by lia.
  assert (0 <= pos / 8) by (apply Z.div_pos; lia). lia.
Qed.

(** ** Layout *)

(** The header [rm_create_file] computes. *)
Record hdr_ok (h : RmFileHdr) : Prop := {
  ho_size : 1 <= record_size h <= RM_MAX_RECORD_SIZE;
  ho_records : num_records_per_page h = rm_records_per_page (record_size h);
  ho_bitmap : bitmap_size h = (num_records_per_page h + BITMAP_WIDTH - 1) `quot` BITMAP_WIDTH;
}.

Lemma hdr_bounds h :
  hdr_ok h →
  7 <= num_records_per_page h <= 3622 ∧ bitmap_size h = (num_records_per_page h + 7) / 8 ∧
  0 <= bitmap_size h ∧
  sizeof_RmPageHdr + OFFSET_PAGE_HDR + bitmap_size h + num_records_per_page h * record_size h <= PAGE_SIZE.
Proof.
  intros [Hs Hn Hb]. unfold rm_records_per_page, RM_MAX_RECORD_SIZE, BITMAP_WIDTH, PAGE_SIZE,
    sizeof_RmFileHdr, sizeof_RmPageHdr, OFFSET_PAGE_HDR in *.
  rewrite Z.quot_div_nonneg in Hn by lia. set (n := num_records_per_page h) in *.
  set (r := record_size h) in *. change (8 * (4096 - 1 - 20) + 1) with 32601 in Hn.
  assert (Hd : n * (1 + r * 8) <= 32601).
  { rewrite Hn. rewrite Z.mul_comm. apply Z.mul_div_le. lia. }
  assert (7 <= n) by (rewrite Hn; apply Z.div_le_lower_bound; lia).
  assert (n <= 3622) by nia.
  rewrite Z.quot_div_nonneg in Hb by lia.
  replace (n + 8 - 1) with (n + 7) in Hb by lia.
  pose proof (Z.mul_div_le (n + 7) 8). split_and!; [done|done|done| |].
  - rewrite Hb. apply Z.div_pos; lia.
  - rewrite Hb. nia.
Qed.

Section page.
Context (h : RmFileHdr) (Hok : hdr_ok h).

Definition pg_next (x : list byte) : option Z := bytes_int <$> mread x 4 4.
Definition pg_count (x : list byte) : option Z := bytes_int <$> mread x 8 4.
Definition pg_bit (x : list byte) (k : Z) : bool := bit_at x 12 k.
Definition slot_off (k : Z) : Z := 12 + bitmap_size h + k * record_size h.
Definition pg_slot (x : list byte) (k : Z) : option (list byte) := mread x (slot_off k) (record_size h).

(** The slots in use. *)
Definition used (x : list byte) : gset Z :=
  filter (λ k, pg_bit x k = true) (list_to_set (seqZ 0 (num_records_per_page h))).

Definition page_ok (x : list byte) : Prop :=
  Z.of_nat (length x) = PAGE_SIZE ∧ pg_count x = Some (Z.of_nat (size (used x))).

Lemma elem_of_used x k : k ∈ used x ↔ 0 <= k < num_records_per_page h ∧ pg_bit x k = true.
Proof using.
  unfold used. rewrite elem_of_filter, elem_of_list_to_set, elem_of_seqZ. naive_solver lia.
Qed.

Lemma used_size x :
  Z.of_nat (size (used x)) <= num_records_per_page h ∧
  (Z.of_nat (size (used x)) = num_records_per_page h →
   ∀ k, 0 <= k < num_records_per_page h → pg_bit x k = true).
Proof using Hok.
  destruct (hdr_bounds h Hok) as (Hn&_).
  set (all := list_to_set (seqZ 0 (num_records_per_page h)) : gset Z).
  assert (Ha : size all = Z.to_nat (num_records_per_page h)).
  { unfold all. rewrite size_list_to_set by apply NoDup_seqZ. apply length_seqZ. }
  assert (Hsub : used x ⊆ all).
  { intros k [Hk _]%elem_of_used. unfold all. rewrite elem_of_list_to_set, elem_of_seqZ. lia. }
  split; [apply subseteq_size in Hsub; lia|]. intros Heq k Hk.
  assert (used x = all) as Hall by (apply leibniz_equiv, set_subseteq_size_equiv; [done|lia]).
  apply (elem_of_used x k). rewrite Hall. unfold all. rewrite elem_of_list_to_set, elem_of_seqZ. lia.
Qed.

Lemma used_full x k :
  0 <= k < num_records_per_page h → pg_bit x k = false →
  Z.of_nat (size (used x)) < num_records_per_page h.
Proof using Hok.
  intros Hk Hb. destruct (used_size x) as [Hle Hfull].
  destruct (decide (Z.of_nat (size (used x)) = num_records_per_page h)) as [E|]; [|lia].
  rewrite (Hfull E k Hk) in Hb. done.
Qed.

Lemma used_insert x x' k :
  0 <= k < num_records_per_page h → pg_bit x k = false →
  (∀ j, 0 <= j < num_records_per_page h → pg_bit x' j = if decide (j = k) then true else pg_bit x j) →
  size (used x') = S (size (used x)).
Proof using.
  intros Hk Hb Hx. assert (used x' = {[k]} ∪ used x) as ->.
  { apply set_eq. intros j. rewrite elem_of_union, elem_of_singleton, !elem_of_used.
    split; [intros [? Hj]|intros [->|[? Hj]]].
    - rewrite Hx in Hj by done. case_decide; auto.
    - split; [done|]. rewrite Hx by done. by rewrite decide_True.
    - split; [done|]. rewrite Hx by done. by case_decide. }
  rewrite size_union, size_singleton; [done|]. rewrite disjoint_singleton_l, elem_of_used.
  intros [_ ?]. congruence.
Qed.

Lemma used_delete x x' k :
  0 <= k < num_records_per_page h → pg_bit x k = true →
  (∀ j, 0 <= j < num_records_per_page h → pg_bit x' j = if decide (j = k) then false else pg_bit x j) →
  size (used x) = S (size (used x')).
Proof using.
  intros Hk Hb Hx. apply (used_insert x' x k); [done| |].
  - rewrite Hx by done. by rewrite decide_True.
  - intros j Hj. rewrite Hx by done. case_decide; [by subst|done].
Qed.

Lemma used_ext x x' :
  (∀ j, 0 <= j < num_records_per_page h → pg_bit x' j = pg_bit x j) → used x' = used x.
Proof using.
  intros Hx. apply set_eq. intros j. rewrite !elem_of_used. split; intros [? Hj]; (split; [done|]);
    [rewrite <- Hx|rewrite Hx]; done.
Qed.

Lemma page_bitmap_in x : Z.of_nat (length x) = PAGE_SIZE → bitmap_in x 12 (num_records_per_page h).
Proof using Hok.
  intros Hl. destruct (hdr_bounds h Hok) as (?&Hb&?&?). rewrite Hb in *.
  destruct Hok as [? _ _]. unfold bitmap_in, sizeof_RmPageHdr, OFFSET_PAGE_HDR in *. split; [lia|].
  assert (0 <= num_records_per_page h * record_size h) by (apply Z.mul_nonneg_nonneg; lia). lia.
Qed.

Lemma slot_bounds k :
  0 <= k < num_records_per_page h →
  12 + bitmap_size h <= slot_off k ∧ slot_off k + record_size h <= PAGE_SIZE.
Proof using Hok.
  intros Hk. destruct (hdr_bounds h Hok) as (?&Hb&?&?). destruct Hok as [? _ _].
  unfold slot_off, sizeof_RmPageHdr, OFFSET_PAGE_HDR in *.
  assert (0 <= k * record_size h) by (apply Z.mul_nonneg_nonneg; lia).
  assert ((k + 1) * record_size h <= num_records_per_page h * record_size h)
    by (apply Z.mul_le_mono_nonneg_r; lia). lia.
Qed.

Lemma slots_disjoint j k :
  j ≠ k → slot_off j + record_size h <= slot_off k ∨ slot_off k + record_size h <= slot_off j.
Proof using Hok. intros. destruct Hok as [? _ _]. unfold slot_off. nia. Qed.

(** ** The four kinds of write *)

(** [x'] differs from [x] only in one part of the page. *)
Definition same_bits x x' := ∀ k, 0 <= k < num_records_per_page h → pg_bit x' k = pg_bit x k.
Definition same_slots x x' := ∀ k, 0 <= k < num_records_per_page h → pg_slot x' k = pg_slot x k.

Lemma agree_hdr_bits lo hi x x' :
  agree_out lo hi x x' → hi <= 12 ∨ 12 + bitmap_size h <= lo → same_bits x x'.
Proof using Hok.
  intros Ha Hd k Hk. destruct (hdr_bounds h Hok) as (?&Hb&?&?).
  eapply agree_bit; [done|lia|lia|].
  assert ((k + 8) / 8 <= bitmap_size h) by (rewrite Hb; apply Z.div_le_mono; lia). lia.
Qed.

Lemma agree_hdr_slots lo hi x x' :
  agree_out lo hi x x' → hi <= 12 + bitmap_size h → same_slots x x'.
Proof using Hok.
  intros Ha Hd k Hk. pose proof (slot_bounds k Hk). destruct (hdr_bounds h Hok) as (?&Hb&?&?).
  destruct Hok as [? _ _]. eapply agree_mread; [done|lia..].
Qed.

Lemma mread_int x off v x' :
  mwrite x off (int_bytes v) = Some x' → bytes_int <$> mread x' off 4 = Some (wrap32 v).
Proof using.
  intros Hw. pose proof (mread_mwrite_same _ _ _ _ Hw) as Hr.
  unfold int_bytes in Hr. rewrite length_le_encode in Hr. change (Z.of_nat 4) with 4 in Hr.
  rewrite Hr. transitivity (Some (bytes_int (le_encode 4 v))); [done|]. f_equal. unfold bytes_int. rewrite le_decode_encode.
  unfold wrap32. change (256 ^ Z.of_nat 4) with (2 ^ 32). f_equal.
  rewrite Z.add_mod_idemp_l by lia. done.
Qed.

Lemma write_next x v :
  Z.of_nat (length x) = PAGE_SIZE →
  ∃ x', mwrite x 4 (int_bytes v) = Some x' ∧ Z.of_nat (length x') = PAGE_SIZE ∧
    pg_next x' = Some (wrap32 v) ∧ pg_count x' = pg_count x ∧ same_bits x x' ∧ same_slots x x'.
Proof using Hok.
  intros Hl. destruct (mwrite_is_Some x 4 (int_bytes v)) as [x' Hw]; [lia|by rewrite Hl|].
  destruct (hdr_bounds h Hok) as (?&?&?&?).
  pose proof (mwrite_agree _ _ _ _ Hw) as Ha. change (4 + Z.of_nat (length (int_bytes v))) with 8 in Ha.
  exists x'. split_and!; [done|by destruct Ha as [-> _]|by eapply mread_int| | |].
  - unfold pg_count. f_equal. eapply agree_mread; [done|lia..].
  - eapply agree_hdr_bits; [done|lia].
  - eapply agree_hdr_slots; [done|lia].
Qed.

Lemma write_count x v :
  Z.of_nat (length x) = PAGE_SIZE →
  ∃ x', mwrite x 8 (int_bytes v) = Some x' ∧ Z.of_nat (length x') = PAGE_SIZE ∧
    pg_next x' = pg_next x ∧ pg_count x' = Some (wrap32 v) ∧ same_bits x x' ∧ same_slots x x'.
Proof using Hok.
  intros Hl. destruct (mwrite_is_Some x 8 (int_bytes v)) as [x' Hw]; [lia|by rewrite Hl|].
  destruct (hdr_bounds h Hok) as (?&?&?&?).
  pose proof (mwrite_agree _ _ _ _ Hw) as Ha. change (8 + Z.of_nat (length (int_bytes v))) with 12 in Ha.
  exists x'. split_and!; [done|by destruct Ha as [-> _]| |by eapply mread_int| |].
  - unfold pg_next. f_equal. eapply agree_mread; [done|lia..].
  - eapply agree_hdr_bits; [done|lia].
  - eapply agree_hdr_slots; [done|lia].
Qed.

Lemma bit_written_agree x k v x' :
  bit_written x 12 (num_records_per_page h) k v x' → agree_out 12 (12 + bitmap_size h) x x'.
Proof using Hok.
  intros (Hl&_&Ho). destruct (hdr_bounds h Hok) as (_&Hb&_). rewrite Hb. split; [done|].
  intros i Hi. apply Ho. done.
Qed.

Lemma write_bit x k v x' :
  Z.of_nat (length x) = PAGE_SIZE → bit_written x 12 (num_records_per_page h) k v x' →
  Z.of_nat (length x') = PAGE_SIZE ∧ pg_next x' = pg_next x ∧ pg_count x' = pg_count x ∧
  (∀ j, 0 <= j < num_records_per_page h → pg_bit x' j = if decide (j = k) then v else pg_bit x j) ∧
  same_slots x x'.
Proof using Hok.
  intros Hl Hw. pose proof (bit_written_agree _ _ _ _ Hw) as Ha. destruct Hw as (Hl'&Hb&_).
  split_and!; [by rewrite Hl'| | |done|].
  - unfold pg_next. f_equal. eapply agree_mread; [done|lia..].
  - unfold pg_count. f_equal. eapply agree_mread; [done|lia..].
  - eapply agree_hdr_slots; [done|lia].
Qed.

Lemma write_record x k bs :
  Z.of_nat (length x) = PAGE_SIZE → 0 <= k < num_records_per_page h →
  Z.of_nat (length bs) = record_size h →
  ∃ x', mwrite x (slot_off k) bs = Some x' ∧ Z.of_nat (length x') = PAGE_SIZE ∧
    pg_next x' = pg_next x ∧ pg_count x' = pg_count x ∧ same_bits x x' ∧
    (∀ j, 0 <= j < num_records_per_page h → pg_slot x' j = if decide (j = k) then Some bs else pg_slot x j).
Proof using Hok.
  intros Hl Hk Hbs. pose proof (slot_bounds k Hk) as Hsb. destruct (hdr_bounds h Hok) as (?&?&?&?).
  destruct (mwrite_is_Some x (slot_off k) bs) as [x' Hw]; [lia|lia|].
  pose proof (mwrite_agree _ _ _ _ Hw) as Ha.
  exists x'. split_and!; [done|by destruct Ha as [-> _]| | | |].
  - unfold pg_next. f_equal. eapply agree_mread; [done|lia..].
  - unfold pg_count. f_equal. eapply agree_mread; [done|lia..].
  - eapply agree_hdr_bits; [done|lia].
  - intros j Hj. case_decide as Hd; [subst j|].
    + unfold pg_slot. rewrite <- Hbs. by eapply mread_mwrite_same.
    + pose proof (slots_disjoint j k Hd). pose proof (slot_bounds j Hj). destruct Hok as [? _ _].
      unfold pg_slot. eapply agree_mread; [done|lia..].
Qed.
End page.
