(* ===== verification/RecordSpec.v ===== *)
(** * The records a file holds

    [file_ok]: the pages of a record file represent a finite map from record ids to
    records.  The chain of pages with free slots is part of it.  Each change the
    operations make to one page is shown to be the matching change of the map. *)

From S2P Require Import Prelude Errors Config BufferPool Bitmap RecordFile RecordPage.
From stdpp Require Import options.

Abbreviation Pages := (Z → option (list byte)).

Definition page_upd (p : Z) (x : list byte) (P : Pages) : Pages :=
  λ q, if decide (q = p) then Some x else P q.

Lemma page_upd_eq p x P : page_upd p x P p = Some x.
Proof. unfold page_upd. by rewrite decide_True. Qed.
Lemma page_upd_ne p x P q : q ≠ p → page_upd p x P q = P q.
Proof. intros. unfold page_upd. by rewrite decide_False. Qed.

(** The list of free pages, from page [a] on. *)
Inductive chain (P : Pages) : Z → list Z → Prop :=
  | chain_nil : chain P RM_NO_PAGE []
  | chain_cons a x b l : a ≠ RM_NO_PAGE → P a = Some x → pg_next x = Some b → chain P b l → chain P a (a :: l).

Lemma chain_ext P P' a l : (∀ q, q ∈ l → P' q = P q) → chain P a l → chain P' a l.
Proof.
  intros Hq Hc. induction Hc as [|a x b l Ha Hx Hb Hc IH]; [constructor|].
  econstructor; [done|rewrite Hq by left; done|done|]. apply IH. intros. apply Hq. by right.
Qed.

Definition in_file (h : RmFileHdr) (p : Z) : Prop := RM_FIRST_RECORD_PAGE <= p < num_pages h.

Definition has_room (h : RmFileHdr) (P : Pages) (p : Z) : Prop :=
  ∃ x, P p = Some x ∧ Z.of_nat (size (used h x)) < num_records_per_page h.

Record file_ok (h : RmFileHdr) (P : Pages) (m : gmap Rid (list byte)) : Prop := {
  fo_hdr : hdr_ok h;
  fo_num : 1 <= num_pages h <= INT_MAX;
  fo_page : ∀ p, in_file h p → ∃ x, P p = Some x ∧ page_ok h x;
  fo_free : ∃ l, chain P (first_free_page_no h) l ∧ NoDup l ∧
    ∀ p, p ∈ l ↔ in_file h p ∧ has_room h P p;
  fo_recs : ∀ rid v, m !! rid = Some v ↔
    in_file h (page_no rid) ∧ 0 <= slot_no rid < num_records_per_page h ∧
    ∃ x, P (page_no rid) = Some x ∧ pg_bit x (slot_no rid) = true ∧ pg_slot h x (slot_no rid) = Some v;
}.

Lemma file_ok_ext h P P' m :
  (∀ p, in_file h p → P' p = P p) → file_ok h P m → file_ok h P' m.
Proof.
  intros HP [Hh Hn Hp (l&Hc&Hnd&Hl) Hr].
  assert (Hroom : ∀ p, in_file h p → has_room h P' p ↔ has_room h P p).
  { intros p Hin. unfold has_room. by rewrite HP. }
  split; [done|done| | |].
  - intros p Hin. rewrite HP by done. auto.
  - exists l. split_and!; [|done|].
    + eapply chain_ext; [|done]. intros q [Hq _]%Hl. auto.
    + intros p. rewrite Hl. naive_solver.
  - intros rid v. rewrite Hr. split; intros (Hin&?&x&?&?&?); (split_and!; [done|lia|lia|]); exists x;
      [rewrite HP|rewrite <- HP]; done.
Qed.

(** Records by position. *)
Lemma file_ok_lookup h P m rid x :
  file_ok h P m → in_file h (page_no rid) → 0 <= slot_no rid < num_records_per_page h →
  P (page_no rid) = Some x →
  m !! rid = if pg_bit x (slot_no rid) then pg_slot h x (slot_no rid) else None.
Proof.
  intros Hf Hin Hs Hx. destruct (pg_bit x (slot_no rid)) eqn:Hb.
  - destruct (slot_bounds h (fo_hdr _ _ _ Hf) _ Hs) as [? ?].
    destruct (fo_page _ _ _ Hf _ Hin) as (y&Hy&Hl&_). simplify_eq.
    destruct (hdr_bounds h (fo_hdr _ _ _ Hf)) as (?&?&?&?). pose proof (ho_size _ (fo_hdr _ _ _ Hf)).
    destruct (mread_is_Some x (slot_off h (slot_no rid)) (record_size h)) as [v Hv]; [lia..|].
    unfold pg_slot. rewrite Hv. apply (fo_recs _ _ _ Hf). split_and!; [done|lia|lia|]. by exists x.
  - apply eq_None_not_Some. intros [v Hv]. apply (fo_recs _ _ _ Hf) in Hv as (_&_&y&?&?&_).
    simplify_eq. congruence.
Qed.

Lemma file_ok_page h P m p : file_ok h P m → in_file h p → ∃ x, P p = Some x ∧ page_ok h x.
Proof. intros Hf. apply (fo_page _ _ _ Hf). Qed.

(** ** Changing one slot of one page

    The page [x] at [p] becomes [x']: slot [k] now holds [ov] ([None]: free), all other
    slots are as before, and the count is right. *)

Definition slot_changed (h : RmFileHdr) (x x' : list byte) (k : Z) (ov : option (list byte)) : Prop :=
  page_ok h x' ∧
  (∀ j, 0 <= j < num_records_per_page h →
     pg_bit x' j = if decide (j = k) then bool_decide (is_Some ov) else pg_bit x j) ∧
  (∀ j, 0 <= j < num_records_per_page h → j ≠ k → pg_slot h x' j = pg_slot h x j) ∧
  (∀ v, ov = Some v → pg_slot h x' k = Some v).

Definition map_changed (rid : Rid) (ov : option (list byte)) (m : gmap Rid (list byte)) : gmap Rid (list byte) :=
  match ov with Some v => <[rid := v]> m | None => delete rid m end.

Lemma map_changed_lookup rid ov m rid' :
  map_changed rid ov m !! rid' = if decide (rid' = rid) then ov else m !! rid'.
Proof.
  unfold map_changed. destruct ov; rewrite ?lookup_insert, ?lookup_delete; repeat case_decide; congruence.
Qed.

Lemma recs_changed h P m p k x x' ov :
  file_ok h P m → in_file h p → 0 <= k < num_records_per_page h → P p = Some x →
  slot_changed h x x' k ov →
  ∀ rid v, map_changed (mkRid p k) ov m !! rid = Some v ↔
    in_file h (page_no rid) ∧ 0 <= slot_no rid < num_records_per_page h ∧
    ∃ y, page_upd p x' P (page_no rid) = Some y ∧ pg_bit y (slot_no rid) = true ∧
      pg_slot h y (slot_no rid) = Some v.
Proof.
  intros Hf Hin Hk Hx (Hok'&Hb&Hs&Hv) [q j] v. rewrite map_changed_lookup. simpl.
  destruct (decide (q = p)) as [->|Hq].
  - rewrite page_upd_eq. case_decide as Hd.
    + simplify_eq. split.
      * intros ->. split_and!; [done|lia|lia|]. exists x'. rewrite Hb by done.
        rewrite decide_True by done. auto.
      * intros (_&_&y&[= <-]&Hbit&Hsl). rewrite Hb, decide_True in Hbit by done.
        case_bool_decide as Hs'; [|done]. destruct Hs' as [w ->]. rewrite (Hv w) in Hsl by done. congruence.
    + assert (j ≠ k) by congruence. rewrite (fo_recs _ _ _ Hf). simpl.
      split; intros (?&?&y&?&?&?); (split_and!; [done|lia|lia|]); simplify_eq.
      * exists x'. rewrite Hb, Hs, decide_False by done. done.
      * exists x. rewrite Hb, decide_False in * by done. rewrite Hs in * by done. done.
  - rewrite page_upd_ne by done. rewrite decide_False by congruence. apply (fo_recs _ _ _ Hf).
Qed.

Lemma room_upd_ne h P p x' q : q ≠ p → has_room h (page_upd p x' P) q ↔ has_room h P q.
Proof. intros. unfold has_room. by rewrite page_upd_ne. Qed.

Lemma room_upd_eq h P p x' :
  has_room h (page_upd p x' P) p ↔ Z.of_nat (size (used h x')) < num_records_per_page h.
Proof. unfold has_room. rewrite page_upd_eq. naive_solver. Qed.

Lemma chain_upd P a l p x x' :
  P p = Some x → pg_next x' = pg_next x → chain P a l → chain (page_upd p x' P) a l.
Proof.
  intros Hx Hn Hc. induction Hc as [|a y b l Ha Hy Hb Hc IH]; [constructor|].
  destruct (decide (a = p)) as [->|].
  - econstructor; [done|apply page_upd_eq|rewrite Hn; by simplify_eq|done].
  - econstructor; [done|by rewrite page_upd_ne|done|done].
Qed.

(** The header with another free list; the layout is the same. *)
Lemma hdr_ok_free h b : hdr_ok h → hdr_ok (set_first_free b h).
Proof. intros [? ? ?]. by split. Qed.

Lemma page_ok_pages h P m p k x x' ov q :
  file_ok h P m → P p = Some x → slot_changed h x x' k ov → in_file h q →
  ∃ y, page_upd p x' P q = Some y ∧ page_ok h y.
Proof.
  intros Hf Hx [Hok _] Hq. destruct (decide (q = p)) as [->|].
  - rewrite page_upd_eq. eauto.
  - rewrite page_upd_ne by done. by apply (fo_page _ _ _ Hf).
Qed.

(** The change leaves the page with room, or full, as it was. *)
Lemma file_changed_stay h P m p k x x' ov :
  file_ok h P m → in_file h p → 0 <= k < num_records_per_page h → P p = Some x →
  slot_changed h x x' k ov → pg_next x' = pg_next x →
  (Z.of_nat (size (used h x')) < num_records_per_page h ↔
   Z.of_nat (size (used h x)) < num_records_per_page h) →
  file_ok h (page_upd p x' P) (map_changed (mkRid p k) ov m).
Proof.
  intros Hf Hin Hk Hx Hch Hn Hroom. split.
  - apply (fo_hdr _ _ _ Hf).
  - apply (fo_num _ _ _ Hf).
  - intros q Hq. by eapply page_ok_pages.
  - destruct (fo_free _ _ _ Hf) as (l&Hc&Hnd&Hl). exists l. split_and!; [by eapply chain_upd|done|].
    intros q. rewrite Hl. destruct (decide (q = p)) as [->|].
    + rewrite room_upd_eq, Hroom. unfold has_room. rewrite Hx. naive_solver.
    + by rewrite room_upd_ne.
  - by eapply recs_changed.
Qed.

(** The change fills the first page of the free list: the list loses it. *)
Lemma file_changed_full h P m p k x x' ov b :
  file_ok h P m → in_file h p → 0 <= k < num_records_per_page h → P p = Some x →
  first_free_page_no h = p → p ≠ RM_NO_PAGE →
  slot_changed h x x' k ov → pg_next x = Some b →
  ¬ Z.of_nat (size (used h x')) < num_records_per_page h →
  file_ok (set_first_free b h) (page_upd p x' P) (map_changed (mkRid p k) ov m).
Proof.
  intros Hf Hin Hk Hx Hfirst Hp Hch Hn Hfull. split.
  - apply hdr_ok_free, (fo_hdr _ _ _ Hf).
  - apply (fo_num _ _ _ Hf).
  - intros q Hq. by eapply (page_ok_pages h).
  - destruct (fo_free _ _ _ Hf) as (l&Hc&Hnd&Hl). rewrite Hfirst in Hc.
    inversion Hc as [|a y b' l' Ha Hy Hb' Hc']; [congruence|subst]. simplify_eq.
    apply NoDup_cons in Hnd as [Hni Hnd]. exists l'. split_and!; [|done|].
    + simpl. eapply chain_ext; [|done]. intros q Hq. rewrite page_upd_ne; [done|]. by intros ->.
    + intros q. change (in_file (set_first_free b h)) with (in_file h).
      change (has_room (set_first_free b h)) with (has_room h).
      destruct (decide (q = first_free_page_no h)) as [->|Hq].
      * rewrite room_upd_eq. naive_solver.
      * rewrite room_upd_ne, <- Hl, elem_of_cons by done. naive_solver.
  - by eapply (recs_changed h).
Qed.

(** The change gives a full page room, and the page is put in front of the list. *)
Lemma file_changed_freed h P m p k x x' ov :
  file_ok h P m → in_file h p → 0 <= k < num_records_per_page h → P p = Some x →
  slot_changed h x x' k ov → pg_next x' = Some (first_free_page_no h) →
  ¬ Z.of_nat (size (used h x)) < num_records_per_page h →
  Z.of_nat (size (used h x')) < num_records_per_page h →
  file_ok (set_first_free p h) (page_upd p x' P) (map_changed (mkRid p k) ov m).
Proof.
  intros Hf Hin Hk Hx Hch Hn Hfull Hroom. split.
  - apply hdr_ok_free, (fo_hdr _ _ _ Hf).
  - apply (fo_num _ _ _ Hf).
  - intros q Hq. by eapply (page_ok_pages h).
  - destruct (fo_free _ _ _ Hf) as (l&Hc&Hnd&Hl).
    assert (Hpl : p ∉ l).
    { intros [_ (y&?&?)]%Hl. simplify_eq. by destruct Hfull. }
    exists (p :: l). split_and!; [|by constructor|].
    + simpl. econstructor; [|apply page_upd_eq|done|].
      * unfold in_file, RM_FIRST_RECORD_PAGE, RM_NO_PAGE in *. lia.
      * eapply chain_ext; [|done]. intros q Hq. rewrite page_upd_ne; [done|]. by intros ->.
    + intros q. change (in_file (set_first_free p h)) with (in_file h).
      change (has_room (set_first_free p h)) with (has_room h). rewrite elem_of_cons.
      destruct (decide (q = p)) as [->|Hq].
      * rewrite room_upd_eq. naive_solver.
      * rewrite room_upd_ne, <- Hl by done. naive_solver.
  - by eapply (recs_changed h).
Qed.

(** ** A new page *)

Definition grown (h : RmFileHdr) : RmFileHdr := set_first_free (num_pages h) (set_num_pages (num_pages h + 1) h).

Lemma file_grown h P m x :
  file_ok h P m → num_pages h < INT_MAX → first_free_page_no h = RM_NO_PAGE →
  page_ok h x → pg_next x = Some RM_NO_PAGE → used h x = ∅ →
  file_ok (grown h) (page_upd (num_pages h) x P) m.
Proof.
  intros Hf Hmax Hfree Hok Hn Hu. pose proof (fo_num _ _ _ Hf) as Hnum.
  destruct (hdr_bounds h (fo_hdr _ _ _ Hf)) as (Hrpp&_&_&_).
  assert (Hin : ∀ q, in_file (grown h) q ↔ in_file h q ∨ q = num_pages h).
  { intros q. unfold in_file, grown, RM_FIRST_RECORD_PAGE. simpl. lia. }
  assert (Hne : ∀ q, in_file h q → q ≠ num_pages h) by (unfold in_file; lia).
  split.
  - destruct (fo_hdr _ _ _ Hf). by split.
  - simpl. lia.
  - intros q [Hq| ->]%Hin; [rewrite page_upd_ne by auto; by apply (fo_page _ _ _ Hf)|].
    rewrite page_upd_eq. eauto.
  - destruct (fo_free _ _ _ Hf) as (l&Hc&Hnd&Hl). rewrite Hfree in Hc.
    inversion Hc as [|a y b l' Ha]; [subst|by destruct Ha].
    exists [num_pages h]. split_and!.
    + simpl. econstructor; [unfold RM_NO_PAGE; lia|apply page_upd_eq|done|constructor].
    + apply NoDup_singleton.
    + intros q. rewrite list_elem_of_singleton, Hin.
      change (has_room (grown h)) with (has_room h). split.
      * intros ->. split; [by right|]. rewrite room_upd_eq, Hu, size_empty. lia.
      * intros [[Hq| ->] Hr]; [|done]. rewrite room_upd_ne in Hr by auto.
        assert (q ∈ @nil Z) by by apply Hl. set_solver.
  - intros rid v. rewrite (fo_recs _ _ _ Hf), Hin.
    change (num_records_per_page (grown h)) with (num_records_per_page h).
    split.
    + intros (Hq&?&y&?&?&?). split_and!; [by left|lia|lia|]. exists y. rewrite page_upd_ne by auto. done.
    + intros ([Hq|Hq]&?&y&Hy&Hbit&?).
      * rewrite page_upd_ne in Hy by auto. split_and!; [done|lia|lia|]. by exists y.
      * rewrite Hq, page_upd_eq in Hy. simplify_eq.
        assert (slot_no rid ∈ used h y) by by apply elem_of_used. rewrite Hu in *. set_solver.
Qed.

(** ** The writes of the operations *)

Section writes.
Context (h : RmFileHdr) (Hok : hdr_ok h).
Let n := num_records_per_page h.

(** The first free slot of a page with room. *)
Lemma first_free_slot x :
  page_ok h x → Z.of_nat (size (used h x)) < n →
  ∃ k, first_bit false x 12 n = Some k ∧ 0 <= k < n ∧ pg_bit x k = false.
Proof using Hok.
  intros [Hl _] Hsz. destruct (hdr_bounds h Hok) as (Hn&_).
  destruct (next_bit_spec false x 12 n (-1)) as (k&Hk&Hr&Hall&Hb);
    [by apply page_bitmap_in|unfold n; lia|].
  exists k. destruct (decide (k = n)) as [E|E].
  - exfalso. assert (Ha : used h x = list_to_set (seqZ 0 n)).
    { apply set_eq. intros j. rewrite elem_of_used, elem_of_list_to_set, elem_of_seqZ. fold n. split.
      - intros [? _]. lia.
      - intros Hj. split; [lia|]. apply Hall. lia. }
    rewrite Ha, size_list_to_set, length_seqZ in Hsz by apply NoDup_seqZ. unfold n in *. lia.
  - split_and!; [done|lia|lia|]. apply Hb. lia.
Qed.

Lemma write_slot_run f k buf v x :
  mread buf 0 (record_size h) = Some v →
  write_slot h (RmPageHandle_make h f) k buf x = mwrite x (slot_off h k) v.
Proof using. intros Hv. unfold write_slot. by rewrite Hv. Qed.

Lemma count_inc x k x' :
  page_ok h x → 0 <= k < n → pg_bit x k = false →
  (∀ j, 0 <= j < n → pg_bit x' j = if decide (j = k) then true else pg_bit x j) →
  wrap32 (Z.of_nat (size (used h x)) + 1) = Z.of_nat (size (used h x')).
Proof using Hok.
  intros Hx Hk Hb Hb'. rewrite (used_insert h x x' k) by done.
  destruct (used_size h Hok x) as [? _]. destruct (hdr_bounds h Hok) as (?&_).
  rewrite wrap32_id; [lia|]. unfold is_int32, INT_MIN, INT_MAX. lia.
Qed.

(** Insertion: slot, bit, count. *)
Lemma page_insert x k v :
  page_ok h x → 0 <= k < n → pg_bit x k = false → Z.of_nat (length v) = record_size h →
  ∃ x1 x2 x3, mwrite x (slot_off h k) v = Some x1 ∧ bitmap_set x1 12 k = Some x2 ∧
    pg_count x2 = Some (Z.of_nat (size (used h x))) ∧
    mwrite x2 8 (int_bytes (Z.of_nat (size (used h x)) + 1)) = Some x3 ∧
    slot_changed h x x3 k (Some v) ∧ pg_next x3 = pg_next x ∧
    length x1 = length x ∧ length x2 = length x1 ∧ length x3 = length x2 ∧
    size (used h x3) = S (size (used h x)).
Proof using Hok.
  intros Hx Hk Hb Hv. pose proof Hx as [Hl Hc].
  destruct (write_record h Hok x k v Hl Hk Hv) as (x1&Hw1&Hl1&Hn1&Hc1&Hb1&Hs1).
  destruct (bitmap_set_spec x1 12 n k (page_bitmap_in h Hok x1 Hl1) Hk) as (x2&Hw2&Hbw).
  destruct (write_bit h Hok x1 k true x2 Hl1 Hbw) as (Hl2&Hn2&Hc2&Hb2&Hs2).
  destruct (write_count h Hok x2 (Z.of_nat (size (used h x)) + 1) Hl2) as (x3&Hw3&Hl3&Hn3&Hc3&Hb3&Hs3).
  assert (Hbits : ∀ j, 0 <= j < n → pg_bit x3 j = if decide (j = k) then true else pg_bit x j).
  { intros j Hj. rewrite Hb3, Hb2, Hb1 by done. done. }
  exists x1, x2, x3. split_and!; [done|done|congruence|done| |congruence|lia|lia|lia|].
  - unfold slot_changed, page_ok. split_and!.
    + done.
    + rewrite Hc3. f_equal. by eapply count_inc.
    + intros j Hj. by rewrite Hbits.
    + intros j Hj Hne. rewrite Hs3, Hs2, Hs1, decide_False by done. done.
    + intros w [= <-]. rewrite Hs3, Hs2, Hs1, decide_True by done. done.
  - by apply (used_insert h x x3 k).
Qed.

(** Deletion: bit, count. *)
Lemma page_delete x k :
  page_ok h x → 0 <= k < n → pg_bit x k = true →
  ∃ x1 x2, bitmap_reset x 12 k = Some x1 ∧ pg_count x1 = Some (Z.of_nat (size (used h x))) ∧
    mwrite x1 8 (int_bytes (Z.of_nat (size (used h x)) - 1)) = Some x2 ∧
    slot_changed h x x2 k None ∧ pg_next x2 = pg_next x ∧
    length x1 = length x ∧ length x2 = length x1 ∧
    size (used h x) = S (size (used h x2)).
Proof using Hok.
  intros Hx Hk Hb. pose proof Hx as [Hl Hc].
  destruct (bitmap_reset_spec x 12 n k (page_bitmap_in h Hok x Hl) Hk) as (x1&Hw1&Hbw).
  destruct (write_bit h Hok x k false x1 Hl Hbw) as (Hl1&Hn1&Hc1&Hb1&Hs1).
  destruct (write_count h Hok x1 (Z.of_nat (size (used h x)) - 1) Hl1) as (x2&Hw2&Hl2&Hn2&Hc2&Hb2&Hs2).
  assert (Hbits : ∀ j, 0 <= j < n → pg_bit x2 j = if decide (j = k) then false else pg_bit x j).
  { intros j Hj. rewrite Hb2, Hb1 by done. done. }
  pose proof (used_delete h x x2 k Hk Hb Hbits) as Hsz.
  destruct (used_size h Hok x) as [? _]. destruct (hdr_bounds h Hok) as (?&_).
  exists x1, x2. split_and!; [done|congruence|done| |congruence|lia|lia|done].
  unfold slot_changed, page_ok. split_and!.
  - done.
  - rewrite Hc2. f_equal. rewrite wrap32_id; [lia|]. unfold is_int32, INT_MIN, INT_MAX. lia.
  - intros j Hj. rewrite Hbits by done. done.
  - intros j Hj Hne. rewrite Hs2, Hs1 by done. done.
  - done.
Qed.

(** Putting the page on the free list only changes its link. *)
Lemma slot_changed_link x x' k ov a :
  slot_changed h x x' k ov → 0 <= k < n → is_int32 a →
  ∃ x'', mwrite x' 4 (int_bytes a) = Some x'' ∧ slot_changed h x x'' k ov ∧
    pg_next x'' = Some a ∧ length x'' = length x' ∧ used h x'' = used h x'.
Proof using Hok.
  intros ([Hl Hc]&Hb&Hs&Hv) Hk Ha.
  destruct (write_next h Hok x' a Hl) as (x''&Hw&Hl''&Hn''&Hc''&Hb''&Hs'').
  assert (Hu : used h x'' = used h x') by by apply used_ext.
  exists x''. split_and!; [done| |by rewrite Hn'', wrap32_id|lia|done].
  unfold slot_changed, page_ok. split_and!.
  - done.
  - by rewrite Hc'', Hu.
  - intros j Hj. by rewrite Hb'', Hb.
  - intros j Hj Hne. by rewrite Hs'', Hs.
  - intros v Hov. rewrite Hs'' by done. auto.
Qed.

(** Overwriting a record. *)
Lemma page_overwrite x k v :
  page_ok h x → 0 <= k < n → pg_bit x k = true → Z.of_nat (length v) = record_size h →
  ∃ x1, mwrite x (slot_off h k) v = Some x1 ∧ slot_changed h x x1 k (Some v) ∧
    pg_next x1 = pg_next x ∧ length x1 = length x ∧ used h x1 = used h x.
Proof using Hok.
  intros [Hl Hc] Hk Hb Hv.
  destruct (write_record h Hok x k v Hl Hk Hv) as (x1&Hw1&Hl1&Hn1&Hc1&Hb1&Hs1).
  assert (Hu : used h x1 = used h x) by by apply used_ext.
  exists x1. split_and!; [done| |done|lia|done]. unfold slot_changed, page_ok. split_and!.
  - done.
  - by rewrite Hc1, Hu.
  - intros j Hj. rewrite Hb1 by done. case_decide; [by subst|done].
  - intros j Hj Hne. by rewrite Hs1, decide_False.
  - intros w [= <-]. by rewrite Hs1, decide_True.
Qed.

(** A fresh page: links, count and bitmap cleared. *)
Lemma page_fresh :
  ∃ x1 x2 x3, mwrite (zeros PAGE_SIZE) 4 (int_bytes RM_NO_PAGE) = Some x1 ∧
    mwrite x1 8 (int_bytes 0) = Some x2 ∧ bitmap_init x2 12 (bitmap_size h) = Some x3 ∧
    page_ok h x3 ∧ pg_next x3 = Some RM_NO_PAGE ∧ used h x3 = ∅ ∧
    length x1 = length (zeros PAGE_SIZE) ∧ length x2 = length x1 ∧ length x3 = length x2.
Proof using Hok.
  assert (Hl0 : Z.of_nat (length (zeros PAGE_SIZE)) = PAGE_SIZE) by (by rewrite length_zeros).
  destruct (write_next h Hok _ RM_NO_PAGE Hl0) as (x1&Hw1&Hl1&Hn1&_).
  destruct (write_count h Hok x1 0 Hl1) as (x2&Hw2&Hl2&Hn2&Hc2&_).
  destruct (hdr_bounds h Hok) as (?&Hbs&?&?).
  destruct (bitmap_init_spec x2 12 n (page_bitmap_in h Hok x2 Hl2)) as (x3&Hw3&Hl3&Hb3&Ho3);
    [unfold n; lia|].
  assert (Ha : agree_out 12 (12 + bitmap_size h) x2 x3) by (rewrite Hbs; by split).
  assert (Hu : used h x3 = ∅).
  { apply leibniz_equiv, elem_of_equiv_empty. intros j [Hj Hbj]%elem_of_used. unfold pg_bit in Hbj.
    rewrite Hb3 in Hbj; done. }
  assert (Hn3 : pg_next x3 = pg_next x2).
  { unfold pg_next. f_equal. eapply agree_mread; [done|lia..]. }
  assert (Hc3 : pg_count x3 = pg_count x2).
  { unfold pg_count. f_equal. eapply agree_mread; [done|lia..]. }
  exists x1, x2, x3. rewrite Hbs. split_and!; [done|done|done| |by rewrite Hn3, Hn2, Hn1|done|lia|lia|lia].
  split; [lia|]. rewrite Hc3, Hc2, Hu, size_empty. done.
Qed.
End writes.
