(* ===== verification/RecordStore.v ===== *)
(** * Holding a page

    What the record layer does with the buffer pool, stated once: fetch or create a
    page, read and change its bytes while it is pinned, unpin it.  [holds] is the state
    in between. *)

From S2P Require Import Prelude Errors Config Posix DiskManager Replacer BufferPool BufferPoolSpec.
From S2P Require Import BufferPoolProps RecordFile.
From stdpp Require Import options.

Section store.
Context {R : Type} `{!Replacer R, !ReplacerSpec R}.
Implicit Types s : Store R.

(** Frame [f] holds page [pid] with bytes [x] and [n] pins. *)
Record holds (T : gset frame_id_t) s (pid : PageId) (f : frame_id_t) (x : list byte) (n : Z) : Prop := {
  hd_inv : bp_inv ∅ T s;
  hd_table : page_table_ (bpm s) !! pid = Some f;
  hd_page : ∃ pg, pages_ (bpm s) !! f = Some pg ∧ id_ pg = pid ∧ data_ pg = x ∧ pin_count_ pg = n;
  hd_pin : 0 < n;
}.

Lemma holds_resident T s pid f x n pg :
  holds T s pid f x n → pages_ (bpm s) !! f = Some pg → resident pg.
Proof.
  intros [Hi Ht _ _] Hpg. destruct (bp_inv_table_frame _ _ _ _ _ Hi Ht) as (_&q&?&_&Hr).
  by simplify_eq.
Qed.

Lemma holds_view T s pid f x n : holds T s pid f x n → view s pid = Some x.
Proof.
  intros [Hi Ht (pg&Hpg&_&<-&_) _]. by eapply bp_inv_view_frame.
Qed.

Lemma holds_length T s pid f x n : holds T s pid f x n → Z.of_nat (length x) = PAGE_SIZE.
Proof. intros [Hi _ (pg&Hpg&_&<-&_) _]. by eapply (bi_len _ _ _ Hi f). Qed.

(** Some frame holds the page and cannot be taken. *)
Definition pinned s (pid : PageId) : Prop :=
  ∃ f pg, pages_ (bpm s) !! f = Some pg ∧ id_ pg = pid ∧ 0 < pin_count_ pg.

Lemma pinned_resident T s pid : bp_inv ∅ T s → pinned s pid → is_Some (page_table_ (bpm s) !! pid).
Proof.
  intros Hi (f&pg&Hpg&Hid&Hp). exists f. apply (bi_table _ _ _ Hi). split; [apply not_elem_of_empty|].
  exists pg. split_and!; [done..|]. intros Hr.
  destruct (bi_idle _ _ _ Hi f pg (not_elem_of_empty f) Hpg); [|lia]. unfold resident. lia.
Qed.

(** The same page table, and no page pinned that was not. *)
Definition table_stays s s' : Prop :=
  page_table_ (bpm s') = page_table_ (bpm s) ∧ ∀ pid, pinned s' pid → pinned s pid.

(** One frame changed, its page the same and pinned before if it is pinned now. *)
Lemma pinned_insert s s' f pg pg' :
  pages_ (bpm s) !! f = Some pg → pages_ (bpm s') = <[f := pg']> (pages_ (bpm s)) → id_ pg' = id_ pg →
  (0 < pin_count_ pg' → 0 < pin_count_ pg) → ∀ pid, pinned s' pid → pinned s pid.
Proof.
  intros Hpg Hs Hid Hp pid (g&q&Hq&Hqid&Hqp). rewrite Hs in Hq. destruct (decide (g = f)) as [->|Hg].
  - rewrite lookup_insert_eq in Hq. injection Hq as <-. exists f, pg. split_and!; [done|congruence|auto].
  - rewrite lookup_insert_ne in Hq by done. by exists g, q.
Qed.

(** Pages other than [pid], the disk and the page table are untouched. *)
Record only_page (pid : PageId) s s' : Prop := {
  op_disk : disk s' = disk s;
  op_table : table_stays s s';
  op_view : ∀ pid', pid' ≠ pid → view s' pid' = view s pid';
}.

#[global] Instance only_page_refl pid : Reflexive (only_page pid).
Proof. intros s. by split. Qed.
#[global] Instance only_page_trans pid : Transitive (only_page pid).
Proof.
  intros s1 s2 s3 [Ha [Hb Hb'] Hc] [Hd [He He'] Hf]. split; [congruence|split; [congruence|auto]|].
  intros pid' Hne. by rewrite Hf, Hc.
Qed.

(** ** Reading and writing *)

Lemma holds_get {A} T s pid f x n (g : list byte → option A) a :
  holds T s pid f x n → g x = Some a → page_get f g s = (Ret a, s).
Proof.
  intros [_ _ (pg&Hpg&_&<-&_) _] Hg. unfold page_get.
  rewrite (bind_Ret _ _ _ _ _ (frame_run _ _ _ Hpg)). by rewrite Hg.
Qed.

Lemma holds_page_id T s pid f x n : holds T s pid f x n → page_id_of f s = (Ret pid, s).
Proof.
  intros [_ _ (pg&Hpg&<-&_) _]. unfold page_id_of.
  by rewrite (bind_Ret _ _ _ _ _ (frame_run _ _ _ Hpg)).
Qed.

Lemma holds_update T s pid f x n (g : list byte → option (list byte)) x' :
  holds T s pid f x n → g x = Some x' → length x' = length x →
  ∃ s', page_update f g s = (Ret tt, s') ∧ holds (T ∪ {[f]}) s' pid f x' n ∧
    only_page pid s s' ∧ (available s → available s').
Proof.
  intros Hh Hg Hl. pose proof Hh as [Hi Ht (pg&Hpg&Hid&Hd&Hn) Hpin].
  pose proof (holds_resident _ _ _ _ _ _ _ Hh Hpg) as Hr. pose proof (holds_length _ _ _ _ _ _ Hh) as Hlx.
  exists (updated f (set_data x' pg) (replacer_ (bpm s)) (disk s) s).
  assert (Hi' : bp_inv ∅ (T ∪ {[f]}) (updated f (set_data x' pg) (replacer_ (bpm s)) (disk s) s)).
  { eapply (updated_inv T); simpl;
      [done|done|done|done|by rewrite Hl|lia|apply Hi|done|by eapply evictable_same|set_solver|lia|
       set_solver|done|done]. }
  split_and!.
  - unfold page_update. rewrite (bind_Ret _ _ _ _ _ (frame_run _ _ _ Hpg)). rewrite Hd, Hg.
    unfold access, ret, bind at 1. by rewrite (modify_frame_run _ _ _ _ Hpg).
  - split; [done|done| |done]. eexists. split; [apply lookup_insert_eq|]. done.
  - split; [done|split; [done|by eapply pinned_insert; [|reflexivity|..]]|]. intros pid' Hne. erewrite updated_view by done.
    rewrite decide_False by congruence. unfold view. by destruct (page_table_ (bpm s) !! pid').
  - done.
Qed.

(** ** Unpinning *)

Lemma holds_unpin T s pid f x n :
  holds T s pid f x n →
  ∃ s', unpin_page pid true s = (Ret true, s') ∧ bp_inv ∅ (T ∖ {[f]}) s' ∧
    (∀ pid', view s' pid' = view s pid') ∧ disk s' = disk s ∧
    table_stays s s' ∧ (n = 1 ∨ available s → available s') ∧
    page_id_of f s' = (Ret pid, s').
Proof.
  intros Hh. pose proof Hh as [Hi Ht (pg&Hpg&Hid&Hd&Hn) Hpin].
  destruct (unpin_ok T s pid f pg true Hi Ht Hpg) as (Hrun&Hi'&Hv); [lia|done|].
  eexists. split_and!; [done|done|done|done| | |].
  1: { split; [done|]. eapply pinned_insert; [done|reflexivity|done|]. simpl. lia. }
  2: { unfold page_id_of, bind, frame. simpl. rewrite lookup_insert_eq. unfold ret. simpl. by rewrite Hid. }
  intros Hor. unfold available in *. simpl. rewrite Hn.
  destruct (Z.eqb_spec (n - 1) 0) as [E|E].
  - right. destruct (unpin_spec f (replacer_ (bpm s)) (bi_rep _ _ _ Hi)) as (_&->&_); [|set_solver].
    right. eapply evictable_room; [done|by rewrite Hpg|].
    rewrite (evictable_iff T s f pg) by (done || by eapply holds_resident). lia.
  - destruct Hor as [?|?]; [lia|done].
Qed.

(** A clean unpin, by a holder that is not the last one of a changed page. *)
Lemma holds_unpin_clean T s pid f x n :
  holds T s pid f x n → (f ∈ T → 1 < n) →
  ∃ s', unpin_page pid false s = (Ret true, s') ∧ bp_inv ∅ T s' ∧
    (∀ pid', view s' pid' = view s pid') ∧ disk s' = disk s ∧
    table_stays s s' ∧ (n = 1 ∨ available s → available s').
Proof.
  intros Hh HT. pose proof Hh as [Hi Ht (pg&Hpg&Hid&Hd&Hn) Hpin].
  destruct (unpin_ok T s pid f pg false Hi Ht Hpg) as (Hrun&Hi'&Hv); [lia|intros; rewrite Hn; auto|].
  eexists. split_and!; [done|done|done|done| |].
  { split; [done|]. eapply pinned_insert; [done|reflexivity|done|]. simpl. lia. }
  intros Hor. unfold available in *. simpl. rewrite Hn.
  destruct (Z.eqb_spec (n - 1) 0) as [E|E].
  - right. destruct (unpin_spec f (replacer_ (bpm s)) (bi_rep _ _ _ Hi)) as (_&->&_); [|set_solver].
    right. eapply evictable_room; [done|by rewrite Hpg|].
    rewrite (evictable_iff T s f pg) by (done || by eapply holds_resident). lia.
  - destruct Hor as [?|?]; [lia|done].
Qed.

(** ** Fetching *)

Definition reachable s (pid : PageId) : Prop := is_Some (page_table_ (bpm s) !! pid) ∨ available s.

(** Between operations: the page table and the pinned pages only ever gain the fetched
    page. *)
Definition table_grows (pid : PageId) s s' : Prop :=
  (∀ pid', is_Some (page_table_ (bpm s') !! pid') → pid' = pid ∨ is_Some (page_table_ (bpm s) !! pid')) ∧
  (∀ pid', pinned s' pid' → pid' = pid ∨ pinned s pid').

Lemma table_grows_frames T T' s s' pid f :
  bp_inv ∅ T s → bp_inv ∅ T' s' → page_table_ (bpm s') !! pid = Some f →
  (∀ g, g ≠ f → pages_ (bpm s') !! g = pages_ (bpm s) !! g) → table_grows pid s s'.
Proof.
  intros Hi Hi' Ht Ho. split.
  2:{ intros pid' (g&q&Hq&Hqid&Hp). destruct (decide (g = f)) as [->|Hgf].
      - left. destruct (bp_inv_table_frame _ _ _ _ _ Hi' Ht) as (_&q'&?&<-&_). by simplify_eq.
      - right. rewrite Ho in Hq by done. by exists g, q. }
  intros pid' [g Hg]. destruct (decide (g = f)) as [->|Hgf].
  - left. destruct (bp_inv_table_frame _ _ _ _ _ Hi' Hg) as (_&q&Hq&<-&_).
    destruct (bp_inv_table_frame _ _ _ _ _ Hi' Ht) as (_&q'&?&<-&_). by simplify_eq.
  - right. exists g. apply (bi_table _ _ _ Hi). destruct (bp_inv_table_frame _ _ _ _ _ Hi' Hg) as (?&q&Hq&?&?).
    rewrite Ho in Hq by done. split; [done|]. by exists q.
Qed.

Lemma fetch_holds T s pid x :
  bp_inv ∅ T s → view s pid = Some x → page_writable (disk s) pid → reachable s pid →
  ∃ f s' n, fetch_page pid s = (Ret (Some f), s') ∧ holds T s' pid f x n ∧ view_kept s s' ∧
    same_files (disk s) (disk s') ∧ table_grows pid s s' ∧
    (n = 1 ∨ (available s → available s')) ∧ (f ∈ T → 1 < n).
Proof.
  intros Hi Hx Hw Hav. destruct (page_table_ (bpm s) !! pid) as [f|] eqn:Ht.
  - destruct (bp_inv_table_frame _ _ _ _ _ Hi Ht) as (_&pg&Hpg&Hid&Hr).
    destruct (fetch_hit T s pid f pg Hi Ht Hpg) as [Hrun Hi'].
    rewrite (bp_inv_view_frame ∅ T s _ f pg) in Hx by done. injection Hx as Hx.
    pose proof (bi_pin _ _ _ Hi f pg (not_elem_of_empty f) Hpg) as Hp0.
    exists f. eexists. exists (pin_count_ pg + 1). split_and!; [done| | |done| | |].
    + split; [done|done| |lia]. eexists. split; [apply lookup_insert_eq|]. done.
    + intros pid' y Hy. by rewrite (fetch_hit_view T s f pg).
    + split; [intros pid'; by right|]. intros pid' (g&q&Hq&Hqid&Hp). simpl in Hq. destruct (decide (g = f)) as [->|Hg].
      * rewrite lookup_insert_eq in Hq. injection Hq as <-. left. by rewrite <- Hqid.
      * rewrite lookup_insert_ne in Hq by done. right. by exists g, q.
    + destruct (decide (pin_count_ pg = 0)) as [E|E]; [left; lia|right].
      unfold available. simpl. destruct (pin_spec f _ (bi_rep _ _ _ Hi)) as (_&->&_).
      intros [?|Hne]; [by left|right]. rewrite difference_disjoint_L; [done|].
      rewrite disjoint_singleton_r, (evictable_iff T s f pg); done.
    + intros (_&q&?&_&?)%(bi_taint _ _ _ Hi). simplify_eq. lia.
  - destruct Hav as [[? ?]|Hav]; [congruence|]. unfold view in Hx. rewrite Ht in Hx.
    destruct (fetch_miss T s pid x Hi Ht Hav Hx Hw) as (f&s'&Hrun&Hi'&Hv&Ht'&Hpg&Ho&Hp&Hsf).
    exists f, s', 1. split_and!; [done| |done|done|by eapply table_grows_frames|by left|].
    + split; [done|done| |lia]. by eexists.
    + intros (_&q&Hq&_&?)%(bi_taint _ _ _ Hi). apply Hp in Hq. lia.
Qed.

(** ** New pages *)

Lemma new_holds T s fd :
  bp_inv ∅ T s → available s → 0 <= fd < MAX_FD →
  let pid := mkPageId fd (next_page (disk s) fd) in
  page_table_ (bpm s) !! pid = None → page_writable (disk s) pid →
  ∃ f s', new_page fd s = (Ret (Some (f, pid)), s') ∧
    holds (T ∪ {[f]}) s' pid f (zeros PAGE_SIZE) 1 ∧
    (∀ pid' x, pid' ≠ pid → view s pid' = Some x → view s' pid' = Some x) ∧
    table_grows pid s s' ∧
    next_page (disk s') fd = wrap32 (next_page (disk s) fd + 1) ∧
    (∀ fd', fd' ≠ fd → next_page (disk s') fd' = next_page (disk s) fd') ∧
    (∀ pid', page_writable (disk s) pid' → page_writable (disk s') pid').
Proof.
  intros Hi Hav Hfd pid Hn Hw.
  destruct (new_ok T s fd Hi Hav Hfd Hn Hw) as (f&s'&Hrun&Hi'&Hv&Hz&Ht&Hpg&Ho&Hp&Hnx&Hnx'&Hwr).
  exists f, s'. split_and!; [done| |done|by eapply table_grows_frames|done|done|done].
  split; [done|done| |lia]. by eexists.
Qed.
End store.
