(* ===== verification/RecordProps.v ===== *)
(** * Correctness of the record files

    The invariant of an open record file, and what [insert_record], [delete_record],
    [update_record] and [get_record] do to the map of records the file stands for. *)

From S2P Require Import Prelude Errors Config Posix DiskManager Replacer BufferPool BufferPoolSpec.
From S2P Require Import BufferPoolProps Bitmap RecordFile RecordPage RecordSpec RecordStore.
From stdpp Require Import options.

Section rm.
Context {R : Type} `{!Replacer R, !ReplacerSpec R}.
Implicit Types (w : RmState R) (s : Store R).

Definition file_view (fd : Z) s : Pages := λ p, view s (mkPageId fd p).

(** A handle [hd] on an open file that holds the records [m]. *)
Record rm_inv (T : gset frame_id_t) (hd : RmFileHandle) s (m : gmap Rid (list byte)) : Prop := {
  ri_pool : bp_inv ∅ T s;
  ri_file : file_ok (file_hdr_ hd) (file_view (fd_ hd) s) m;
  ri_fd : 0 <= fd_ hd < MAX_FD;
  ri_next : next_page (disk s) (fd_ hd) = num_pages (file_hdr_ hd);
  ri_table : ∀ p, is_Some (page_table_ (bpm s) !! mkPageId (fd_ hd) p) → in_file (file_hdr_ hd) p;
  ri_writable : ∀ p, in_file (file_hdr_ hd) p → page_writable (disk s) (mkPageId (fd_ hd) p);
}.

(** What an operation on page [pid] leaves alone. *)
Record moved (pid : PageId) s s' : Prop := {
  mv_view : ∀ pid' x, pid' ≠ pid → view s pid' = Some x → view s' pid' = Some x;
  mv_writable : ∀ pid', page_writable (disk s) pid' → page_writable (disk s') pid';
  mv_table : table_grows pid s s';
  mv_next : ∀ fd, fd ≠ pid_fd pid → next_page (disk s') fd = next_page (disk s) fd;
}.

Lemma moved_trans pid s1 s2 s3 : moved pid s1 s2 → moved pid s2 s3 → moved pid s1 s3.
Proof.
  intros [Ha Hb Hc Hd] [He Hf Hg Hh]. split; [auto|auto| |].
  - destruct Hg as [Hg1 Hg2], Hc as [Hc1 Hc2]. split; [intros pid' [->|H]%Hg1; auto|intros pid' [->|H]%Hg2; auto].
  - intros fd Hne. rewrite Hh by done. auto.
Qed.

Lemma moved_fetch pid s s' :
  view_kept s s' → same_files (disk s) (disk s') → table_grows pid s s' → moved pid s s'.
Proof.
  intros Hv Hsf Ht. split; [auto| |done|].
  - intros. by eapply same_files_writable.
  - intros. by apply same_files_next.
Qed.

Lemma moved_only pid s s' : only_page pid s s' → moved pid s s'.
Proof.
  intros [Hd [Ht Hp] Hv]. split.
  - intros pid' x Hne. by rewrite Hv.
  - by rewrite Hd.
  - split; [intros pid'; rewrite Ht; auto|auto].
  - by rewrite Hd.
Qed.

Lemma moved_unpin pid s s' :
  (∀ pid', view s' pid' = view s pid') → disk s' = disk s → table_stays s s' → moved pid s s'.
Proof. intros Hv Hd Ht. apply moved_only. by split. Qed.

(** The invariant after one page of the file was replaced. *)
Lemma rm_inv_moved T T' hd hd' s s' m m' p x' :
  rm_inv T hd s m → fd_ hd' = fd_ hd → bp_inv ∅ T' s' → moved (mkPageId (fd_ hd) p) s s' →
  view s' (mkPageId (fd_ hd) p) = Some x' →
  next_page (disk s') (fd_ hd) = num_pages (file_hdr_ hd') →
  num_pages (file_hdr_ hd) <= num_pages (file_hdr_ hd') → in_file (file_hdr_ hd') p →
  (∀ q, in_file (file_hdr_ hd') q → q = p ∨ in_file (file_hdr_ hd) q) →
  page_writable (disk s) (mkPageId (fd_ hd) p) →
  file_ok (file_hdr_ hd') (page_upd p x' (file_view (fd_ hd) s)) m' →
  rm_inv T' hd' s' m'.
Proof.
  intros Hi Hfd Hp [Hv Hw [Ht _] _] Hx Hn Hle Hlt Hin Hwp Hf.
  split; rewrite ?Hfd; [done| |apply Hi|done| |].
  - eapply file_ok_ext; [|done]. intros q Hq. unfold file_view at 1.
    destruct (decide (q = p)) as [->|Hqp]; [by rewrite page_upd_eq|].
    rewrite page_upd_ne by done. destruct (Hin q Hq) as [?|Hq']; [done|].
    destruct (fo_page _ _ _ (ri_file _ _ _ _ Hi) q Hq') as (y&Hy&_). rewrite Hy.
    apply Hv; [|done]. congruence.
  - intros q Hq. apply Ht in Hq as [Hq|Hq]; [congruence|].
    apply (ri_table _ _ _ _ Hi) in Hq. unfold in_file in *. lia.
  - intros q Hq. apply Hw. destruct (Hin q Hq) as [->|Hq']; [done|]. by apply (ri_writable _ _ _ _ Hi).
Qed.

(** ** Running in the record state *)

Lemma ws_run {A} (m : M (Store R) A) hd s r s' :
  m s = (r, s') → with_store m (mkRm hd s) = (r, mkRm hd s').
Proof. intros H. unfold with_store, zoom. simpl. by rewrite H. Qed.

Lemma unpin_handle_run hd s T pid ph x n b r s' :
  holds T s pid (ph_page ph) x n → unpin_page pid b s = (r, s') →
  unpin_handle ph b (mkRm hd s) = (r, mkRm hd s').
Proof.
  intros Hh Hu. unfold unpin_handle.
  rewrite (bind_Ret _ _ _ _ _ (ws_run _ hd _ _ _ (holds_page_id _ _ _ _ _ _ Hh))). by apply ws_run.
Qed.

Definition handle_of (hd : RmFileHandle) (f : frame_id_t) : RmPageHandle :=
  RmPageHandle_make (file_hdr_ hd) f.

Lemma fetch_handle_ok T hd s m p :
  rm_inv T hd s m → in_file (file_hdr_ hd) p → reachable s (mkPageId (fd_ hd) p) →
  ∃ f s' x n, fetch_page_handle p (mkRm hd s) = (Ret (handle_of hd f), mkRm hd s') ∧
    holds T s' (mkPageId (fd_ hd) p) f x n ∧ file_view (fd_ hd) s p = Some x ∧
    page_ok (file_hdr_ hd) x ∧ moved (mkPageId (fd_ hd) p) s s' ∧
    next_page (disk s') (fd_ hd) = num_pages (file_hdr_ hd) ∧
    (n = 1 ∨ (available s → available s')) ∧ (f ∈ T → 1 < n) ∧ view_kept s s'.
Proof.
  intros Hi Hin Hav. destruct (fo_page _ _ _ (ri_file _ _ _ _ Hi) p Hin) as (x&Hx&Hok).
  destruct (fetch_holds T s (mkPageId (fd_ hd) p) x) as (f&s'&n&Hrun&Hh&Hv&Hsf&Ht&Hn&HT);
    [apply Hi|done|by apply Hi|done|].
  exists f, s', x, n. split_and!; [|done|done|done|by apply moved_fetch| |done|done|done].
  - unfold fetch_page_handle, the_hdr, the_fd, gets, bind at 1. unfold bind at 1. cbn [rm_handle].
    destruct (Z.geb_spec p (num_pages (file_hdr_ hd))) as [|_]; [unfold in_file in *; lia|].
    by rewrite (bind_Ret _ _ _ _ _ (ws_run _ hd _ _ _ Hrun)).
  - rewrite (same_files_next _ _ _ Hsf). apply Hi.
Qed.

(** The updates of a held page, one after the other. *)
Lemma holds_update' T s hd pid f x n g x' :
  holds T s pid f x n → f ∈ T → g x = Some x' → length x' = length x →
  ∃ s', with_store (page_update f g) (mkRm hd s) = (Ret tt, mkRm hd s') ∧ holds T s' pid f x' n ∧
    only_page pid s s' ∧ (available s → available s').
Proof.
  intros Hh HT Hg Hl. destruct (holds_update T s pid f x n g x' Hh Hg Hl) as (s'&Hr&Hh'&Ho&Hav).
  exists s'. split_and!; [by apply ws_run| |done|done].
  by replace (T ∪ {[f]}) with T in Hh' by set_solver.
Qed.

Lemma holds_taint T s hd pid f x n g x' :
  holds T s pid f x n → g x = Some x' → length x' = length x →
  ∃ s', with_store (page_update f g) (mkRm hd s) = (Ret tt, mkRm hd s') ∧ holds (T ∪ {[f]}) s' pid f x' n ∧
    only_page pid s s' ∧ (available s → available s').
Proof.
  intros Hh Hg Hl. destruct (holds_update T s pid f x n g x' Hh Hg Hl) as (s'&Hr&Hh'&Ho&Hav).
  exists s'. split_and!; [by apply ws_run|done|done|done].
Qed.

Lemma holds_read {A} T s hd pid f x n (g : list byte → option A) a :
  holds T s pid f x n → g x = Some a →
  with_store (page_get f g) (mkRm hd s) = (Ret a, mkRm hd s).
Proof. intros Hh Hg. eapply ws_run, holds_get; eauto. Qed.

(** The page handle that [insert_record] works on: the first page with room, which is
    a new one when there is none. *)
Definition can_insert (hd : RmFileHandle) s : Prop :=
  let h := file_hdr_ hd in
  if first_free_page_no h =? RM_NO_PAGE
  then available s ∧ num_pages h < INT_MAX ∧ page_writable (disk s) (mkPageId (fd_ hd) (num_pages h))
  else reachable s (mkPageId (fd_ hd) (first_free_page_no h)).

Lemma free_page T hd s m :
  rm_inv T hd s m → first_free_page_no (file_hdr_ hd) ≠ RM_NO_PAGE →
  in_file (file_hdr_ hd) (first_free_page_no (file_hdr_ hd)) ∧
  has_room (file_hdr_ hd) (file_view (fd_ hd) s) (first_free_page_no (file_hdr_ hd)).
Proof.
  intros Hi Hne. destruct (fo_free _ _ _ (ri_file _ _ _ _ Hi)) as (l&Hc&_&Hl).
  inversion Hc; [congruence|]. subst. apply Hl. by left.
Qed.

(** Other files see nothing of an operation on file [fd]. *)
Definition others_kept (fd : Z) s s' : Prop :=
  (∀ pid x, pid_fd pid ≠ fd → view s pid = Some x → view s' pid = Some x) ∧
  (∀ fd', fd' ≠ fd → next_page (disk s') fd' = next_page (disk s) fd') ∧
  (∀ pid, page_writable (disk s) pid → page_writable (disk s') pid) ∧
  (∀ pid, pid_fd pid ≠ fd → is_Some (page_table_ (bpm s') !! pid) → is_Some (page_table_ (bpm s) !! pid)) ∧
  (∀ pid, pid_fd pid ≠ fd → pinned s' pid → pinned s pid).

Lemma moved_others fd p s s' : moved (mkPageId fd p) s s' → others_kept fd s s'.
Proof.
  intros [Hv Hw [Ht Hp] Hn]. split_and!; [|done|done| |].
  - intros pid x Hne. apply Hv. by intros ->.
  - intros pid Hne [->|?]%Ht; done.
  - intros pid Hne [->|?]%Hp; done.
Qed.

#[global] Instance others_kept_refl fd : Reflexive (others_kept fd).
Proof. intros s. by split_and!. Qed.
#[global] Instance others_kept_trans fd : Transitive (others_kept fd).
Proof.
  intros s1 s2 s3 (Ha&Hb&Hc&Hd&Hd') (He&Hf&Hg&Hh&Hh'). split_and!; [auto| |auto|auto|auto].
  intros fd' Hne. rewrite Hf by done. auto.
Qed.

(** The header from one operation to the next: at most one page more, and that only when no
    page has room. *)
Definition hdr_step (h h' : RmFileHdr) : Prop :=
  record_size h' = record_size h ∧ num_pages h <= num_pages h' <= num_pages h + 1 ∧
  (num_pages h < num_pages h' → first_free_page_no h = RM_NO_PAGE).

(** The handle with which an insertion starts: invariant, a page with room, pinned. *)
Definition ready T' hd hd' s s' m f p x n : Prop :=
  rm_inv T' hd' s' m ∧ holds T' s' (mkPageId (fd_ hd) p) f x n ∧ fd_ hd' = fd_ hd ∧
  first_free_page_no (file_hdr_ hd') = p ∧ in_file (file_hdr_ hd') p ∧ page_ok (file_hdr_ hd') x ∧
  Z.of_nat (size (used (file_hdr_ hd') x)) < num_records_per_page (file_hdr_ hd') ∧
  others_kept (fd_ hd) s s' ∧ (n = 1 ∨ (available s → available s')) ∧
  hdr_step (file_hdr_ hd) (file_hdr_ hd').

#[local] Opaque zeros mwrite mread bitmap_init.

Lemma new_handle_ok T hd s m :
  rm_inv T hd s m → first_free_page_no (file_hdr_ hd) = RM_NO_PAGE → can_insert hd s →
  ∃ f s' hd' x T', create_new_page_handle (mkRm hd s) = (Ret (handle_of hd' f), mkRm hd' s') ∧
    ready T' hd hd' s s' m f (num_pages (file_hdr_ hd)) x 1.
Proof.
  intros Hi Hff Hc. unfold can_insert in Hc. rewrite Hff in Hc. destruct Hc as (Hav&Hmax&Hw).
  set (h := file_hdr_ hd) in *. pose proof (ri_next _ _ _ _ Hi) as Hnx.
  pose proof (ri_file _ _ _ _ Hi) as Hf. pose proof (fo_hdr _ _ _ Hf) as Hok. fold h in Hf, Hok, Hnx.
  pose proof (fo_num _ _ _ Hf) as Hnum.
  destruct (new_holds T s (fd_ hd)) as (f&s1&Hrun&Hh1&Hv1&Ht1&Hnx1&Hno1&Hw1);
    [apply Hi|done|apply Hi| |by rewrite Hnx|].
  { rewrite Hnx. apply eq_None_not_Some. intros Hs%(ri_table _ _ _ _ Hi). fold h in Hs. unfold in_file in Hs. lia. }
  rewrite Hnx in *. set (pid := mkPageId (fd_ hd) (num_pages h)) in *.
  destruct (page_fresh h Hok) as (x1&x2&x3&Hx1&Hx2&Hx3&Hpok&Hpn&Hpu&Hl1&Hl2&Hl3).
  assert (HfT : f ∈ T ∪ {[f]}) by (by apply elem_of_union_r, elem_of_singleton).
  destruct (holds_update' _ s1 hd pid f _ 1 (λ d, mwrite d 4 (int_bytes RM_NO_PAGE)) x1 Hh1)
    as (s2&Hr2&Hh2&Ho2&_); [done|done|done|].
  destruct (holds_update' _ s2 hd pid f _ 1 (λ d, mwrite d 8 (int_bytes 0)) x2 Hh2)
    as (s3&Hr3&Hh3&Ho3&_); [done|done|done|].
  destruct (holds_update' _ s3 hd pid f _ 1 (λ d, bitmap_init d 12 (bitmap_size h)) x3 Hh3)
    as (s4&Hr4&Hh4&Ho4&_); [done|done|done|].
  assert (Ho : only_page pid s1 s4) by (etrans; [done|]; by etrans).
  assert (Hmv : moved pid s s4).
  { eapply moved_trans; [|by apply moved_only]. by split. }
  exists f, s4, (mkRmFileHandle (fd_ hd) (grown h)), x3, (T ∪ {[f]}). split.
  - unfold create_new_page_handle, the_hdr, the_fd, gets, bind at 1. unfold bind at 1. cbn [rm_handle].
    rewrite (bind_Ret _ _ _ _ _ (ws_run _ hd _ _ _ Hrun)). unfold deref, ret, bind at 1. cbn [fst].
    unfold page_set_int. cbn [ph_hdr ph_bitmap RmPageHandle_make]. fold h.
    rewrite (bind_Ret _ _ _ _ _ Hr2), (bind_Ret _ _ _ _ _ Hr3), (bind_Ret _ _ _ _ _ Hr4).
    unfold upd_hdr, modify, bind at 1. cbn [rm_handle rm_store fd_ file_hdr_].
    rewrite (bind_Ret _ _ _ _ _ (ws_run _ _ _ _ _ (holds_page_id _ _ _ _ _ _ Hh4))).
    unfold bind. cbn. fold h. unfold grown, handle_of. cbn.
    by rewrite wrap32_id by (unfold is_int32, INT_MIN, INT_MAX in *; lia).
  - assert (Hin : in_file (grown h) (num_pages h)).
    { unfold in_file, RM_FIRST_RECORD_PAGE. simpl. lia. }
    unfold ready. split_and!; [|done|done|done|done|done| |by eapply moved_others|by left|unfold hdr_step; simpl; fold h; lia].
    + eapply (rm_inv_moved T _ hd); [done|done|apply Hh4|done|by eapply holds_view| | | | |done|];
        cbn [file_hdr_].
      * rewrite (op_disk _ _ _ Ho), Hnx1. simpl. fold h. apply wrap32_id.
        unfold is_int32, INT_MIN, INT_MAX in *. lia.
      * simpl. fold h. lia.
      * done.
      * intros q. unfold in_file. simpl. fold h. lia.
      * by apply file_grown.
    + change (Z.of_nat (size (used h x3)) < num_records_per_page h).
      rewrite Hpu, size_empty. destruct (hdr_bounds h Hok). lia.
Qed.

Lemma create_handle_ok T hd s m :
  rm_inv T hd s m → can_insert hd s →
  ∃ f s' hd' p x n T', create_page_handle (mkRm hd s) = (Ret (handle_of hd' f), mkRm hd' s') ∧
    ready T' hd hd' s s' m f p x n.
Proof.
  intros Hi Hc. unfold create_page_handle, the_hdr, gets, bind at 1. cbn [rm_handle].
  destruct (Z.eqb_spec (first_free_page_no (file_hdr_ hd)) RM_NO_PAGE) as [E|E].
  - destruct (new_handle_ok T hd s m Hi E Hc) as (f&s'&hd'&x&T'&?&?).
    exists f, s', hd', (num_pages (file_hdr_ hd)), x, 1, T'. done.
  - destruct (free_page T hd s m Hi E) as [Hin (y&Hy&Hroom)].
    unfold can_insert in Hc. rewrite (proj2 (Z.eqb_neq _ _) E) in Hc.
    destruct (fetch_handle_ok T hd s m _ Hi Hin Hc) as (f&s'&x&n&Hrun&Hh&Hx&Hok&Hmv&Hnx&Hn&_&Hvk).
    exists f, s', hd, (first_free_page_no (file_hdr_ hd)), x, n, T. split; [done|].
    simplify_eq. unfold ready.
    split_and!; [|done|done|done|done|done|done|by eapply moved_others|done|unfold hdr_step; lia].
    eapply (rm_inv_moved T T hd hd s s' m m _ y); [done|done|apply Hh|done|by eapply holds_view|done|lia| | | |].
    + done.
    + by right.
    + by apply (ri_writable _ _ _ _ Hi).
    + eapply file_ok_ext; [|apply Hi]. intros q _. unfold page_upd. case_decide; [by subst|done].
Qed.

Lemma RmRecord_make_full n v : Z.of_nat (length v) = n → RmRecord_make n v = Some (mkRmRecord v n true).
Proof.
  intros Hl. unfold RmRecord_make. assert (mread v 0 n = Some v) as ->; [|done].
  apply mread_Some. split_and!; [lia..|]. rewrite drop_0, take_ge by lia. done.
Qed.

Lemma slot_record h x k v :
  pg_slot h x k = Some v →
  (mread x (slot_off h k) (record_size h) ≫= RmRecord_make (record_size h)) =
    Some (mkRmRecord v (record_size h) true).
Proof.
  unfold pg_slot. intros Hv. rewrite Hv. by apply RmRecord_make_full, (mread_length _ _ _ _ Hv).
Qed.

Lemma pg_slot_Some h x k :
  hdr_ok h → page_ok h x → 0 <= k < num_records_per_page h → ∃ v, pg_slot h x k = Some v.
Proof.
  intros Hok [Hl _] Hk. destruct (slot_bounds h Hok k Hk) as [? ?].
  pose proof (ho_size h Hok). destruct (hdr_bounds h Hok) as (?&?&?&?).
  apply mread_is_Some; lia.
Qed.

Lemma chain_head P a l : chain P a l → a ≠ RM_NO_PAGE → ∃ x b, P a = Some x ∧ pg_next x = Some b.
Proof. intros Hc Ha. inversion Hc; [congruence|eauto]. Qed.

Lemma mread_prefix_length buf len v : mread buf 0 len = Some v → Z.of_nat (length v) = len.
Proof. apply mread_length. Qed.

Lemma page_get_count T s hd pid f x n c :
  holds T s pid f x n → pg_count x = Some c →
  with_store (page_get_int f 8) (mkRm hd s) = (Ret c, mkRm hd s).
Proof. intros Hh Hc. by eapply (holds_read T s hd pid f x n). Qed.

(** Where an insertion leaves the header. *)
Definition after_insert (h : RmFileHdr) (x x' : list byte) : RmFileHdr :=
  if Z.of_nat (size (used h x')) =? num_records_per_page h
  then set_first_free (default 0 (pg_next x)) h else h.

Lemma insert_file_ok h P m p k x x3 v :
  file_ok h P m → in_file h p → 0 <= k < num_records_per_page h → P p = Some x →
  first_free_page_no h = p → slot_changed h x x3 k (Some v) → pg_next x3 = pg_next x →
  Z.of_nat (size (used h x)) < num_records_per_page h →
  size (used h x3) = S (size (used h x)) →
  file_ok (after_insert h x x3) (page_upd p x3 P) (<[mkRid p k := v]> m).
Proof.
  intros Hf Hin Hk Hx Hff Hch Hn Hroom Hsz. unfold after_insert.
  assert (Hp : p ≠ RM_NO_PAGE) by (unfold in_file, RM_FIRST_RECORD_PAGE, RM_NO_PAGE in *; lia).
  destruct (Z.eqb_spec (Z.of_nat (size (used h x3))) (num_records_per_page h)) as [E|E].
  - destruct (fo_free _ _ _ Hf) as (l&Hc&_). rewrite Hff in Hc.
    destruct (chain_head P p l Hc Hp) as (y&b&Hy&Hb). simplify_eq. rewrite Hb. simpl.
    eapply (file_changed_full h P m (first_free_page_no h) k x x3 (Some v)); done || lia.
  - eapply (file_changed_stay h P m p k x x3 (Some v)); try done. split; lia.
Qed.

(** A page that has become full leaves the list of pages with room. *)
Lemma unlink_run T T3 s s3 hd m pid p f x x3 n :
  let h := file_hdr_ hd in
  rm_inv T hd s m → first_free_page_no h = p → in_file h p → file_view (fd_ hd) s p = Some x → pg_next x3 = pg_next x →
  holds T3 s3 pid f x3 n →
  (if Z.of_nat (size (used h x3)) =? num_records_per_page h then
     let! next := with_store (page_get_int f (0 + OFFSET_PAGE_HDR + OFFSET_next_free_page_no)) in upd_hdr (set_first_free next)
   else ret tt) (mkRm hd s3) = (Ret tt, mkRm (mkRmFileHandle (fd_ hd) (after_insert h x x3)) s3).
Proof.
  intros h Hi Hff Hin Hx Hn3 Hh3. pose proof (ri_file _ _ _ _ Hi) as Hf. fold h in Hf.
  unfold after_insert. destruct (Z.of_nat (size (used h x3)) =? num_records_per_page h); [|by destruct hd].
  destruct (fo_free _ _ _ Hf) as (l&Hcl&_). rewrite Hff in Hcl. destruct (chain_head _ p l Hcl) as (y&b&Hy&Hb).
  { unfold in_file, RM_FIRST_RECORD_PAGE, RM_NO_PAGE in *. lia. }
  assert (y = x) as -> by congruence. rewrite Hb. rewrite <- Hn3 in Hb. unfold page_get_int.
  by rewrite (bind_Ret _ _ _ _ _ (holds_read _ _ hd _ _ _ _ (λ d, bytes_int <$> mread d 4 4) b Hh3 Hb)).
Qed.

(** The file after the slot is filled. *)
Lemma inserted_inv T T' s s' hd m p k v x x3 :
  let h := file_hdr_ hd in let hd' := mkRmFileHandle (fd_ hd) (after_insert h x x3) in
  rm_inv T hd s m → first_free_page_no h = p → in_file h p → file_view (fd_ hd) s p = Some x →
  0 <= k < num_records_per_page h → slot_changed h x x3 k (Some v) → pg_next x3 = pg_next x →
  Z.of_nat (size (used h x)) < num_records_per_page h → size (used h x3) = S (size (used h x)) →
  bp_inv ∅ T' s' → moved (mkPageId (fd_ hd) p) s s' → view s' (mkPageId (fd_ hd) p) = Some x3 →
  next_page (disk s') (fd_ hd) = next_page (disk s) (fd_ hd) →
  rm_inv T' hd' s' (<[mkRid p k := v]> m).
Proof.
  intros h hd' Hi Hff Hin Hx Hk Hch Hn3 Hroom Hsz Hbp Hmv Hv Hnx. pose proof (ri_file _ _ _ _ Hi) as Hf. fold h in Hf.
  assert (Hnp : num_pages (file_hdr_ hd') = num_pages h) by (simpl; unfold after_insert; by destruct (_ =? _)).
  assert (Hin' : ∀ q, in_file (file_hdr_ hd') q ↔ in_file h q) by (intros q; unfold in_file; by rewrite Hnp).
  eapply (rm_inv_moved T _ hd hd' s s' m _ p x3); [done|done|done|done|done| | | | | |].
  - rewrite Hnp, Hnx. apply Hi.
  - fold h. lia.
  - by apply Hin'.
  - intros q Hq. right. by apply Hin'.
  - by apply (ri_writable _ _ _ _ Hi).
  - by apply insert_file_ok.
Qed.

Lemma insert_ok T hd s m buf v :
  rm_inv T hd s m → can_insert hd s → mread buf 0 (record_size (file_hdr_ hd)) = Some v →
  ∃ rid hd' s' T', insert_record buf (mkRm hd s) = (Ret rid, mkRm hd' s') ∧
    rm_inv T' hd' s' (<[rid := v]> m) ∧ m !! rid = None ∧ fd_ hd' = fd_ hd ∧
    others_kept (fd_ hd) s s' ∧ (available s → available s') ∧
    hdr_step (file_hdr_ hd) (file_hdr_ hd').
Proof.
  intros Hi Hc Hv.
  destruct (create_handle_ok T hd s m Hi Hc)
    as (f&s0&hd0&p&x&n&T0&Hrun&(Hi0&Hh0&Hfd&Hff&Hin&Hpok&Hroom&Hot&Hav&Hrs)).
  set (h := file_hdr_ hd0) in *. pose proof (ri_file _ _ _ _ Hi0) as Hf. fold h in Hf.
  pose proof (fo_hdr _ _ _ Hf) as Hok. destruct Hrs as [Hrs Hnps]. fold h in Hrs, Hnps. rewrite <- Hrs in Hv.
  pose proof (mread_prefix_length _ _ _ Hv) as Hlv.
  destruct (first_free_slot h Hok x Hpok Hroom) as (k&Hk&Hkr&Hbit).
  destruct (page_insert h Hok x k v Hpok Hkr Hbit Hlv)
    as (x1&x2&x3&Hx1&Hx2&Hc2&Hx3&Hch&Hn3&Hl1&Hl2&Hl3&Hsz).
  assert (HfT : f ∈ T0 ∪ {[f]}) by (by apply elem_of_union_r, elem_of_singleton).
  set (pid := mkPageId (fd_ hd) p) in *.
  destruct (holds_taint T0 s0 hd0 pid f x n (write_slot h (handle_of hd0 f) k buf) x1 Hh0)
    as (s1&Hr1&Hh1&Ho1&Hav1); [unfold handle_of; fold h; by rewrite (write_slot_run h f k buf v)|done|].
  destruct (holds_update' _ s1 hd0 pid f x1 n (λ d, bitmap_set d 12 k) x2 Hh1)
    as (s2&Hr2&Hh2&Ho2&Hav2); [done|done|done|].
  destruct (holds_update' _ s2 hd0 pid f x2 n (λ d, mwrite d 8 (int_bytes (Z.of_nat (size (used h x)) + 1))) x3 Hh2)
    as (s3&Hr3&Hh3&Ho3&Hav3); [done|done|done|].
  destruct (holds_unpin _ s3 pid f x3 n Hh3) as (s4&Hr4&Hi4&Hv4&Hd4&Ht4&Hav4&Hid4).
  assert (Ho : only_page pid s0 s3) by (etrans; [done|]; by etrans).
  assert (Hmv : moved pid s0 s4).
  { eapply moved_trans; [by apply moved_only|by apply moved_unpin]. }
  pose proof (holds_view _ _ _ _ _ _ Hh0) as Hvx.
  assert (Hvp : file_view (fd_ hd0) s0 p = Some x) by (unfold file_view; by rewrite Hfd).
  set (hd' := mkRmFileHandle (fd_ hd0) (after_insert h x x3)).
  exists (mkRid p k), hd', s4, ((T0 ∪ {[f]}) ∖ {[f]}). split_and!.
  - unfold insert_record. rewrite (bind_Ret _ _ _ _ _ Hrun).
    unfold the_hdr, gets, bind at 1. cbn [rm_handle]. fold h.
    cbn [ph_page ph_bitmap ph_hdr handle_of RmPageHandle_make]. fold (handle_of hd0 f).
    rewrite (bind_Ret _ _ _ _ _ (holds_read _ _ hd0 _ _ _ _ (λ d, first_bit false d 12 _) k Hh0 Hk)).
    rewrite (bind_Ret _ _ _ _ _ Hr1), (bind_Ret _ _ _ _ _ Hr2).
    rewrite (bind_Ret _ _ _ _ _ (page_get_count _ _ hd0 _ _ _ _ _ Hh2 Hc2)).
    unfold page_set_int. rewrite (bind_Ret _ _ _ _ _ Hr3).
    rewrite (bind_Ret _ _ _ _ _ (page_get_count _ _ hd0 _ _ _ _ _ Hh3 (proj2 (proj1 Hch)))).
    rewrite (bind_Ret _ _ _ tt (mkRm hd' s3)).
    + rewrite (bind_Ret _ _ _ _ _ (unpin_handle_run hd' s3 _ pid (handle_of hd0 f) x3 n true _ _ Hh3 Hr4)).
      by rewrite (bind_Ret _ _ _ _ _ (ws_run _ hd' _ _ _ Hid4)).
    + by eapply (unlink_run T0 _ s0 s3 hd0 m pid p).
  - eapply inserted_inv; rewrite ?Hfd; [done..|exact Hmv| |].
    + rewrite Hv4. by eapply holds_view.
    + by rewrite Hd4, (op_disk _ _ _ Ho).
  - rewrite (file_ok_lookup h _ m (mkRid p k) x Hf Hin Hkr Hvp). simpl. by rewrite Hbit.
  - done.
  - etrans; [done|]. by eapply moved_others.
  - intros Ha. apply Hav4. destruct Hav as [?|Hav]; [by left|right]. auto.
  - unfold hdr_step. simpl. unfold after_insert. fold h. destruct (_ =? _); done.
Qed.

(** ** Operations on a given record *)

(** A record id inside the file whose page can be had. *)
Definition can_access (hd : RmFileHandle) s (rid : Rid) : Prop :=
  in_file (file_hdr_ hd) (page_no rid) ∧ 0 <= slot_no rid < num_records_per_page (file_hdr_ hd) ∧
  reachable s (mkPageId (fd_ hd) (page_no rid)).

(** Fetching the page of [rid] and testing its bit, as all four operations begin. *)
Lemma access_ok T hd s m rid :
  rm_inv T hd s m → can_access hd s rid →
  ∃ f s' x n, fetch_page_handle (page_no rid) (mkRm hd s) = (Ret (handle_of hd f), mkRm hd s') ∧
    with_store (page_get f (λ d, is_set d 12 (slot_no rid))) (mkRm hd s') =
      (Ret (pg_bit x (slot_no rid)), mkRm hd s') ∧
    m !! rid = (if pg_bit x (slot_no rid) then pg_slot (file_hdr_ hd) x (slot_no rid) else None) ∧
    holds T s' (mkPageId (fd_ hd) (page_no rid)) f x n ∧
    file_view (fd_ hd) s (page_no rid) = Some x ∧ page_ok (file_hdr_ hd) x ∧
    moved (mkPageId (fd_ hd) (page_no rid)) s s' ∧
    next_page (disk s') (fd_ hd) = num_pages (file_hdr_ hd) ∧
    (n = 1 ∨ (available s → available s')) ∧ view_kept s s'.
Proof.
  intros Hi (Hin&Hk&Hre).
  destruct (fetch_handle_ok T hd s m (page_no rid) Hi Hin Hre)
    as (f&s'&x&n&Hrun&Hh&Hx&Hok&Hmv&Hnx&Hn&_&Hvk).
  exists f, s', x, n. split_and!; [done| | |done..].
  - eapply holds_read; [done|]. eapply is_set_spec; [|done].
    apply page_bitmap_in; [apply (fo_hdr _ _ _ (ri_file _ _ _ _ Hi))|apply Hok].
  - by apply (file_ok_lookup _ (file_view (fd_ hd) s)); [apply Hi| | |].
Qed.

(** The invariant when only the pool moved. *)
Lemma rm_inv_view_kept T T' hd s s' m p x :
  rm_inv T hd s m → bp_inv ∅ T' s' → in_file (file_hdr_ hd) p → view_kept s s' →
  file_view (fd_ hd) s p = Some x →
  moved (mkPageId (fd_ hd) p) s s' → next_page (disk s') (fd_ hd) = num_pages (file_hdr_ hd) →
  rm_inv T' hd s' m.
Proof.
  intros Hi Hi' Hin Hvk Hx Hmv Hnx.
  eapply (rm_inv_moved T T' hd hd s s' m m p x); [done|done|done|done|by apply Hvk|done|lia| | | |].
  - done.
  - by right.
  - by apply (ri_writable _ _ _ _ Hi).
  - eapply file_ok_ext; [|apply Hi]. intros q _. unfold page_upd. case_decide; [by subst|done].
Qed.

(** [get_record]: the record or the null pointer; the page is left pinned. *)
Lemma get_ok T hd s m rid :
  rm_inv T hd s m → can_access hd s rid →
  ∃ f s' x n, get_record rid (mkRm hd s) =
      (Ret ((λ v, mkRmRecord v (record_size (file_hdr_ hd)) true) <$> m !! rid), mkRm hd s') ∧
    rm_inv T hd s' m ∧ holds T s' (mkPageId (fd_ hd) (page_no rid)) f x n ∧
    moved (mkPageId (fd_ hd) (page_no rid)) s s'.
Proof.
  intros Hi Hacc. pose proof Hacc as (Hin&Hk&_).
  destruct (access_ok T hd s m rid Hi Hacc) as (f&s'&x&n&Hrun&Hbit&Hm&Hh&Hx&Hok&Hmv&Hnx&_&Hvk).
  exists f, s', x, n. split_and!; [|by eapply rm_inv_view_kept; [done|apply Hh|..]|done|done].
  unfold get_record. rewrite (bind_Ret _ _ _ _ _ Hrun). cbn [ph_page ph_bitmap handle_of RmPageHandle_make].
  destruct (pg_slot_Some _ x (slot_no rid) (fo_hdr _ _ _ (ri_file _ _ _ _ Hi)) Hok Hk) as [v Hv].
  rewrite (bind_Ret _ _ _ _ _ Hbit), Hm, Hv.
  destruct (pg_bit x (slot_no rid)); [|done]. cbn [negb].
  unfold the_hdr, gets, bind at 1. cbn [rm_handle]. fold (handle_of hd f).
  change (get_slot (file_hdr_ hd) (handle_of hd f) (slot_no rid)) with (slot_off (file_hdr_ hd) (slot_no rid)).
  rewrite (bind_Ret _ _ _ _ _ (holds_read _ _ hd _ _ _ _ (λ d, mread d _ _ ≫= RmRecord_make _)
    (mkRmRecord v (record_size (file_hdr_ hd)) true) Hh (slot_record _ _ _ _ Hv))). done.
Qed.

(** A record id without a record: nothing happens, but the page stays pinned. *)
Lemma delete_missing T hd s m rid :
  rm_inv T hd s m → can_access hd s rid → m !! rid = None →
  ∃ f s' x n, delete_record rid (mkRm hd s) = (Ret tt, mkRm hd s') ∧ rm_inv T hd s' m ∧
    holds T s' (mkPageId (fd_ hd) (page_no rid)) f x n ∧ moved (mkPageId (fd_ hd) (page_no rid)) s s'.
Proof.
  intros Hi Hacc Hno. pose proof Hacc as (Hin&Hk&_).
  destruct (access_ok T hd s m rid Hi Hacc) as (f&s'&x&n&Hrun&Hbit&Hm&Hh&Hx&Hok&Hmv&Hnx&_&Hvk).
  exists f, s', x, n. split_and!; [|by eapply rm_inv_view_kept; [done|apply Hh|..]|done|done].
  unfold delete_record. rewrite (bind_Ret _ _ _ _ _ Hrun). cbn [ph_page ph_bitmap handle_of RmPageHandle_make].
  destruct (pg_slot_Some _ x (slot_no rid) (fo_hdr _ _ _ (ri_file _ _ _ _ Hi)) Hok Hk) as [v Hv].
  rewrite (bind_Ret _ _ _ _ _ Hbit). rewrite Hno, Hv in Hm. by destruct (pg_bit x (slot_no rid)).
Qed.

Lemma update_missing T hd s m rid buf :
  rm_inv T hd s m → can_access hd s rid → m !! rid = None →
  ∃ f s' x n, update_record rid buf (mkRm hd s) = (Ret tt, mkRm hd s') ∧ rm_inv T hd s' m ∧
    holds T s' (mkPageId (fd_ hd) (page_no rid)) f x n ∧ moved (mkPageId (fd_ hd) (page_no rid)) s s'.
Proof.
  intros Hi Hacc Hno. pose proof Hacc as (Hin&Hk&_).
  destruct (access_ok T hd s m rid Hi Hacc) as (f&s'&x&n&Hrun&Hbit&Hm&Hh&Hx&Hok&Hmv&Hnx&_&Hvk).
  exists f, s', x, n. split_and!; [|by eapply rm_inv_view_kept; [done|apply Hh|..]|done|done].
  unfold update_record. rewrite (bind_Ret _ _ _ _ _ Hrun). cbn [ph_page ph_bitmap handle_of RmPageHandle_make].
  destruct (pg_slot_Some _ x (slot_no rid) (fo_hdr _ _ _ (ri_file _ _ _ _ Hi)) Hok Hk) as [v Hv].
  rewrite (bind_Ret _ _ _ _ _ Hbit). rewrite Hno, Hv in Hm. by destruct (pg_bit x (slot_no rid)).
Qed.

(** The bit of a record that is there. *)
Lemma present_bit h P m rid x v :
  file_ok h P m → in_file h (page_no rid) → 0 <= slot_no rid < num_records_per_page h →
  P (page_no rid) = Some x → m !! rid = Some v → pg_bit x (slot_no rid) = true.
Proof.
  intros Hf Hin Hk Hx. rewrite (file_ok_lookup h P m rid x) by done. by destruct (pg_bit x (slot_no rid)).
Qed.

Lemma update_ok T hd s m rid buf v old :
  rm_inv T hd s m → can_access hd s rid → m !! rid = Some old →
  mread buf 0 (record_size (file_hdr_ hd)) = Some v →
  ∃ s' T', update_record rid buf (mkRm hd s) = (Ret tt, mkRm hd s') ∧
    rm_inv T' hd s' (<[rid := v]> m) ∧ others_kept (fd_ hd) s s' ∧ (available s → available s').
Proof.
  intros Hi Hacc Hold Hv. pose proof Hacc as (Hin&Hk&_). pose proof (ri_file _ _ _ _ Hi) as Hf.
  destruct (access_ok T hd s m rid Hi Hacc) as (f&s0&x&n&Hrun&Hbit&_&Hh&Hx&Hok&Hmv&Hnx&Hn&Hvk).
  set (h := file_hdr_ hd) in *. set (pid := mkPageId (fd_ hd) (page_no rid)) in *.
  rewrite (present_bit h _ m rid x old Hf Hin Hk Hx Hold) in Hbit.
  pose proof (present_bit h _ m rid x old Hf Hin Hk Hx Hold) as Hb.
  destruct (page_overwrite h (fo_hdr _ _ _ Hf) x (slot_no rid) v Hok Hk Hb (mread_length _ _ _ _ Hv))
    as (x1&Hw&Hch&Hn1&Hl1&Hu1).
  destruct (holds_taint T s0 hd pid f x n (write_slot h (handle_of hd f) (slot_no rid) buf) x1 Hh)
    as (s1&Hr1&Hh1&Ho1&Hav1); [unfold handle_of; fold h; by rewrite (write_slot_run h f _ buf v)|done|].
  destruct (holds_unpin _ s1 pid f x1 n Hh1) as (s2&Hr2&Hi2&Hv2&Hd2&Ht2&Hav2&_).
  assert (Hmv2 : moved pid s s2).
  { eapply moved_trans; [done|]. eapply moved_trans; [by apply moved_only|by apply moved_unpin]. }
  exists s2, ((T ∪ {[f]}) ∖ {[f]}). split_and!.
  - unfold update_record. rewrite (bind_Ret _ _ _ _ _ Hrun).
    cbn [ph_page ph_bitmap handle_of RmPageHandle_make]. rewrite (bind_Ret _ _ _ _ _ Hbit). cbn [negb].
    unfold the_hdr, gets, bind at 1. cbn [rm_handle]. fold h (handle_of hd f).
    rewrite (bind_Ret _ _ _ _ _ Hr1).
    by rewrite (bind_Ret _ _ _ _ _ (unpin_handle_run hd s1 _ pid (handle_of hd f) x1 n true _ _ Hh1 Hr2)).
  - eapply (rm_inv_moved T _ hd hd s s2 m _ (page_no rid) x1); [done|done|done|done| | |lia| | | |].
    + rewrite Hv2. by eapply holds_view.
    + by rewrite Hd2, (op_disk _ _ _ Ho1).
    + done.
    + by right.
    + by apply (ri_writable _ _ _ _ Hi).
    + destruct rid as [p k]. simpl in *.
      eapply (file_changed_stay h _ m p k x x1 (Some v)); try done. by rewrite Hu1.
  - by eapply moved_others.
  - intros Ha. apply Hav2. destruct Hn as [?|Hn]; [by left|right]. auto.
Qed.

(** Deletion: the header afterwards. *)
Definition after_delete (h : RmFileHdr) (p : Z) (x : list byte) : RmFileHdr :=
  if Z.of_nat (size (used h x)) =? num_records_per_page h then set_first_free p h else h.

Lemma free_int32 h P m : file_ok h P m → is_int32 (first_free_page_no h).
Proof.
  intros Hf. destruct (fo_free _ _ _ Hf) as (l&Hc&_&Hl). pose proof (fo_num _ _ _ Hf).
  unfold is_int32, INT_MIN, INT_MAX in *. inversion Hc as [E|a x b l' Ha Hx Hb Hc' E]; [unfold RM_NO_PAGE in *; lia|].
  assert (in_file h (first_free_page_no h)) as Hin.
  { apply Hl. subst. by left. }
  unfold in_file, RM_FIRST_RECORD_PAGE in Hin. lia.
Qed.

(** The tail of [delete_record], on a page whose bit and count are already changed. *)
Lemma release_ok T hd s0 s m p k x x2 f n :
  rm_inv T hd s0 m → in_file (file_hdr_ hd) p → 0 <= k < num_records_per_page (file_hdr_ hd) →
  file_view (fd_ hd) s0 p = Some x → page_ok (file_hdr_ hd) x →
  slot_changed (file_hdr_ hd) x x2 k None → pg_next x2 = pg_next x →
  size (used (file_hdr_ hd) x) = S (size (used (file_hdr_ hd) x2)) →
  holds (T ∪ {[f]}) s (mkPageId (fd_ hd) p) f x2 n →
  let hd' := mkRmFileHandle (fd_ hd) (after_delete (file_hdr_ hd) p x) in
  ∃ s' x3, (if Z.of_nat (size (used (file_hdr_ hd) x)) =? num_records_per_page (file_hdr_ hd)
            then release_page_handle (handle_of hd f) else ret tt) (mkRm hd s) = (Ret tt, mkRm hd' s') ∧
    holds (T ∪ {[f]}) s' (mkPageId (fd_ hd) p) f x3 n ∧ only_page (mkPageId (fd_ hd) p) s s' ∧
    (available s → available s') ∧
    file_ok (file_hdr_ hd') (page_upd p x3 (file_view (fd_ hd) s0)) (delete (mkRid p k) m).
Proof.
  intros Hi Hin Hk Hx Hok Hch Hn Hsz Hh hd'. pose proof (ri_file _ _ _ _ Hi) as Hf.
  set (h := file_hdr_ hd) in *. pose proof (fo_hdr _ _ _ Hf) as Hhok.
  destruct (used_size h Hhok x) as [Hle _].
  unfold hd', after_delete. fold h.
  destruct (Z.eqb_spec (Z.of_nat (size (used h x))) (num_records_per_page h)) as [E|E].
  - destruct (slot_changed_link h Hhok x x2 k None (first_free_page_no h) Hch Hk (free_int32 _ _ _ Hf))
      as (x3&Hw&Hch3&Hn3&Hl3&Hu3).
    destruct (holds_update' _ s hd _ f x2 n (λ d, mwrite d 4 (int_bytes (first_free_page_no h))) x3 Hh)
      as (s'&Hr&Hh'&Ho&Hav); [by apply elem_of_union_r, elem_of_singleton|done|done|].
    exists s', x3. split_and!; [|done|done|done|].
    + unfold release_page_handle, the_hdr, gets, bind at 1. cbn [rm_handle]. fold h.
      unfold page_set_int. cbn [ph_page ph_hdr handle_of RmPageHandle_make].
      rewrite (bind_Ret _ _ _ _ _ Hr).
      by rewrite (bind_Ret _ _ _ _ _ (ws_run _ hd _ _ _ (holds_page_id _ _ _ _ _ _ Hh'))).
    + eapply (file_changed_freed h _ m p k x x3 None); try done; rewrite ?Hu3; lia.
  - exists s, x2. split_and!; [by destruct hd|done|done|done|].
    eapply (file_changed_stay h _ m p k x x2 None); try done. lia.
Qed.

Lemma delete_ok_rec T hd s m rid old :
  rm_inv T hd s m → can_access hd s rid → m !! rid = Some old →
  ∃ hd' s' T', delete_record rid (mkRm hd s) = (Ret tt, mkRm hd' s') ∧
    rm_inv T' hd' s' (delete rid m) ∧ fd_ hd' = fd_ hd ∧
    others_kept (fd_ hd) s s' ∧ (available s → available s') ∧
    hdr_step (file_hdr_ hd) (file_hdr_ hd') ∧ num_pages (file_hdr_ hd') = num_pages (file_hdr_ hd).
Proof.
  intros Hi Hacc Hold. pose proof Hacc as (Hin&Hk&_). pose proof (ri_file _ _ _ _ Hi) as Hf.
  destruct (access_ok T hd s m rid Hi Hacc) as (f&s0&x&n&Hrun&Hbit&_&Hh&Hx&Hok&Hmv&Hnx&Hn&Hvk).
  set (h := file_hdr_ hd) in *. set (pid := mkPageId (fd_ hd) (page_no rid)) in *.
  rewrite (present_bit h _ m rid x old Hf Hin Hk Hx Hold) in Hbit.
  pose proof (present_bit h _ m rid x old Hf Hin Hk Hx Hold) as Hb.
  destruct (page_delete h (fo_hdr _ _ _ Hf) x (slot_no rid) Hok Hk Hb)
    as (x1&x2&Hw1&Hc1&Hw2&Hch&Hn2&Hl1&Hl2&Hsz).
  destruct (holds_taint T s0 hd pid f x n (λ d, bitmap_reset d 12 (slot_no rid)) x1 Hh)
    as (s1&Hr1&Hh1&Ho1&Hav1); [done|done|].
  destruct (holds_update' _ s1 hd pid f x1 n (λ d, mwrite d 8 (int_bytes (Z.of_nat (size (used h x)) - 1))) x2 Hh1)
    as (s2&Hr2&Hh2&Ho2&Hav2); [by apply elem_of_union_r, elem_of_singleton|done|done|].
  destruct (release_ok T hd s s2 m (page_no rid) (slot_no rid) x x2 f n)
    as (s3&x3&Hr3&Hh3&Ho3&Hav3&Hf3); [done..|].
  set (hd' := mkRmFileHandle (fd_ hd) (after_delete h (page_no rid) x)) in *.
  destruct (holds_unpin _ s3 pid f x3 n Hh3) as (s4&Hr4&Hi4&Hv4&Hd4&Ht4&Hav4&_).
  assert (Ho : only_page pid s0 s3) by (etrans; [done|]; by etrans).
  assert (Hmv2 : moved pid s s4).
  { eapply moved_trans; [done|]. eapply moved_trans; [by apply moved_only|by apply moved_unpin]. }
  assert (Hnp : num_pages (file_hdr_ hd') = num_pages h).
  { simpl. unfold after_delete. by destruct (_ =? _). }
  exists hd', s4, ((T ∪ {[f]}) ∖ {[f]}). split_and!; [| |done|by eapply moved_others| | |done].
  - unfold delete_record. rewrite (bind_Ret _ _ _ _ _ Hrun).
    cbn [ph_page ph_bitmap ph_hdr handle_of RmPageHandle_make]. rewrite (bind_Ret _ _ _ _ _ Hbit). cbn [negb].
    unfold the_hdr, gets, bind at 1. cbn [rm_handle]. fold h (handle_of hd f).
    rewrite (bind_Ret _ _ _ _ _ (page_get_count _ _ hd _ _ _ _ _ Hh (proj2 Hok))).
    rewrite (bind_Ret _ _ _ _ _ Hr1), (bind_Ret _ _ _ _ _ (page_get_count _ _ hd _ _ _ _ _ Hh1 Hc1)).
    unfold page_set_int. rewrite (bind_Ret _ _ _ _ _ Hr2), (bind_Ret _ _ _ _ _ Hr3).
    by rewrite (bind_Ret _ _ _ _ _ (unpin_handle_run hd' s3 _ pid (handle_of hd f) x3 n true _ _ Hh3 Hr4)).
  - eapply (rm_inv_moved T _ hd hd' s s4 m _ (page_no rid) x3); [done|done|done|done| | | | | | |].
    + rewrite Hv4. by eapply holds_view.
    + by rewrite Hd4, (op_disk _ _ _ Ho), Hnp.
    + rewrite Hnp. fold h. lia.
    + unfold in_file. by rewrite Hnp.
    + intros q. unfold in_file. rewrite Hnp. by right.
    + by apply (ri_writable _ _ _ _ Hi).
    + by destruct rid.
  - intros Ha. apply Hav4. destruct Hn as [?|Hn]; [by left|right]. auto.
  - unfold hdr_step. rewrite Hnp. simpl. unfold after_delete. fold h. destruct (_ =? _); simpl; lia.
Qed.

(** ** Scanning *)

(** The order of a scan. *)
Definition rid_lt (a b : Rid) : Prop :=
  page_no a < page_no b ∨ (page_no a = page_no b ∧ slot_no a < slot_no b).

(** [r] is the first record after position [from], or the end of the file. *)
Definition next_record (m : gmap Rid (list byte)) (from r : Rid) : Prop :=
  (is_Some (m !! r) ∧ rid_lt from r ∧ ∀ r', is_Some (m !! r') → rid_lt from r' → r' = r ∨ rid_lt r r') ∨
  (r = mkRid RM_NO_PAGE (-1) ∧ ∀ r', is_Some (m !! r') → ¬ rid_lt from r').

(** One page of the scan. *)
Lemma scan_step_ok T hd s m p k :
  rm_inv T hd s m → available s → in_file (file_hdr_ hd) p →
  -1 <= k < num_records_per_page (file_hdr_ hd) →
  ∃ s' x j, scan_step (mkRid p k) (mkRm hd s) =
    (Ret (if j <? num_records_per_page (file_hdr_ hd) then (true, mkRid p j) else (false, mkRid (p + 1) (-1))),
     mkRm hd s') ∧
    rm_inv T hd s' m ∧ available s' ∧ others_kept (fd_ hd) s s' ∧ view_kept s s' ∧
    file_view (fd_ hd) s p = Some x ∧ k < j <= num_records_per_page (file_hdr_ hd) ∧
    (∀ i, k < i < j → pg_bit x i = false) ∧
    (j < num_records_per_page (file_hdr_ hd) → pg_bit x j = true).
Proof.
  intros Hi Hav Hin Hk. set (h := file_hdr_ hd) in *.
  destruct (fetch_handle_ok T hd s m p Hi Hin) as (f&s1&x&n&Hrun&Hh&Hx&Hok&Hmv&Hnx&Hn&HT&Hvk); [by right|].
  pose proof (fo_hdr _ _ _ (ri_file _ _ _ _ Hi)) as Hhok. fold h in Hhok, Hok.
  destruct (next_bit_spec true x 12 (num_records_per_page h) k) as (j&Hj&Hjr&Hall&Hb);
    [apply page_bitmap_in; [done|apply Hok]|done|].
  destruct (holds_unpin_clean T s1 _ f x n Hh HT) as (s2&Hr2&Hi2&Hv2&Hd2&Ht2&Hav2).
  assert (Hmv2 : moved (mkPageId (fd_ hd) p) s s2).
  { eapply moved_trans; [done|]. by apply moved_unpin. }
  assert (Hvk2 : view_kept s s2) by (intros pid y Hy; rewrite Hv2; auto).
  exists s2, x, j. split_and!; [|by eapply (rm_inv_view_kept T T hd s s2 m p x); rewrite ?Hd2| |by eapply moved_others|done|done|lia|lia|done|done].
  - unfold scan_step, the_hdr, gets, bind at 1. cbn [rm_handle page_no slot_no]. fold h.
    rewrite (proj2 (Z.ltb_lt p (num_pages h))) by (unfold in_file in Hin; lia).
    rewrite (bind_Ret _ _ _ _ _ Hrun). cbn [ph_page ph_bitmap handle_of RmPageHandle_make].
    fold (handle_of hd f).
    rewrite (bind_Ret _ _ _ _ _ (holds_read _ _ hd _ _ _ _ (λ d, next_bit true d 12 _ k) j Hh Hj)).
    rewrite (bind_Ret _ _ _ _ _ (unpin_handle_run hd s1 _ _ (handle_of hd f) x n false _ _ Hh Hr2)).
    by destruct (j <? num_records_per_page h).
  - apply Hav2. destruct Hn as [?|Hn]; [by left|right; auto].
Qed.

(** What a scanned page says about the records. *)
Lemma page_records T hd s m p x i :
  rm_inv T hd s m → in_file (file_hdr_ hd) p → file_view (fd_ hd) s p = Some x →
  0 <= i < num_records_per_page (file_hdr_ hd) → is_Some (m !! mkRid p i) ↔ pg_bit x i = true.
Proof.
  intros Hi Hin Hx Hk. pose proof (ri_file _ _ _ _ Hi) as Hf.
  destruct (fo_page _ _ _ Hf p Hin) as (y&Hy&Hok). simplify_eq.
  destruct (pg_slot_Some (file_hdr_ hd) x i (fo_hdr _ _ _ Hf) Hok Hk) as [v Hv].
  rewrite (file_ok_lookup _ _ m (mkRid p i) x Hf Hin Hk Hx). simpl. rewrite Hv.
  destruct (pg_bit x i); (split; intros Hs); [done|by eexists|by destruct Hs|done].
Qed.

Lemma record_in_file T hd s m r :
  rm_inv T hd s m → is_Some (m !! r) →
  in_file (file_hdr_ hd) (page_no r) ∧ 0 <= slot_no r < num_records_per_page (file_hdr_ hd).
Proof. intros Hi [v Hv]. apply (fo_recs _ _ _ (ri_file _ _ _ _ Hi)) in Hv as (?&?&_). done. Qed.

Lemma scan_loop_ok T hd m fuel s p k :
  rm_inv T hd s m → available s → 1 <= p <= num_pages (file_hdr_ hd) → num_pages (file_hdr_ hd) - p < Z.of_nat fuel →
  -1 <= k < num_records_per_page (file_hdr_ hd) →
  ∃ r s', scan_loop fuel (mkRid p k) (mkRm hd s) = (Ret r, mkRm hd s') ∧ rm_inv T hd s' m ∧
    available s' ∧ others_kept (fd_ hd) s s' ∧ next_record m (mkRid p k) r.
Proof.
  revert s p k. induction fuel as [|fuel IH]; intros s p k Hi Hav Hp Hfuel Hk; [|cbn [scan_loop]].
  - lia.
  - destruct (decide (p < num_pages (file_hdr_ hd))) as [Hlt|Hge].
    + assert (Hin : in_file (file_hdr_ hd) p) by (unfold in_file, RM_FIRST_RECORD_PAGE; lia).
      destruct (scan_step_ok T hd s m p k Hi Hav Hin Hk) as (s1&x&j&Hr&Hi1&Hav1&Ho1&Hvk1&Hx&Hj&Hno&Hyes).
      rewrite (bind_Ret _ _ _ _ _ Hr).
      assert (Hbetween : ∀ r', is_Some (m !! r') → page_no r' = p → k < slot_no r' → j <= slot_no r').
      { intros [p' i] Hs <- Hki. simpl in *. destruct (record_in_file _ _ _ _ _ Hi Hs) as [? Hir]. simpl in Hir.
        apply (page_records T hd s m p' x i Hi Hin Hx Hir) in Hs. destruct (decide (j <= i)); [done|].
        rewrite Hno in Hs by lia. done. }
      destruct (Z.ltb_spec j (num_records_per_page (file_hdr_ hd))) as [Hjn|Hjn]; cbn [fst snd].
      * exists (mkRid p j), s1. split_and!; [done|done|done|done|]. left. split_and!.
        -- apply (page_records T hd s m p x j Hi Hin Hx); [lia|auto].
        -- right. simpl. lia.
        -- intros r' Hs [Hpp|[Hpp Hkk]]; simpl in *; [right; by left|].
           specialize (Hbetween r' Hs (eq_sym Hpp) Hkk). destruct (decide (slot_no r' = j)) as [E|E].
           ++ left. destruct r'; simpl in *; congruence.
           ++ right. right. simpl. lia.
      * destruct (IH s1 (p + 1) (-1) Hi1 Hav1) as (r&s2&Hr2&Hi2&Hav2&Ho2&Hnr); [lia|lia| |].
        { destruct (hdr_bounds _ (fo_hdr _ _ _ (ri_file _ _ _ _ Hi))). lia. }
        exists r, s2. split_and!; [done|done|done|by etrans|].
        assert (Hskip : ∀ r', is_Some (m !! r') → rid_lt (mkRid p k) r' ↔ rid_lt (mkRid (p + 1) (-1)) r').
        { intros r' Hs. destruct (record_in_file _ _ _ _ _ Hi Hs) as [_ Hrs].
          unfold rid_lt. simpl. split; [|lia].
          intros [?|[Hpp Hkk]]; [lia|]. specialize (Hbetween r' Hs (eq_sym Hpp) Hkk). lia. }
        destruct Hnr as [(Hs&Hl&Hmin)|(->&Hnone)].
        -- left. split_and!; [done|by apply Hskip|]. intros r' Hs' Hl'. apply Hmin; [done|]. by apply Hskip.
        -- right. split; [done|]. intros r' Hs' Hl'. apply (Hnone r' Hs'). by apply Hskip.
    + exists (mkRid RM_NO_PAGE (-1)), s. split_and!; [|done|done|done|].
      * unfold scan_step, the_hdr, gets, bind at 1. unfold bind. cbn [rm_handle page_no].
        by rewrite (proj2 (Z.ltb_ge p (num_pages (file_hdr_ hd)))) by lia.
      * right. split; [done|]. intros r' Hs. destruct (record_in_file _ _ _ _ _ Hi Hs) as [Hr _].
        unfold in_file, rid_lt in *. simpl. lia.
Qed.

Lemma scan_next_ok T hd s m sc :
  rm_inv T hd s m → available s → 1 <= page_no (scan_rid sc) <= num_pages (file_hdr_ hd) →
  -1 <= slot_no (scan_rid sc) < num_records_per_page (file_hdr_ hd) →
  ∃ r s', scan_next sc (mkRm hd s) = (Ret (mkRmScan r), mkRm hd s') ∧ rm_inv T hd s' m ∧
    available s' ∧ others_kept (fd_ hd) s s' ∧ next_record m (scan_rid sc) r.
Proof.
  intros Hi Hav Hp Hk. destruct sc as [[p k]]. simpl in *.
  destruct (scan_loop_ok T hd m (S (Z.to_nat (num_pages (file_hdr_ hd) - p))) s p k Hi Hav)
    as (r&s'&Hr&?&?&?&?); [lia|lia|lia|].
  exists r, s'. split_and!; [|done..]. unfold scan_next, the_hdr, gets, bind at 1. cbn [rm_handle scan_rid page_no].
  by rewrite (bind_Ret _ _ _ _ _ Hr).
Qed.
End rm.
