(* ===== verification/RecordManager.v ===== *)
(** * Creating, closing and opening record files

    [RmManager]: what [create_file] leaves on disk, that [close_file] makes every
    record durable, and that [open_file] on such a file gives a handle that stands
    for the same records. *)

From S2P Require Import Prelude Errors Config Posix DiskManager Replacer BufferPool BufferPoolSpec.
From S2P Require Import BufferPoolProps Bitmap RecordFile RecordPage RecordSpec RecordStore RecordProps.
From stdpp Require Import options.

(** ** The file header *)

(** The members fit an [int]. *)
Definition hdr_int32 (h : RmFileHdr) : Prop :=
  is_int32 (record_size h) ∧ is_int32 (num_pages h) ∧ is_int32 (num_records_per_page h) ∧
  is_int32 (first_free_page_no h) ∧ is_int32 (bitmap_size h).

Lemma RmFileHdr_bytes_length h : length (RmFileHdr_bytes h) = 20%nat.
Proof. reflexivity. Qed.

Lemma bytes_RmFileHdr_bytes h : hdr_int32 h → bytes_RmFileHdr (RmFileHdr_bytes h) = h.
Proof.
  intros (H1&H2&H3&H4&H5). unfold bytes_RmFileHdr, RmFileHdr_bytes.
  assert (Ht : ∀ v l, take 4 (int_bytes v ++ l) = int_bytes v) by reflexivity.
  assert (Hd : ∀ v l k, drop (4 + k) (int_bytes v ++ l) = drop k l) by reflexivity.
  assert (Ht' : ∀ v, take 4 (int_bytes v) = int_bytes v) by reflexivity.
  change (4 * 0)%nat with 0%nat. change (4 * 1)%nat with (4 + 0)%nat.
  change (4 * 2)%nat with (4 + (4 + 0))%nat. change (4 * 3)%nat with (4 + (4 + (4 + 0)))%nat.
  change (4 * 4)%nat with (4 + (4 + (4 + (4 + 0))))%nat.
  rewrite !Hd, !drop_0, !Ht, Ht', !bytes_int_bytes by done. by destruct h.
Qed.

Lemma file_ok_int32 h P m : file_ok h P m → hdr_int32 h.
Proof.
  intros Hf. pose proof (free_int32 h P m Hf). pose proof (fo_num _ _ _ Hf).
  destruct (hdr_bounds h (fo_hdr _ _ _ Hf)) as (?&?&?&Hb). destruct (fo_hdr _ _ _ Hf) as [Hs _ _].
  unfold RM_MAX_RECORD_SIZE, sizeof_RmPageHdr, OFFSET_PAGE_HDR, PAGE_SIZE in *.
  assert (0 <= num_records_per_page h * record_size h) by (apply Z.mul_nonneg_nonneg; lia).
  unfold hdr_int32, is_int32, INT_MIN, INT_MAX in *. lia.
Qed.

(** ** Writing the header page *)

Lemma file_write_0_prefix c bs : take (length bs) (file_write c 0 bs) = bs.
Proof. by apply (file_write_read c 0 bs). Qed.

Lemma file_write_0_page c bs no :
  (Z.of_nat (length bs) <= PAGE_SIZE) → no ≠ 0 →
  ∀ x, mread c (no * PAGE_SIZE) PAGE_SIZE = Some x → mread (file_write c 0 bs) (no * PAGE_SIZE) PAGE_SIZE = Some x.
Proof.
  intros Hb Hno x (?&?&?&->)%mread_Some. unfold PAGE_SIZE in *.
  apply mread_Some. rewrite length_file_write by lia. split_and!; [lia|lia|lia|].
  symmetry. apply file_write_other; lia.
Qed.

Lemma write_header_spec d fd bs c :
  fd_content (os d) fd = Some c → fds_distinct (os d) →
  0 < Z.of_nat (length bs) <= PAGE_SIZE → Z.of_nat (length bs) <= os_limit (os d) →
  ∃ d', write_page fd RM_FILE_HDR_PAGE bs (Z.of_nat (length bs)) d = (Ret tt, d') ∧ same_files d d' ∧
    fd_content (os d') fd = Some (file_write c 0 bs) ∧
    ∀ pid x, pid ≠ mkPageId fd RM_FILE_HDR_PAGE → disk_page d pid = Some x → disk_page d' pid = Some x.
Proof.
  intros Hc Hds Hb Hlim. unfold fd_content in Hc.
  destruct (os_fds (os d) !! fd) as [[p off]|] eqn:Hfd; [|done].
  eexists. split.
  { apply (write_page_run d fd RM_FILE_HDR_PAGE bs _ p off c); unfold RM_FILE_HDR_PAGE; (done || lia). }
  change (RM_FILE_HDR_PAGE * PAGE_SIZE) with 0. rewrite Nat2Z.id, firstn_all.
  split; [by eapply (write_page_same_files d fd); eauto|]. unfold fd_content. cbn.
  split; [by rewrite lookup_insert_eq, lookup_insert_eq|].
  intros pid x Hne. unfold disk_page, fd_content. cbn. destruct (decide (pid_fd pid = fd)) as [E|E].
  - rewrite E, Hfd, Hc, lookup_insert_eq, lookup_insert_eq. apply file_write_0_page; [lia|].
    intros E0. apply Hne. destruct pid. simpl in *. unfold RM_FILE_HDR_PAGE. congruence.
  - rewrite lookup_insert_ne by done. destruct (os_fds (os d) !! pid_fd pid) as [[q o2]|] eqn:E2; [|done].
    rewrite lookup_insert_ne; [done|]. intros ->. apply E. by eapply Hds.
Qed.

(** ** The image of a file *)

(** The bytes [c] of a file hold the header [h] and the records [m]. *)
Definition file_image (h : RmFileHdr) (c : list byte) (m : gmap Rid (list byte)) : Prop :=
  mread c 0 sizeof_RmFileHdr = Some (RmFileHdr_bytes h) ∧
  file_ok h (λ p, mread c (p * PAGE_SIZE) PAGE_SIZE) m.

Definition fresh_hdr (rsize : Z) : Prop := 1 <= rsize <= RM_MAX_RECORD_SIZE.

Lemma initial_hdr_ok rsize : fresh_hdr rsize → hdr_ok (rm_initial_hdr rsize).
Proof. intros H. by split. Qed.

Lemma initial_image rsize P :
  fresh_hdr rsize → file_ok (rm_initial_hdr rsize) P ∅.
Proof.
  intros H. assert (Hin : ∀ p, ¬ in_file (rm_initial_hdr rsize) p).
  { intros p. unfold in_file, RM_FIRST_RECORD_PAGE. simpl. lia. }
  split.
  - by apply initial_hdr_ok.
  - simpl. unfold INT_MAX. lia.
  - intros p Hp. by destruct (Hin p).
  - exists []. split_and!; [constructor|constructor|]. intros p. split; [set_solver|].
    intros [Hp _]. by destruct (Hin p).
  - intros rid v. rewrite lookup_empty. split; [done|]. intros [Hp _]. by destruct (Hin (page_no rid)).
Qed.

Section manager.
Context {R : Type} `{!Replacer R, !ReplacerSpec R}.
Implicit Types s : Store R.

(** ** create_file *)

Lemma create_file_run d p :
  os_files (os d) !! resolve (os d) p = None → (resolve (os d) p ∉ os_dirs (os d)) →
  new_fd (os d) < os_nofile (os d) →
  create_file p d = (Ret tt, mkDisk (set_files (<[resolve (os d) p := []]> (os_files (os d))) (os d)) (dm d)).
Proof.
  intros Hn Hd Hfd. unfold create_file, is_file. mrun. unfold stat_reg. rewrite Hn.
  rewrite bool_decide_eq_false_2 by (by intros []). unfold syscall, sys_creat_excl.
  rewrite decide_False by (rewrite Hn; intros [[]|]; done).
  unfold sys_open_fd. rewrite decide_True by done. unfold sys_close. cbn. rewrite lookup_insert_eq. cbn.
  unfold set_os, set_files, set_fds. cbn. rewrite delete_insert_eq, delete_id by apply new_fd_fresh.
  by destruct d as [[] ?].
Qed.

Lemma rm_create_ok d p rsize :
  disk_inv d → fresh_hdr rsize →
  os_files (os d) !! resolve (os d) p = None → (resolve (os d) p ∉ os_dirs (os d)) →
  new_fd (os d) < os_nofile (os d) → sizeof_RmFileHdr <= os_limit (os d) →
  ∃ c, rm_create_file p rsize d =
    (Ret tt, mkDisk (set_files (<[resolve (os d) p := c]> (os_files (os d))) (os d)) (dm d)) ∧
    file_image (rm_initial_hdr rsize) c ∅.
Proof.
  intros Hdi Hr Hn Hdir Hfd Hlim. exists (RmFileHdr_bytes (rm_initial_hdr rsize)). split.
  - unfold rm_create_file. unfold fresh_hdr, RM_MAX_RECORD_SIZE in *.
    rewrite (proj2 (Z.ltb_ge rsize 1)) by lia. rewrite Z.gtb_ltb, (proj2 (Z.ltb_ge _ rsize)) by lia. cbn [orb].
    rewrite (bind_Ret _ _ _ _ _ (create_file_run d p Hn Hdir Hfd)).
    set (d1 := mkDisk _ _).
    assert (Hp1 : path2fd_ (dm d1) !! p = None).
    { destruct (path2fd_ (dm d) !! p) as [fd|] eqn:E; [|done].
      apply (di_maps _ Hdi) in E. apply (di_open _ Hdi) in E as [_ [c Hc]]. congruence. }
    rewrite (bind_Ret _ _ d1 (new_fd (os d1)) (mkDisk (set_fds (<[new_fd (os d1) := (resolve (os d1) p, 0)]> (os_fds (os d1))) (os d1))
              (record_open p (new_fd (os d1)) (dm d1)))).
    2:{ rewrite open_file_cases. unfold stat_reg.
        rewrite bool_decide_eq_true_2 by (cbn; rewrite lookup_insert_eq; eauto). cbn [negb].
        rewrite decide_False by (rewrite Hp1; by intros []). by rewrite decide_True. }
    change (new_fd (os d1)) with (new_fd (os d)). set (fd := new_fd (os d)) in *.
    erewrite bind_Ret.
    2:{ apply (write_page_run _ fd RM_FILE_HDR_PAGE _ _ (resolve (os d) p) 0 []);
          unfold RM_FILE_HDR_PAGE, sizeof_RmFileHdr in *; cbn;
          [by rewrite lookup_insert_eq|by rewrite lookup_insert_eq|lia|lia|lia|lia]. }
    unfold close_file. unfold gets, bind at 1. cbn. rewrite lookup_insert_eq.
    unfold syscall, sys_close, bind. cbn. rewrite lookup_insert_eq. cbn.
    unfold modify, set_dm, set_os, set_fds, set_files, record_close, record_open. cbn.
    rewrite insert_insert_eq, !insert_insert_eq, !delete_insert_eq.
    rewrite (delete_id (os_fds (os d))) by apply new_fd_fresh.
    rewrite delete_id by done. rewrite delete_id.
    2:{ destruct (fd2path_ (dm d) !! fd) as [q|] eqn:E; [|done].
        apply (di_open _ Hdi) in E as [[y Hy] _]. pose proof (new_fd_fresh (os d)) as Hfr. fold fd in Hfr.
        congruence. }
    by destruct d as [[] []].
  - split; [done|]. by apply initial_image.
Qed.

(** ** close_file *)

(** The file behind an open descriptor. *)
Lemma open_fd_content d fd p :
  disk_inv d → fd2path_ (dm d) !! fd = Some p →
  ∃ c off, os_fds (os d) !! fd = Some (resolve (os d) p, off) ∧
    os_files (os d) !! resolve (os d) p = Some c ∧ fd_content (os d) fd = Some c.
Proof.
  intros Hd Hp. destruct (di_open _ Hd _ _ Hp) as [[[q off] Hq] [c Hc]].
  destruct (di_fds _ Hd _ _ _ Hq) as (p'&Hp'&->). simplify_eq.
  exists c, off. unfold fd_content. by rewrite Hq.
Qed.

Lemma rm_in_front T hd s m n :
  rm_inv T hd s m → n <= PAGE_SIZE → in_front (fd_ hd) n s.
Proof.
  intros Hi Hn f pg Hpg Hr Hfd.
  assert (Ht : is_Some (page_table_ (bpm s) !! mkPageId (fd_ hd) (pid_no (id_ pg)))).
  { exists f. apply (bi_table _ _ _ (ri_pool _ _ _ _ Hi)). split; [apply not_elem_of_empty|].
    exists pg. rewrite <- Hfd. by destruct pg as [[? ?] ? ? ?]. }
  apply (ri_table _ _ _ _ Hi) in Ht. unfold in_file, RM_FIRST_RECORD_PAGE, PAGE_SIZE in *. lia.
Qed.

(** The header is written and the pages are flushed. *)
Lemma rm_flush_ok T hd s m :
  rm_inv T hd s m → is_Some (fd_content (os (disk s)) (fd_ hd)) → sizeof_RmFileHdr <= os_limit (os (disk s)) →
  ∃ d1 s2 c, write_page (fd_ hd) RM_FILE_HDR_PAGE (RmFileHdr_bytes (file_hdr_ hd)) sizeof_RmFileHdr (disk s) = (Ret tt, d1) ∧
    flush_all_pages (fd_ hd) (set_disk d1 s) = (Ret tt, s2) ∧ rm_inv T hd s2 m ∧ others_kept (fd_ hd) s s2 ∧
    same_files (disk s) (disk s2) ∧ fd_content (os (disk s2)) (fd_ hd) = Some c ∧ file_image (file_hdr_ hd) c m.
Proof.
  intros Hi [c0 Hc0] Hlim. set (h := file_hdr_ hd). set (fd := fd_ hd) in *. pose proof (ri_pool _ _ _ _ Hi) as Hbp.
  destruct (write_header_spec (disk s) fd (RmFileHdr_bytes h) c0) as (d1&Hw&Hsf1&Hc1&Hpg1);
    [done|apply Hbp|rewrite RmFileHdr_bytes_length; unfold PAGE_SIZE; lia|done|].
  set (s1 := set_disk d1 s).
  assert (Hv1 : ∀ pid x, pid ≠ mkPageId fd RM_FILE_HDR_PAGE → view s pid = Some x → view s1 pid = Some x).
  { intros pid x Hne. unfold view. simpl. destruct (page_table_ (bpm s) !! pid); [done|]. by apply Hpg1. }
  assert (Hi1 : bp_inv ∅ T s1).
  { apply bp_inv_change_disk; [done|eapply same_files_distinct; [done|apply Hbp]|].
    intros pid Ht. split; [by intros; eapply same_files_writable|]. intros x. apply Hpg1. intros ->.
    apply (ri_table _ _ _ _ Hi) in Ht. unfold in_file, RM_FIRST_RECORD_PAGE, RM_FILE_HDR_PAGE in Ht. lia. }
  destruct (flush_all_ok fd T s1 Hi1) as (s2&Hfl&Hi2&Hflu&Hsy).
  pose proof Hflu as (Hvk&Hsf2&_&Htab&Hpgs&Hfront). simpl in Hsf2, Htab, Hpgs.
  assert (Hsf : same_files (disk s) (disk s2)) by by etrans. pose proof Hsf as (Hdm&_).
  assert (Hfile : ∀ q x, in_file h q → file_view fd s q = Some x → file_view fd s2 q = Some x).
  { intros q x Hq Hx. apply Hvk, Hv1; [|done]. unfold in_file, RM_FIRST_RECORD_PAGE, RM_FILE_HDR_PAGE in *. intros [= ->]. lia. }
  assert (Hok : file_ok h (file_view fd s2) m).
  { eapply file_ok_ext; [|apply (ri_file _ _ _ _ Hi)]. intros q Hq.
    destruct (fo_page _ _ _ (ri_file _ _ _ _ Hi) q Hq) as (x&Hx&_). fold fd in Hx |- *. rewrite Hx. by apply Hfile. }
  assert (Hb1 : disk_bytes d1 fd 0 sizeof_RmFileHdr = Some (RmFileHdr_bytes h)).
  { unfold disk_bytes. rewrite Hc1. simpl. apply mread_Some. unfold sizeof_RmFileHdr.
    rewrite length_file_write, RmFileHdr_bytes_length by lia. split_and!; [lia..|].
    symmetry. apply (file_write_read c0 0 (RmFileHdr_bytes h)). lia. }
  apply (Hfront fd 0 sizeof_RmFileHdr) in Hb1; [|by eapply (rm_in_front T hd s m)].
  unfold disk_bytes in Hb1. destruct (fd_content (os (disk s2)) fd) as [c|] eqn:Hc2; [|done].
  exists d1, s2, c. split_and!; [done|done| | |done|done|split; [done|]].
  - split; [done|done|apply Hi| | |].
    + unfold next_page. rewrite Hdm. apply Hi.
    + rewrite Htab. apply Hi.
    + intros q Hq. eapply same_files_writable; [done|]. by apply (ri_writable _ _ _ _ Hi).
  - split_and!.
    + intros pid x Hne Hx. apply Hvk, Hv1; [|done]. by intros ->.
    + intros fd' _. unfold next_page. by rewrite Hdm.
    + intros pid. by eapply same_files_writable.
    + intros pid _. by rewrite Htab.
    + intros pid _ (f&pg&Hpg&Hid&Hp). specialize (Hpgs f). rewrite Hpg in Hpgs.
      destruct (pages_ (bpm s) !! f) as [pg'|] eqn:E; [|done]. injection Hpgs as E1 E2 E3.
      exists f, pg'. split_and!; [done|congruence|congruence].
  - eapply file_ok_ext; [|exact Hok]. intros q Hq. destruct (fo_page _ _ _ Hok q Hq) as (x&Hx&_). rewrite Hx.
    eapply synced_disk in Hx; [|done|done|done]. unfold disk_page in Hx. simpl in Hx. by rewrite Hc2 in Hx.
Qed.

Lemma rm_close_ok T hd s m p :
  rm_inv T hd s m → disk_inv (disk s) → fd2path_ (dm (disk s)) !! fd_ hd = Some p →
  sizeof_RmFileHdr <= os_limit (os (disk s)) →
  ∃ s' c, rm_close_file hd s = (Ret tt, s') ∧
    os_cwd (os (disk s')) = os_cwd (os (disk s)) ∧
    os_files (os (disk s')) !! resolve (os (disk s)) p = Some c ∧
    file_image (file_hdr_ hd) c m ∧
    dm (disk s') = record_close p (fd_ hd) (dm (disk s)) ∧ os_fds (os (disk s')) !! fd_ hd = None ∧
    os_limit (os (disk s')) = os_limit (os (disk s)) ∧ os_nofile (os (disk s')) = os_nofile (os (disk s)).
Proof.
  intros Hi Hdi Hp Hlim. destruct (open_fd_content _ _ _ Hdi Hp) as (c0&off0&_&_&Hc0).
  destruct (rm_flush_ok T hd s m Hi ltac:(by rewrite Hc0) Hlim) as (d1&s2&c&Hw&Hfl&_&_&Hsf&Hc2&Himg).
  pose proof (disk_inv_same_files _ _ Hsf Hdi) as Hdi2. pose proof Hsf as (Hdm&Hcwd&_&Hl&Hn&_).
  assert (Hp2 : fd2path_ (dm (disk s2)) !! fd_ hd = Some p) by by rewrite Hdm.
  destruct (open_fd_content _ _ _ Hdi2 Hp2) as (c'&off&Hfd2&Hfile2&Hc2'). rewrite Hc2' in Hc2. injection Hc2 as ->.
  eexists _, c. split_and!.
  - unfold rm_close_file. rewrite (bind_Ret _ _ _ _ _ (with_disk_run _ s _ _ Hw)).
    rewrite (bind_Ret _ _ _ _ _ Hfl). apply with_disk_run.
    unfold close_file, gets, bind at 1. rewrite Hp2. unfold syscall, sys_close, bind. rewrite Hfd2. reflexivity.
  - done.
  - cbn. unfold resolve in *. by rewrite <- Hcwd.
  - done.
  - cbn. by rewrite Hdm.
  - cbn. apply lookup_delete_eq.
  - done.
  - done.
Qed.

(** ** open_file *)

(** A file that has just been opened, none of whose pages is in the pool. *)
Lemma opened_rm T s d' fd c h m :
  bp_inv ∅ T s → disk_inv d' → (∀ q, page_table_ (bpm s) !! mkPageId fd q = None) →
  (∀ fd', fd' ≠ fd → os_fds (os d') !! fd' = os_fds (os (disk s)) !! fd') →
  os_files (os d') = os_files (os (disk s)) → os_limit (os d') = os_limit (os (disk s)) →
  fd_content (os d') fd = Some c → file_ok h (λ p, mread c (p * PAGE_SIZE) PAGE_SIZE) m →
  0 <= fd < MAX_FD → next_page d' fd = num_pages h → num_pages h * PAGE_SIZE <= os_limit (os (disk s)) →
  rm_inv T (mkRmFileHandle fd h) (set_disk d' s) m.
Proof.
  intros Hbp Hdi Hfree Hother Hfiles Hl Hcfd Hfile Hfd Hnx Hlim.
  assert (Hcont : ∀ fd', fd' ≠ fd → fd_content (os d') fd' = fd_content (os (disk s)) fd').
  { intros fd' Hne. unfold fd_content. by rewrite Hother, Hfiles. }
  assert (Hres : ∀ pid, is_Some (page_table_ (bpm s) !! pid) → pid_fd pid ≠ fd).
  { intros [a b] [f Hf] E. simpl in E. subst a. by rewrite Hfree in Hf. }
  split; cbn [fd_ file_hdr_].
  - apply bp_inv_change_disk; [done|by apply disk_inv_distinct|]. intros pid Ht%Hres.
    unfold page_writable, disk_page. by rewrite (Hcont _ Ht), Hl.
  - eapply file_ok_ext; [|done]. intros q Hq. unfold file_view, view. cbn [bpm disk set_disk]. rewrite Hfree.
    unfold disk_page. cbn [pid_fd pid_no]. by rewrite Hcfd.
  - done.
  - done.
  - intros q [f Hf]. simpl in Hf. by rewrite Hfree in Hf.
  - intros q Hq. unfold page_writable. cbn [disk set_disk pid_fd pid_no]. rewrite Hcfd, Hl.
    unfold in_file, RM_FIRST_RECORD_PAGE, PAGE_SIZE in *. split_and!; [eauto|lia|lia].
Qed.

Lemma rm_open_ok T s p c h m :
  let d := disk s in
  let fd := new_fd (os d) in
  bp_inv ∅ T s → disk_inv d → os_files (os d) !! resolve (os d) p = Some c → file_image h c m →
  path2fd_ (dm d) !! p = None → fd < os_nofile (os d) → fd < MAX_FD →
  (∀ q, page_table_ (bpm s) !! mkPageId fd q = None) →
  num_pages h * PAGE_SIZE <= os_limit (os d) →
  ∃ d', with_disk (rm_open_file p) s = (Ret (mkRmFileHandle fd h), set_disk d' s) ∧
    rm_inv T (mkRmFileHandle fd h) (set_disk d' s) m ∧ disk_inv d' ∧ fd2path_ (dm d') !! fd = Some p ∧
    (∃ off, os d' = set_fds (<[fd := (resolve (os d) p, off)]> (os_fds (os d))) (os d)) ∧
    ∀ fd', fd' ≠ fd → next_page d' fd' = next_page d fd'.
Proof.
  intros d fd Hbp Hdi Hc [Hhdr Hfile] Hp Hno Hmax Hfree Hlim.
  set (d1 := mkDisk (set_fds (<[fd := (resolve (os d) p, 0)]> (os_fds (os d))) (os d)) (record_open p fd (dm d))).
  assert (Hopen : open_file p d = (Ret fd, d1)).
  { rewrite open_file_cases. unfold stat_reg. rewrite bool_decide_eq_true_2 by (rewrite Hc; eauto). cbn [negb].
    rewrite decide_False by (rewrite Hp; by intros []). by rewrite decide_True. }
  assert (Hdi1 : disk_inv d1).
  { pose proof (keeps_open_file p d Hdi) as Hk. by rewrite Hopen in Hk. }
  assert (Hfd1 : os_fds (os d1) !! fd = Some (resolve (os d) p, 0)) by apply lookup_insert_eq.
  assert (Hc1 : os_files (os d1) !! resolve (os d) p = Some c) by done.
  pose proof (read_page_run d1 fd RM_FILE_HDR_PAGE (zeros sizeof_RmFileHdr) sizeof_RmFileHdr _ _ _ _ Hfd1 Hc1 Hhdr
    ltac:(rewrite length_zeros; unfold sizeof_RmFileHdr; lia)) as Hread.
  set (d2 := set_os _ d1) in Hread.
  set (d3 := set_dm (set_pageno fd (num_pages h) (dm d2)) d2).
  assert (Hdi2 : disk_inv d2).
  { eapply disk_inv_same_files; [|done]. unfold same_files. split_and!; [done..| |done].
    intros fd'. cbn. rewrite !lookup_insert. by case_decide. }
  assert (Hdi3 : disk_inv d3) by (destruct Hdi2; by split).
  exists d3. split; [|split; [|split; [done|]]].
  - apply with_disk_run. unfold rm_open_file. rewrite (bind_Ret _ _ _ _ _ Hopen).
    unfold RmFileHandle_make, bind at 1. rewrite Hread.
    assert (Hz : drop (Z.to_nat sizeof_RmFileHdr) (zeros sizeof_RmFileHdr) = []) by reflexivity.
    rewrite Hz, app_nil_r, bytes_RmFileHdr_bytes by by eapply file_ok_int32.
    pose proof (new_fd_ge (os d)) as Hge. fold fd in Hge.
    unfold set_fd2pageno, gets, pageno_at, bind. rewrite decide_True by lia. done.
  - pose proof (new_fd_ge (os d)) as Hge. fold fd in Hge. apply (opened_rm T s d3 fd c h m); [done|done|done| |done|done| |done|lia| |done].
    + intros fd' Hne. cbn. by rewrite !lookup_insert_ne.
    + unfold fd_content. cbn. by rewrite lookup_insert_eq.
    + unfold next_page. cbn. by rewrite lookup_insert_eq.
  - split_and!; [by apply lookup_insert_eq| |].
    + eexists. cbn. unfold set_fds. cbn. by rewrite insert_insert_eq.
    + intros fd' Hne. unfold next_page. cbn. by rewrite !lookup_insert_ne.
Qed.
End manager.
