(* ===== verification/RecordClaims.v ===== *)
(** * What record files guarantee

    A record file behaves as a finite map from record ids to records; scans visit
    exactly the records of the map in order; closing and reopening keeps the map. *)

From Stdlib Require Import Sorting.Sorted.
From S2P Require Import Prelude Errors Config Posix DiskManager Replacer BufferPool BufferPoolSpec.
From S2P Require Import BufferPoolProps Bitmap RecordFile RecordPage RecordSpec RecordStore RecordProps RecordManager.
From stdpp Require Import options.

Section claims.
Context {R : Type} `{!Replacer R, !ReplacerSpec R}.
Implicit Types (w : RmState R) (s : Store R) (m : gmap Rid (list byte)).

(** ** The map interface *)

Inductive RmOp :=
  | RInsert (buf : list byte)
  | RDelete (rid : Rid)
  | RUpdate (rid : Rid) (buf : list byte).

(** The result is the new record id of an insertion. *)
Definition rm_op (op : RmOp) : M (RmState R) (option Rid) :=
  match op with
  | RInsert buf => let! rid := insert_record buf in ret (Some rid)
  | RDelete rid => delete_record rid ;; ret None
  | RUpdate rid buf => update_record rid buf ;; ret None
  end.

Definition op_spec (rsize : Z) (op : RmOp) (r : option Rid) m m' : Prop :=
  match op with
  | RInsert buf => ∃ rid v, r = Some rid ∧ mread buf 0 rsize = Some v ∧ m !! rid = None ∧ m' = <[rid := v]> m
  | RDelete rid => r = None ∧ m' = delete rid m
  | RUpdate rid buf => ∃ v, r = None ∧ mread buf 0 rsize = Some v ∧ m' = <[rid := v]> m
  end.

(** Buffers hold a record; deletions and updates name a record that is there. *)
Definition op_legal (rsize : Z) (op : RmOp) m : Prop :=
  match op with
  | RInsert buf => rsize <= Z.of_nat (length buf)
  | RDelete rid => is_Some (m !! rid)
  | RUpdate rid buf => is_Some (m !! rid) ∧ rsize <= Z.of_nat (length buf)
  end.

(** Legality of a history that starts in [w] with the records [m]. *)
Inductive rm_legal (rsize : Z) : gmap Rid (list byte) → RmState R → list RmOp → Prop :=
  | rl_nil m w : rm_legal rsize m w []
  | rl_cons m w op ops :
      op_legal rsize op m →
      (∀ r m', (rm_op op w).1 = Ret r → op_spec rsize op r m m' → rm_legal rsize m' (rm_op op w).2 ops) →
      rm_legal rsize m w (op :: ops).

Inductive rm_replay (rsize : Z) : gmap Rid (list byte) → list (RmOp * option Rid) → gmap Rid (list byte) → Prop :=
  | rr_nil m : rm_replay rsize m [] m
  | rr_cons m m1 m2 op r l : op_spec rsize op r m m1 → rm_replay rsize m1 l m2 → rm_replay rsize m ((op, r) :: l) m2.

Fixpoint rm_ops (ops : list RmOp) : M (RmState R) (list (RmOp * option Rid)) :=
  match ops with
  | [] => ret []
  | op :: ops' => let! r := rm_op op in let! l := rm_ops ops' in ret ((op, r) :: l)
  end.

(** Room for [k] more pages. *)
Definition room_for (k : Z) (hd : RmFileHandle) s : Prop :=
  num_pages (file_hdr_ hd) + k <= INT_MAX ∧
  (0 < k → page_writable (disk s) (mkPageId (fd_ hd) (num_pages (file_hdr_ hd) + k - 1))).

Lemma room_can_insert T hd s m k :
  rm_inv T hd s m → available s → 0 < k → room_for k hd s → can_insert hd s.
Proof.
  intros Hi Hav Hk [Hmax Hw]. unfold can_insert. case_match; [|by right].
  destruct (Hw Hk) as (?&?&Hl). cbn [pid_no pid_fd] in *.
  pose proof (fo_num _ _ _ (ri_file _ _ _ _ Hi)). unfold PAGE_SIZE in *.
  split_and!; [done|lia|]. unfold page_writable, PAGE_SIZE. cbn [pid_no pid_fd]. split_and!; [done|lia|lia].
Qed.

Lemma room_step k hd hd' s s' :
  0 <= k → room_for (k + 1) hd s → 1 <= num_pages (file_hdr_ hd) →
  fd_ hd' = fd_ hd → hdr_step (file_hdr_ hd) (file_hdr_ hd') →
  (∀ pid, page_writable (disk s) pid → page_writable (disk s') pid) → room_for k hd' s'.
Proof.
  intros Hk [Hmax Hw] Hn Hfd [_ Hst] Hpw. split; [lia|]. intros Hk0. rewrite Hfd.
  destruct (Hpw _ (Hw ltac:(lia))) as (?&?&?). cbn [pid_no pid_fd] in *. unfold PAGE_SIZE in *.
  unfold page_writable, PAGE_SIZE. cbn [pid_no pid_fd]. split_and!; [done|lia|lia].
Qed.

Lemma rm_op_ok T hd s m op k :
  rm_inv T hd s m → available s → op_legal (record_size (file_hdr_ hd)) op m → 0 <= k →
  room_for (k + 1) hd s →
  ∃ r hd' s' T' m', rm_op op (mkRm hd s) = (Ret r, mkRm hd' s') ∧
    op_spec (record_size (file_hdr_ hd)) op r m m' ∧ rm_inv T' hd' s' m' ∧ available s' ∧
    others_kept (fd_ hd) s s' ∧ fd_ hd' = fd_ hd ∧ hdr_step (file_hdr_ hd) (file_hdr_ hd').
Proof.
  intros Hi Hav Hleg Hk Hroom. pose proof (ho_size _ (fo_hdr _ _ _ (ri_file _ _ _ _ Hi))) as Hrs.
  assert (Hbuf : ∀ buf, record_size (file_hdr_ hd) <= Z.of_nat (length buf) →
    ∃ v, mread buf 0 (record_size (file_hdr_ hd)) = Some v) by (intros; apply mread_is_Some; lia).
  assert (Hacc : ∀ rid, is_Some (m !! rid) → can_access hd s rid).
  { intros rid Hs. destruct (record_in_file _ _ _ _ _ Hi Hs). split_and!; [done|lia|lia|by right]. }
  destruct op as [buf|rid|rid buf]; simpl in Hleg.
  - destruct (Hbuf buf Hleg) as [v Hv].
    destruct (insert_ok T hd s m buf v Hi) as (rid&hd'&s'&T'&Hrun&Hi'&Hno&Hfd&Ho&Hav'&Hst);
      [eapply (room_can_insert _ _ _ _ (k + 1)); [done|done|lia|done]|done|].
    exists (Some rid), hd', s', T', (<[rid := v]> m). split_and!; [|by exists rid, v|auto..].
    simpl. by rewrite (bind_Ret _ _ _ _ _ Hrun).
  - destruct Hleg as [old Hold].
    destruct (delete_ok_rec T hd s m rid old Hi) as (hd'&s'&T'&Hrun&Hi'&Hfd&Ho&Hav'&Hst&_);
      [apply Hacc; eauto|done|].
    exists None, hd', s', T', (delete rid m). split_and!; [|done|auto..].
    simpl. by rewrite (bind_Ret _ _ _ _ _ Hrun).
  - destruct Hleg as [[old Hold] Hlen]. destruct (Hbuf buf Hlen) as [v Hv].
    destruct (update_ok T hd s m rid buf v old Hi) as (s'&T'&Hrun&Hi'&Ho&Hav'); [apply Hacc; eauto|done|done|].
    exists None, hd, s', T', (<[rid := v]> m). split_and!; [|by exists v|auto..|].
    + simpl. by rewrite (bind_Ret _ _ _ _ _ Hrun).
    + unfold hdr_step. lia.
Qed.

Lemma rm_history_ok T hd s m ops :
  rm_inv T hd s m → available s → room_for (Z.of_nat (length ops)) hd s →
  rm_legal (record_size (file_hdr_ hd)) m (mkRm hd s) ops →
  ∃ l hd' s' T' m', rm_ops ops (mkRm hd s) = (Ret l, mkRm hd' s') ∧ l.*1 = ops ∧
    rm_replay (record_size (file_hdr_ hd)) m l m' ∧ rm_inv T' hd' s' m' ∧ available s' ∧
    others_kept (fd_ hd) s s'.
Proof.
  revert T hd s m. induction ops as [|op ops IH]; intros T hd s m Hi Hav Hroom Hleg.
  - exists [], hd, s, T, m. split_and!; try done. constructor.
  - inversion Hleg as [|? ? ? ? Hop Hrest]; subst. cbn [length] in Hroom.
    replace (Z.of_nat (S (length ops))) with (Z.of_nat (length ops) + 1) in Hroom by lia.
    destruct (rm_op_ok T hd s m op (Z.of_nat (length ops)) Hi Hav Hop ltac:(lia) Hroom)
      as (r&hd1&s1&T1&m1&Hrun&Hsp&Hi1&Hav1&Ho1&Hfd1&Hst1).
    rewrite Hrun in Hrest. specialize (Hrest r m1 eq_refl Hsp). simpl in Hrest.
    pose proof Hst1 as [Hrs _]. rewrite <- Hrs in Hrest.
    destruct (IH T1 hd1 s1 m1 Hi1 Hav1) as (l&hd2&s2&T2&m2&Hrun2&Hl&Hrep&Hi2&Hav2&Ho2); [|done|].
    { eapply room_step; [lia|done| |done|done|apply Ho1].
      pose proof (fo_num _ _ _ (ri_file _ _ _ _ Hi)). lia. }
    exists ((op, r) :: l), hd2, s2, T2, m2. split_and!; [|by simpl; f_equal| |done|done|].
    + simpl. rewrite (bind_Ret _ _ _ _ _ Hrun). by rewrite (bind_Ret _ _ _ _ _ Hrun2).
    + econstructor; [done|]. by rewrite <- Hrs.
    + etrans; [done|]. by rewrite <- Hfd1.
Qed.

(** C5: A record file is a finite map: in any history of insertions (of buffers that hold
    a record), and of deletions and updates of records that are there, no operation throws
    or crashes, every insertion returns an unused record id, and afterwards the file
    represents the map the history computes from [m]; one free or evictable frame is enough
    throughout, and pages of other files are untouched. *)
Theorem record_file_refines_map T hd s m ops :
  rm_inv T hd s m → available s → room_for (Z.of_nat (length ops)) hd s →
  rm_legal (record_size (file_hdr_ hd)) m (mkRm hd s) ops →
  ∃ l hd' s' T' m', rm_ops ops (mkRm hd s) = (Ret l, mkRm hd' s') ∧ l.*1 = ops ∧
    rm_replay (record_size (file_hdr_ hd)) m l m' ∧ rm_inv T' hd' s' m' ∧ available s' ∧
    others_kept (fd_ hd) s s'.
Proof. apply rm_history_ok. Qed.

(** [get_record] of a position inside the file returns the record of the map, or the
    null pointer when there is none, and changes no page; but it does not unpin, so the
    frame of the page is left with a pin nobody will release. *)
Theorem get_record_result T hd s m rid :
  rm_inv T hd s m → can_access hd s rid →
  ∃ f s' x n, get_record rid (mkRm hd s) =
      (Ret ((λ v, mkRmRecord v (record_size (file_hdr_ hd)) true) <$> m !! rid), mkRm hd s') ∧
    rm_inv T hd s' m ∧ holds T s' (mkPageId (fd_ hd) (page_no rid)) f x n.
Proof.
  intros Hi Hacc. destruct (get_ok T hd s m rid Hi Hacc) as (f&s'&x&n&?&?&?&_). eauto 8.
Qed.

(** ** Scans *)

(** The loop [for (RmScan scan(fh); !scan.is_end(); scan.next()) rids.push_back(scan.rid());]. *)
Fixpoint scan_rids (fuel : nat) (sc : RmScan) : M (RmState R) (list Rid) :=
  match fuel with
  | O => crashes OutOfFuel
  | S fuel' =>
      if scan_is_end sc then ret []
      else let! sc' := scan_next sc in let! l := scan_rids fuel' sc' in ret (scan_rid sc :: l)
  end.

Definition scan_file (fuel : nat) : M (RmState R) (list Rid) :=
  let! sc := RmScan_make in scan_rids fuel sc.

(** The records from position [r] on. *)
Definition records_from m (r : Rid) : gset Rid := filter (λ q, q = r ∨ rid_lt r q) (dom m).

Lemma rid_lt_irrefl r : ¬ rid_lt r r.
Proof. unfold rid_lt. lia. Qed.
Lemma rid_lt_trans a b c : rid_lt a b → rid_lt b c → rid_lt a c.
Proof. unfold rid_lt. lia. Qed.

Lemma records_from_next m r r1 :
  is_Some (m !! r) → rid_lt r r1 → (size (records_from m r1) < size (records_from m r))%nat.
Proof.
  intros Hr Hlt. apply subset_size. split.
  - intros q. unfold records_from. rewrite !elem_of_filter. intros [[->|Hq] Hd]; (split; [right|done]); [done|].
    by eapply rid_lt_trans.
  - intros Hsub. assert (Hin : r ∈ records_from m r).
    { unfold records_from. rewrite elem_of_filter, elem_of_dom. auto. }
    apply Hsub in Hin. unfold records_from in Hin. rewrite elem_of_filter in Hin.
    destruct Hin as [[->|Hlt'] _]; [by apply rid_lt_irrefl in Hlt|].
    eapply rid_lt_irrefl, rid_lt_trans; eauto.
Qed.

Lemma scan_rids_end T hd s m fuel :
  rm_inv T hd s m → scan_rids (S fuel) (mkRmScan (mkRid RM_NO_PAGE (-1))) (mkRm hd s) = (Ret [], mkRm hd s).
Proof. done. Qed.

Lemma scan_rids_ok T hd m fuel s r :
  rm_inv T hd s m → available s → is_Some (m !! r) → (size (records_from m r) < fuel)%nat →
  ∃ l s', scan_rids fuel (mkRmScan r) (mkRm hd s) = (Ret l, mkRm hd s') ∧ rm_inv T hd s' m ∧ available s' ∧
    others_kept (fd_ hd) s s' ∧ StronglySorted rid_lt l ∧
    ∀ q, q ∈ l ↔ is_Some (m !! q) ∧ (q = r ∨ rid_lt r q).
Proof.
  revert s r. induction fuel as [|fuel IH]; intros s r Hi Hav Hr Hsz; [lia|].
  destruct (record_in_file _ _ _ _ _ Hi Hr) as [Hin Hk]. unfold in_file, RM_FIRST_RECORD_PAGE in Hin.
  destruct (scan_next_ok T hd s m (mkRmScan r) Hi Hav) as (r1&s1&Hrun&Hi1&Hav1&Ho1&Hnr);
    [simpl; lia|simpl; lia|].
  simpl in Hnr. cbn [scan_rids]. unfold scan_is_end. cbn [scan_rid].
  rewrite (proj2 (Z.eqb_neq _ _)) by (unfold RM_NO_PAGE; lia). rewrite (bind_Ret _ _ _ _ _ Hrun).
  destruct Hnr as [(Hs1&Hlt&Hmin)|(->&Hnone)].
  - pose proof (records_from_next m r r1 Hr Hlt).
    destruct (IH s1 r1 Hi1 Hav1 Hs1) as (l&s2&Hrun2&Hi2&Hav2&Ho2&Hso&Hl); [lia|].
    exists (r :: l), s2. rewrite (bind_Ret _ _ _ _ _ Hrun2).
    split_and!; [done|done|done|by etrans| |].
    + constructor; [done|]. apply Forall_forall. intros q [_ [->|Hq]]%Hl; [done|]. by eapply rid_lt_trans.
    + intros q. rewrite elem_of_cons, Hl. split.
      * intros [->|[Hq [->|Hlq]]]; [by auto|by auto|]. split; [done|]. right. by eapply rid_lt_trans.
      * intros [Hq [->|Hlq]]; [by left|]. right. split; [done|]. by apply Hmin.
  - destruct fuel as [|fuel].
    { assert (Hin' : r ∈ records_from m r) by (unfold records_from; rewrite elem_of_filter, elem_of_dom; auto).
      exfalso. assert (size (records_from m r) ≠ 0%nat); [|lia]. intros Hz. apply size_empty_inv in Hz. set_solver. }
    exists [r], s1. rewrite (bind_Ret _ _ _ _ _ (scan_rids_end _ _ _ _ fuel Hi1)).
    split_and!; [done|done|done|done|by repeat constructor|].
    intros q. rewrite list_elem_of_singleton. split; [by intros ->; auto|]. intros [Hq [->|Hlq]]; [done|].
    by destruct (Hnone q Hq).
Qed.

(** C17: A scan of an open record file terminates and visits every record of the file
    exactly once, in the order of pages and slots, and nothing else; it leaves the
    records, the other files and every pin as they were. *)
Theorem scan_visits_all T hd s m fuel :
  rm_inv T hd s m → available s → (size m < fuel)%nat →
  ∃ l s', scan_file fuel (mkRm hd s) = (Ret l, mkRm hd s') ∧ rm_inv T hd s' m ∧ available s' ∧
    others_kept (fd_ hd) s s' ∧ StronglySorted rid_lt l ∧ (∀ q, q ∈ l ↔ is_Some (m !! q)).
Proof.
  intros Hi Hav Hsz. unfold scan_file, RmScan_make.
  destruct (hdr_bounds _ (fo_hdr _ _ _ (ri_file _ _ _ _ Hi))) as [? _].
  pose proof (fo_num _ _ _ (ri_file _ _ _ _ Hi)).
  destruct (scan_next_ok T hd s m (mkRmScan (mkRid RM_FIRST_RECORD_PAGE (-1))) Hi Hav)
    as (r&s1&Hrun&Hi1&Hav1&Ho1&Hnr); [unfold RM_FIRST_RECORD_PAGE; simpl; lia|simpl; lia|].
  rewrite (bind_Ret _ _ _ _ _ Hrun). simpl in Hnr.
  assert (Hfirst : ∀ q, is_Some (m !! q) → rid_lt (mkRid RM_FIRST_RECORD_PAGE (-1)) q).
  { intros q Hq. destruct (record_in_file _ _ _ _ _ Hi Hq) as [Hin ?]. unfold in_file in Hin.
    unfold rid_lt. simpl. lia. }
  destruct Hnr as [(Hs&_&Hmin)|(->&Hnone)].
  - destruct (scan_rids_ok T hd m fuel s1 r Hi1 Hav1 Hs) as (l&s2&Hrun2&Hi2&Hav2&Ho2&Hso&Hl).
    { eapply Nat.le_lt_trans; [|done]. rewrite <- size_dom. apply subseteq_size.
      intros q. unfold records_from. rewrite elem_of_filter. tauto. }
    exists l, s2. split_and!; [done|done|done|by etrans|done|]. intros q. rewrite Hl. split; [tauto|].
    intros Hq. split; [done|]. apply Hmin; auto.
  - destruct fuel as [|fuel]; [lia|]. exists [], s1. rewrite (scan_rids_end _ _ _ _ fuel Hi1).
    split_and!; [done|done|done|done|constructor|]. intros q. split; [set_solver|].
    intros Hq. by destruct (Hnone q Hq (Hfirst q Hq)).
Qed.

(** ** Creating and reopening *)

(** The process starts again: no descriptors, empty tables, an empty pool. *)
Definition restarted (o : OS) : Disk := mkDisk (set_fds ∅ o) DiskManager_init.

(** C18: Closing a record file makes it durable: [close_file] succeeds, and after a restart,
    with any new buffer pool over the file system it leaves, [open_file] gives a handle
    with the same header that stands for exactly the same records. *)
Theorem close_reopen_records T hd s m p (r : R) n :
  rm_inv T hd s m → disk_inv (disk s) → fd2path_ (dm (disk s)) !! fd_ hd = Some p →
  3 < os_nofile (os (disk s)) → num_pages (file_hdr_ hd) * PAGE_SIZE <= os_limit (os (disk s)) →
  rep_inv r → evictable r = ∅ → capacity r = n →
  ∃ s' d', rm_close_file hd s = (Ret tt, s') ∧
    let s0 := mkStore (BufferPoolManager_init n r) (restarted (os (disk s'))) in
    with_disk (rm_open_file p) s0 = (Ret (mkRmFileHandle 3 (file_hdr_ hd)), set_disk d' s0) ∧
    rm_inv ∅ (mkRmFileHandle 3 (file_hdr_ hd)) (set_disk d' s0) m.
Proof.
  intros Hi Hdi Hp Hno Hlim Hr He Hc. pose proof (fo_num _ _ _ (ri_file _ _ _ _ Hi)) as Hnum.
  destruct (rm_close_ok T hd s m p Hi Hdi Hp) as (s'&c&Hrun&Hcwd&Hfile&Himg&Hdm&Hfd&Hl&Hnf).
  { unfold sizeof_RmFileHdr, PAGE_SIZE in *. lia. }
  set (s0 := mkStore (BufferPoolManager_init n r) (restarted (os (disk s')))).
  assert (Hdi0 : disk_inv (disk s0)) by by apply disk_inv_init.
  destruct (rm_open_ok ∅ s0 p c (file_hdr_ hd) m) as (d'&Hopen&Hi'&_).
  - apply bp_inv_init; [done|done|done|]. by apply disk_inv_distinct.
  - done.
  - cbn. unfold resolve. cbn. rewrite Hcwd. done.
  - done.
  - done.
  - change (3 < os_nofile (os (disk s'))). by rewrite Hnf.
  - done.
  - intros q. apply lookup_empty.
  - change (num_pages (file_hdr_ hd) * PAGE_SIZE <= os_limit (os (disk s'))). by rewrite Hl.
  - exists s', d'. split; [done|]. done.
Qed.

(** A new file was made and opened under the descriptor [fd]; the pool was not touched. *)
Definition file_opened (fd : Z) (p : string) s s' : Prop :=
  bpm s' = bpm s ∧ (∀ fd', fd' ≠ fd → next_page (disk s') fd' = next_page (disk s) fd') ∧
  ∃ c off, os (disk s') =
    set_fds (<[fd := (resolve (os (disk s)) p, off)]> (os_fds (os (disk s))))
      (set_files (<[resolve (os (disk s)) p := c]> (os_files (os (disk s)))) (os (disk s))).

Lemma create_open_ok T s p rsize :
  let d := disk s in
  (¬ fresh_hdr rsize → rm_create_file p rsize d = (Throw (InvalidRecordSizeError rsize), d)) ∧
  (fresh_hdr rsize → bp_inv ∅ T s → disk_inv d →
   os_files (os d) !! resolve (os d) p = None → (resolve (os d) p ∉ os_dirs (os d)) →
   new_fd (os d) < os_nofile (os d) → new_fd (os d) < MAX_FD → PAGE_SIZE <= os_limit (os d) →
   (∀ q, page_table_ (bpm s) !! mkPageId (new_fd (os d)) q = None) →
   ∃ d' s', rm_create_file p rsize d = (Ret tt, d') ∧
     with_disk (rm_open_file p) (set_disk d' s) = (Ret (mkRmFileHandle (new_fd (os d)) (rm_initial_hdr rsize)), s') ∧
     rm_inv T (mkRmFileHandle (new_fd (os d)) (rm_initial_hdr rsize)) s' ∅ ∧ disk_inv (disk s') ∧
     file_opened (new_fd (os d)) p s s').
Proof.
  intros d. split.
  - intros Hn. unfold rm_create_file. unfold fresh_hdr, RM_MAX_RECORD_SIZE in *.
    destruct (Z.ltb_spec rsize 1); [done|]. rewrite Z.gtb_ltb. destruct (Z.ltb_spec 512 rsize); [done|lia].
  - intros Hr Hbp Hdi Hfile Hdir Hnf Hmax Hlim Hpool.
    assert (Hp : path2fd_ (dm d) !! p = None).
    { destruct (path2fd_ (dm d) !! p) as [fd|] eqn:E; [|done].
      apply (di_maps _ Hdi) in E. apply (di_open _ Hdi) in E as [_ [c Hc]]. congruence. }
    destruct (rm_create_ok d p rsize Hdi Hr Hfile Hdir Hnf) as (c&Hrun&Himg).
    { unfold sizeof_RmFileHdr, PAGE_SIZE in *. lia. }
    set (d1 := mkDisk _ _) in Hrun.
    assert (Hdi1 : disk_inv d1).
    { destruct Hdi as [H1 H2 H3]. split; [done|done|]. intros fd q Hq. destruct (H3 fd q Hq) as [? Hf].
      split; [done|]. cbn. rewrite lookup_insert. case_decide; [by eexists|done]. }
    destruct (rm_open_ok T (set_disk d1 s) p c (rm_initial_hdr rsize) ∅) as (d2&Hopen&Hi2&Hdi2&_&(off&Hos)&Hnext).
    + apply bp_inv_change_disk; [done|by apply disk_inv_distinct|]. intros pid [f Ht].
      assert (Hcont : fd_content (os d1) (pid_fd pid) = fd_content (os d) (pid_fd pid)).
      { unfold fd_content. cbn. destruct (os_fds (os d) !! pid_fd pid) as [[q off]|] eqn:Eq; [|done].
        rewrite lookup_insert_ne; [done|]. intros <-.
        destruct (di_fds _ Hdi _ _ _ Eq) as (p'&Hp'&Hres).
        apply (di_open _ Hdi) in Hp' as [_ [c' Hc']]. congruence. }
      unfold page_writable, disk_page. rewrite Hcont. done.
    + done.
    + cbn. by rewrite lookup_insert_eq.
    + done.
    + done.
    + done.
    + done.
    + done.
    + done.
    + exists d1, (set_disk d2 (set_disk d1 s)). split_and!; [done..|]. split_and!; [done|exact Hnext|].
      exists c, off. exact Hos.
Qed.

(** [create_file] followed by [open_file], on a name that does not exist, gives an open
    record file without records and with the layout computed from the record size; a size
    outside 1..512 is refused before any file is touched. *)
Theorem create_open_empty T s p rsize :
  let d := disk s in
  (¬ fresh_hdr rsize → rm_create_file p rsize d = (Throw (InvalidRecordSizeError rsize), d)) ∧
  (fresh_hdr rsize → bp_inv ∅ T s → disk_inv d →
   os_files (os d) !! resolve (os d) p = None → (resolve (os d) p ∉ os_dirs (os d)) →
   new_fd (os d) < os_nofile (os d) → new_fd (os d) < MAX_FD → PAGE_SIZE <= os_limit (os d) →
   (∀ q, page_table_ (bpm s) !! mkPageId (new_fd (os d)) q = None) →
   ∃ d' s', rm_create_file p rsize d = (Ret tt, d') ∧
     with_disk (rm_open_file p) (set_disk d' s) = (Ret (mkRmFileHandle (new_fd (os d)) (rm_initial_hdr rsize)), s') ∧
     rm_inv T (mkRmFileHandle (new_fd (os d)) (rm_initial_hdr rsize)) s' ∅ ∧ disk_inv (disk s')).
Proof.
  intros d. destruct (create_open_ok T s p rsize) as [H1 H2]. split; [done|].
  intros. destruct H2 as (d'&s'&?&?&?&?&_); [done..|]. by exists d', s'.
Qed.
End claims.

(** ** Witnesses: a file of 8-byte records, a pool of two frames with the LRU replacer *)

Definition rec_os : OS := mkOS ∅ ∅ [] ∅ 1000000 1024.
Definition rec_store0 : Store LRUReplacer :=
  mkStore (BufferPoolManager_init 2 (LRUReplacer_init 2)) (mkDisk rec_os DiskManager_init).
Definition rec_handle : RmFileHandle := mkRmFileHandle 3 (rm_initial_hdr 8).
Definition rec_store1 : Store LRUReplacer :=
  (with_disk (rm_open_file "t") (set_disk (rm_create_file "t" 8 (disk rec_store0)).2 rec_store0)).2.

Lemma rec_store0_inv : bp_inv ∅ ∅ rec_store0.
Proof.
  apply bp_inv_init; [apply lru_inv_init|reflexivity|reflexivity|].
  apply disk_inv_distinct, disk_inv_init. reflexivity.
Qed.

Lemma rec_fresh : fresh_hdr 8.
Proof. unfold fresh_hdr, RM_MAX_RECORD_SIZE. lia. Qed.

Lemma rec_store1_ok : rm_inv ∅ rec_handle rec_store1 ∅ ∧ disk_inv (disk rec_store1).
Proof.
  destruct (create_open_ok ∅ rec_store0 "t" 8) as [_ H].
  destruct (H rec_fresh rec_store0_inv) as (d'&s'&Hc&Ho&Hi&Hd&_).
  - apply disk_inv_init. reflexivity.
  - reflexivity.
  - set_solver.
  - reflexivity.
  - reflexivity.
  - discriminate.
  - intros q. apply lookup_empty.
  - assert (rec_store1 = s') as ->; [|by split]. unfold rec_store1. rewrite Hc. cbn [snd].
    by rewrite Ho.
Qed.

Lemma rec_store1_inv : rm_inv ∅ rec_handle rec_store1 ∅.
Proof. apply rec_store1_ok. Qed.

Lemma create_open_empty_witness :
  ∃ d' s', rm_create_file "t" 8 (disk rec_store0) = (Ret tt, d') ∧
     with_disk (rm_open_file "t") (set_disk d' rec_store0) = (Ret rec_handle, s') ∧
     rm_inv ∅ rec_handle s' ∅ ∧ disk_inv (disk s').
Proof.
  apply (create_open_empty ∅ rec_store0 "t" 8).
  - apply rec_fresh.
  - apply rec_store0_inv.
  - apply disk_inv_init. reflexivity.
  - reflexivity.
  - set_solver.
  - reflexivity.
  - reflexivity.
  - discriminate.
  - intros q. apply lookup_empty.
Defined.

Definition rec_a : list byte := [x61; x62; x63; x64; x65; x66; x67; x68].
Definition rec_b : list byte := [x31; x32; x33; x34; x35; x36; x37; x38].
Definition rec_history : list RmOp := [RInsert rec_a; RUpdate (mkRid 1 0) rec_b; RDelete (mkRid 1 0)].

Lemma rec_available : available rec_store1.
Proof. left. vm_compute. discriminate. Qed.

Lemma rec_room k : 0 <= k <= 100 → room_for k rec_handle rec_store1.
Proof.
  intros Hk. split; [simpl; unfold INT_MAX; lia|]. intros H0. unfold page_writable. simpl pid_fd. simpl pid_no.
  split; [vm_compute; eauto|]. change (os_limit (os (disk rec_store1))) with 1000000. unfold PAGE_SIZE. lia.
Qed.

Lemma rec_insert_spec m' : op_spec 8 (RInsert rec_a) (Some (mkRid 1 0)) ∅ m' → m' = {[ mkRid 1 0 := rec_a ]}.
Proof. intros (rid&v&[= <-]&Hv&_&->). vm_compute in Hv. by simplify_eq. Qed.

Lemma rec_history_legal : rm_legal 8 ∅ (mkRm rec_handle rec_store1) rec_history.
Proof.
  constructor; [vm_compute; discriminate|]. intros r m1 Hr Hs1.
  vm_compute in Hr. injection Hr as <-. apply rec_insert_spec in Hs1 as ->.
  constructor; [split; [vm_compute; eauto|vm_compute; discriminate]|]. intros r m2 _ (v&->&_&->).
  constructor; [simpl; rewrite lookup_insert_eq; eauto|]. intros r m3 _ _. constructor.
Qed.

Lemma record_file_refines_map_witness :
  ∃ l hd' s' T' m', rm_ops rec_history (mkRm rec_handle rec_store1) = (Ret l, mkRm hd' s') ∧ l.*1 = rec_history ∧
    rm_replay 8 ∅ l m' ∧ rm_inv T' hd' s' m' ∧ available s' ∧ others_kept 3 rec_store1 s'.
Proof.
  apply (record_file_refines_map ∅ rec_handle rec_store1 ∅ rec_history).
  - apply rec_store1_inv.
  - apply rec_available.
  - apply rec_room. vm_compute. split; discriminate.
  - apply rec_history_legal.
Defined.

(** The file with one record. *)
Definition rec_state2 : RmState LRUReplacer := (rm_op (RInsert rec_a) (mkRm rec_handle rec_store1)).2.
Definition rec_records2 : gmap Rid (list byte) := {[ mkRid 1 0 := rec_a ]}.

Lemma rec_state2_inv :
  ∃ T, rm_inv T (rm_handle rec_state2) (rm_store rec_state2) rec_records2 ∧ available (rm_store rec_state2).
Proof.
  destruct (rm_op_ok ∅ rec_handle rec_store1 ∅ (RInsert rec_a) 0)
    as (r&hd'&s'&T'&m'&Hrun&Hsp&Hi&Hav&_&_).
  - apply rec_store1_inv.
  - apply rec_available.
  - vm_compute. discriminate.
  - lia.
  - apply rec_room. lia.
  - exists T'. assert (Hr : r = Some (mkRid 1 0)).
    { assert (Hc : (rm_op (RInsert rec_a) (mkRm rec_handle rec_store1)).1 = Ret (Some (mkRid 1 0))) by (vm_compute; reflexivity).
      rewrite Hrun in Hc. by injection Hc. }
    rewrite Hr in Hsp. apply rec_insert_spec in Hsp. unfold rec_state2. rewrite Hrun.
    cbn [snd rm_handle rm_store]. rewrite Hsp in Hi. exact (conj Hi Hav).
Qed.

Lemma get_record_result_witness :
  ∃ T f s' x n, get_record (mkRid 1 0) (mkRm (rm_handle rec_state2) (rm_store rec_state2)) =
      (Ret ((λ v, mkRmRecord v (record_size (file_hdr_ (rm_handle rec_state2))) true) <$> rec_records2 !! mkRid 1 0),
       mkRm (rm_handle rec_state2) s') ∧
    rm_inv T (rm_handle rec_state2) s' rec_records2 ∧
    holds T s' (mkPageId (fd_ (rm_handle rec_state2)) 1) f x n.
Proof.
  destruct rec_state2_inv as (T&Hi&Hav). exists T.
  apply (get_record_result T (rm_handle rec_state2) (rm_store rec_state2) rec_records2 (mkRid 1 0) Hi).
  split; [vm_compute; split; [discriminate|reflexivity]|]. split; [vm_compute; split; [discriminate|reflexivity]|].
  right. exact Hav.
Defined.

Lemma scan_visits_all_witness :
  ∃ T l s', scan_file 2 (mkRm (rm_handle rec_state2) (rm_store rec_state2)) = (Ret l, mkRm (rm_handle rec_state2) s') ∧
    rm_inv T (rm_handle rec_state2) s' rec_records2 ∧ available s' ∧
    others_kept (fd_ (rm_handle rec_state2)) (rm_store rec_state2) s' ∧ StronglySorted rid_lt l ∧
    (∀ q, q ∈ l ↔ is_Some (rec_records2 !! q)).
Proof.
  destruct rec_state2_inv as (T&Hi&Hav). exists T.
  apply (scan_visits_all T (rm_handle rec_state2) (rm_store rec_state2) rec_records2 2 Hi Hav).
  vm_compute. lia.
Defined.

Lemma close_reopen_records_witness :
  ∃ s' d', rm_close_file rec_handle rec_store1 = (Ret tt, s') ∧
    let s0 := mkStore (BufferPoolManager_init 4 (LRUReplacer_init 4)) (restarted (os (disk s'))) in
    with_disk (rm_open_file "t") s0 = (Ret rec_handle, set_disk d' s0) ∧
    rm_inv ∅ rec_handle (set_disk d' s0) ∅.
Proof.
  apply (close_reopen_records ∅ rec_handle rec_store1 ∅ "t").
  - apply rec_store1_inv.
  - apply rec_store1_ok.
  - vm_compute. reflexivity.
  - reflexivity.
  - vm_compute. discriminate.
  - apply lru_inv_init.
  - reflexivity.
  - reflexivity.
Defined.
