(* ===== verification/StrMap.v ===== *)
(** * std::map with string keys

    The catalogue and the planner keep [std::map<std::string, T>]s.  Such a map is the
    list of its entries in iteration order: keys ascending in the order of
    [std::string::operator<], which compares the bytes as unsigned characters. *)

From Stdlib Require Import Strings.Ascii Sorting.Sorted.
From S2P Require Import Prelude.
From stdpp Require Import options.

(** ** The order of strings *)

Fixpoint string_ltb (x y : string) : bool :=
  match x, y with
  | EmptyString, EmptyString => false
  | EmptyString, String _ _ => true
  | String _ _, EmptyString => false
  | String a x', String b y' =>
      if decide (a = b) then string_ltb x' y' else (N_of_ascii a <? N_of_ascii b)%N
  end.

Definition string_lt (x y : string) : Prop := string_ltb x y = true.

#[global] Instance string_lt_dec : RelDecision string_lt.
Proof. intros x y. unfold string_lt. apply _. Defined.

Lemma N_of_ascii_inj a b : N_of_ascii a = N_of_ascii b → a = b.
Proof. intros H. rewrite <- (ascii_N_embedding a), <- (ascii_N_embedding b). by rewrite H. Qed.

Lemma string_ltb_irrefl x : string_ltb x x = false.
Proof. induction x; simpl; [done|]. by rewrite decide_True. Qed.

#[global] Instance string_lt_irrefl : Irreflexive string_lt.
Proof. intros x. unfold complement, string_lt. by rewrite string_ltb_irrefl. Qed.

#[global] Instance string_lt_trans : Transitive string_lt.
Proof.
  unfold string_lt. intros x. induction x as [|a x IH]; intros [|b y] [|c z]; simpl; try done.
  repeat case_decide; subst; try done; rewrite ?N.ltb_lt; try done; [by apply IH| |].
  - intros Hab Hbc. exfalso. lia.
  - intros Hab Hbc. lia.
Qed.

Lemma string_lt_total x y : string_lt x y ∨ x = y ∨ string_lt y x.
Proof.
  unfold string_lt. revert y; induction x as [|a x IH]; intros [|b y]; simpl; auto.
  destruct (decide (a = b)) as [->|Hab].
  - rewrite decide_True by done. destruct (IH y) as [?|[->|?]]; auto.
  - rewrite (decide_False (P := b = a)) by congruence. rewrite !N.ltb_lt.
    assert (N_of_ascii a ≠ N_of_ascii b) by (intros ?%N_of_ascii_inj; done). lia.
Qed.

(** ** Maps *)

Definition strmap (A : Type) : Type := list (string * A).

Section strmap.
Context {A : Type}.
Implicit Types m : strmap A.

(** [m.find(k)]: the mapped value, or [m.end()]. *)
Fixpoint sm_find (k : string) (m : strmap A) : option A :=
  match m with
  | [] => None
  | (k', a) :: m' => if decide (k = k') then Some a else sm_find k m'
  end.

(** [m[k] = a], which inserts or overwrites. *)
Fixpoint sm_insert (k : string) (a : A) (m : strmap A) : strmap A :=
  match m with
  | [] => [(k, a)]
  | (k', b) :: m' =>
      if decide (k = k') then (k, a) :: m'
      else if string_ltb k k' then (k, a) :: (k', b) :: m'
      else (k', b) :: sm_insert k a m'
  end.

(** [m.erase(k)]. *)
Fixpoint sm_erase (k : string) (m : strmap A) : strmap A :=
  match m with
  | [] => []
  | (k', b) :: m' => if decide (k = k') then m' else (k', b) :: sm_erase k m'
  end.

(** The keys ascend. *)
Definition sm_wf m : Prop := StronglySorted string_lt m.*1.

Lemma sm_find_elem k m a : sm_find k m = Some a → (k, a) ∈ m.
Proof.
  induction m as [|[k' b] m IH]; simpl; [done|]. case_decide; [|intros; right; auto].
  subst. intros [= ->]. left.
Qed.

Lemma sm_find_None k m : sm_find k m = None ↔ k ∉ m.*1.
Proof.
  induction m as [|[k' b] m IH]; simpl; [set_solver|].
  case_decide; [subst; set_solver|]. rewrite IH. set_solver.
Qed.

Lemma sm_find_insert k a m : sm_find k (sm_insert k a m) = Some a.
Proof.
  induction m as [|[k' b] m IH]; simpl; [by rewrite decide_True|].
  repeat (case_match; simplify_eq/=); congruence.
Qed.

Lemma sm_find_insert_ne k k2 a m : k ≠ k2 → sm_find k2 (sm_insert k a m) = sm_find k2 m.
Proof.
  intros Hne. induction m as [|[k' b] m IH]; simpl; [by rewrite decide_False|].
  repeat (case_match; simplify_eq/=); congruence.
Qed.

Lemma sm_find_erase_ne k k2 m : k ≠ k2 → sm_find k2 (sm_erase k m) = sm_find k2 m.
Proof.
  intros Hne. induction m as [|[k' b] m IH]; simpl; [done|].
  case_decide; simpl; subst; [by rewrite decide_False by congruence|]. by case_decide.
Qed.

Lemma sm_erase_keys k m x : x ∈ (sm_erase k m).*1 → x ∈ m.*1.
Proof. induction m as [|[k' b] m IH]; simpl; [done|]. case_decide; set_solver. Qed.

Lemma sm_find_erase k m : sm_wf m → sm_find k (sm_erase k m) = None.
Proof.
  unfold sm_wf. induction m as [|[k' b] m IH]; simpl; intros Hs; [done|].
  inversion_clear Hs as [|?? Hs' Hf]. case_decide; simpl.
  - subst. apply sm_find_None. intros Hin. rewrite Forall_forall in Hf.
    by apply (irreflexivity string_lt k'), Hf.
  - rewrite decide_False by done. auto.
Qed.

Lemma sm_insert_keys k a m x : x ∈ (sm_insert k a m).*1 ↔ x = k ∨ x ∈ m.*1.
Proof. induction m as [|[k' b] m IH]; simpl; repeat case_match; subst; set_solver. Qed.

Lemma sm_insert_wf k a m : sm_wf m → sm_wf (sm_insert k a m).
Proof.
  unfold sm_wf. induction m as [|[k' b] m IH]; simpl; intros Hs; [repeat constructor|].
  inversion_clear Hs as [|?? Hs' Hf]. case_decide as Hk; [subst; simpl; by constructor|].
  destruct (string_ltb k k') eqn:E; simpl.
  - constructor; [by constructor|]. constructor; [done|].
    eapply Forall_impl; [done|]. intros y Hy. by etrans.
  - constructor; [auto|]. rewrite Forall_forall in Hf |- *. intros y [->|Hy]%sm_insert_keys; [|auto].
    destruct (string_lt_total k k') as [H|[H|H]]; [unfold string_lt in H; congruence|done|done].
Qed.

Lemma sm_erase_wf k m : sm_wf m → sm_wf (sm_erase k m).
Proof.
  unfold sm_wf. induction m as [|[k' b] m IH]; simpl; intros Hs; [constructor|].
  inversion_clear Hs as [|?? Hs' Hf]. case_decide; [done|]. simpl. constructor; [auto|].
  rewrite Forall_forall in Hf |- *. intros y Hy%sm_erase_keys. auto.
Qed.

(** Inserting above every key appends. *)
Lemma sm_insert_last k a m : Forall (λ x, string_lt x k) m.*1 → sm_insert k a m = m ++ [(k, a)].
Proof.
  induction m as [|[k' b] m IH]; simpl; [done|]. intros [Hk Hf]%Forall_cons.
  rewrite decide_False by (intros ->; by apply (irreflexivity string_lt k')).
  destruct (string_ltb k k') eqn:E; [|by rewrite IH].
  exfalso. apply (irreflexivity string_lt k). by trans k'.
Qed.

(** Inserting the entries of a map one by one rebuilds it. *)
Lemma sm_insert_all m1 m2 :
  sm_wf (m1 ++ m2) → foldl (λ acc e, sm_insert e.1 e.2 acc) m1 m2 = m1 ++ m2.
Proof.
  unfold sm_wf. revert m1; induction m2 as [|[k a] m2 IH]; intros m1 Hs; simpl; [by rewrite app_nil_r|].
  rewrite sm_insert_last.
  - rewrite IH; [by rewrite <- app_assoc|]. by rewrite <- app_assoc.
  - rewrite fmap_app in Hs. simpl in Hs. clear IH. induction m1 as [|[k' b] m1 IH1]; simpl in *; [done|].
    inversion_clear Hs as [|?? Hs' Hf]. constructor; [|auto].
    rewrite Forall_forall in Hf. apply Hf. set_solver.
Qed.
End strmap.
