(* ===== verification/Values.v ===== *)
(** * Values and conditions

    [common/common.h]: qualified column names, SQL values with their raw record
    bytes, and the conditions and assignments built from them. *)

From S2P Require Import Prelude Errors Config RecordFile StrMap.
From stdpp Require Import options.

Record TabCol := mkTabCol { tab_name : string; col_name : string }.

#[global] Instance TabCol_eq_dec : EqDecision TabCol.
Proof. solve_decision. Defined.

(** [operator<] on column names: the order of [std::pair]. *)
Definition TabCol_ltb (x y : TabCol) : bool :=
  string_ltb (tab_name x) (tab_name y) ||
  (negb (string_ltb (tab_name y) (tab_name x)) && string_ltb (col_name x) (col_name y)).

(** [Value]: the anonymous union of [int_val] and [float_val] is the 32-bit word
    [word_val] (an [int] as its value, a [float] as the value of its bit pattern
    read as an [int]); the shared pointer [raw] is [None] when null. *)
Record Value := mkValue {
  type : ColType;
  word_val : Z;
  str_val : string;
  raw : option RmRecord;
}.

#[global] Instance RmRecord_eq_dec : EqDecision RmRecord.
Proof. solve_decision. Defined.
#[global] Instance Value_eq_dec : EqDecision Value.
Proof. solve_decision. Defined.

(** [Value val;] leaves [type] and the union indeterminate; the model picks 0. *)
Definition Value_init : Value := mkValue TYPE_INT 0 "" None.

Definition set_int (int_val_ : Z) (v : Value) : Value := mkValue TYPE_INT int_val_ (str_val v) (raw v).
Definition set_float (float_bits : Z) (v : Value) : Value := mkValue TYPE_FLOAT float_bits (str_val v) (raw v).
Definition set_str (str_val_ : string) (v : Value) : Value := mkValue TYPE_STRING (word_val v) str_val_ (raw v).

(** The characters of a [std::string]. *)
Definition str_bytes (s : string) : list byte := String.list_byte_of_string s.

Definition str_size (s : string) : Z := Z.of_nat (String.length s).

(** [init_raw(len)]: the fresh buffer of [make_shared<RmRecord>(len)] is filled by
    every branch that returns. *)
Definition init_raw (len : Z) (v : Value) : outcome Value :=
  oassert (bool_decide (raw v = None)) ≫= λ _,
  let with_raw d := mkValue (type v) (word_val v) (str_val v) (Some (mkRmRecord d len true)) in
  match type v with
  | TYPE_INT => oassert (len =? 4) ≫= λ _, Ret (with_raw (int_bytes (word_val v)))
  | TYPE_FLOAT => oassert (len =? 4) ≫= λ _, Ret (with_raw (int_bytes (word_val v)))
  | TYPE_STRING =>
      if len <? str_size (str_val v) then Throw StringOverflowError
      else d ← oaccess (mwrite (zeros len) 0 (str_bytes (str_val v))); Ret (with_raw d)
  end.

Inductive CompOp := OP_EQ | OP_NE | OP_LT | OP_GT | OP_LE | OP_GE.

#[global] Instance CompOp_eq_dec : EqDecision CompOp.
Proof. solve_decision. Defined.

Record Condition := mkCondition {
  lhs_col : TabCol;
  op : CompOp;
  is_rhs_val : bool;
  rhs_col : TabCol;
  rhs_val : Value;
}.

#[global] Instance Condition_eq_dec : EqDecision Condition.
Proof. solve_decision. Defined.

Record SetClause := mkSetClause { lhs : TabCol; rhs : Value }.

(** ** What [init_raw] does *)

Lemma length_str_bytes s : Z.of_nat (length (str_bytes s)) = str_size s.
Proof.
  unfold str_bytes, str_size, String.list_byte_of_string. f_equal. rewrite List.length_map.
  induction s as [|c s IH]; simpl; [done|]. by rewrite IH.
Qed.

(** The bytes of a value in a column of width [len]. *)
Definition value_bytes (v : Value) (len : Z) : list byte :=
  match type v with
  | TYPE_STRING => str_bytes (str_val v) ++ zeros (len - str_size (str_val v))
  | _ => int_bytes (word_val v)
  end.

(** The value fits a column of width [len]. *)
Definition value_fits (v : Value) (len : Z) : Prop :=
  match type v with
  | TYPE_STRING => str_size (str_val v) <= len
  | _ => len = 4
  end.

#[global] Instance value_fits_dec v len : Decision (value_fits v len).
Proof. unfold value_fits. destruct (type v); apply _. Defined.

Definition with_raw (v : Value) (r : option RmRecord) : Value := mkValue (type v) (word_val v) (str_val v) r.

Lemma zeros_take_drop n k : 0 <= k <= n → drop (Z.to_nat k) (zeros n) = zeros (n - k).
Proof. intros H. unfold zeros. rewrite drop_replicate. f_equal. lia. Qed.

Lemma init_raw_ok len v :
  raw v = None → value_fits v len →
  init_raw len v = Ret (with_raw v (Some (mkRmRecord (value_bytes v len) len true))).
Proof.
  intros Hr Hf. unfold init_raw. rewrite bool_decide_true by done. simpl.
  unfold value_fits, value_bytes, with_raw in *. destruct (type v) eqn:Et.
  1,2: subst len; done.
  rewrite (proj2 (Z.ltb_ge _ _)) by done.
  pose proof (length_str_bytes (str_val v)) as Hl.
  unfold mwrite. rewrite decide_True.
  - simpl. do 4 f_equal. rewrite <- zeros_take_drop by lia. f_equal. f_equal. lia.
  - rewrite length_zeros. lia.
Qed.

Lemma init_raw_Ret len v v' :
  init_raw len v = Ret v' →
  raw v = None ∧ value_fits v len ∧ v' = with_raw v (Some (mkRmRecord (value_bytes v len) len true)).
Proof.
  intros H. assert (Hr : raw v = None).
  { unfold init_raw in H. case_bool_decide; [done|]. by simpl in H. }
  assert (Hf : value_fits v len).
  { unfold init_raw in H. rewrite bool_decide_true in H by done. simpl in H. unfold value_fits.
    destruct (type v); simpl in H.
    1,2: destruct (Z.eqb_spec len 4); [done|]; by simpl in H.
    destruct (Z.ltb_spec len (str_size (str_val v))); done. }
  rewrite (init_raw_ok _ _ Hr Hf) in H. naive_solver.
Qed.

Lemma length_value_bytes v len : value_fits v len → Z.of_nat (length (value_bytes v len)) = len.
Proof.
  unfold value_fits, value_bytes. intros H. pose proof (length_str_bytes (str_val v)).
  assert (0 <= str_size (str_val v)) by (unfold str_size; lia).
  destruct (type v); try (rewrite H; done).
  rewrite length_app, Nat2Z.inj_add, length_str_bytes, length_zeros. lia.
Qed.
