(* ===== verification/Text.v ===== *)
(** * Text streams

    [std::ostream] insertion produces text; [std::istream] extraction ([operator>>])
    skips white space and reads a word or a number.  A reader is a function from the
    text that is left to the value and the rest; [None] is a stream whose [failbit] is
    set, after which the code's variables keep no particular value. *)

From Stdlib Require Import Strings.Ascii.
From S2P Require Import Prelude Errors Config.
From stdpp Require Import options.

(** ** Strings of C *)

(** The bytes up to the first NUL. *)
Fixpoint c_str (bs : list byte) : list byte :=
  match bs with [] => [] | b :: bs' => if decide (b = x00) then [] else b :: c_str bs' end.

(** ** Readers *)

Definition Rd (A : Type) : Type := string → option (A * string).

#[global] Instance Rd_ret : MRet Rd := λ A a s, Some (a, s).
#[global] Instance Rd_bind : MBind Rd := λ A B k m s,
  match m s with
  | Some (a, s') => k a s'
  | None => None
  end.

(** [isspace] in the "C" locale. *)
Definition is_space (c : ascii) : bool :=
  let n := N_of_ascii c in (n =? 32)%N || ((9 <=? n)%N && (n <=? 13)%N).

Fixpoint skip_ws (s : string) : string :=
  match s with
  | String c s' => if is_space c then skip_ws s' else s
  | EmptyString => s
  end.

(** The characters up to the next white space. *)
Fixpoint span_word (s : string) : string * string :=
  match s with
  | String c s' => if is_space c then ("", s) else let '(w, r) := span_word s' in (String c w, r)
  | EmptyString => ("", "")
  end.

(** [is >> str]: fails when no character is extracted. *)
Definition read_string : Rd string := λ s,
  match span_word (skip_ws s) with
  | (EmptyString, _) => None
  | (w, r) => Some (w, r)
  end.

Definition digit_val (c : ascii) : option Z :=
  let n := Z.of_N (N_of_ascii c) in if (48 <=? n) && (n <=? 57) then Some (n - 48) else None.

(** The decimal number the text starts with, added to the digits [acc] seen so far. *)
Fixpoint span_digits (acc : Z) (s : string) : Z * string :=
  match s with
  | String c s' =>
      match digit_val c with
      | Some d => span_digits (10 * acc + d) s'
      | None => (acc, s)
      end
  | EmptyString => (acc, s)
  end.

Definition starts_digit (s : string) : bool :=
  match s with String c _ => bool_decide (is_Some (digit_val c)) | EmptyString => false end.

(** A decimal integer with an optional sign. *)
Definition read_Z : Rd Z := λ s,
  let s := skip_ws s in
  let '(neg, s) :=
    match s with
    | String c s' =>
        if decide (c = "-"%char) then (true, s') else if decide (c = "+"%char) then (false, s') else (false, s)
    | EmptyString => (false, s)
    end in
  if starts_digit s
  then let '(n, r) := span_digits 0 s in Some ((if (neg : bool) then - n else n), r)
  else None.

(** Extraction succeeds with [a] when [b] holds and sets [failbit] otherwise. *)
Definition rd_when {A} (b : bool) (a : A) : Rd A := λ s, if b then Some (a, s) else None.

(** [is >> i] for an [int]: a number out of range sets [failbit]. *)
Definition read_int : Rd Z := z ← read_Z; rd_when (bool_decide (INT_MIN <= z <= INT_MAX)) z.

(** [is >> n] for a [size_t]: a minus sign negates modulo 2^64. *)
Definition read_size_t : Rd Z := z ← read_Z; rd_when (Z.abs z <? 2 ^ 64) (z mod 2 ^ 64).

(** [is >> b] for a [bool]: 0 or 1. *)
Definition read_bool : Rd bool := z ← read_Z; rd_when (bool_decide (z = 0 ∨ z = 1)) (z =? 1).

(** [is >> e] for an enum ([defs.h]): reads an [int]; a number that is no enumerator is
    kept apart as a failure. *)
Definition rd_option {A} (o : option A) : Rd A := λ s, match o with Some a => Some (a, s) | None => None end.
Definition read_coltype : Rd ColType := z ← read_int; rd_option (int_to_coltype z).

(** [os << b] for a [bool]. *)
Definition show_bool (b : bool) : string := if b then "1" else "0".

(** ** What they read back *)

Fixpoint no_space (s : string) : Prop :=
  match s with String c s' => is_space c = false ∧ no_space s' | EmptyString => True end.

(** A word as [operator>>] can read it back. *)
Definition is_word (s : string) : Prop := s ≠ "" ∧ no_space s.

#[global] Instance no_space_dec s : Decision (no_space s).
Proof. induction s; simpl; apply _. Defined.

(** The text ends or goes on with white space. *)
Definition at_ws (s : string) : Prop := match s with String c _ => is_space c = true | EmptyString => True end.

Lemma span_word_app w r : no_space w → at_ws r → span_word (w +:+ r) = (w, r).
Proof.
  induction w as [|c w IH]; simpl.
  - destruct r as [|c r]; simpl; [done|]. by intros _ ->.
  - intros [-> Hw] Hr. by rewrite IH.
Qed.

Lemma skip_ws_word w r : is_word w → skip_ws (w +:+ r) = w +:+ r.
Proof. destruct w as [|c w]; intros [Hne Hw]; [done|]. simpl in *. by destruct Hw as [-> _]. Qed.

Lemma read_string_word w r : is_word w → at_ws r → read_string (w +:+ r) = Some (w, r).
Proof.
  intros Hw Hr. unfold read_string. rewrite skip_ws_word by done. destruct Hw as [Hne Hw].
  rewrite span_word_app by done. by destruct w.
Qed.

(** Reading is not sensitive to white space in front. *)
Lemma read_string_ws c s : is_space c = true → read_string (String c s) = read_string s.
Proof. intros H. unfold read_string. simpl. by rewrite H. Qed.

Lemma read_Z_ws c s : is_space c = true → read_Z (String c s) = read_Z s.
Proof. intros H. unfold read_Z. simpl. by rewrite H. Qed.

Lemma digit_val_pretty x : (x < 10)%N → digit_val (pretty_N_char x) = Some (Z.of_N x).
Proof.
  intros H. assert (Hx : x ∈ (N.of_nat <$> seq 0 10)).
  { apply list_elem_of_fmap. exists (N.to_nat x). split; [lia|]. apply elem_of_seq. lia. }
  simpl in Hx. repeat (apply elem_of_cons in Hx as [->|Hx]; [reflexivity|]). by apply not_elem_of_nil in Hx.
Qed.

Lemma span_digits_pretty_N_go x s :
  span_digits 0 (pretty_N_go x s) = span_digits (Z.of_N x) s.
Proof.
  revert s. induction (N.lt_wf_0 x) as [x _ IH]. intros s.
  destruct (decide (x = 0)%N) as [->|Hx]; [by rewrite pretty_N_go_0|].
  rewrite pretty_N_go_step by lia. rewrite IH by (apply N.div_lt; lia). simpl.
  rewrite digit_val_pretty by (apply N.mod_lt; lia). f_equal.
  rewrite N2Z.inj_div, N2Z.inj_mod. pose proof (Z.div_mod (Z.of_N x) (Z.of_N 10)). lia.
Qed.

Lemma pretty_N_go_app x s r : pretty_N_go x s +:+ r = pretty_N_go x (s +:+ r).
Proof.
  revert s. induction (N.lt_wf_0 x) as [x _ IH]. intros s.
  destruct (decide (x = 0)%N) as [->|Hx]; [by rewrite !pretty_N_go_0|].
  rewrite !(pretty_N_go_step x) by lia. by rewrite IH by (apply N.div_lt; lia).
Qed.

(** A positive number starts with a digit. *)
Lemma pretty_N_go_starts x s : (0 < x)%N → starts_digit (pretty_N_go x s) = true.
Proof.
  revert s. induction (N.lt_wf_0 x) as [x _ IH]. intros s Hx. rewrite pretty_N_go_step by done.
  destruct (decide (x `div` 10 = 0)%N) as [->|Hd].
  - rewrite pretty_N_go_0. apply bool_decide_eq_true_2. rewrite digit_val_pretty by (apply N.mod_lt; lia). eauto.
  - apply IH; [apply N.div_lt; lia|by apply N.neq_0_lt_0].
Qed.

Lemma pretty_N_app x r :
  starts_digit (pretty x +:+ r) = true ∧ span_digits 0 (pretty x +:+ r) = span_digits (Z.of_N x) r.
Proof.
  unfold pretty, pretty_N. case_decide as Hx; [by subst|].
  rewrite pretty_N_go_app. split; [apply pretty_N_go_starts; lia|apply span_digits_pretty_N_go].
Qed.

Lemma digit_not_special c : is_Some (digit_val c) → is_space c = false ∧ c ≠ "-"%char ∧ c ≠ "+"%char.
Proof.
  unfold digit_val, is_space. case_match eqn:E; [|by intros []]. intros _.
  apply andb_true_iff in E as [?%Z.leb_le ?%Z.leb_le]. split_and!.
  - apply orb_false_iff. rewrite N.eqb_neq, andb_false_iff, !N.leb_gt. lia.
  - intros ->. simpl in *. lia.
  - intros ->. simpl in *. lia.
Qed.

Lemma starts_digit_inv s : starts_digit s = true → ∃ c s', s = String c s' ∧ is_Some (digit_val c).
Proof. destruct s as [|c s]; [done|]. intros H%bool_decide_eq_true. eauto. Qed.

Lemma span_digits_at_ws n r : at_ws r → span_digits n r = (n, r).
Proof.
  destruct r as [|c r]; simpl; [done|]. intros Hc. case_match eqn:E; [|done].
  apply mk_is_Some, digit_not_special in E. naive_solver congruence.
Qed.

Lemma read_Z_pretty z r : at_ws r → read_Z (pretty z +:+ r) = Some (z, r).
Proof.
  intros Hr. destruct z as [|x|x].
  - by unfold read_Z; simpl; rewrite span_digits_at_ws.
  - destruct (pretty_N_app (N.pos x) r) as [Hs Hd]. unfold read_Z.
    destruct (starts_digit_inv _ Hs) as (c&s'&Hcs&(Hsp&Hm&Hp)%digit_not_special).
    change (pretty (Z.pos x)) with (pretty (N.pos x)). rewrite Hcs in *. cbn [skip_ws].
    rewrite Hsp, !decide_False, Hs, Hd by done. by rewrite span_digits_at_ws.
  - destruct (pretty_N_app (N.pos x) r) as [Hs Hd].
    change (read_Z (pretty (Z.neg x) +:+ r)) with
      (if starts_digit (pretty (N.pos x) +:+ r)
       then let '(n, r') := span_digits 0 (pretty (N.pos x) +:+ r) in Some (- n, r') else None).
    rewrite Hs, Hd. by rewrite span_digits_at_ws.
Qed.

Lemma read_int_pretty z r : is_int32 z → at_ws r → read_int (to_string z +:+ r) = Some (z, r).
Proof.
  intros Hz Hr. unfold read_int, to_string, mbind, Rd_bind. rewrite read_Z_pretty by done.
  unfold rd_when. by rewrite bool_decide_true.
Qed.

Lemma read_size_t_pretty z r : 0 <= z < 2 ^ 64 → at_ws r → read_size_t (to_string z +:+ r) = Some (z, r).
Proof.
  intros Hz Hr. unfold read_size_t, to_string, mbind, Rd_bind. rewrite read_Z_pretty by done.
  unfold rd_when. rewrite (proj2 (Z.ltb_lt _ _)) by lia. by rewrite Z.mod_small.
Qed.

Lemma read_bool_show b r : at_ws r → read_bool (show_bool b +:+ r) = Some (b, r).
Proof.
  intros Hr. replace (show_bool b) with (pretty (Z.b2z b)) by by destruct b.
  unfold read_bool, mbind, Rd_bind. rewrite read_Z_pretty by done. by destruct b.
Qed.

Lemma read_coltype_show t r : at_ws r → read_coltype (to_string (coltype_to_int t) +:+ r) = Some (t, r).
Proof.
  intros Hr. unfold read_coltype, mbind, Rd_bind.
  rewrite read_int_pretty by (done || (destruct t; vm_compute; split; discriminate)). by destruct t.
Qed.

(** Numbers skip white space as words do. *)
Lemma read_int_ws c s : is_space c = true → read_int (String c s) = read_int s.
Proof. intros H. unfold read_int, mbind, Rd_bind. by rewrite read_Z_ws. Qed.
Lemma read_size_t_ws c s : is_space c = true → read_size_t (String c s) = read_size_t s.
Proof. intros H. unfold read_size_t, mbind, Rd_bind. by rewrite read_Z_ws. Qed.
Lemma read_bool_ws c s : is_space c = true → read_bool (String c s) = read_bool s.
Proof. intros H. unfold read_bool, mbind, Rd_bind. by rewrite read_Z_ws. Qed.
Lemma read_coltype_ws c s : is_space c = true → read_coltype (String c s) = read_coltype s.
Proof. intros H. unfold read_coltype, mbind, Rd_bind. by rewrite read_int_ws. Qed.

(** ** Texts and their readers *)

Lemma string_app_assoc (x y z : string) : (x +:+ y) +:+ z = x +:+ y +:+ z.
Proof. induction x as [|c x IH]; [done|]. exact (f_equal (String c) IH). Qed.
Lemma string_app_nil (x : string) : x +:+ "" = x.
Proof. induction x as [|c x IH]; [done|]. exact (f_equal (String c) IH). Qed.

(** The newline the code writes, as character or string. *)
Definition nl : string := String "010" "".

Lemma nl_app t : nl +:+ t = String "010" t.
Proof. reflexivity. Qed.

(** [for (auto &x : l) os << f(x);]. *)
Fixpoint write_all {A} (f : A → string) (l : list A) : string :=
  match l with
  | [] => ""
  | x :: l' => f x +:+ write_all f l'
  end.

(** [for (i = 0; i < n; i++) { T x; is >> x; v.push_back(x); }]. *)
Fixpoint read_n {A} (n : nat) (rd : Rd A) : Rd (list A) :=
  match n with
  | O => mret []
  | S n' => x ← rd; l ← read_n n' rd; mret (x :: l)
  end.

(** Reading with [rd] consumes exactly [txt] and gives [a]. *)
Definition follows {A} (rd : Rd A) (txt : string) (a : A) : Prop :=
  ∀ r, at_ws r → rd (txt +:+ r) = Some (a, r).

Lemma at_ws_app x r : at_ws x → at_ws r → at_ws (x +:+ r).
Proof. by destruct x. Qed.

Lemma follows_ret {A} (a : A) : follows (mret a) "" a.
Proof. by intros r. Qed.

Lemma follows_bind {A B} (m : Rd A) (k : A → Rd B) t1 t2 a b :
  follows m t1 a → follows (k a) t2 b → at_ws t2 → follows (m ≫= k) (t1 +:+ t2) b.
Proof.
  intros H1 H2 Hw r Hr. unfold mbind, Rd_bind. rewrite string_app_assoc.
  rewrite H1 by by apply at_ws_app. by apply H2.
Qed.

Lemma follows_last {A B} (m : Rd A) (f : A → B) t a : follows m t a → follows (x ← m; mret (f x)) t (f a).
Proof. intros H r Hr. unfold mbind, Rd_bind. by rewrite H. Qed.

(** White space in front of a text. *)
Definition skips {A} (rd : Rd A) : Prop := ∀ c s, is_space c = true → rd (String c s) = rd s.

Lemma skips_bind {A B} (m : Rd A) (k : A → Rd B) : skips m → skips (m ≫= k).
Proof. intros H c s Hc. unfold mbind, Rd_bind. by rewrite H. Qed.

Fixpoint all_space (s : string) : Prop :=
  match s with String c s' => is_space c = true ∧ all_space s' | EmptyString => True end.

Lemma skips_all {A} (rd : Rd A) ws s : skips rd → all_space ws → rd (ws +:+ s) = rd s.
Proof.
  intros Hs. induction ws as [|c ws IH]; [done|]. intros [Hc Hw].
  change (String c ws +:+ s) with (String c (ws +:+ s)). rewrite Hs by done. auto.
Qed.

Lemma follows_ws {A} (rd : Rd A) ws t a : skips rd → all_space ws → follows rd t a → follows rd (ws +:+ t) a.
Proof. intros Hs Hw H r Hr. rewrite string_app_assoc, skips_all by done. by apply H. Qed.

Lemma follows_string w : is_word w → follows read_string w w.
Proof. intros Hw r. by apply read_string_word. Qed.
Lemma follows_int z : is_int32 z → follows read_int (to_string z) z.
Proof. intros Hw r. by apply read_int_pretty. Qed.
Lemma follows_size_t z : 0 <= z < 2 ^ 64 → follows read_size_t (to_string z) z.
Proof. intros Hw r. by apply read_size_t_pretty. Qed.
Lemma follows_bool b : follows read_bool (show_bool b) b.
Proof. intros r. by apply read_bool_show. Qed.
Lemma follows_coltype t : follows read_coltype (to_string (coltype_to_int t)) t.
Proof. intros r. by apply read_coltype_show. Qed.

(** A loop over texts that each start with white space. *)
Lemma follows_n {A} (rd : Rd A) (f : A → string) l :
  (∀ x, x ∈ l → follows rd (f x) x) → (∀ x, at_ws (f x)) → follows (read_n (length l) rd) (write_all f l) l.
Proof.
  intros Hf Hw. induction l as [|x l IH]; simpl; [apply follows_ret|].
  apply (follows_bind _ _ _ _ x); [apply Hf; left| |].
  - rewrite <- (string_app_nil (write_all f l)).
    apply (follows_bind _ _ _ _ l); [|apply follows_ret|done]. apply IH. intros y Hy. apply Hf. by right.
  - destruct l; simpl; [done|]. apply at_ws_app; [done|]. clear -Hw. induction l; simpl; [done|by apply at_ws_app].
Qed.

Lemma at_ws_write_all {A} (f : A → string) l : (∀ x, at_ws (f x)) → at_ws (write_all f l).
Proof. intros Hw. induction l; simpl; [done|by apply at_ws_app]. Qed.

Create HintDb text.
#[export] Hint Resolve follows_string follows_int follows_size_t follows_bool follows_coltype : text.
#[export] Hint Resolve read_string_ws read_int_ws read_size_t_ws read_bool_ws read_coltype_ws : text.
