(* ===== verification/Log.v ===== *)
(** * Log records

    [recovery/log_defs.h] and [recovery/log_manager.{h,cpp}]: the record types, their
    serialized form and the log buffer.  A [char *] destination or source is a buffer
    with the offset [base] the pointer stands for.  A [char *] is printed with [%s]: up to the first
    NUL, and out of the array when there is none ([None]).  The bodies of
    [LogManager::add_log_to_buffer] and [flush_log_to_disk] are empty in the code. *)

From S2P Require Import Prelude Errors Config RecordFile StrMap Values Text.
From stdpp Require Import options.

(** ** log_defs.h *)

Definition OFFSET_LOG_TYPE : Z := 0.
Definition OFFSET_LOG_LSN : Z := 4.
Definition OFFSET_LOG_TOT_LEN : Z := OFFSET_LOG_LSN + 4.
Definition OFFSET_LOG_TID : Z := OFFSET_LOG_TOT_LEN + 4.
Definition OFFSET_PREV_LSN : Z := OFFSET_LOG_TID + 4.
Definition OFFSET_LOG_DATA : Z := OFFSET_PREV_LSN + 4.
Definition LOG_HEADER_SIZE : Z := OFFSET_LOG_DATA.

(** ** LogRecord

    [LogType] has the underlying type [int], so the member is an [int]. *)

Inductive LogType := UPDATE | INSERT | DELETE | begin | commit | ABORT.

Definition LogType_val (t : LogType) : Z :=
  match t with UPDATE => 0 | INSERT => 1 | DELETE => 2 | begin => 3 | commit => 4 | ABORT => 5 end.

Definition LogTypeStr (t : LogType) : string :=
  match t with
  | UPDATE => "UPDATE" | INSERT => "INSERT" | DELETE => "DELETE"
  | begin => "BEGIN" | commit => "COMMIT" | ABORT => "ABORT"
  end.

Record LogRecord := mkLogRecord {
  log_type_ : Z;
  lsn_ : Z;
  log_tot_len_ : Z;
  log_tid_ : Z;
  prev_lsn_ : Z;
}.

Definition LogRecord_serialize (r : LogRecord) (dest : list byte) (base : Z) : option (list byte) :=
  dest ← mwrite dest (base + OFFSET_LOG_TYPE) (int_bytes (log_type_ r));
  dest ← mwrite dest (base + OFFSET_LOG_LSN) (int_bytes (lsn_ r));
  dest ← mwrite dest (base + OFFSET_LOG_TOT_LEN) (uint32_bytes (log_tot_len_ r));
  dest ← mwrite dest (base + OFFSET_LOG_TID) (int_bytes (log_tid_ r));
  mwrite dest (base + OFFSET_PREV_LSN) (int_bytes (prev_lsn_ r)).

Definition LogRecord_deserialize (src : list byte) (base : Z) : option LogRecord :=
  t ← mread src (base + OFFSET_LOG_TYPE) 4;
  l ← mread src (base + OFFSET_LOG_LSN) 4;
  n ← mread src (base + OFFSET_LOG_TOT_LEN) 4;
  i ← mread src (base + OFFSET_LOG_TID) 4;
  p ← mread src (base + OFFSET_PREV_LSN) 4;
  Some (mkLogRecord (bytes_int t) (bytes_int l) (bytes_uint32 n) (bytes_int i) (bytes_int p)).

(** [BeginLogRecord(txn_id)]; its two methods are those of [LogRecord]. *)
Definition BeginLogRecord (txn_id : Z) : LogRecord :=
  mkLogRecord (LogType_val begin) INVALID_LSN LOG_HEADER_SIZE txn_id INVALID_LSN.

(** ** InsertLogRecord *)

Record InsertLogRecord := mkInsertLog {
  ins_base : LogRecord;
  insert_value_ : RmRecord;
  rid_ : Rid;
  table_name_ : list byte;
  table_name_size_ : Z;
}.

Definition wrap_u32 (z : Z) : Z := z mod 2 ^ 32.

(** The constructor: the lengths are added up in a [uint32_t]. *)
Definition InsertLogRecord_make (txn_id : Z) (insert_value : RmRecord) (rid : Rid) (table_name : list byte)
    : option InsertLogRecord :=
  v ← RmRecord_copy insert_value;
  let len := wrap_u32 (LOG_HEADER_SIZE + 4) in
  let len := wrap_u32 (len + rec_size v) in
  let len := wrap_u32 (len + 8) in
  let n := Z.of_nat (length table_name) in
  let len := wrap_u32 (len + (8 + n)) in
  Some (mkInsertLog (mkLogRecord (LogType_val INSERT) INVALID_LSN len txn_id INVALID_LSN) v rid table_name n).

Definition Rid_bytes (r : Rid) : list byte := int_bytes (page_no r) ++ int_bytes (slot_no r).
Definition bytes_Rid (bs : list byte) : Rid := mkRid (bytes_int (take 4 bs)) (bytes_int (drop 4 bs)).

Definition InsertLogRecord_serialize (r : InsertLogRecord) (dest : list byte) (base : Z) : option (list byte) :=
  dest ← LogRecord_serialize (ins_base r) dest base;
  let offset := OFFSET_LOG_DATA in
  dest ← mwrite dest (base + offset) (int_bytes (rec_size (insert_value_ r)));
  let offset := offset + 4 in
  v ← mread (rec_data (insert_value_ r)) 0 (rec_size (insert_value_ r));
  dest ← mwrite dest (base + offset) v;
  let offset := offset + rec_size (insert_value_ r) in
  dest ← mwrite dest (base + offset) (Rid_bytes (rid_ r));
  let offset := offset + 8 in
  dest ← mwrite dest (base + offset) (size_t_bytes (table_name_size_ r));
  let offset := offset + 8 in
  name ← mread (table_name_ r) 0 (table_name_size_ r);
  mwrite dest (base + offset) name.

(** [deserialize] into a record whose old value is [old]. *)
Definition InsertLogRecord_deserialize (src : list byte) (base : Z) (old : RmRecord) : option InsertLogRecord :=
  h ← LogRecord_deserialize src base;
  sz ← mread src (base + OFFSET_LOG_DATA) 4;
  d ← mread src (base + OFFSET_LOG_DATA) (4 + bytes_int sz);
  v ← RmRecord_Deserialize d old;
  let offset := OFFSET_LOG_DATA + rec_size v + 4 in
  r ← mread src (base + offset) 8;
  let offset := offset + 8 in
  n ← mread src (base + offset) 8;
  let offset := offset + 8 in
  name ← mread src (base + offset) (bytes_size_t n);
  Some (mkInsertLog h v (bytes_Rid r) name (bytes_size_t n)).

(** ** LogBuffer and LogManager *)

Record LogBuffer := mkLogBuffer { buffer_ : list byte; offset_ : Z }.

Definition LogBuffer_init : LogBuffer := mkLogBuffer (zeros (LOG_BUFFER_SIZE + 1)) 0.

Definition is_full (append_size : Z) (b : LogBuffer) : bool := offset_ b + append_size >? LOG_BUFFER_SIZE.

(** [persist_lsn_] is not initialised by the code and never read. *)
Record LogManager := mkLogManager { global_lsn_ : Z; log_buffer_ : LogBuffer }.

Definition LogManager_init : LogManager := mkLogManager 0 LogBuffer_init.

Definition flush_log_to_disk (m : LogManager) : LogManager := m.

(** ** format_print *)

(** [LogTypeStr[log_type_]]. *)
Definition log_type_text (t : Z) : option string :=
  if t <? 0 then None else LogTypeStr <$> [UPDATE; INSERT; DELETE; begin; commit; ABORT] !! Z.to_nat t.

(** A [char *] printed with [%s]. *)
Definition percent_s (bs : list byte) : option string :=
  if decide (x00 ∈ bs) then Some (String.string_of_list_byte (c_str bs)) else None.

(** [%d] of an [unsigned] is that of the [int] with the same bits. *)
Definition LogRecord_format_print (r : LogRecord) : option string :=
  t ← log_type_text (log_type_ r);
  Some ("log type in father_function: " +:+ t +:+ nl +:+
    "Print Log Record:" +:+ nl +:+ "log_type_: " +:+ t +:+ nl +:+ "lsn: " +:+ to_string (lsn_ r) +:+ nl +:+
    "log_tot_len: " +:+ to_string (wrap32 (log_tot_len_ r)) +:+ nl +:+ "log_tid: " +:+ to_string (log_tid_ r) +:+ nl +:+
    "prev_lsn: " +:+ to_string (prev_lsn_ r) +:+ nl).

Definition BeginLogRecord_format_print (r : LogRecord) : option string :=
  t ← log_type_text (log_type_ r); x ← LogRecord_format_print r;
  Some ("log type in son_function: " +:+ t +:+ nl +:+ x).

Definition InsertLogRecord_format_print (r : InsertLogRecord) : option string :=
  x ← LogRecord_format_print (ins_base r); v ← percent_s (rec_data (insert_value_ r)); t ← percent_s (table_name_ r);
  Some ("insert record" +:+ nl +:+ x +:+ "insert_value: " +:+ v +:+ nl +:+
    "insert rid: " +:+ to_string (page_no (rid_ r)) +:+ ", " +:+ to_string (slot_no (rid_ r)) +:+ nl +:+
    "table name: " +:+ t +:+ nl).

(** [add_log_to_buffer] has no return statement: what a call does is undefined. *)
Definition add_log_to_buffer (r : LogRecord) (m : LogManager) : option (Z * LogManager) := None.

(** ** Consecutive writes and reads *)

Lemma mwrite_app buf off a c buf1 :
  mwrite buf off a = Some buf1 → mwrite buf1 (off + Z.of_nat (length a)) c = mwrite buf off (a ++ c).
Proof.
  intros Ha. pose proof (mwrite_length _ _ _ _ Ha) as Hl.
  destruct (mwrite buf off (a ++ c)) as [b2|] eqn:E2.
  - pose proof E2 as (H0&H1&_)%mwrite_Some. rewrite length_app in H1.
    destruct (mwrite_is_Some buf1 (off + Z.of_nat (length a)) c) as [b3 E3]; [lia|lia|].
    rewrite E3. f_equal. apply list_eq. intros i.
    rewrite (mwrite_lookup _ _ _ _ _ E3), (mwrite_lookup _ _ _ _ _ Ha), (mwrite_lookup _ _ _ _ _ E2), length_app.
    repeat case_decide; try lia; [|..].
    + rewrite lookup_app_r by lia. f_equal. lia.
    + by rewrite lookup_app_l by lia.
    + done.
  - apply mwrite_Some in Ha as (?&?&_). unfold mwrite in *. case_decide; [done|].
    rewrite length_app in *. rewrite decide_False; [done|lia].
Qed.

Lemma mwrite_app_fail buf off a c :
  0 <= off → mwrite buf off a = None → mwrite buf off (a ++ c) = None.
Proof. intros H. unfold mwrite. rewrite length_app. repeat case_decide; try done. lia. Qed.

(** Two writes in a row are one write. *)
Lemma mwrite_then buf off a c :
  0 <= off → (mwrite buf off a ≫= λ b, mwrite b (off + Z.of_nat (length a)) c) = mwrite buf off (a ++ c).
Proof.
  intros H. destruct (mwrite buf off a) as [b|] eqn:E; simpl; [by apply mwrite_app|].
  by rewrite mwrite_app_fail.
Qed.

(** Reading a field of bytes known to be there. *)
Lemma mread_front src off a c :
  mread src off (Z.of_nat (length (a ++ c))) = Some (a ++ c) →
  mread src off (Z.of_nat (length a)) = Some a ∧
  mread src (off + Z.of_nat (length a)) (Z.of_nat (length c)) = Some c.
Proof.
  rewrite length_app, Nat2Z.inj_add. intros H. apply mread_split in H as [H1 H2]; [|lia|lia].
  rewrite Nat2Z.id in H1, H2. rewrite take_app_length in H1. rewrite drop_app_length in H2. done.
Qed.

(** ** The bytes of a record *)

Definition LogRecord_bytes (r : LogRecord) : list byte :=
  int_bytes (log_type_ r) ++ int_bytes (lsn_ r) ++ uint32_bytes (log_tot_len_ r) ++
  int_bytes (log_tid_ r) ++ int_bytes (prev_lsn_ r).

Definition InsertLogRecord_bytes (r : InsertLogRecord) : list byte :=
  LogRecord_bytes (ins_base r) ++ int_bytes (rec_size (insert_value_ r)) ++ rec_data (insert_value_ r) ++
  Rid_bytes (rid_ r) ++ size_t_bytes (table_name_size_ r) ++ table_name_ r.

(** The members have values of their types. *)
Definition LogRecord_ok (r : LogRecord) : Prop :=
  is_int32 (log_type_ r) ∧ is_int32 (lsn_ r) ∧ 0 <= log_tot_len_ r < 2 ^ 32 ∧
  is_int32 (log_tid_ r) ∧ is_int32 (prev_lsn_ r).

Definition InsertLogRecord_ok (r : InsertLogRecord) : Prop :=
  LogRecord_ok (ins_base r) ∧
  rec_size (insert_value_ r) = Z.of_nat (length (rec_data (insert_value_ r))) ∧
  is_int32 (rec_size (insert_value_ r)) ∧ is_int32 (page_no (rid_ r)) ∧ is_int32 (slot_no (rid_ r)) ∧
  table_name_size_ r = Z.of_nat (length (table_name_ r)) ∧ table_name_size_ r < 2 ^ 64.

Lemma length_int_bytes z : length (int_bytes z) = 4%nat.
Proof. reflexivity. Qed.
Lemma length_size_t_bytes z : length (size_t_bytes z) = 8%nat.
Proof. reflexivity. Qed.
Lemma length_Rid_bytes r : length (Rid_bytes r) = 8%nat.
Proof. reflexivity. Qed.
Lemma length_LogRecord_bytes r : length (LogRecord_bytes r) = 20%nat.
Proof. reflexivity. Qed.

(** Five writes at consecutive offsets. *)
Lemma LogRecord_serialize_bytes r dest base :
  0 <= base → LogRecord_serialize r dest base = mwrite dest base (LogRecord_bytes r).
Proof.
  intros Hb. unfold LogRecord_bytes. rewrite !app_assoc.
  rewrite <- !mwrite_then by done. unfold LogRecord_serialize, OFFSET_LOG_TYPE. rewrite Z.add_0_r.
  destruct (mwrite dest base (int_bytes (log_type_ r))) as [b1|]; [|done]. simpl.
  destruct (mwrite b1 _ _) as [b2|]; [|done]. simpl.
  destruct (mwrite b2 _ _) as [b3|]; [|done]. simpl.
  destruct (mwrite b3 _ _) as [b4|]; done.
Qed.

Lemma LogRecord_deserialize_bytes r src base :
  LogRecord_ok r → mread src base (Z.of_nat (length (LogRecord_bytes r))) = Some (LogRecord_bytes r) →
  LogRecord_deserialize src base = Some r.
Proof.
  intros (H1&H2&H3&H4&H5) Hr. unfold LogRecord_bytes in Hr.
  apply (mread_front src base (int_bytes (log_type_ r))) in Hr as [R1 Hr].
  apply mread_front in Hr as [R2 Hr]. apply mread_front in Hr as [R3 Hr]. apply mread_front in Hr as [R4 R5].
  unfold LogRecord_deserialize, OFFSET_PREV_LSN, OFFSET_LOG_TID, OFFSET_LOG_TOT_LEN, OFFSET_LOG_LSN, OFFSET_LOG_TYPE.
  change (Z.of_nat (length (int_bytes _))) with 4 in *. change (Z.of_nat (length (uint32_bytes _))) with 4 in *.
  rewrite !Z.add_assoc, Z.add_0_r, R1, R2, R3, R4, R5. cbn [mbind option_bind].
  rewrite !bytes_int_bytes, bytes_uint32_bytes by done. by destruct r.
Qed.

Lemma InsertLogRecord_serialize_bytes r dest base :
  0 <= base → InsertLogRecord_ok r →
  InsertLogRecord_serialize r dest base = mwrite dest base (InsertLogRecord_bytes r).
Proof.
  intros Hb (_&Hsz&_&_&_&Hn&_). unfold InsertLogRecord_bytes. rewrite !app_assoc.
  rewrite <- !mwrite_then by done. unfold InsertLogRecord_serialize.
  rewrite LogRecord_serialize_bytes by done. rewrite Hsz, mread_all, Hn, mread_all.
  destruct (mwrite dest base (LogRecord_bytes (ins_base r))) as [b1|]; [|done]. cbn [mbind option_bind].
  rewrite !length_app, !Nat2Z.inj_add, length_LogRecord_bytes, !length_int_bytes, length_Rid_bytes,
    length_size_t_bytes, !Z.add_assoc.
  change (Z.of_nat 20) with OFFSET_LOG_DATA. change (Z.of_nat 4) with 4. change (Z.of_nat 8) with 8.
  destruct (mwrite b1 _ _) as [b2|]; [|done]. cbn [mbind option_bind].
  destruct (mwrite b2 _ _) as [b3|]; [|done]. cbn [mbind option_bind].
  destruct (mwrite b3 _ _) as [b4|]; [|done]. cbn [mbind option_bind].
  by destruct (mwrite b4 _ _) as [b5|].
Qed.

Lemma bytes_Rid_bytes r : is_int32 (page_no r) → is_int32 (slot_no r) → bytes_Rid (Rid_bytes r) = r.
Proof.
  intros H1 H2. unfold bytes_Rid.
  change (take 4 (Rid_bytes r)) with (int_bytes (page_no r)).
  change (drop 4 (Rid_bytes r)) with (int_bytes (slot_no r)).
  rewrite !bytes_int_bytes by done. by destruct r.
Qed.

(** The record with its length prefix. *)
Lemma RmRecord_Deserialize_bytes sz d old :
  is_int32 sz → sz = Z.of_nat (length d) →
  RmRecord_Deserialize (int_bytes sz ++ d) old = Some (mkRmRecord d sz (allocated_ old)).
Proof.
  intros Hi Hsz. destruct (mread_front (int_bytes sz ++ d) 0 (int_bytes sz) d (mread_all _)) as [H1 H2].
  rewrite length_int_bytes in H1, H2. rewrite Z.add_0_l in H2. change (Z.of_nat 4) with 4 in *.
  rewrite <- Hsz in H2.
  unfold RmRecord_Deserialize. rewrite H1. cbn [mbind option_bind]. rewrite bytes_int_bytes by done.
  by rewrite H2.
Qed.

(** The record with another flag for its value: whether the destructor frees the bytes. *)
Definition with_allocated (b : bool) (r : InsertLogRecord) : InsertLogRecord :=
  let v := insert_value_ r in
  mkInsertLog (ins_base r) (mkRmRecord (rec_data v) (rec_size v) b) (rid_ r) (table_name_ r) (table_name_size_ r).

Lemma with_allocated_id b r : allocated_ (insert_value_ r) = b → with_allocated b r = r.
Proof. intros <-. by destruct r as [? [] ? ? ?]. Qed.

Lemma InsertLogRecord_deserialize_bytes r src base old :
  InsertLogRecord_ok r →
  mread src base (Z.of_nat (length (InsertLogRecord_bytes r))) = Some (InsertLogRecord_bytes r) →
  InsertLogRecord_deserialize src base old = Some (with_allocated (allocated_ old) r).
Proof.
  intros (Hh&Hsz&Hsi&Hp&Hs&Hn&Hn64) Hr. unfold InsertLogRecord_bytes in Hr.
  apply mread_front in Hr as [R1 Hr].
  assert (Rsz := Hr). apply mread_front in Rsz as [Rsz _].
  rewrite (app_assoc (int_bytes _)) in Hr. apply mread_front in Hr as [Rv Hr].
  apply mread_front in Hr as [Rr Hr]. apply mread_front in Hr as [Rn Rt].
  unfold InsertLogRecord_deserialize. rewrite (LogRecord_deserialize_bytes _ _ _ Hh R1). cbn [mbind option_bind].
  rewrite length_LogRecord_bytes, ?length_int_bytes, ?length_size_t_bytes, ?length_Rid_bytes, ?length_app,
    ?Nat2Z.inj_add, ?length_int_bytes in *.
  change (Z.of_nat 20) with OFFSET_LOG_DATA in *. change (Z.of_nat 4) with 4 in *. change (Z.of_nat 8) with 8 in *.
  rewrite Rsz. cbn [mbind option_bind]. rewrite bytes_int_bytes by done. rewrite <- Hsz in *. rewrite Rv.
  cbn [mbind option_bind]. rewrite RmRecord_Deserialize_bytes by done. cbn [mbind option_bind rec_size].
  rewrite !Z.add_assoc in *.
  replace (base + OFFSET_LOG_DATA + rec_size (insert_value_ r) + 4)
    with (base + OFFSET_LOG_DATA + 4 + rec_size (insert_value_ r)) by lia.
  rewrite Rr. cbn [mbind option_bind]. rewrite Rn. cbn [mbind option_bind].
  rewrite bytes_size_t_bytes by lia. rewrite <- Hn in Rt. rewrite Rt. cbn [mbind option_bind].
  rewrite bytes_Rid_bytes by done. by destruct r as [? [] ? ? ?].
Qed.

Lemma length_InsertLogRecord_bytes r :
  length (InsertLogRecord_bytes r) =
    (40 + length (rec_data (insert_value_ r)) + length (table_name_ r))%nat.
Proof.
  destruct r as [h [d sz al] rid name n]. unfold InsertLogRecord_bytes.
  cbn [ins_base insert_value_ rec_data rec_size table_name_ table_name_size_ rid_].
  generalize (length_LogRecord_bytes h), (length_int_bytes sz), (length_Rid_bytes rid), (length_size_t_bytes n).
  generalize (LogRecord_bytes h), (int_bytes sz), (Rid_bytes rid), (size_t_bytes n).
  intros a b c e Ha Hb Hc He. rewrite !length_app. lia.
Qed.

Lemma InsertLogRecord_make_ok txn_id v rid name r :
  InsertLogRecord_make txn_id v rid name = Some r →
  is_int32 txn_id → is_int32 (page_no rid) → is_int32 (slot_no rid) → 0 <= rec_size v →
  rec_size v + Z.of_nat (length name) < 2 ^ 31 - 40 →
  InsertLogRecord_ok r ∧ allocated_ (insert_value_ r) = true ∧
  log_tot_len_ (ins_base r) = Z.of_nat (length (InsertLogRecord_bytes r)).
Proof.
  intros Hm Ht Hp Hs Hsz Hlen. unfold InsertLogRecord_make, RmRecord_copy, RmRecord_make in Hm.
  destruct (mread (rec_data v) 0 (rec_size v)) as [d|] eqn:Ed; [|done].
  cbn [fmap option_fmap option_map mbind option_bind rec_size] in Hm. injection Hm as <-.
  pose proof (mread_length _ _ _ _ Ed) as Hd.
  assert (Hu : ∀ z, 0 <= z < 2 ^ 32 → wrap_u32 z = z) by (intros; by apply Z.mod_small).
  unfold OFFSET_LOG_DATA, LOG_HEADER_SIZE, OFFSET_LOG_DATA, OFFSET_PREV_LSN, OFFSET_LOG_TID, OFFSET_LOG_TOT_LEN,
    OFFSET_LOG_LSN.
  assert (Hadd : ∀ a b, wrap_u32 (wrap_u32 a + b) = wrap_u32 (a + b)) by (intros; apply Z.add_mod_idemp_l; lia).
  repeat (rewrite Hadd || rewrite <- Z.add_assoc). rewrite Hu by lia. split; [|split; [done|]].
  - unfold InsertLogRecord_ok, LogRecord_ok, is_int32, INT_MIN, INT_MAX, INVALID_LSN in *. simpl. lia.
  - rewrite length_InsertLogRecord_bytes. cbn [log_tot_len_ ins_base insert_value_ rec_data table_name_]. lia.
Qed.

(** C32: A log record survives serialization: an [InsertLogRecord] built by the code's
    constructor, written to a buffer with room at [base] and read back from there into a record
    with the value [old], has its header, value, record id and table name unchanged, and so has its header read as a plain
    [LogRecord]; no other byte of the buffer changes, and the record takes exactly the
    [log_tot_len_] bytes its header announces.  The one member that is not read back is the flag
    [allocated_] of the value, which stays as it is in [old]: the record is the same altogether
    when the flag of [old] is set, and differs in the flag when [old] is default-constructed. *)
Theorem log_record_roundtrip txn_id v rid name r dest base old :
  InsertLogRecord_make txn_id v rid name = Some r →
  is_int32 txn_id → is_int32 (page_no rid) → is_int32 (slot_no rid) → 0 <= rec_size v →
  rec_size v + Z.of_nat (length name) < 2 ^ 31 - 40 →
  0 <= base → base + log_tot_len_ (ins_base r) <= Z.of_nat (length dest) →
  ∃ dest', InsertLogRecord_serialize r dest base = Some dest' ∧
    InsertLogRecord_deserialize dest' base old = Some (with_allocated (allocated_ old) r) ∧
    (with_allocated (allocated_ old) r = r ↔ allocated_ old = true) ∧
    LogRecord_deserialize dest' base = Some (ins_base r) ∧ length dest' = length dest ∧
    ∀ i, (i < Z.to_nat base ∨ Z.to_nat (base + log_tot_len_ (ins_base r)) <= i)%nat → dest' !! i = dest !! i.
Proof.
  intros Hm Ht Hp Hs Hsz Hlen Hb Hroom.
  destruct (InsertLogRecord_make_ok _ _ _ _ _ Hm Ht Hp Hs Hsz Hlen) as (Hok&Hal&Htot). rewrite Htot in *.
  destruct (mwrite_is_Some dest base (InsertLogRecord_bytes r) Hb Hroom) as [dest' Hw]. exists dest'.
  pose proof (mread_mwrite_same _ _ _ _ Hw) as Hr. split_and!.
  - by rewrite InsertLogRecord_serialize_bytes.
  - by apply InsertLogRecord_deserialize_bytes.
  - split; [|intros ->; by apply with_allocated_id]. intros E. by rewrite <- Hal, <- E.
  - apply LogRecord_deserialize_bytes; [apply Hok|]. by apply (mread_front _ _ _ _ Hr).
  - by eapply mwrite_length.
  - intros i Hi. rewrite (mwrite_lookup _ _ _ _ _ Hw), decide_False; [done|lia].
Qed.

Definition log_record_example : InsertLogRecord :=
  mkInsertLog (mkLogRecord 1 (-1) 45 7 (-1)) (mkRmRecord [x61; x62; x63] 3 true) (mkRid 1 2) [x74; x31] 2.

(** Read back into a default-constructed record. *)
Lemma log_record_roundtrip_witness :
  ∃ dest', InsertLogRecord_serialize log_record_example (zeros 64) 5 = Some dest' ∧
    InsertLogRecord_deserialize dest' 5 (mkRmRecord [] 0 false) = Some (with_allocated false log_record_example) ∧
    (with_allocated false log_record_example = log_record_example ↔ false = true) ∧
    LogRecord_deserialize dest' 5 = Some (ins_base log_record_example) ∧ length dest' = length (zeros 64) ∧
    ∀ i, (i < Z.to_nat 5 ∨ Z.to_nat (5 + log_tot_len_ (ins_base log_record_example)) <= i)%nat →
      dest' !! i = zeros 64 !! i.
Proof.
  apply (log_record_roundtrip 7 (mkRmRecord [x61; x62; x63] 3 true) (mkRid 1 2) [x74; x31] log_record_example (zeros 64) 5
    (mkRmRecord [] 0 false));
    [reflexivity|vm_compute; split; discriminate|vm_compute; split; discriminate|vm_compute; split; discriminate|
     discriminate|reflexivity|discriminate|vm_compute; discriminate].
Defined.

(** ** What is printed *)

Lemma log_type_text_val t : log_type_text (LogType_val t) = Some (LogTypeStr t).
Proof. by destruct t. Qed.

(** A record of the type [begin] is printed. *)
Example begin_printed : BeginLogRecord_format_print (BeginLogRecord 7) =
  Some ("log type in son_function: BEGIN" +:+ nl +:+ "log type in father_function: BEGIN" +:+ nl +:+ "Print Log Record:" +:+ nl +:+
    "log_type_: BEGIN" +:+ nl +:+ "lsn: -1" +:+ nl +:+ "log_tot_len: 20" +:+ nl +:+ "log_tid: 7" +:+ nl +:+ "prev_lsn: -1" +:+ nl).
Proof. vm_compute. reflexivity. Qed.

(** The constructor copies the name of the table without its NUL, so printing a record it has made
    reads behind the name, whatever the record is. *)
Theorem insert_record_print_overruns txn_id v rid name r :
  x00 ∉ name → InsertLogRecord_make txn_id v rid name = Some r → InsertLogRecord_format_print r = None.
Proof.
  intros Hn Hm. unfold InsertLogRecord_make in Hm. destruct (RmRecord_copy v) as [v'|]; [|done]. simpl in Hm. injection Hm as <-.
  unfold InsertLogRecord_format_print. destruct (LogRecord_format_print _); [|done]. simpl. destruct (percent_s (rec_data v')); [|done]. simpl.
  unfold percent_s. by rewrite decide_False.
Qed.

Lemma insert_record_print_overruns_witness :
  (x00 ∉ [x74; x31]) ∧ ∃ r, InsertLogRecord_make 7 (mkRmRecord [x61; x62; x63; x00] 4 true) (mkRid 1 2) [x74; x31] = Some r ∧
    InsertLogRecord_format_print r = None.
Proof.
  split; [by eapply bool_decide_unpack; vm_compute|]. eexists. split; [vm_compute; reflexivity|].
  eapply (insert_record_print_overruns 7 (mkRmRecord [x61; x62; x63; x00] 4 true) (mkRid 1 2) [x74; x31]);
    [by eapply bool_decide_unpack; vm_compute|vm_compute; reflexivity].
Defined.
