(* ===== verification/StorageTest.v ===== *)
(** * The tests of the disk manager and of the buffer pool

    [test/storage/disk_manager_test.cpp] and, of [test/storage/buffer_pool_manager_test.cpp],
    [SimpleTest] and [LargeScaleTest], run on the model: an [EXPECT_EQ] that fails is a failed
    assertion.  What [rand] returns and the order of an [unordered_map] are parameters. *)

From S2P Require Import Prelude Errors Config Posix DiskManager Replacer BufferPool Bitmap RecordFile RecordManager StrMap Values Text.
From stdpp Require Import options.

(** ** The tests of the disk manager *)

Definition MAX_FILES : nat := 32.
Definition TEST_DB_NAME : string := "DiskManagerTest_db".

Definition test_chdir (p : string) : M Disk unit :=
  let! r := syscall (sys_chdir p) in match r with inl _ => ret tt | inr e => throw (UnixError e) end.

Definition SetUp : M Disk unit :=
  let! b := is_dir TEST_DB_NAME in
  (if negb b then create_dir TEST_DB_NAME else ret tt) ;;
  let! b := is_dir TEST_DB_NAME in assert_ b ;; test_chdir TEST_DB_NAME.

Definition TearDown : M Disk unit := test_chdir ".." ;; let! b := is_dir TEST_DB_NAME in assert_ b.

(** [try { m; assert(false); } catch (const C &e) {}] for a class [C] of exceptions. *)
Definition must_throw {A} (C : RMDBError → bool) (m : M Disk A) : M Disk unit := λ d,
  match m d with
  | (Ret _, d') => (Crash AssertFailed, d')
  | (Throw e, d') => if C e then (Ret tt, d') else (Throw e, d')
  | (Crash c, d') => (Crash c, d')
  end.

Definition not_found (e : RMDBError) : bool := match e with FileNotFoundError _ => true | _ => false end.
Definition exists_already (e : RMDBError) : bool := match e with FileExistsError _ => true | _ => false end.

Definition expect_file (b : bool) (p : string) : M Disk unit := let! r := is_file p in assert_ (Bool.eqb r b).
Definition remove_leftover (p : string) : M Disk unit := let! b := is_file p in if b : bool then destroy_file p else ret tt.

Definition test_file (i : nat) : string := "FileOperationTestFile" +:+ to_string (Z.of_nat i).

(** A round of the first loop of [FileOperation]: the assignments to [fd2name].  [again] is
    [rand() % 5 == 0]. *)
Definition create_round (again : nat → bool) (i : nat) : M Disk (list (Z * string)) :=
  let filename := test_file i in
  remove_leftover filename ;;
  must_throw not_found (open_file filename) ;;
  create_file filename ;; expect_file true filename ;;
  must_throw exists_already (create_file filename) ;;
  let! fd := open_file filename in
  if again i then close_file fd ;; let! fd' := open_file filename in ret [(fd, filename); (fd', filename)]
  else ret [(fd, filename)].

Definition remove_round (entry : Z * string) : M Disk unit :=
  close_file entry.1 ;; destroy_file entry.2 ;; expect_file false entry.2 ;; must_throw not_found (destroy_file entry.2).

Definition file_operation_test (again : nat → bool) (iter : gmap Z string → list (Z * string)) : M Disk unit :=
  SetUp ;;
  let! names := for_map (create_round again) (seq 0 MAX_FILES) in
  let fd2name := foldl (λ m e, <[e.1 := e.2]> m) ∅ (concat names) in
  for_each remove_round (iter fd2name) ;;
  TearDown.

(** [PageOperation]; [datas] is what [rand_buf] fills the buffer with, page by page. *)
Definition page_round (fd : Z) (page : nat * list byte) : M Disk unit :=
  let page_no := Z.of_nat page.1 in let data := page.2 in
  let! ret_page_no := allocate_page fd in assert_ (ret_page_no =? page_no) ;;
  write_page fd page_no data PAGE_SIZE ;;
  let! buf := (λ d, let '(r, (buf, d')) := read_page fd page_no PAGE_SIZE (zeros PAGE_SIZE, d) in
                    (match r with Ret _ => Ret buf | Throw e => Throw e | Crash c => Crash c end, d')) in
  assert_ (bool_decide (buf = data)).

Definition page_operation_test (datas : list (list byte)) : M Disk unit :=
  let filename := "PageOperationTestFile" in
  SetUp ;;
  remove_leftover filename ;; create_file filename ;; expect_file true filename ;;
  let! fd := open_file filename in
  set_fd2pageno fd 0 ;;
  for_each (page_round fd) (imap pair datas) ;;
  close_file fd ;; destroy_file filename ;; expect_file false filename ;;
  TearDown.

(** ** The tests of the buffer pool *)

Section pool.
Context {R : Type} `{!Replacer R}.


(** [strcpy(page->get_data(), s)]; the [snprintf] of [SimpleTest], with room for 8 bytes, stores the same. *)
Definition strcpy (f : frame_id_t) (s : string) : M (Store R) unit := frame_write f 0 (str_bytes s ++ [x00]).
Definition expect_data (f : frame_id_t) (s : string) : M (Store R) unit :=
  let! pg := frame f in assert_ (bool_decide (c_str (data_ pg) = str_bytes s)).
Definition expect_true (m : M (Store R) bool) : M (Store R) unit := let! b := m in assert_ b.
Definition expect_page {A} (m : M (Store R) (option A)) : M (Store R) A := let! o := m in match o with Some x => ret x | None => crashes AssertFailed end.
Definition expect_null {A} (m : M (Store R) (option A)) : M (Store R) unit := let! o := m in match o with Some _ => crashes AssertFailed | None => ret tt end.

Definition BPM_TEST_DB_NAME : string := "BufferPoolManagerTest_db".

Definition bpm_SetUp : M Disk unit :=
  let! b := is_dir BPM_TEST_DB_NAME in
  (if b : bool then destroy_dir BPM_TEST_DB_NAME else ret tt) ;;
  create_dir BPM_TEST_DB_NAME ;;
  let! b := is_dir BPM_TEST_DB_NAME in assert_ b ;; test_chdir BPM_TEST_DB_NAME.
Definition bpm_TearDown : M Disk unit := test_chdir ".." ;; let! b := is_dir BPM_TEST_DB_NAME in assert_ b.

(** The directory, the file and its descriptor. *)
Definition open_test_file (filename : string) : M (Store R) Z :=
  with_disk (bpm_SetUp ;; create_file filename ;; open_file filename).

Definition bpm_simple_test : M (Store R) unit :=
  let buffer_pool_size := 10 in
  let! fd := open_test_file "simple_test" in
  let! page0 := expect_page (new_page fd) in
  assert_ (0 =? pid_no page0.2) ;;
  strcpy page0.1 "Hello" ;; expect_data page0.1 "Hello" ;;
  for_each (λ _, expect_page (new_page fd) ;; ret tt) (seqZ 1 (buffer_pool_size - 1)) ;;
  for_each (λ _, expect_null (new_page fd)) (seqZ buffer_pool_size buffer_pool_size) ;;
  for_each (λ i, expect_true (unpin_page (mkPageId fd i) true)) (seqZ 0 5) ;;
  for_each (λ _, expect_page (new_page fd) ;; ret tt) (seqZ 0 4) ;;
  let! o := fetch_page (mkPageId fd 0) in let! page0 := deref o in
  expect_data page0 "Hello" ;;
  expect_true (unpin_page (mkPageId fd 0) true) ;;
  expect_page (new_page fd) ;; expect_null (fetch_page (mkPageId fd 0)) ;;
  flush_all_pages fd ;;
  with_disk (close_file fd ;; bpm_TearDown).

(** [LargeScaleTest] with [rounds] rounds of [buffer_pool_size] pages (the code has 1000 of 10). *)
Definition bpm_large_scale_test (rounds : nat) : M (Store R) unit :=
  let buffer_pool_size := 10%nat in
  let! fd := open_test_file "large_scale_test" in
  let! page_ids := for_map (λ _,
    let! ids := for_map (λ _,
      let! p := expect_page (new_page fd) in strcpy p.1 (to_string (pid_no p.2)) ;; ret p.2) (seq 0 buffer_pool_size) in
    for_each (λ id, expect_true (unpin_page id true)) ids ;; ret ids) (seq 0 rounds) in
  for_each (λ id,
    let! f := expect_page (fetch_page id) in expect_data f (to_string (pid_no id)) ;; expect_true (unpin_page id true)) (concat page_ids) ;;
  for_each (λ id, expect_true (delete_page id)) (concat page_ids) ;;
  with_disk (close_file fd ;; bpm_TearDown).
End pool.

Definition test_machine (limit : Z) : Disk := mkDisk (mkOS ∅ ∅ [] ∅ limit 1024) DiskManager_init.
Definition test_store (pool_size : Z) : Store LRUReplacer :=
  mkStore (BufferPoolManager_init pool_size (LRUReplacer_init pool_size)) (test_machine 200000).

Example bpm_simple_test_passes : (bpm_simple_test (test_store 10)).1 = Ret tt.
Proof. vm_compute. reflexivity. Qed.

Example bpm_large_scale_test_passes : (bpm_large_scale_test 4 (test_store 10)).1 = Ret tt.
Proof. vm_compute. reflexivity. Qed.

(** ** PageOperation *)

Section pages.
Context (limit : Z).
Implicit Types datas : list (list byte).

(** The disk during the loop: the bytes of the file, the offset and the next page number. *)
Definition paged (c : list byte) (off n : Z) : Disk :=
  mkDisk (mkOS {[ [TEST_DB_NAME; "PageOperationTestFile"] := c ]} {[ [TEST_DB_NAME] ]} [TEST_DB_NAME]
            {[ 3 := ([TEST_DB_NAME; "PageOperationTestFile"], off) ]} limit 1024)
    (mkDM {[ "PageOperationTestFile" := 3 ]} {[ 3 := "PageOperationTestFile" ]} (-1) {[ 3 := n ]}).

Lemma page_round_run c off k data :
  Z.of_nat (length data) = PAGE_SIZE → (Z.of_nat k + 1) * PAGE_SIZE <= limit → Z.of_nat k + 1 <= INT_MAX →
  ∃ c' off', page_round 3 (k, data) (paged c off (Z.of_nat k)) = (Ret tt, paged c' off' (Z.of_nat k + 1)).
Proof.
  intros Hlen Hlim Hmax. unfold page_round. cbn [fst snd].
  rewrite (bind_Ret _ _ _ _ _ (allocate_page_run (paged c off (Z.of_nat k)) 3 ltac:(done))).
  change (default 0 (fd2pageno_ (dm (paged c off (Z.of_nat k))) !! 3)) with (Z.of_nat k).
  rewrite wrap32_id by (unfold is_int32, INT_MIN; lia). rewrite Z.eqb_refl. unfold assert_ at 1.
  assert (E : set_dm (set_pageno 3 (Z.of_nat k + 1) (dm (paged c off (Z.of_nat k)))) (paged c off (Z.of_nat k)) = paged c off (Z.of_nat k + 1)).
  { unfold set_dm, set_pageno, paged. cbn. by rewrite insert_singleton_eq. }
  rewrite E. clear E. unfold bind at 1, ret at 1.
  set (c' := file_write c (Z.of_nat k * PAGE_SIZE) data). set (off' := Z.of_nat k * PAGE_SIZE + PAGE_SIZE).
  assert (Hw : write_page 3 (Z.of_nat k) data PAGE_SIZE (paged c off (Z.of_nat k + 1)) = (Ret tt, paged c' off' (Z.of_nat k + 1))).
  { rewrite (write_page_run _ _ _ _ _ [TEST_DB_NAME; "PageOperationTestFile"] off c) by (done || unfold PAGE_SIZE in *; simpl; lia).
    rewrite take_ge by lia. unfold set_os, set_fds, set_files, paged. cbn. by rewrite !insert_singleton_eq. }
  rewrite (bind_Ret _ _ _ _ _ Hw).
  assert (Hr : read_page 3 (Z.of_nat k) PAGE_SIZE (zeros PAGE_SIZE, paged c' off' (Z.of_nat k + 1)) = (Ret tt, (data, paged c' off' (Z.of_nat k + 1)))).
  { rewrite (read_page_run _ _ _ _ _ [TEST_DB_NAME; "PageOperationTestFile"] off' c' data); [|done|done| |by rewrite length_zeros].
    - rewrite drop_ge, app_nil_r by done. unfold set_os, set_fds, paged. cbn. by rewrite insert_singleton_eq.
    - apply mread_Some. unfold c'. rewrite length_file_write by (unfold PAGE_SIZE; lia). unfold PAGE_SIZE in *. split_and!; [lia..|].
      rewrite <- Hlen, Nat2Z.id. symmetry. apply file_write_read. lia. }
  exists c', off'. unfold bind at 1. rewrite Hr. by rewrite bool_decide_eq_true_2.
Qed.

Lemma page_rounds_run datas k c off :
  Forall (λ data, Z.of_nat (length data) = PAGE_SIZE) datas → Z.of_nat (k + length datas) * PAGE_SIZE <= limit →
  Z.of_nat (k + length datas) <= INT_MAX →
  ∃ c' off', for_each (page_round 3) (imap (λ i, pair (k + i)%nat) datas) (paged c off (Z.of_nat k)) =
    (Ret tt, paged c' off' (Z.of_nat (k + length datas))).
Proof.
  revert k c off. induction datas as [|data datas IH]; intros k c off Hall Hlim Hmax; [exists c, off; by rewrite Nat.add_0_r|].
  apply Forall_cons in Hall as [Hd Hall]. simpl in Hlim, Hmax. destruct (page_round_run c off k data) as (c1&off1&H1); [done|unfold PAGE_SIZE in *; lia|lia|].
  destruct (IH (S k) c1 off1) as (c2&off2&H2); [done|unfold PAGE_SIZE in *; lia|lia|].
  exists c2, off2. cbn [imap for_each]. rewrite Nat.add_0_r. rewrite (bind_Ret _ _ _ _ _ H1).
  replace (Z.of_nat k + 1) with (Z.of_nat (S k)) by lia. replace (k + length (data :: datas))%nat with (S k + length datas)%nat by (simpl; lia).
  rewrite <- H2. f_equal. apply imap_ext. intros i x _. simpl. f_equal. lia.
Qed.

Lemma pages_begin {A} (k : Z → M Disk A) :
  (SetUp ;; remove_leftover "PageOperationTestFile" ;; create_file "PageOperationTestFile" ;; expect_file true "PageOperationTestFile" ;;
   let! fd := open_file "PageOperationTestFile" in set_fd2pageno fd 0 ;; k fd) (test_machine limit) = k 3 (paged [] 0 0).
Proof. vm_compute. reflexivity. Qed.

Lemma pages_end c off n :
  ((close_file 3 ;; destroy_file "PageOperationTestFile" ;; expect_file false "PageOperationTestFile" ;; TearDown) (paged c off n)).1 = Ret tt.
Proof. vm_compute. reflexivity. Qed.

(** [PageOperation] passes whatever bytes [rand_buf] makes, as long as the pages fit on the disk. *)
Theorem page_operation_test_passes datas :
  Forall (λ data, Z.of_nat (length data) = PAGE_SIZE) datas → Z.of_nat (length datas) * PAGE_SIZE <= limit →
  Z.of_nat (length datas) <= INT_MAX → (page_operation_test datas (test_machine limit)).1 = Ret tt.
Proof.
  intros Hall Hlim Hmax. unfold page_operation_test. cbv zeta. rewrite pages_begin.
  destruct (page_rounds_run datas 0 [] 0 Hall Hlim Hmax) as (c'&off'&Hrun). rewrite (bind_Ret _ _ _ _ _ Hrun). apply pages_end.
Qed.
End pages.

Lemma page_operation_test_passes_witness :
  Forall (λ data, Z.of_nat (length data) = PAGE_SIZE) [replicate 4096 x07; replicate 4096 x08] ∧
  (page_operation_test [replicate 4096 x07; replicate 4096 x08] (test_machine 8192)).1 = Ret tt.
Proof.
  assert (H : Forall (λ data, Z.of_nat (length data) = PAGE_SIZE) [replicate 4096 x07; replicate 4096 x08]) by by repeat constructor.
  split; [exact H|]. by apply (page_operation_test_passes 8192 [replicate 4096 x07; replicate 4096 x08]).
Defined.

(** ** FileOperation *)

Section files.
Context (again : nat → bool).

(** [n] files are created and open, with the names in [fd2name]. *)
Record opening (n : nat) (fd2name : gmap Z string) (d : Disk) : Prop := {
  op_inv : disk_inv d;
  op_cwd : os_cwd (os d) = [TEST_DB_NAME];
  op_dirs : os_dirs (os d) = {[ [TEST_DB_NAME] ]};
  op_nofile : os_nofile (os d) = 1024;
  op_size : size (os_fds (os d)) = n;
  op_names : fd2path_ (dm d) = fd2name;
  op_fresh : ∀ i, (n <= i)%nat → os_files (os d) !! resolve (os d) (test_file i) = None;
}.

Lemma lowest_free_le fds n i : lowest_free fds n i <= i + Z.of_nat n.
Proof. revert i. induction n as [|n IH]; intros i; simpl; [lia|]. destruct (fds !! i); [specialize (IH (i + 1))|]; lia. Qed.

Lemma test_file_inj i j : test_file i = test_file j → i = j.
Proof. intros H%(inj (String.append _))%pretty_Z_inj. lia. Qed.

Definition round_result (fd : Z) (i : nat) : list (Z * string) := if again i then [(fd, test_file i); (fd, test_file i)] else [(fd, test_file i)].

Lemma create_round_run i m d : opening i m d → (i < 1000)%nat →
  ∃ fd d', create_round again i d = (Ret (round_result fd i), d') ∧ opening (S i) (<[fd := test_file i]> m) d'.
Proof.
  intros [Hi Hc Hd Hn Hs Hm Hf] Hlt. pose proof (Hf i ltac:(done)) as Hno. set (p := test_file i) in *.
  assert (Hclosed : path2fd_ (dm d) !! p = None).
  { destruct (path2fd_ (dm d) !! p) as [fd|] eqn:E; [|done]. apply (di_maps _ Hi), (di_open _ Hi) in E as [_ [? E]]. by rewrite Hno in E. }
  pose proof (lowest_free_le (os_fds (os d)) (size (os_fds (os d))) 3) as Hfd. change (lowest_free _ _ 3) with (new_fd (os d)) in Hfd.
  assert (Hnd : resolve (os d) p ∉ os_dirs (os d)) by (rewrite Hd; unfold resolve; rewrite Hc; set_solver).
  assert (Hreg : stat_reg (os d) p = false) by (unfold stat_reg; rewrite Hno; apply bool_decide_eq_false_2; by intros []).
  assert (Hcr := create_file_run d p Hno Hnd ltac:(lia)).
  set (d1 := mkDisk (set_files (<[resolve (os d) p := []]> (os_files (os d))) (os d)) (dm d)) in *.
  assert (Hi1 : disk_inv d1) by (pose proof (keeps_create_file p d Hi) as H; by rewrite Hcr in H).
  assert (Hreg1 : stat_reg (os d1) p = true) by (apply bool_decide_eq_true_2; cbn; change (resolve _ p) with (resolve (os d) p); by rewrite lookup_insert_eq).
  assert (Hop : open_file p d1 = (Ret (new_fd (os d)), mkDisk (set_fds (<[new_fd (os d) := (resolve (os d) p, 0)]> (os_fds (os d))) (os d1)) (record_open p (new_fd (os d)) (dm d)))).
  { rewrite open_file_cases, Hreg1. cbn [negb]. rewrite decide_False by (cbn; rewrite Hclosed; by intros []). by rewrite decide_True by (cbn; change (new_fd _) with (new_fd (os d)); lia). }
  set (d2 := mkDisk (set_fds _ _) _) in Hop.
  assert (Hi2 : disk_inv d2) by (pose proof (keeps_open_file p d1 Hi1) as H; by rewrite Hop in H).
  assert (Hcl : close_file (new_fd (os d)) d2 = (Ret tt, d1)) by (exact (close_just_opened d1 p Hi1 Hclosed)).
  exists (new_fd (os d)), d2. split.
  - assert (E1 : remove_leftover p d = (Ret tt, d)) by (unfold remove_leftover, is_file, gets, bind; by rewrite Hreg).
    assert (E2 : must_throw not_found (open_file p) d = (Ret tt, d)) by (unfold must_throw; by rewrite open_file_cases, Hreg).
    assert (E3 : expect_file true p d1 = (Ret tt, d1)) by (unfold expect_file, is_file, gets, bind; by rewrite Hreg1).
    assert (E4 : must_throw exists_already (create_file p) d1 = (Ret tt, d1)) by (unfold must_throw, create_file, is_file, gets, bind; by rewrite Hreg1).
    unfold create_round. cbv zeta. fold p.
    rewrite (bind_Ret _ _ _ _ _ E1), (bind_Ret _ _ _ _ _ E2), (bind_Ret _ _ _ _ _ Hcr), (bind_Ret _ _ _ _ _ E3), (bind_Ret _ _ _ _ _ E4).
    rewrite (bind_Ret _ _ _ _ _ Hop). unfold round_result. destruct (again i); [|done]. rewrite (bind_Ret _ _ _ _ _ Hcl). by rewrite (bind_Ret _ _ _ _ _ Hop).
  - split; [done|done|done|done| |by cbn; rewrite Hm|].
    + cbn. rewrite map_size_insert_None by apply new_fd_fresh. by rewrite Hs.
    + intros j Hj. cbn. change (resolve _ (test_file j)) with (resolve (os d) (test_file j)). rewrite lookup_insert_ne; [apply Hf; lia|].
      unfold resolve. intros [_ E]%app_inj_tail. apply test_file_inj in E. lia.
Qed.

Lemma create_rounds_run l k m d : opening k m d → (k + l <= 1000)%nat →
  ∃ names d', for_map (create_round again) (seq k l) d = (Ret names, d') ∧
    opening (k + l) (foldl (λ m e, <[e.1 := e.2]> m) m (concat names)) d'.
Proof.
  revert k m d. induction l as [|l IH]; intros k m d Hop Hl; [exists [], d; by rewrite Nat.add_0_r|].
  destruct (create_round_run k m d Hop) as (fd&d1&H1&Hop1); [lia|]. destruct (IH (S k) _ d1 Hop1) as (names&d2&H2&Hop2); [lia|].
  exists (round_result fd k :: names), d2. split.
  - simpl seq. cbn [for_map]. rewrite (bind_Ret _ _ _ _ _ H1). by rewrite (bind_Ret _ _ _ _ _ H2).
  - rewrite Nat.add_succ_r. cbn [concat]. rewrite foldl_app. unfold round_result. destruct (again k); cbn [foldl fst snd]; [|done].
    by rewrite insert_insert_eq.
Qed.

(** What is left to remove. *)
Record removable (l : list (Z * string)) (d : Disk) : Prop := {
  rv_inv : disk_inv d;
  rv_cwd : os_cwd (os d) = [TEST_DB_NAME];
  rv_dirs : os_dirs (os d) = {[ [TEST_DB_NAME] ]};
  rv_nodup : NoDup l.*1;
  rv_names : fd2path_ (dm d) = list_to_map l;
}.

Lemma remove_round_run e l d : removable (e :: l) d → ∃ d', remove_round e d = (Ret tt, d') ∧ removable l d'.
Proof.
  intros [Hi Hc Hd [Hf1 Hf]%NoDup_cons Hm]. destruct e as [fd p]. cbn [fst snd] in *.
  assert (He : fd2path_ (dm d) !! fd = Some p) by (rewrite Hm; apply lookup_insert_eq).
  destruct (di_open _ Hi _ _ He) as [[x Hx] [c Hfile]].
  set (d1 := set_dm (record_close p fd (dm d)) (set_os (set_fds (delete fd (os_fds (os d))) (os d)) d)).
  assert (H1 : close_file fd d = (Ret tt, d1)) by (unfold close_file, gets, bind at 1; rewrite He; unfold syscall, sys_close, bind; by rewrite Hx).
  assert (Hi1 : disk_inv d1) by (pose proof (keeps_close_file fd d Hi) as H; by rewrite H1 in H).
  set (d2 := set_os (set_files (delete (resolve (os d) p) (os_files (os d))) (os d1)) d1).
  assert (H2 : destroy_file p d1 = (Ret tt, d2)).
  { assert (Hreg1 : stat_reg (os d1) p = true) by (apply bool_decide_eq_true_2; exists c; exact Hfile).
    unfold destroy_file, is_file, path_is_open, gets, bind. rewrite Hreg1. cbn [negb].
    rewrite bool_decide_eq_false_2 by (cbn; rewrite lookup_delete_eq; by intros []).
    unfold syscall, sys_unlink. change (resolve (os d1) p) with (resolve (os d) p). change (os_files (os d1)) with (os_files (os d)). by rewrite Hfile. }
  assert (Hi2 : disk_inv d2) by (pose proof (keeps_destroy_file p d1 Hi1) as H; by rewrite H2 in H).
  assert (Hno : stat_reg (os d2) p = false) by (apply bool_decide_eq_false_2; cbn; change (resolve _ p) with (resolve (os d) p); rewrite lookup_delete_eq; by intros []).
  exists d2. split.
  - assert (E3 : expect_file false p d2 = (Ret tt, d2)) by (unfold expect_file, is_file, gets, bind; by rewrite Hno).
    assert (E4 : must_throw not_found (destroy_file p) d2 = (Ret tt, d2)) by (unfold must_throw, destroy_file, is_file, gets, bind; by rewrite Hno).
    unfold remove_round. cbn [fst snd]. by rewrite (bind_Ret _ _ _ _ _ H1), (bind_Ret _ _ _ _ _ H2), (bind_Ret _ _ _ _ _ E3).
  - split; [done..|]. cbn. rewrite Hm. cbn. by rewrite delete_insert_id by (by apply not_elem_of_list_to_map_1).
Qed.

Lemma remove_rounds_run l d : removable l d → ∃ d', for_each remove_round l d = (Ret tt, d') ∧ removable [] d'.
Proof.
  revert d. induction l as [|e l IH]; intros d H; [by exists d|]. destruct (remove_round_run e l d H) as (d1&H1&Hr1).
  destruct (IH d1 Hr1) as (d2&H2&Hr2). exists d2. split; [|done]. cbn [for_each]. by rewrite (bind_Ret _ _ _ _ _ H1).
Qed.

Context (iter : gmap Z string → list (Z * string)) (Hiter : ∀ m, iter m ≡ₚ map_to_list m).

Lemma opening_removable n m d : opening n m d → removable (iter m) d.
Proof using Hiter.
  intros [Hi Hc Hd _ _ Hm _]. assert (Hnd : NoDup (iter m).*1) by (rewrite Hiter; apply NoDup_fst_map_to_list).
  split; [done..|]. rewrite Hm. rewrite <- (list_to_map_to_list m) at 1. symmetry. by apply list_to_map_proper.
Qed.

(** [FileOperation] passes whichever files are opened again, and whatever the order in which the map
    of descriptors is run through. *)
Theorem file_operation_test_passes limit : (file_operation_test again iter (test_machine limit)).1 = Ret tt.
Proof using Hiter.
  unfold file_operation_test.
  set (d0 := mkDisk (mkOS ∅ {[ [TEST_DB_NAME] ]} [TEST_DB_NAME] ∅ limit 1024) DiskManager_init).
  assert (H0 : SetUp (test_machine limit) = (Ret tt, d0)) by (vm_compute; reflexivity).
  assert (Hop : opening 0 ∅ d0) by (split; [by apply disk_inv_init|done..]).
  destruct (create_rounds_run MAX_FILES 0 ∅ d0 Hop) as (names&d1&H1&Hop1); [unfold MAX_FILES; lia|].
  destruct (remove_rounds_run _ d1 (opening_removable _ _ _ Hop1)) as (d2&H2&[_ Hc Hd _ _]).
  rewrite (bind_Ret _ _ _ _ _ H0), (bind_Ret _ _ _ _ _ H1). cbv zeta. rewrite (bind_Ret _ _ _ _ _ H2).
  unfold TearDown, test_chdir, syscall, sys_chdir, bind. cbn.
  rewrite Hc. simpl. unfold ret, is_dir, gets, stat_dir, resolve. cbn. by rewrite Hd.
Qed.
End files.

Lemma file_operation_test_passes_witness :
  (∀ m : gmap Z string, map_to_list m ≡ₚ map_to_list m) ∧
  (file_operation_test (λ i, Nat.even i) map_to_list (test_machine 0)).1 = Ret tt.
Proof. split; [done|]. by apply file_operation_test_passes. Defined.
