(* ===== verification/Meta.v ===== *)
(** * The catalogue

    [system/sm_meta.h]: columns, indexes, tables and databases, their lookups and their
    text form in the file [db.meta]. *)

From Stdlib Require Import Sorting.Sorted.
From S2P Require Import Prelude Errors Config StrMap Text.
From stdpp Require Import options.

(** ** ColMeta *)

Record ColMeta := mkColMeta {
  cm_tab_name : string;
  cm_name : string;
  cm_type : ColType;
  cm_len : Z;
  cm_offset : Z;
  cm_index : bool;
}.

#[global] Instance ColMeta_eq_dec : EqDecision ColMeta.
Proof. solve_decision. Defined.

(** [os << col]. *)
Definition write_ColMeta (col : ColMeta) : string :=
  cm_tab_name col +:+ " " +:+ cm_name col +:+ " " +:+ to_string (coltype_to_int (cm_type col)) +:+ " " +:+
  to_string (cm_len col) +:+ " " +:+ to_string (cm_offset col) +:+ " " +:+ show_bool (cm_index col).

(** [is >> col]. *)
Definition read_ColMeta : Rd ColMeta :=
  t ← read_string; n ← read_string; ty ← read_coltype; l ← read_int; o ← read_int; i ← read_bool;
  mret (mkColMeta t n ty l o i).

(** ** IndexMeta *)

Record IndexMeta := mkIndexMeta {
  im_tab_name : string;
  im_col_tot_len : Z;
  im_col_num : Z;
  im_cols : list ColMeta;
}.

#[global] Instance IndexMeta_eq_dec : EqDecision IndexMeta.
Proof. solve_decision. Defined.

Definition write_IndexMeta (index : IndexMeta) : string :=
  im_tab_name index +:+ " " +:+ to_string (im_col_tot_len index) +:+ " " +:+ to_string (im_col_num index) +:+
  write_all (λ col, nl +:+ write_ColMeta col) (im_cols index).

(** Extraction appends to the columns the object holds. *)
Definition read_IndexMeta (index : IndexMeta) : Rd IndexMeta :=
  t ← read_string; l ← read_int; n ← read_int; cs ← read_n (Z.to_nat n) read_ColMeta;
  mret (mkIndexMeta t l n (im_cols index ++ cs)).

(** ** TabMeta *)

Record TabMeta := mkTabMeta {
  tm_name : string;
  tm_cols : list ColMeta;
  tm_indexes : list IndexMeta;
}.

#[global] Instance TabMeta_eq_dec : EqDecision TabMeta.
Proof. solve_decision. Defined.

Definition TabMeta_init : TabMeta := mkTabMeta "" [] [].

(** The copy constructor copies the name and the columns only; the copy assignment
    operator is the implicit one and copies every member. *)
Definition TabMeta_copy (other : TabMeta) : TabMeta := mkTabMeta (tm_name other) (tm_cols other) [].

Definition is_col (tab : TabMeta) (col_name : string) : bool :=
  match list_find (λ col, cm_name col = col_name) (tm_cols tab) with Some _ => true | None => false end.

(** The loop [for (; i < n; ++i) if (cols[i].name.compare(col_names[i]) != 0) break;]
    runs to the end when every name agrees. *)
Fixpoint names_match (cols : list ColMeta) (col_names : list string) : bool :=
  match cols, col_names with
  | col :: cols', n :: col_names' => bool_decide (cm_name col = n) && names_match cols' col_names'
  | _, _ => true
  end.

(** [index.col_num == col_names.size()] compares as [size_t]. *)
Definition index_has_cols (col_names : list string) (index : IndexMeta) : bool :=
  (im_col_num index mod 2 ^ 64 =? Z.of_nat (length col_names)) && names_match (im_cols index) col_names.

Definition is_index (tab : TabMeta) (col_names : list string) : bool :=
  existsb (index_has_cols col_names) (tm_indexes tab).

(** The position of the index, with the index. *)
Definition get_index_meta (tab : TabMeta) (col_names : list string) : outcome (nat * IndexMeta) :=
  match list_find (λ i, index_has_cols col_names i = true) (tm_indexes tab) with
  | Some pos => Ret pos
  | None => Throw (IndexNotFoundError (tm_name tab) col_names)
  end.

Definition get_col (tab : TabMeta) (col_name : string) : outcome ColMeta :=
  match list_find (λ col, cm_name col = col_name) (tm_cols tab) with
  | Some (_, col) => Ret col
  | None => Throw (ColumnNotFoundError col_name)
  end.

Definition write_TabMeta (tab : TabMeta) : string :=
  tm_name tab +:+ nl +:+ to_string (Z.of_nat (length (tm_cols tab))) +:+ nl +:+
  write_all (λ col, write_ColMeta col +:+ nl) (tm_cols tab) +:+
  to_string (Z.of_nat (length (tm_indexes tab))) +:+ nl +:+
  write_all (λ index, write_IndexMeta index +:+ nl) (tm_indexes tab).

Definition read_TabMeta (tab : TabMeta) : Rd TabMeta :=
  name ← read_string; n ← read_size_t; cs ← read_n (Z.to_nat n) read_ColMeta;
  m ← read_size_t; xs ← read_n (Z.to_nat m) (read_IndexMeta (mkIndexMeta "" 0 0 []));
  mret (mkTabMeta name (tm_cols tab ++ cs) (tm_indexes tab ++ xs)).

(** ** DbMeta *)

Record DbMeta := mkDbMeta {
  db_name : string;
  tabs_ : strmap TabMeta;
}.

#[global] Instance DbMeta_eq_dec : EqDecision DbMeta.
Proof. solve_decision. Defined.

Definition DbMeta_init : DbMeta := mkDbMeta "" [].

Definition is_table (db : DbMeta) (tab_name : string) : bool :=
  match sm_find tab_name (tabs_ db) with Some _ => true | None => false end.

Definition SetTabMeta (tab_name : string) (meta : TabMeta) (db : DbMeta) : DbMeta :=
  mkDbMeta (db_name db) (sm_insert tab_name meta (tabs_ db)).

Definition get_table (db : DbMeta) (tab_name : string) : outcome TabMeta :=
  match sm_find tab_name (tabs_ db) with
  | Some tab => Ret tab
  | None => Throw (TableNotFoundError tab_name)
  end.

Definition write_DbMeta (db : DbMeta) : string :=
  db_name db +:+ nl +:+ to_string (Z.of_nat (length (tabs_ db))) +:+ nl +:+
  write_all (λ entry, write_TabMeta entry.2 +:+ nl) (tabs_ db).

Definition read_DbMeta (db : DbMeta) : Rd DbMeta :=
  name ← read_string; n ← read_size_t; ts ← read_n (Z.to_nat n) (read_TabMeta TabMeta_init);
  mret (mkDbMeta name (foldl (λ m tab, sm_insert (tm_name tab) tab m) (tabs_ db) ts)).

(** ** Lookups *)

Lemma get_col_Ret tab c col :
  get_col tab c = Ret col ↔
  ∃ i, tm_cols tab !! i = Some col ∧ cm_name col = c ∧
    ∀ j col', tm_cols tab !! j = Some col' → (j < i)%nat → cm_name col' ≠ c.
Proof.
  unfold get_col. split.
  - destruct (list_find _ _) as [[i col']|] eqn:E; [|done]. intros [= ->]. apply list_find_Some in E.
    exists i. naive_solver.
  - intros (i&H1&H2&H3). assert (list_find (λ col, cm_name col = c) (tm_cols tab) = Some (i, col)) as ->; [|done].
    apply list_find_Some. naive_solver.
Qed.

Lemma get_col_Throw tab c :
  get_col tab c = Throw (ColumnNotFoundError c) ↔ ∀ col, col ∈ tm_cols tab → cm_name col ≠ c.
Proof.
  unfold get_col. destruct (list_find _ _) as [[i col]|] eqn:E.
  - split; [done|]. intros H. apply list_find_Some in E as (E1&E2&_). exfalso.
    apply (H col); [|done]. by eapply list_elem_of_lookup_2.
  - apply list_find_None in E. split; [|done]. intros _. by rewrite Forall_forall in E.
Qed.

Lemma get_col_cases tab c :
  (∃ col, get_col tab c = Ret col ∧ col ∈ tm_cols tab ∧ cm_name col = c) ∨
  (get_col tab c = Throw (ColumnNotFoundError c) ∧ is_col tab c = false).
Proof.
  unfold get_col, is_col. destruct (list_find _ _) as [[i col]|] eqn:E; [left|by right].
  apply list_find_Some in E as (E1&E2&_). exists col. split_and!; try done. by eapply list_elem_of_lookup_2.
Qed.

Lemma is_col_true tab c : is_col tab c = true ↔ ∃ col, col ∈ tm_cols tab ∧ cm_name col = c.
Proof.
  unfold is_col. destruct (list_find _ _) as [[i col]|] eqn:E.
  - apply list_find_Some in E as (E1&E2&_). split; [|done]. intros _. exists col.
    split; [by eapply list_elem_of_lookup_2|done].
  - apply list_find_None in E. rewrite Forall_forall in E. split; [done|]. intros (col&H1&H2).
    exfalso. by eapply E.
Qed.

Lemma get_table_Ret db t tab : get_table db t = Ret tab ↔ sm_find t (tabs_ db) = Some tab.
Proof. unfold get_table. destruct (sm_find _ _); naive_solver. Qed.

Lemma is_table_true db t : is_table db t = true ↔ ∃ tab, get_table db t = Ret tab.
Proof. unfold is_table, get_table. destruct (sm_find _ _); naive_solver. Qed.

(** ** The text form *)

Definition ColMeta_ok (c : ColMeta) : Prop :=
  is_word (cm_tab_name c) ∧ is_word (cm_name c) ∧ is_int32 (cm_len c) ∧ is_int32 (cm_offset c).

Definition IndexMeta_ok (i : IndexMeta) : Prop :=
  is_word (im_tab_name i) ∧ is_int32 (im_col_tot_len i) ∧ im_col_num i = Z.of_nat (length (im_cols i)) ∧
  is_int32 (im_col_num i) ∧ Forall ColMeta_ok (im_cols i).

Definition TabMeta_ok (t : TabMeta) : Prop :=
  is_word (tm_name t) ∧ Forall ColMeta_ok (tm_cols t) ∧ Forall IndexMeta_ok (tm_indexes t) ∧
  Z.of_nat (length (tm_cols t)) < 2 ^ 64 ∧ Z.of_nat (length (tm_indexes t)) < 2 ^ 64.

(** A catalogue as the system keeps it: every name is a word (an identifier of the
    grammar is), tables are filed under their names, counts agree. *)
Definition DbMeta_ok (db : DbMeta) : Prop :=
  is_word (db_name db) ∧ sm_wf (tabs_ db) ∧ Z.of_nat (length (tabs_ db)) < 2 ^ 64 ∧
  Forall (λ e, TabMeta_ok e.2 ∧ e.1 = tm_name e.2) (tabs_ db).

Lemma skips_ColMeta : skips read_ColMeta.
Proof. apply skips_bind. intros c s. apply read_string_ws. Qed.
Lemma skips_IndexMeta i : skips (read_IndexMeta i).
Proof. apply skips_bind. intros c s. apply read_string_ws. Qed.
Lemma skips_TabMeta t : skips (read_TabMeta t).
Proof. apply skips_bind. intros c s. apply read_string_ws. Qed.

(** [follows_step] reads the next word or number of a text. *)
Ltac solve_at_ws := first [done | apply at_ws_write_all; by intros | apply at_ws_app; solve_at_ws].
Ltac follows_step :=
  eapply follows_bind;
  [first [ apply follows_ws; [intros ? ?; eauto with text|done|solve [eauto with text]]
         | apply follows_ws; [intros ? ?; eauto with text|done|apply follows_size_t; lia]
         | solve [eauto with text] ]| |solve_at_ws].

Lemma follows_ColMeta c : ColMeta_ok c → follows read_ColMeta (write_ColMeta c) c.
Proof.
  intros (Ht&Hn&Hl&Ho). unfold write_ColMeta, read_ColMeta.
  rewrite <- (string_app_nil (show_bool _)).
  repeat (rewrite <- (string_app_assoc " ")). 
  do 6 follows_step. destruct c. apply follows_ret.
Qed.

Lemma follows_ColMetas cs :
  Forall ColMeta_ok cs → follows (read_n (length cs) read_ColMeta) (write_all (λ col, nl +:+ write_ColMeta col) cs) cs.
Proof.
  rewrite Forall_forall. intros H. apply follows_n; [|done]. intros c Hc.
  apply follows_ws; [apply skips_ColMeta|done|by apply follows_ColMeta, H].
Qed.

Lemma follows_IndexMeta i :
  IndexMeta_ok i → follows (read_IndexMeta (mkIndexMeta "" 0 0 [])) (write_IndexMeta i) i.
Proof.
  intros (Ht&Hl&Hn&Hni&Hc). unfold write_IndexMeta, read_IndexMeta.
  repeat (rewrite <- (string_app_assoc " ")).
  do 3 follows_step. rewrite Hn, Nat2Z.id. rewrite <- (string_app_nil (write_all _ _)).
  eapply follows_bind; [by apply follows_ColMetas| |done].
  rewrite <- Hn. simpl. destruct i. apply follows_ret.
Qed.

Lemma write_all_nl {A} (f : A → string) l t :
  nl +:+ write_all (λ x, f x +:+ nl) l +:+ t = write_all (λ x, nl +:+ f x) l +:+ nl +:+ t.
Proof.
  induction l as [|x l IH]; [done|]. cbn [write_all]. rewrite !string_app_assoc. by rewrite IH.
Qed.

(** The text of a table without its last newline. *)
Definition tab_text (t : TabMeta) : string :=
  tm_name t +:+ (nl +:+ to_string (Z.of_nat (length (tm_cols t)))) +:+
  write_all (λ col, nl +:+ write_ColMeta col) (tm_cols t) +:+
  (nl +:+ to_string (Z.of_nat (length (tm_indexes t)))) +:+
  write_all (λ i, nl +:+ write_IndexMeta i) (tm_indexes t).

Lemma write_TabMeta_text t : write_TabMeta t = tab_text t +:+ nl.
Proof.
  unfold write_TabMeta, tab_text. rewrite !string_app_assoc.
  rewrite write_all_nl. do 5 f_equal.
  rewrite <- (string_app_nil (write_all (λ i, write_IndexMeta i +:+ nl) _)), write_all_nl. by rewrite string_app_nil.
Qed.

Lemma follows_TabMeta t : TabMeta_ok t → follows (read_TabMeta TabMeta_init) (tab_text t) t.
Proof.
  intros (Hn&Hc&Hi&Hcl&Hil). unfold tab_text, read_TabMeta.
  do 2 follows_step. rewrite Nat2Z.id. eapply follows_bind; [by apply follows_ColMetas| |done].
  follows_step. rewrite Nat2Z.id, <- (string_app_nil (write_all _ (tm_indexes t))).
  apply (follows_bind _ _ _ _ (tm_indexes t)); [|by destruct t; apply follows_ret|done].
  apply follows_n; [|done]. intros i Hin. rewrite Forall_forall in Hi.
  apply follows_ws; [apply skips_IndexMeta|done|by apply follows_IndexMeta, Hi].
Qed.

Lemma read_tabs ts ws r :
  all_space ws → Forall TabMeta_ok ts → at_ws r →
  ∃ ws', all_space ws' ∧
    read_n (length ts) (read_TabMeta TabMeta_init) (ws +:+ write_all (λ t, write_TabMeta t +:+ nl) ts +:+ r)
      = Some (ts, ws' +:+ r).
Proof.
  intros Hws Hts Hr. revert ws Hws. induction Hts as [|t ts Ht _ IH]; intros ws Hws; [by exists ws|].
  cbn [write_all length read_n]. rewrite write_TabMeta_text, !string_app_assoc.
  destruct (IH (nl +:+ nl)) as (ws'&Hw'&E); [done|]. exists ws'. split; [done|].
  unfold mbind, Rd_bind. rewrite (skips_all _ _ _ (skips_TabMeta _)) by done.
  rewrite follows_TabMeta by done. rewrite string_app_assoc in E. by rewrite E.
Qed.

Lemma db_meta_read db :
  DbMeta_ok db →
  ∃ ws, all_space ws ∧ read_DbMeta DbMeta_init (write_DbMeta db) = Some (db, ws).
Proof.
  intros (Hn&Hwf&Hlen&Hall). unfold write_DbMeta, read_DbMeta.
  destruct (read_tabs (tabs_ db).*2 nl "") as (ws&Hws&E); [done| |done|].
  { rewrite Forall_fmap. eapply Forall_impl; [done|]. by intros e [??]. }
  exists ws. split; [done|]. unfold mbind, Rd_bind.
  rewrite (follows_string _ Hn) by done. rewrite nl_app.
  rewrite read_size_t_ws by done. rewrite (follows_size_t (Z.of_nat (length (tabs_ db)))) by (done || lia).
  rewrite Nat2Z.id. rewrite length_fmap, string_app_nil in E.
  assert (write_all (λ t, write_TabMeta t +:+ nl) (tabs_ db).*2 =
    write_all (λ e : string * TabMeta, write_TabMeta e.2 +:+ nl) (tabs_ db)) as Hw.
  { clear. induction (tabs_ db) as [|e l IH]; [done|].
    exact (f_equal (String.append (write_TabMeta e.2 +:+ nl)) IH). }
  rewrite Hw in E. rewrite E, string_app_nil. unfold mret, Rd_ret.
  do 2 f_equal. destruct db as [name tabs]; simpl in *. f_equal.
  rewrite <- (sm_insert_all [] tabs) at 2 by done. clear -Hall. generalize (@nil (string * TabMeta)).
  induction Hall as [|[k t] tabs [_ Hk] _ IH]; intros acc; simpl in *; [done|]. rewrite IH. by rewrite <- Hk.
Qed.

(** C31: Saving and loading the catalogue: the text [write_DbMeta] puts into [db.meta],
    read back by [read_DbMeta] into a fresh [DbMeta], gives the same catalogue, every
    table, column and index included; only white space is left over. *)
Theorem db_meta_roundtrip db :
  DbMeta_ok db →
  ∃ ws, all_space ws ∧ read_DbMeta DbMeta_init (write_DbMeta db) = Some (db, ws).
Proof. apply db_meta_read. Qed.

Definition db_meta_example : DbMeta :=
  let c1 := mkColMeta "t" "id" TYPE_INT 4 0 false in
  let c2 := mkColMeta "t" "name" TYPE_STRING 12 4 false in
  mkDbMeta "testdb" [("s", mkTabMeta "s" [mkColMeta "s" "x" TYPE_FLOAT 4 0 false] []);
                     ("t", mkTabMeta "t" [c1; c2] [mkIndexMeta "t" 16 2 [c1; c2]])].

#[global] Instance is_word_dec s : Decision (is_word s).
Proof. unfold is_word. apply _. Defined.
#[global] Instance is_int32_dec z : Decision (is_int32 z).
Proof. unfold is_int32. apply _. Defined.
#[global] Instance ColMeta_ok_dec c : Decision (ColMeta_ok c).
Proof. unfold ColMeta_ok. apply _. Defined.
#[global] Instance IndexMeta_ok_dec i : Decision (IndexMeta_ok i).
Proof. unfold IndexMeta_ok. apply _. Defined.
#[global] Instance TabMeta_ok_dec t : Decision (TabMeta_ok t).
Proof. unfold TabMeta_ok. apply _. Defined.

Lemma db_meta_roundtrip_witness :
  ∃ ws, all_space ws ∧ read_DbMeta DbMeta_init (write_DbMeta db_meta_example) = Some (db_meta_example, ws).
Proof.
  apply db_meta_roundtrip. unfold DbMeta_ok. split; [by eapply bool_decide_unpack; vm_compute|].
  split; [|split; [by vm_compute|]].
  - repeat constructor.
  - eapply bool_decide_unpack. by vm_compute.
Defined.
