(* ===== verification/Ast.v ===== *)
(** * Syntax trees

    [parser/ast.h]: the nodes the (generated) parser builds.  Shared pointers to nodes are
    the nodes themselves: after parsing nothing but the analyzer changes one, and it works
    on the root it is given. *)

From S2P Require Import Prelude Errors.
From stdpp Require Import options.

Inductive JoinType := INNER_JOIN | LEFT_JOIN | RIGHT_JOIN | FULL_JOIN.

Module ast.

Inductive SvType := SV_TYPE_INT | SV_TYPE_FLOAT | SV_TYPE_STRING.
Inductive SvCompOp := SV_OP_EQ | SV_OP_NE | SV_OP_LT | SV_OP_GT | SV_OP_LE | SV_OP_GE.
Inductive OrderByDir := OrderBy_DEFAULT | OrderBy_ASC | OrderBy_DESC.

Record TypeLen := mkTypeLen { tl_type : SvType; tl_len : Z }.

(** [ColDef] is the only [Field]. *)
Record ColDef := mkColDef { cd_col_name : string; cd_type_len : TypeLen }.

(** The literals, and a node of the base class [Value] itself.  A [float] is the value of
    its bit pattern read as an [int]. *)
Inductive Value := IntLit (val : Z) | FloatLit (bits : Z) | StringLit (val : string) | BareValue.

Record Col := mkCol { c_tab_name : string; c_col_name : string }.

Inductive Expr := EValue (v : Value) | ECol (c : Col).

Record SetClause := mkSetClause { sc_col_name : string; sc_val : Value }.
Record BinaryExpr := mkBinaryExpr { be_lhs : Col; be_op : SvCompOp; be_rhs : Expr }.
Record OrderBy := mkOrderBy { ob_cols : Col; orderby_dir : OrderByDir }.
Record JoinExpr := mkJoinExpr { je_left : string; je_right : string; je_conds : list BinaryExpr; je_type : JoinType }.

Record SelectNode := mkSelectNode {
  sel_cols : list Col;
  sel_tabs : list string;
  sel_conds : list BinaryExpr;
  jointree : list JoinExpr;
  has_sort : bool;
  order : option OrderBy;
}.

(** The constructor of [SelectStmt]. *)
Definition SelectNode_make (cols : list Col) (tabs : list string) (conds : list BinaryExpr)
    (order : option OrderBy) : SelectNode :=
  mkSelectNode cols tabs conds [] (match order with Some _ => true | None => false end) order.

Inductive TreeNode :=
  | Help
  | ShowTables
  | TxnBegin
  | TxnCommit
  | TxnAbort
  | TxnRollback
  | CreateTable (tab_name : string) (fields : list ColDef)
  | DropTable (tab_name : string)
  | DescTable (tab_name : string)
  | CreateIndex (tab_name : string) (col_names : list string)
  | DropIndex (tab_name : string) (col_names : list string)
  | InsertStmt (tab_name : string) (vals : list Value)
  | DeleteStmt (tab_name : string) (conds : list BinaryExpr)
  | UpdateStmt (tab_name : string) (set_clauses : list SetClause) (conds : list BinaryExpr)
  | SelectStmt (s : SelectNode).

End ast.
