(* ===== verification/Analyze.v ===== *)
(** * Semantic analysis

    [analyze/analyze.{h,cpp}]: names are resolved against the catalogue, literals are
    converted and laid out in the width of their column, types are compared.  Analysis
    only reads the catalogue [sm_manager_->db_]. *)

From S2P Require Import Prelude Errors Config RecordFile StrMap Values Meta Ast.
From stdpp Require Import options.

Record Query := mkQuery {
  parse : ast.TreeNode;
  conds : list Condition;
  cols : list TabCol;
  tables : list string;
  set_clauses : list SetClause;
  values : list Value;
}.

Section analyze.
Context (db : DbMeta).

(** The loop of [check_column] over [all_cols] looking for an unqualified name. *)
Fixpoint infer_table (c : string) (all_cols : list ColMeta) (tab_name : string) : outcome string :=
  match all_cols with
  | [] => Ret tab_name
  | col :: all_cols' =>
      if decide (cm_name col = c) then
        if decide (tab_name = "") then infer_table c all_cols' (cm_tab_name col)
        else Throw (AmbiguousColumnError c)
      else infer_table c all_cols' tab_name
  end.

(** [is_table(t) && get_table(t).is_col(c)]. *)
Definition has_column (t c : string) : bool :=
  match get_table db t with Ret tab => is_col tab c | _ => false end.

Definition check_column (all_cols : list ColMeta) (target : TabCol) : outcome TabCol :=
  if decide (tab_name target = "") then
    t ← infer_table (col_name target) all_cols "";
    if decide (t = "") then Throw (ColumnNotFoundError (col_name target))
    else Ret (mkTabCol t (col_name target))
  else if has_column (tab_name target) (col_name target) then Ret target
  else Throw (ColumnNotFoundError (tab_name target +:+ "." +:+ col_name target)).

(** Appends to [all_cols]. *)
Fixpoint get_all_cols (tab_names : list string) (all_cols : list ColMeta) : outcome (list ColMeta) :=
  match tab_names with
  | [] => Ret all_cols
  | t :: tab_names' => tab ← get_table db t; get_all_cols tab_names' (all_cols ++ tm_cols tab)
  end.

Definition convert_sv_value (sv_val : ast.Value) : outcome Value :=
  match sv_val with
  | ast.IntLit v => Ret (set_int v Value_init)
  | ast.FloatLit v => Ret (set_float v Value_init)
  | ast.StringLit v => Ret (set_str v Value_init)
  | ast.BareValue => Throw (InternalError "Unexpected sv value type")
  end.

Definition convert_sv_comp_op (op : ast.SvCompOp) : CompOp :=
  match op with
  | ast.SV_OP_EQ => OP_EQ
  | ast.SV_OP_NE => OP_NE
  | ast.SV_OP_LT => OP_LT
  | ast.SV_OP_GT => OP_GT
  | ast.SV_OP_LE => OP_LE
  | ast.SV_OP_GE => OP_GE
  end.

Definition tabcol_of (c : ast.Col) : TabCol := mkTabCol (ast.c_tab_name c) (ast.c_col_name c).

(** One iteration of [get_clause]. *)
Definition get_cond (expr : ast.BinaryExpr) : outcome Condition :=
  let l := tabcol_of (ast.be_lhs expr) in
  let o := convert_sv_comp_op (ast.be_op expr) in
  match ast.be_rhs expr with
  | ast.EValue v => v ← convert_sv_value v; Ret (mkCondition l o true (mkTabCol "" "") v)
  | ast.ECol c => Ret (mkCondition l o false (tabcol_of c) Value_init)
  end.

Definition get_clause (sv_conds : list ast.BinaryExpr) : outcome (list Condition) := omap_list get_cond sv_conds.

(** One iteration of [check_clause]. *)
Definition check_cond (all_cols : list ColMeta) (cond : Condition) : outcome Condition :=
  l ← check_column all_cols (lhs_col cond);
  r ← (if is_rhs_val cond then Ret (rhs_col cond) else check_column all_cols (rhs_col cond));
  lhs_tab ← get_table db (tab_name l);
  lcol ← get_col lhs_tab (col_name l);
  '(v, rhs_type) ←
    (if is_rhs_val cond then v ← init_raw (cm_len lcol) (rhs_val cond); Ret (v, type v)
     else rhs_tab ← get_table db (tab_name r);
          rcol ← get_col rhs_tab (col_name r); Ret (rhs_val cond, cm_type rcol));
  if decide (cm_type lcol = rhs_type) then Ret (mkCondition l (op cond) (is_rhs_val cond) r v)
  else Throw (IncompatibleTypeError (coltype2str (cm_type lcol)) (coltype2str rhs_type)).

Definition check_clause (tab_names : list string) (conds : list Condition) : outcome (list Condition) :=
  all_cols ← get_all_cols tab_names [];
  omap_list (check_cond all_cols) conds.

(** The check that the tables of a query exist. *)
Fixpoint check_tables (tabs : list string) : outcome unit :=
  match tabs with
  | [] => Ret tt
  | t :: tabs' => if is_table db t then check_tables tabs' else Throw (TableNotFoundError t)
  end.

(** One iteration over the assignments of an [UPDATE]. *)
Definition check_set (tab : TabMeta) (c : SetClause) : outcome SetClause :=
  lcol ← get_col tab (col_name (lhs c));
  if decide (cm_type lcol = type (rhs c)) then
    v ← init_raw (cm_len lcol) (rhs c); Ret (mkSetClause (lhs c) v)
  else Throw (IncompatibleTypeError (coltype2str (cm_type lcol)) (coltype2str (type (rhs c)))).

Definition convert_set (sv : ast.SetClause) : outcome SetClause :=
  v ← convert_sv_value (ast.sc_val sv); Ret (mkSetClause (mkTabCol "" (ast.sc_col_name sv)) v).

(** The columns of a query: all of them, or those named, each resolved. *)
Definition select_cols (all_cols : list ColMeta) (sel : list TabCol) : outcome (list TabCol) :=
  match sel with
  | [] => Ret ((λ col, mkTabCol (cm_tab_name col) (cm_name col)) <$> all_cols)
  | _ => omap_list (check_column all_cols) sel
  end.

(** [do_analyze]: the vector of table names is moved out of the syntax tree. *)
Definition do_analyze (root : ast.TreeNode) : outcome Query :=
  match root with
  | ast.SelectStmt x =>
      let tabs := ast.sel_tabs x in
      check_tables tabs ≫= λ _,
      all_cols ← get_all_cols tabs [];
      cs ← select_cols all_cols (tabcol_of <$> ast.sel_cols x);
      ws ← get_clause (ast.sel_conds x);
      ws ← check_clause tabs ws;
      let x' := ast.mkSelectNode (ast.sel_cols x) [] (ast.sel_conds x) (ast.jointree x) (ast.has_sort x) (ast.order x) in
      Ret (mkQuery (ast.SelectStmt x') ws cs tabs [] [])
  | ast.UpdateStmt t sets ws =>
      sets ← omap_list convert_set sets;
      tab ← get_table db t;
      sets ← omap_list (check_set tab) sets;
      ws ← get_clause ws;
      ws ← check_clause [t] ws;
      Ret (mkQuery root ws [] [] sets [])
  | ast.DeleteStmt t ws =>
      ws ← get_clause ws;
      ws ← check_clause [t] ws;
      Ret (mkQuery root ws [] [] [] [])
  | ast.InsertStmt t vals =>
      vs ← omap_list convert_sv_value vals;
      Ret (mkQuery root [] [] [] [] vs)
  | _ => Ret (mkQuery root [] [] [] [] [])
  end.

End analyze.

(** ** What the analysis accepts *)

(** The column [t.c] of the catalogue. *)
Definition column (db : DbMeta) (t c : string) (col : ColMeta) : Prop :=
  ∃ tab, get_table db t = Ret tab ∧ get_col tab c = Ret col.

(** Tables are named and each column is filed under its table. *)
Definition catalog_ok (db : DbMeta) : Prop :=
  ∀ t tab, sm_find t (tabs_ db) = Some tab → t ≠ "" ∧ ∀ col, col ∈ tm_cols tab → cm_tab_name col = t.

(** The columns of a query's tables that a bare name may mean. *)
Definition candidates (c : string) (all_cols : list ColMeta) : list ColMeta := filter (λ col, cm_name col = c) all_cols.

(** [target] resolves to the qualified name [tc]. *)
Definition resolves (db : DbMeta) (all_cols : list ColMeta) (target tc : TabCol) : Prop :=
  if decide (tab_name target = "")
  then ∃ col, candidates (col_name target) all_cols = [col] ∧ tc = mkTabCol (cm_tab_name col) (col_name target)
  else tc = target ∧ ∃ col, column db (tab_name target) (col_name target) col.

Definition value_types (v : Value) (col : ColMeta) : Prop :=
  type v = cm_type col ∧ value_fits v (cm_len col).

(** The literal with the bytes it has in column [col]. *)
Definition value_in (v : Value) (col : ColMeta) : Value :=
  with_raw v (Some (mkRmRecord (value_bytes v (cm_len col)) (cm_len col) true)).

(** The condition [c0] of the syntax is well typed and means [c]. *)
Definition cond_typed (db : DbMeta) (all_cols : list ColMeta) (c0 c : Condition) : Prop :=
  resolves db all_cols (lhs_col c0) (lhs_col c) ∧ op c = op c0 ∧ is_rhs_val c = is_rhs_val c0 ∧
  ∃ lcol, column db (tab_name (lhs_col c)) (col_name (lhs_col c)) lcol ∧
  if is_rhs_val c0 then
    rhs_col c = rhs_col c0 ∧ value_types (rhs_val c0) lcol ∧ rhs_val c = value_in (rhs_val c0) lcol
  else
    resolves db all_cols (rhs_col c0) (rhs_col c) ∧ rhs_val c = rhs_val c0 ∧
    ∃ rcol, column db (tab_name (rhs_col c)) (col_name (rhs_col c)) rcol ∧ cm_type lcol = cm_type rcol.

Section lemmas.
Context (db : DbMeta) (Hdb : catalog_ok db).

Lemma has_column_true t c : has_column db t c = true ↔ ∃ col, column db t c col.
Proof.
  unfold has_column, column. destruct (get_table db t) as [tab| |] eqn:E; [|naive_solver..].
  rewrite is_col_true. split.
  - intros (col&Hin&Hc). destruct (get_col_cases tab c) as [(col'&?&?)|[_ Hn]]; [naive_solver|].
    exfalso. apply not_true_iff_false in Hn. apply Hn, is_col_true. eauto.
  - intros (col&tab'&[= <-]&Hc). apply get_col_Ret in Hc as (i&?&?&_).
    exists col. split; [by eapply list_elem_of_lookup_2|done].
Qed.

Lemma get_all_cols_app ts acc all :
  get_all_cols db ts acc = Ret all →
  ∃ tabs, Forall2 (λ t tab, get_table db t = Ret tab) ts tabs ∧ all = acc ++ mjoin (tm_cols <$> tabs).
Proof.
  revert acc; induction ts as [|t ts IH]; intros acc; simpl.
  - intros [= ->]. exists []. rewrite app_nil_r. split; [constructor|done].
  - intros (tab&Ht&(tabs&Hf&->)%IH)%obind_Ret. exists (tab :: tabs). split; [by constructor|].
    simpl. by rewrite app_assoc.
Qed.

Lemma all_cols_in ts all col :
  get_all_cols db ts [] = Ret all → col ∈ all →
  cm_tab_name col ≠ "" ∧ cm_tab_name col ∈ ts ∧ ∃ tab, get_table db (cm_tab_name col) = Ret tab ∧ col ∈ tm_cols tab.
Proof using Hdb.
  intros (tabs&Hf&->)%get_all_cols_app. simpl. intros (cs&Hc&(tab&->&Htab)%list_elem_of_fmap)%list_elem_of_join.
  apply list_elem_of_lookup in Htab as [i Hi].
  destruct (Forall2_lookup_r _ _ _ _ _ Hf Hi) as (t&Ht&E).
  destruct (Hdb t tab) as [Hne Hcol]; [by apply get_table_Ret|].
  rewrite (Hcol col Hc). split_and!; [done|by eapply list_elem_of_lookup_2|eauto].
Qed.

Lemma all_cols_nonempty ts all : get_all_cols db ts [] = Ret all → Forall (λ col, cm_tab_name col ≠ "") all.
Proof using Hdb. intros H. apply Forall_forall. intros col Hc. by destruct (all_cols_in _ _ _ H Hc). Qed.

(** The loop counts the columns of that name. *)
Lemma infer_table_spec c all_cols t0 :
  Forall (λ col, cm_tab_name col ≠ "") all_cols →
  infer_table c all_cols t0 =
    match candidates c all_cols with
    | [] => Ret t0
    | col :: rest =>
        if decide (t0 = "" ∧ rest = []) then Ret (cm_tab_name col) else Throw (AmbiguousColumnError c)
    end.
Proof.
  intros Hf. revert t0. induction Hf as [|col all_cols Hc _ IH]; intros t0; simpl; [done|].
  unfold candidates in *. rewrite filter_cons. destruct (decide (cm_name col = c)); [|apply IH].
  destruct (decide (t0 = "")) as [->|Ht].
  - rewrite IH. destruct (filter _ all_cols) as [|col' rest]; [by rewrite decide_True|].
    rewrite !decide_False by naive_solver. done.
  - by rewrite decide_False by naive_solver.
Qed.

Lemma check_column_eq all_cols target :
  Forall (λ col, cm_tab_name col ≠ "") all_cols →
  check_column db all_cols target =
    if decide (tab_name target = "") then
      match candidates (col_name target) all_cols with
      | [] => Throw (ColumnNotFoundError (col_name target))
      | [col] => Ret (mkTabCol (cm_tab_name col) (col_name target))
      | _ => Throw (AmbiguousColumnError (col_name target))
      end
    else if has_column db (tab_name target) (col_name target) then Ret target
    else Throw (ColumnNotFoundError (tab_name target +:+ "." +:+ col_name target)).
Proof.
  intros Hf. unfold check_column. destruct (decide (tab_name target = "")); [|done].
  rewrite infer_table_spec by done.
  destruct (candidates (col_name target) all_cols) as [|col [|col' rest]] eqn:E; [done| |].
  - rewrite decide_True by done. unfold mbind, outcome_bind. rewrite decide_False; [done|].
    rewrite Forall_forall in Hf. apply Hf. assert (col ∈ candidates (col_name target) all_cols) as Hin.
    { rewrite E. left. }
    by apply list_elem_of_filter in Hin as [_ ?].
  - by rewrite decide_False by naive_solver.
Qed.

Lemma check_column_Ret ts all_cols target tc :
  get_all_cols db ts [] = Ret all_cols →
  check_column db all_cols target = Ret tc ↔ resolves db all_cols target tc.
Proof using Hdb.
  intros Ha. rewrite check_column_eq by by eapply all_cols_nonempty. unfold resolves.
  destruct (decide (tab_name target = "")).
  - destruct (candidates _ all_cols) as [|col [|col' rest]]; naive_solver.
  - rewrite <- has_column_true. destruct (has_column _ _ _); naive_solver.
Qed.

(** A resolved name is a column of the catalogue. *)
Lemma resolves_column ts all_cols target tc :
  get_all_cols db ts [] = Ret all_cols → resolves db all_cols target tc →
  ∃ col, column db (tab_name tc) (col_name tc) col.
Proof using Hdb.
  intros Ha. unfold resolves. case_decide as Ht; [|naive_solver]. intros (col&Hc&->). simpl.
  assert (col ∈ candidates (col_name target) all_cols) as [Hn Hin]%list_elem_of_filter by (rewrite Hc; left).
  destruct (all_cols_in _ _ _ Ha Hin) as (_&_&tab&Htab&Hcol).
  apply has_column_true. unfold has_column. rewrite Htab. apply is_col_true. eauto.
Qed.
End lemmas.

(** ** Conditions *)

Lemma init_raw_typed v len v' : raw v = None →
  init_raw len v = Ret v' ↔ value_fits v len ∧ v' = with_raw v (Some (mkRmRecord (value_bytes v len) len true)).
Proof.
  intros Hr. split.
  - intros (_&?&?)%init_raw_Ret. done.
  - intros [Hf ->]. by apply init_raw_ok.
Qed.

Lemma column_det db t c col1 col2 : column db t c col1 → column db t c col2 → col1 = col2.
Proof. intros (?&H1&H2) (?&H3&H4). congruence. Qed.

Lemma obind_column {B} db t c (k : ColMeta → outcome B) b :
  (tab ← get_table db t; col ← get_col tab c; k col) = Ret b ↔ ∃ col, column db t c col ∧ k col = Ret b.
Proof.
  rewrite obind_Ret. unfold column. setoid_rewrite obind_Ret. naive_solver.
Qed.

Lemma check_cond_Ret db ts all_cols c0 c :
  catalog_ok db → get_all_cols db ts [] = Ret all_cols → raw (rhs_val c0) = None →
  check_cond db all_cols c0 = Ret c ↔ cond_typed db all_cols c0 c.
Proof.
  intros Hdb Ha Hraw. unfold check_cond, cond_typed, value_types, value_in.
  rewrite obind_Ret. setoid_rewrite (check_column_Ret db Hdb _ _ _ _ Ha).
  destruct c0 as [l0 o0 b0 r0 v0], c as [l o b r v]; simpl in *. destruct b0; split.
  - intros (l'&Hl&(r'&[= <-]&(lcol&Hc&H)%obind_column)%obind_Ret).
    apply obind_Ret in H as ([v' t]&(v1&[Hf ->]%(init_raw_typed _ _ _ Hraw)&[= <- <-])%obind_Ret&H).
    simpl in H. case_decide; [|done]. injection H as <- <- <- <- <-. naive_solver.
  - intros (Hl&->&->&lcol&Hc&->&[Ht Hf]&->). exists l. split; [done|].
    apply obind_Ret. exists r0. split; [done|]. apply obind_column. exists lcol. split; [done|].
    apply obind_Ret. exists (with_raw v0 (Some (mkRmRecord (value_bytes v0 (cm_len lcol)) (cm_len lcol) true)), type v0).
    split; [apply obind_Ret; eexists; split; [by apply init_raw_typed|done]|]. by rewrite decide_True.
  - intros (l'&Hl&(r'&Hr%(check_column_Ret db Hdb _ _ _ _ Ha)&(lcol&Hc&H)%obind_column)%obind_Ret).
    apply obind_Ret in H as ([v' t]&(rcol&Hrc&[= <- <-])%obind_column&H).
    case_decide; [|done]. injection H as <- <- <- <- <-. naive_solver.
  - intros (Hl&->&->&lcol&Hc&Hr&->&rcol&Hrc&Ht). exists l. split; [done|].
    apply obind_Ret. exists r. split; [by apply (check_column_Ret db Hdb _ _ _ _ Ha)|].
    apply obind_column. exists lcol. split; [done|].
    apply obind_Ret. exists (v0, cm_type rcol). split; [apply obind_column; by exists rcol|]. by rewrite decide_True.
Qed.

(** The meaning of a condition of the syntax before names are resolved. *)
Definition sv_value_of (v : ast.Value) : option Value :=
  match v with
  | ast.IntLit z => Some (mkValue TYPE_INT z "" None)
  | ast.FloatLit z => Some (mkValue TYPE_FLOAT z "" None)
  | ast.StringLit s => Some (mkValue TYPE_STRING 0 s None)
  | ast.BareValue => None
  end.

Lemma convert_sv_value_Ret sv v : convert_sv_value sv = Ret v ↔ sv_value_of sv = Some v.
Proof. destruct sv; naive_solver. Qed.

Lemma sv_value_raw sv v : sv_value_of sv = Some v → raw v = None.
Proof. destruct sv; naive_solver. Qed.

(** A condition of the syntax: well typed with meaning [c]. *)
Definition expr_typed (db : DbMeta) (all_cols : list ColMeta) (e : ast.BinaryExpr) (c : Condition) : Prop :=
  ∃ c0, get_cond e = Ret c0 ∧ cond_typed db all_cols c0 c.

Lemma get_cond_raw e c0 : get_cond e = Ret c0 → raw (rhs_val c0) = None.
Proof.
  unfold get_cond. destruct (ast.be_rhs e) as [v|c]; [|by intros [= <-]].
  intros (v'&Hv%convert_sv_value_Ret&[= <-])%obind_Ret. by apply sv_value_raw in Hv.
Qed.

Lemma clauses_Ret db ts all_cols es cs :
  catalog_ok db → get_all_cols db ts [] = Ret all_cols →
  (ws ← get_clause es; check_clause db ts ws) = Ret cs ↔ Forall2 (expr_typed db all_cols) es cs.
Proof.
  intros Hdb Ha. rewrite obind_Ret. unfold get_clause, check_clause. rewrite Ha. simpl.
  setoid_rewrite omap_list_Ret. unfold expr_typed. split.
  - intros (ws&H1&H2). revert cs H2. induction H1 as [|e w es ws He _ IH]; intros cs H2.
    + apply Forall2_nil_inv_l in H2 as ->. constructor.
    + apply Forall2_cons_inv_l in H2 as (c&cs'&Hc&H2&->). constructor; [|auto]. exists w. split; [done|].
      apply (check_cond_Ret _ ts); [done|done|by eapply get_cond_raw|done].
  - induction 1 as [|e c es cs (c0&He&Hc) _ (ws&H1&H2)]; [exists []; split; constructor|].
    exists (c0 :: ws). split; constructor; try done. apply (check_cond_Ret _ ts); [done|done|by eapply get_cond_raw|done].
Qed.

Lemma check_tables_Ret db ts : check_tables db ts = Ret tt ↔ ∃ all, get_all_cols db ts [] = Ret all.
Proof.
  assert (∀ acc, check_tables db ts = Ret tt ↔ ∃ all, get_all_cols db ts acc = Ret all) as H; [|apply H].
  induction ts as [|t ts IH]; intros acc; simpl; [naive_solver|].
  unfold is_table, get_table. destruct (sm_find t (tabs_ db)) as [tab|]; simpl; [apply IH|naive_solver].
Qed.

Lemma filter_one {A} (P : A → Prop) `{∀ x, Decision (P x)} (l : list A) x r :
  filter P l = x :: r → ∃ i, l !! i = Some x ∧ P x ∧ filter P (drop (S i) l) = r.
Proof.
  induction l as [|a l IH]; [done|]. rewrite filter_cons. case_decide.
  - intros [= -> <-]. by exists 0%nat.
  - intros (i&?&?&?)%IH. by exists (S i).
Qed.

Lemma filter_two c all c1 c2 r :
  candidates c all = c1 :: c2 :: r →
  ∃ i j c1 c2, (i < j)%nat ∧ all !! i = Some c1 ∧ all !! j = Some c2 ∧ cm_name c1 = c ∧ cm_name c2 = c.
Proof.
  intros (i&Hi&Hc1&(j&Hj&Hc2&_)%filter_one)%filter_one. rewrite lookup_drop in Hj.
  exists i, (S i + j)%nat, c1, c2. split_and!; try done. lia.
Qed.

Lemma select_cols_Ret db ts all_cols sel cs :
  catalog_ok db → get_all_cols db ts [] = Ret all_cols →
  select_cols db all_cols (tabcol_of <$> sel) = Ret cs ↔
  if decide (sel = []) then cs = (λ col, mkTabCol (cm_tab_name col) (cm_name col)) <$> all_cols
  else Forall2 (λ c, resolves db all_cols (tabcol_of c)) sel cs.
Proof.
  intros Hdb Ha. case_decide as Hs; [subst; simpl; naive_solver|].
  assert (select_cols db all_cols (tabcol_of <$> sel) = omap_list (check_column db all_cols) (tabcol_of <$> sel)) as ->
    by by destruct sel.
  rewrite omap_list_Ret, Forall2_fmap_l.
  split; intros Hf; (eapply Forall2_impl; [exact Hf|]); intros c tc; by apply (check_column_Ret db Hdb ts).
Qed.

(** ** Statements *)

(** Name resolution on every branch.  A column name is accepted exactly when it
    resolves (a bare name to the single column of that name among the tables of the query,
    a qualified one to itself if the catalogue has it), and what it resolves to is a column
    of the catalogue; otherwise the error says why: no such column, or several. *)
Theorem check_column_cases db ts all_cols target :
  catalog_ok db → get_all_cols db ts [] = Ret all_cols →
  match check_column db all_cols target with
  | Ret tc => resolves db all_cols target tc ∧ ∃ col, column db (tab_name tc) (col_name tc) col
  | Throw (ColumnNotFoundError m) =>
      if decide (tab_name target = "")
      then m = col_name target ∧ ∀ col, col ∈ all_cols → cm_name col ≠ col_name target
      else m = tab_name target +:+ "." +:+ col_name target ∧
           ∀ col, ¬ column db (tab_name target) (col_name target) col
  | Throw (AmbiguousColumnError m) =>
      tab_name target = "" ∧ m = col_name target ∧
      ∃ i j c1 c2, (i < j)%nat ∧ all_cols !! i = Some c1 ∧ all_cols !! j = Some c2 ∧
        cm_name c1 = col_name target ∧ cm_name c2 = col_name target
  | _ => False
  end.
Proof.
  intros Hdb Ha. destruct (check_column db all_cols target) as [tc|e|] eqn:E.
  - apply (check_column_Ret db Hdb _ _ _ _ Ha) in E. split; [done|]. by eapply resolves_column.
  - rewrite check_column_eq in E by by eapply all_cols_nonempty. case_decide as Ht.
    + destruct (candidates _ all_cols) as [|c1 [|c2 rest]] eqn:Ec; [|done|]; injection E as <-.
      * split; [done|]. intros col Hin Hn.
        assert (col ∈ candidates (col_name target) all_cols) as Hc by by apply list_elem_of_filter.
        rewrite Ec in Hc. by apply not_elem_of_nil in Hc.
      * split_and!; [done..|]. by apply filter_two in Ec.
    + destruct (has_column _ _ _) eqn:Hh; [done|]. injection E as <-.
      split; [done|]. intros col Hc. apply not_true_iff_false in Hh. apply Hh, has_column_true. eauto.
  - rewrite check_column_eq in E by by eapply all_cols_nonempty. by repeat case_match.
Qed.

(** C25: Analysis of [SELECT].  The analysis succeeds exactly on the well-typed queries and
    gives their meaning: every table exists; the columns asked for resolve ([SELECT *] stands
    for all columns of the tables in order); each condition compares a column with a column of
    its type, or with a literal of its type that fits it and is laid out in its width. *)
Theorem analyze_select db x q :
  catalog_ok db →
  do_analyze db (ast.SelectStmt x) = Ret q ↔
  ∃ all_cols,
    get_all_cols db (ast.sel_tabs x) [] = Ret all_cols ∧
    (if decide (ast.sel_cols x = []) then cols q = (λ col, mkTabCol (cm_tab_name col) (cm_name col)) <$> all_cols
     else Forall2 (λ c, resolves db all_cols (tabcol_of c)) (ast.sel_cols x) (cols q)) ∧
    Forall2 (expr_typed db all_cols) (ast.sel_conds x) (conds q) ∧
    tables q = ast.sel_tabs x ∧ set_clauses q = [] ∧ values q = [] ∧
    parse q = ast.SelectStmt (ast.mkSelectNode (ast.sel_cols x) [] (ast.sel_conds x) (ast.jointree x)
                                (ast.has_sort x) (ast.order x)).
Proof.
  intros Hdb. simpl. rewrite obind_Ret. split.
  - intros ([]&Ht&(all&Ha&(cs&Hcs&H)%obind_Ret)%obind_Ret). exists all.
    apply obind_Ret in H as (w0&H0&(ws&Hws&[= <-])%obind_Ret). simpl.
    split_and!; try done; [|apply (clauses_Ret _ _ _ _ _ Hdb Ha), obind_Ret; eauto].
    by apply (select_cols_Ret _ _ _ _ _ Hdb Ha).
  - intros (all&Ha&Hcs&Hws&Hq1&Hq2&Hq3&Hq4). exists tt. split; [apply check_tables_Ret; eauto|].
    apply obind_Ret. exists all. split; [done|]. apply obind_Ret. exists (cols q).
    split; [by apply (select_cols_Ret _ _ _ _ _ Hdb Ha)|].
    apply (clauses_Ret _ _ _ _ _ Hdb Ha), obind_Ret in Hws as (w0&H0&H1). apply obind_Ret. exists w0. split; [done|].
    apply obind_Ret. exists (conds q). split; [done|]. destruct q; simpl in *. congruence.
Qed.

(** The assignment [c] that [sv] means in table [tab]. *)
Definition set_typed (tab : TabMeta) (sv : ast.SetClause) (c : SetClause) : Prop :=
  ∃ v col, sv_value_of (ast.sc_val sv) = Some v ∧ get_col tab (ast.sc_col_name sv) = Ret col ∧
    value_types v col ∧ c = mkSetClause (mkTabCol "" (ast.sc_col_name sv)) (value_in v col).

Lemma sets_Ret tab svs cs :
  (l ← omap_list convert_set svs; omap_list (check_set tab) l) = Ret cs ↔ Forall2 (set_typed tab) svs cs.
Proof.
  rewrite obind_Ret. setoid_rewrite omap_list_Ret.
  assert (∀ sv c, set_typed tab sv c ↔ ∃ c0, convert_set sv = Ret c0 ∧ check_set tab c0 = Ret c) as Hst.
  { intros sv c. unfold set_typed, convert_set, check_set. split.
    - intros (v&col&Hv&Hc&[Ht Hf]&->). exists (mkSetClause (mkTabCol "" (ast.sc_col_name sv)) v).
      split; [apply obind_Ret; exists v; by rewrite convert_sv_value_Ret|]. simpl. rewrite Hc. simpl.
      rewrite decide_True by done. apply obind_Ret. exists (value_in v col). split; [|done].
      apply init_raw_typed; [by eapply sv_value_raw|done].
    - intros (c0&(v&Hv%convert_sv_value_Ret&[= <-])%obind_Ret&H). simpl in H.
      apply obind_Ret in H as (col&Hc&H). case_decide as Ht; [|done].
      apply obind_Ret in H as (v'&[Hf ->]%init_raw_typed&[= <-]); [|by eapply sv_value_raw].
      exists v, col. split_and!; done. }
  split.
  - intros (l&H1&H2). revert cs H2. induction H1 as [|sv c0 svs l Hsv _ IH]; intros cs H2.
    + apply Forall2_nil_inv_l in H2 as ->. constructor.
    + apply Forall2_cons_inv_l in H2 as (c&cs'&Hc&H2&->). constructor; [apply Hst; eauto|auto].
  - induction 1 as [|sv c svs cs (c0&H1&H2)%Hst _ (l&H3&H4)]; [by exists []|].
    exists (c0 :: l). split; by constructor.
Qed.

(** C26: Analysis of [UPDATE] and [DELETE].  It succeeds exactly when the table exists, each
    assignment gives a column of the table a literal of its type that fits its width, and the
    conditions are well typed over the columns of the table; the literals come out laid out
    in the width of their columns. *)
Theorem analyze_update_delete db t svs es q :
  catalog_ok db →
  (do_analyze db (ast.UpdateStmt t svs es) = Ret q ↔
   ∃ tab, get_table db t = Ret tab ∧ Forall2 (set_typed tab) svs (set_clauses q) ∧
     Forall2 (expr_typed db (tm_cols tab)) es (conds q) ∧
     q = mkQuery (ast.UpdateStmt t svs es) (conds q) [] [] (set_clauses q) []) ∧
  (do_analyze db (ast.DeleteStmt t es) = Ret q ↔
   ∃ tab, get_table db t = Ret tab ∧ Forall2 (expr_typed db (tm_cols tab)) es (conds q) ∧
     q = mkQuery (ast.DeleteStmt t es) (conds q) [] [] [] []).
Proof.
  intros Hdb.
  assert (∀ tab, get_table db t = Ret tab → get_all_cols db [t] [] = Ret (tm_cols tab)) as Ha
    by (intros tab Htab; simpl; by rewrite Htab).
  split; simpl; split.
  - intros (l&Hl&(tab&Htab&(sets&Hsets&(w0&H0&(ws&Hws&[= <-])%obind_Ret)%obind_Ret)%obind_Ret)%obind_Ret)%obind_Ret.
    exists tab. simpl. split_and!; [done| | |done].
    + apply sets_Ret, obind_Ret. eauto.
    + apply (clauses_Ret _ _ _ _ _ Hdb (Ha _ Htab)), obind_Ret. eauto.
  - intros (tab&Htab&Hsets&Hws&Hq). apply sets_Ret, obind_Ret in Hsets as (l&Hl&Hsets).
    apply (clauses_Ret _ _ _ _ _ Hdb (Ha _ Htab)), obind_Ret in Hws as (w0&H0&H1).
    rewrite Hl. simpl. rewrite Htab. simpl. rewrite Hsets. simpl. rewrite H0. simpl. rewrite H1. simpl. congruence.
  - intros (w0&H0&(ws&Hws&[= <-])%obind_Ret)%obind_Ret.
    assert (∃ tab, get_table db t = Ret tab) as [tab Htab].
    { unfold check_clause in Hws. simpl in Hws. destruct (get_table db t) as [tab| |]; [eauto|done..]. }
    exists tab. simpl. split_and!; [done| |done].
    apply (clauses_Ret _ _ _ _ _ Hdb (Ha _ Htab)), obind_Ret. eauto.
  - intros (tab&Htab&Hws&Hq).
    apply (clauses_Ret _ _ _ _ _ Hdb (Ha _ Htab)), obind_Ret in Hws as (w0&H0&H1).
    rewrite H0. simpl. rewrite H1. simpl. congruence.
Qed.

(** A number as the right side of a condition, and its type. *)
Definition number_type (v : ast.Value) : option ColType :=
  match v with ast.IntLit _ => Some TYPE_INT | ast.FloatLit _ => Some TYPE_FLOAT | _ => None end.

(** What the analysis of a condition that compares the character column [col] with a number of the type
    [ty] ends in. *)
Definition number_error {A} (col : ColMeta) (ty : ColType) : outcome A :=
  if decide (cm_len col = 4) then Throw (IncompatibleTypeError (coltype2str TYPE_STRING) (coltype2str ty))
  else Crash AssertFailed.

Lemma omap_list_stops {A B} (f : A → outcome B) l1 x l2 ys e :
  Forall2 (λ x y, f x = Ret y) l1 ys → f x = e → (∀ y, e ≠ Ret y) →
  omap_list f (l1 ++ x :: l2) = match e with Throw e => Throw e | Crash c => Crash c | Ret _ => Crash AssertFailed end.
Proof.
  intros H Hx He. induction H as [|x' y l1 ys Hy _ IH]; simpl.
  - rewrite Hx. destruct e; [by destruct (He a)|done..].
  - rewrite Hy. simpl. rewrite IH. by destruct e.
Qed.

Lemma number_cond db ts all_cols e v ty tc col :
  catalog_ok db → get_all_cols db ts [] = Ret all_cols →
  ast.be_rhs e = ast.EValue v → number_type v = Some ty →
  resolves db all_cols (tabcol_of (ast.be_lhs e)) tc → column db (tab_name tc) (col_name tc) col → cm_type col = TYPE_STRING →
  ∃ c0, get_cond e = Ret c0 ∧ check_cond db all_cols c0 = number_error col ty.
Proof.
  intros Hdb Ha He Hv Hr (tab&Htab&Hcol) Hty. unfold get_cond. rewrite He.
  apply (check_column_Ret db Hdb _ _ _ _ Ha) in Hr. unfold number_error.
  destruct v as [z|z| |]; try done; injection Hv as <-; (eexists; split; [reflexivity|]);
    unfold check_cond; simpl; rewrite Hr; simpl; rewrite Htab; simpl; rewrite Hcol; simpl; unfold init_raw; simpl;
    (case_decide as Hl; [rewrite Hl; simpl; rewrite Hty; by rewrite decide_False|by rewrite (proj2 (Z.eqb_neq _ _))]).
Qed.

(** The conditions of a statement, when one of them compares a character column with a number. *)
Lemma number_clause db ts all_cols es1 cs1 e v ty tc col es2 ws2 :
  catalog_ok db → get_all_cols db ts [] = Ret all_cols → Forall2 (expr_typed db all_cols) es1 cs1 →
  ast.be_rhs e = ast.EValue v → number_type v = Some ty →
  resolves db all_cols (tabcol_of (ast.be_lhs e)) tc → column db (tab_name tc) (col_name tc) col → cm_type col = TYPE_STRING →
  get_clause es2 = Ret ws2 →
  ∃ ws, get_clause (es1 ++ e :: es2) = Ret ws ∧ check_clause db ts ws = number_error col ty.
Proof.
  intros Hdb Ha H1 He Hv Hr Hc Hty H2.
  destruct (number_cond db ts all_cols e v ty tc col Hdb Ha He Hv Hr Hc Hty) as (c0&Hg&Hk).
  apply (clauses_Ret _ _ _ _ _ Hdb Ha), obind_Ret in H1 as (ws1&Hg1&Hc1). unfold check_clause in Hc1. rewrite Ha in Hc1. simpl in Hc1.
  exists (ws1 ++ c0 :: ws2). split.
  - apply omap_list_Ret in Hg1, H2. apply omap_list_Ret, Forall2_app; [done|]. by constructor.
  - unfold check_clause. rewrite Ha. simpl. apply omap_list_Ret in Hc1. rewrite (omap_list_stops _ _ _ _ _ _ Hc1 Hk).
    + unfold number_error. by case_decide.
    + intros y. unfold number_error. by case_decide.
Qed.

(** C40: The literal of a condition is laid out before its type is compared.  When a DELETE, UPDATE or
    SELECT is well typed up to a condition that compares a character column (named with its table
    or alone) with an integer or a float, the failed assertion [len == sizeof(int)], or
    [len == sizeof(float)], of [init_raw] ends the server if the column is not 4 bytes wide; only for a CHAR(4) does the
    analysis throw the [IncompatibleTypeError].  Whether the conditions behind it are well typed does
    not matter (their right sides are literals or columns, as the parser makes them). *)
Theorem number_on_char_column_aborts db ts all_cols es1 cs1 e v ty tc col es2 ws2 :
  catalog_ok db → get_all_cols db ts [] = Ret all_cols → Forall2 (expr_typed db all_cols) es1 cs1 →
  ast.be_rhs e = ast.EValue v → number_type v = Some ty →
  resolves db all_cols (tabcol_of (ast.be_lhs e)) tc → column db (tab_name tc) (col_name tc) col → cm_type col = TYPE_STRING →
  get_clause es2 = Ret ws2 →
  let failed := if decide (cm_len col = 4) then Throw (IncompatibleTypeError (coltype2str TYPE_STRING) (coltype2str ty))
                else Crash AssertFailed in
  (∀ t, ts = [t] → do_analyze db (ast.DeleteStmt t (es1 ++ e :: es2)) = failed) ∧
  (∀ t tab svs sets, ts = [t] → get_table db t = Ret tab → Forall2 (set_typed tab) svs sets →
     do_analyze db (ast.UpdateStmt t svs (es1 ++ e :: es2)) = failed) ∧
  (∀ x cs, ast.sel_tabs x = ts → ast.sel_conds x = es1 ++ e :: es2 →
     select_cols db all_cols (tabcol_of <$> ast.sel_cols x) = Ret cs → do_analyze db (ast.SelectStmt x) = failed).
Proof.
  intros Hdb Ha H1 He Hv Hr Hc Hty H2 failed.
  destruct (number_clause db ts all_cols es1 cs1 e v ty tc col es2 ws2) as (ws&Hg&Hk); [done..|]. unfold number_error in Hk. split_and!.
  - intros t ->. unfold do_analyze. rewrite Hg. simpl. rewrite Hk. subst failed. by case_decide.
  - intros t tab svs sets -> Htab Hsets. apply sets_Ret, obind_Ret in Hsets as (l&Hl&Hsets).
    unfold do_analyze. rewrite Hl. simpl. rewrite Htab. simpl. rewrite Hsets. simpl. rewrite Hg. simpl. rewrite Hk. subst failed. by case_decide.
  - intros x cs Hts Hcs Hsel. unfold do_analyze. rewrite Hts, Hcs.
    assert (Ht : check_tables db ts = Ret tt) by (apply check_tables_Ret; eauto). rewrite Ht. simpl. rewrite Ha. simpl. rewrite Hsel. simpl.
    rewrite Hg. simpl. rewrite Hk. subst failed. by case_decide.
Qed.

(** ** Instances *)

Definition analyze_db : DbMeta :=
  mkDbMeta "d" [("s", mkTabMeta "s" [mkColMeta "s" "id" TYPE_INT 4 0 false; mkColMeta "s" "sex" TYPE_STRING 2 4 false] []);
                ("t", mkTabMeta "t" [mkColMeta "t" "id" TYPE_INT 4 0 false; mkColMeta "t" "x" TYPE_FLOAT 4 4 false] [])].

Lemma analyze_db_ok : catalog_ok analyze_db.
Proof.
  intros t tab H. simpl in H. repeat case_decide; simplify_eq; (split; [done|]); simpl; intros col Hc;
    repeat (apply elem_of_cons in Hc as [->|Hc]; [done|]); by apply not_elem_of_nil in Hc.
Qed.

Definition analyze_all_cols : list ColMeta := mjoin (tm_cols <$> (tabs_ analyze_db).*2).

Lemma check_column_cases_witness :
  check_column analyze_db analyze_all_cols (mkTabCol "" "id") = Throw (AmbiguousColumnError "id") ∧
  resolves analyze_db analyze_all_cols (mkTabCol "" "sex") (mkTabCol "s" "sex") ∧
  ∃ col, column analyze_db "s" "sex" col.
Proof.
  split; [reflexivity|].
  assert (check_column analyze_db analyze_all_cols (mkTabCol "" "sex") = Ret (mkTabCol "s" "sex")) as E by reflexivity.
  pose proof (check_column_cases analyze_db ["s"; "t"] analyze_all_cols (mkTabCol "" "sex") analyze_db_ok eq_refl) as H.
  rewrite E in H. exact H.
Defined.

Definition analyze_query : ast.SelectNode :=
  ast.SelectNode_make [ast.mkCol "" "sex"; ast.mkCol "t" "id"] ["s"; "t"]
    [ast.mkBinaryExpr (ast.mkCol "" "x") ast.SV_OP_EQ (ast.EValue (ast.FloatLit 7));
     ast.mkBinaryExpr (ast.mkCol "s" "id") ast.SV_OP_LT (ast.ECol (ast.mkCol "t" "id"))] None.

Lemma analyze_select_witness :
  ∃ all_cols q, get_all_cols analyze_db ["s"; "t"] [] = Ret all_cols ∧ length (conds q) = 2%nat ∧
    Forall2 (λ c, resolves analyze_db all_cols (tabcol_of c)) (ast.sel_cols analyze_query) (cols q) ∧
    Forall2 (expr_typed analyze_db all_cols) (ast.sel_conds analyze_query) (conds q).
Proof.
  destruct (do_analyze analyze_db (ast.SelectStmt analyze_query)) as [q| |] eqn:E;
    [|exfalso; vm_compute in E; discriminate E|exfalso; vm_compute in E; discriminate E].
  pose proof E as E'. apply (analyze_select analyze_db analyze_query q analyze_db_ok) in E' as (all&Ha&Hc&Hw&_).
  exists all, q. split; [done|]. split; [|split; [exact Hc|exact Hw]].
  vm_compute in E. by injection E as <-.
Defined.

Lemma analyze_update_delete_witness :
  ∃ tab q, get_table analyze_db "s" = Ret tab ∧
    Forall2 (set_typed tab) [ast.mkSetClause "sex" (ast.StringLit "F")] (set_clauses q) ∧ length (set_clauses q) = 1%nat.
Proof.
  destruct (do_analyze analyze_db (ast.UpdateStmt "s" [ast.mkSetClause "sex" (ast.StringLit "F")] [])) as [q| |] eqn:E;
    [|exfalso; vm_compute in E; discriminate E|exfalso; vm_compute in E; discriminate E].
  pose proof E as E'.
  apply (proj1 (analyze_update_delete analyze_db "s" [ast.mkSetClause "sex" (ast.StringLit "F")] [] q analyze_db_ok))
    in E' as (tab&Ht&Hs&_).
  exists tab, q. split; [done|]. split; [exact Hs|]. vm_compute in E. by injection E as <-.
Defined.

(** [... where id = 1 and sex = 2], with the bare name of the column CHAR(2). *)
Lemma number_on_char_column_aborts_witness :
  let es := [ast.mkBinaryExpr (ast.mkCol "s" "id") ast.SV_OP_EQ (ast.EValue (ast.IntLit 1));
             ast.mkBinaryExpr (ast.mkCol "" "sex") ast.SV_OP_EQ (ast.EValue (ast.FloatLit 2))] in
  do_analyze analyze_db (ast.DeleteStmt "s" es) = Crash AssertFailed ∧
  do_analyze analyze_db (ast.UpdateStmt "s" [] es) = Crash AssertFailed ∧
  do_analyze analyze_db (ast.SelectStmt (ast.SelectNode_make [] ["s"] es None)) = Crash AssertFailed.
Proof.
  intros es. set (all := [mkColMeta "s" "id" TYPE_INT 4 0 false; mkColMeta "s" "sex" TYPE_STRING 2 4 false]).
  assert (Hes : ∃ cs, Forall2 (expr_typed analyze_db all) (take 1 es) cs).
  { destruct (ws ← get_clause (take 1 es); check_clause analyze_db ["s"] ws) as [cs| |] eqn:E; [|vm_compute in E; discriminate E..].
    exists cs. by apply (clauses_Ret _ ["s"] all _ _ analyze_db_ok eq_refl) in E. }
  destruct Hes as [cs Hes].
  destruct (number_on_char_column_aborts analyze_db ["s"] all (take 1 es) cs
    (ast.mkBinaryExpr (ast.mkCol "" "sex") ast.SV_OP_EQ (ast.EValue (ast.FloatLit 2))) (ast.FloatLit 2) TYPE_FLOAT
    (mkTabCol "s" "sex") (mkColMeta "s" "sex" TYPE_STRING 2 4 false) [] [] analyze_db_ok eq_refl Hes eq_refl eq_refl) as (H1&H2&H3).
  - exists (mkColMeta "s" "sex" TYPE_STRING 2 4 false). split; reflexivity.
  - eexists. split; reflexivity.
  - reflexivity.
  - reflexivity.
  - split; [exact (H1 "s" eq_refl)|]. split.
    + eapply (H2 "s"); [reflexivity|reflexivity|constructor].
    + eapply H3; reflexivity.
Defined.
