(* ===== verification/Plan.v ===== *)
(** * Query plans

    [optimizer/plan.h].  A plan tree owns its nodes: the planner moves subplans into their
    parent, and the scan plans it shares with its work vector are never written.  The null
    shared pointer is the constructor [NullPlan]. *)

From S2P Require Import Prelude Errors Config Values Meta Ast.
From stdpp Require Import options.

Inductive PlanTag :=
  | T_Invalid | T_Help | T_ShowTable | T_DescTable | T_CreateTable | T_DropTable | T_CreateIndex | T_DropIndex
  | T_Insert | T_Update | T_Delete | T_select
  | T_Transaction_begin | T_Transaction_commit | T_Transaction_abort | T_Transaction_rollback
  | T_SeqScan | T_IndexScan | T_NestLoop | T_Sort | T_Projection.

#[global] Instance PlanTag_eq_dec : EqDecision PlanTag.
Proof. solve_decision. Defined.

(** [ColDef] of [system/sm_manager.h]. *)
Record ColDef := mkColDef { def_name : string; def_type : ColType; def_len : Z }.

Inductive Plan :=
  | NullPlan
  | ScanPlan (tag : PlanTag) (tab_name_ : string) (cols_ : list ColMeta) (conds_ : list Condition) (len_ : Z)
      (fed_conds_ : list Condition) (index_col_names_ : list string)
  | JoinPlan (tag : PlanTag) (left_ right_ : Plan) (conds_ : list Condition) (type_ : JoinType)
  | ProjectionPlan (tag : PlanTag) (subplan_ : Plan) (sel_cols_ : list TabCol)
  | SortPlan (tag : PlanTag) (subplan_ : Plan) (sel_col_ : TabCol) (is_desc_ : bool)
  | DMLPlan (tag : PlanTag) (subplan_ : Plan) (tab_name_ : string) (values_ : list Value) (conds_ : list Condition)
      (set_clauses_ : list SetClause)
  | DDLPlan (tag : PlanTag) (tab_name_ : string) (tab_col_names_ : list string) (cols_ : list ColDef)
  | OtherPlan (tag : PlanTag) (tab_name_ : string).

Definition wrap_size_t (z : Z) : Z := z mod 2 ^ 64.

(** The constructor of [ScanPlan]; [cols_.back()] needs a column. *)
Definition ScanPlan_make (db : DbMeta) (tag : PlanTag) (tab_name : string) (conds : list Condition)
    (index_col_names : list string) : outcome Plan :=
  tab ← get_table db tab_name;
  back ← oaccess (last (tm_cols tab));
  Ret (ScanPlan tag tab_name (tm_cols tab) conds (wrap_size_t (cm_offset back + cm_len back)) conds index_col_names).

(** The constructor of [JoinPlan]. *)
Definition JoinPlan_make (tag : PlanTag) (l r : Plan) (conds : list Condition) : Plan :=
  JoinPlan tag l r conds INNER_JOIN.
