(* ===== verification/Planner.v ===== *)
(** * The planner

    [optimizer/planner.{h,cpp}] and [optimizer/optimizer.h]: from an analyzed query to a
    plan.  [make_one_rel] pushes single-table conditions into the scans and builds a join
    tree along the remaining conditions. *)

From S2P Require Import Prelude Errors Config StrMap Values Meta Ast Analyze Plan.
From stdpp Require Import options.

(** ** Conditions *)

(** The map [swap_op], and the exchange of the two sides of a condition. *)
Definition swap_op (o : CompOp) : CompOp :=
  match o with
  | OP_EQ => OP_EQ | OP_NE => OP_NE | OP_LT => OP_GT | OP_GT => OP_LT | OP_LE => OP_GE | OP_GE => OP_LE
  end.

Definition swap_cond (c : Condition) : Condition :=
  mkCondition (rhs_col c) (swap_op (op c)) (is_rhs_val c) (lhs_col c) (rhs_val c).

(** The test of [pop_conds]. *)
Definition solved_by (tab_names : string) (c : Condition) : bool :=
  (bool_decide (tab_names = tab_name (lhs_col c)) && is_rhs_val c) ||
  bool_decide (tab_name (lhs_col c) = tab_name (rhs_col c)).

(** [pop_conds]: the conditions taken out, and those left in the vector. *)
Fixpoint pop_conds (conds : list Condition) (tab_names : string) : list Condition * list Condition :=
  match conds with
  | [] => ([], [])
  | c :: conds' =>
      let '(solved, rest) := pop_conds conds' tab_names in
      if solved_by tab_names c then (c :: solved, rest) else (solved, c :: rest)
  end.

(** [push_conds]: the result code (1: the tree holds the table of the left side, 2: of the
    right side, 3: the condition has been put into a join of the tree, 0: neither) and the
    tree. *)
Fixpoint push_conds (cond : Condition) (plan : Plan) : Z * Plan :=
  match plan with
  | ScanPlan _ tab _ _ _ _ _ =>
      if decide (tab = tab_name (lhs_col cond)) then (1, plan)
      else if decide (tab = tab_name (rhs_col cond)) then (2, plan)
      else (0, plan)
  | JoinPlan tag l r conds ty =>
      let '(left_res, l') := push_conds cond l in
      if left_res =? 3 then (3, JoinPlan tag l' r conds ty)
      else
        let '(right_res, r') := push_conds cond r in
        if right_res =? 3 then (3, JoinPlan tag l' r' conds ty)
        else if (left_res =? 0) || (right_res =? 0) then (left_res + right_res, JoinPlan tag l' r' conds ty)
        else
          let cond := if left_res =? 2 then swap_cond cond else cond in
          (3, JoinPlan tag l' r' (conds ++ [cond]) ty)
  | _ => (0, plan)
  end.

(** ** make_one_rel *)

(** The locals of [make_one_rel] that [pop_scan] and the loops change. *)
Record JoinState := mkJoinState {
  scantbl : list Z;
  joined_tables : list string;
  table_join_executors : Plan;
}.

(** [pop_scan]: the first scan of the table; [plans] holds scans only. *)
Fixpoint find_scan (table : string) (plans : list Plan) (i : nat) : option (nat * Plan) :=
  match plans with
  | [] => None
  | p :: plans' =>
      match p with
      | ScanPlan _ tab _ _ _ _ _ => if decide (tab = table) then Some (i, p) else find_scan table plans' (S i)
      | _ => find_scan table plans' (S i)
      end
  end.

Definition pop_scan (table : string) (plans : list Plan) (s : JoinState) : Plan * JoinState :=
  match find_scan table plans 0 with
  | Some (i, p) =>
      (p, mkJoinState (<[i := 1]> (scantbl s)) (joined_tables s ++ [table]) (table_join_executors s))
  | None => (NullPlan, s)
  end.

Definition is_null (p : Plan) : bool := match p with NullPlan => true | _ => false end.

Definition set_join (p : Plan) (s : JoinState) : JoinState := mkJoinState (scantbl s) (joined_tables s) p.

(** The first layer of joins, from the first condition. *)
Definition join_first (plans : list Plan) (c : Condition) (s : JoinState) : JoinState :=
  let '(l, s) := pop_scan (tab_name (lhs_col c)) plans s in
  let '(r, s) := pop_scan (tab_name (rhs_col c)) plans s in
  set_join (JoinPlan_make T_NestLoop l r [c]) s.

(** [std::find(joined_tables..., t) == end]. *)
Definition not_joined (t : string) (s : JoinState) : bool := bool_decide (t ∉ joined_tables s).

(** One of the following conditions. *)
Definition join_next (plans : list Plan) (c : Condition) (s : JoinState) : JoinState :=
  let '(l, s) :=
    if not_joined (tab_name (lhs_col c)) s then pop_scan (tab_name (lhs_col c)) plans s else (NullPlan, s) in
  let '(r, isneedreverse, s) :=
    if not_joined (tab_name (rhs_col c)) s
    then let '(r, s) := pop_scan (tab_name (rhs_col c)) plans s in (r, true, s)
    else (NullPlan, false, s) in
  if negb (is_null l) && negb (is_null r) then
    let temp := JoinPlan_make T_NestLoop l r [c] in
    set_join (JoinPlan_make T_NestLoop temp (table_join_executors s) []) s
  else if negb (is_null l) || negb (is_null r) then
    let c' := if (isneedreverse : bool) then swap_cond c else c in
    let l' := if isneedreverse then r else l in
    set_join (JoinPlan_make T_NestLoop l' (table_join_executors s) [c']) s
  else set_join (push_conds c (table_join_executors s)).2 s.

(** The tables no condition has joined. *)
Fixpoint join_rest (plans : list Plan) (i : nat) (s : JoinState) : Plan :=
  match plans with
  | [] => table_join_executors s
  | p :: plans' =>
      if decide (scantbl s !! i = Some (-1))
      then join_rest plans' (S i) (set_join (JoinPlan_make T_NestLoop p (table_join_executors s) []) s)
      else join_rest plans' (S i) s
  end.

Section planner.
Context (db : DbMeta).

(** [get_index_cols]: the names found and whether an index on just these exists. *)
Definition get_index_cols (tab : string) (curr_conds : list Condition) : outcome (bool * list string) :=
  let names := (λ c, col_name (lhs_col c)) <$>
    filter (λ c, is_rhs_val c = true ∧ op c = OP_EQ ∧ tab_name (lhs_col c) = tab) curr_conds in
  t ← get_table db tab;
  Ret (is_index t names, names).

(** The scan of one table, by an index when one fits its conditions. *)
Definition make_scan (tab : string) (conds : list Condition) : outcome Plan :=
  '(index_exist, names) ← get_index_cols tab conds;
  if (index_exist : bool) then ScanPlan_make db T_IndexScan tab conds names
  else ScanPlan_make db T_SeqScan tab conds [].

(** The loop that makes [table_scan_executors]: the scans and the conditions left. *)
Fixpoint make_scans (tables : list string) (conds : list Condition) : outcome (list Plan * list Condition) :=
  match tables with
  | [] => Ret ([], conds)
  | t :: tables' =>
      let '(curr_conds, conds) := pop_conds conds t in
      p ← make_scan t curr_conds;
      '(ps, conds) ← make_scans tables' conds;
      Ret (p :: ps, conds)
  end.

Definition make_one_rel (query : Query) : outcome Plan :=
  '(plans, cs) ← make_scans (tables query) (conds query);
  match plans with
  | [p] => Ret p
  | _ =>
      let n := length (tables query) in
      let s0 := mkJoinState (replicate n (-1)) (replicate n "") NullPlan in
      match cs with
      | c :: cs' => Ret (join_rest plans 0 (foldl (λ s c, join_next plans c s) (join_first plans c s0) cs'))
      | [] =>
          p0 ← oaccess (head plans);
          Ret (join_rest plans 0 (mkJoinState (<[0%nat := 1]> (scantbl s0)) (joined_tables s0) p0))
      end
  end.

(** [generate_sort_plan]: [sel_col] ends as the last column of that name. *)
Definition sort_col (name : string) (all_cols : list ColMeta) : TabCol :=
  foldl (λ sel col, if decide (cm_name col = name) then mkTabCol (cm_tab_name col) (cm_name col) else sel)
    (mkTabCol "" "") all_cols.

Definition generate_sort_plan (x : ast.SelectNode) (query : Query) (plan : Plan) : outcome Plan :=
  if negb (ast.has_sort x) then Ret plan
  else
    all_cols ← get_all_cols db (tables query) [];
    match ast.order x with
    | Some o =>
        Ret (SortPlan T_Sort plan (sort_col (ast.c_col_name (ast.ob_cols o)) all_cols)
               (match ast.orderby_dir o with ast.OrderBy_DESC => true | _ => false end))
    | None => Crash NullDeref
    end.

Definition logical_optimization (query : Query) : Query := query.

Definition physical_optimization (x : ast.SelectNode) (query : Query) : outcome Plan :=
  plan ← make_one_rel query;
  generate_sort_plan x query plan.

Definition generate_select_plan (x : ast.SelectNode) (query : Query) : outcome Plan :=
  let query := logical_optimization query in
  root ← physical_optimization x query;
  Ret (ProjectionPlan T_Projection root (cols query)).

Definition interp_sv_type (t : ast.SvType) : ColType :=
  match t with
  | ast.SV_TYPE_INT => TYPE_INT
  | ast.SV_TYPE_FLOAT => TYPE_FLOAT
  | ast.SV_TYPE_STRING => TYPE_STRING
  end.

Definition do_planner (query : Query) : outcome Plan :=
  match parse query with
  | ast.CreateTable t fields =>
      Ret (DDLPlan T_CreateTable t []
        ((λ d, mkColDef (ast.cd_col_name d) (interp_sv_type (ast.tl_type (ast.cd_type_len d)))
                 (ast.tl_len (ast.cd_type_len d))) <$> fields))
  | ast.DropTable t => Ret (DDLPlan T_DropTable t [] [])
  | ast.CreateIndex t ns => Ret (DDLPlan T_CreateIndex t ns [])
  | ast.DropIndex t ns => Ret (DDLPlan T_DropIndex t ns [])
  | ast.InsertStmt t _ => Ret (DMLPlan T_Insert NullPlan t (values query) [] [])
  | ast.DeleteStmt t _ =>
      scan ← make_scan t (conds query);
      Ret (DMLPlan T_Delete scan t [] (conds query) [])
  | ast.UpdateStmt t _ _ =>
      scan ← make_scan t (conds query);
      Ret (DMLPlan T_Update scan t [] (conds query) (set_clauses query))
  | ast.SelectStmt x =>
      projection ← generate_select_plan x query;
      Ret (DMLPlan T_select projection "" [] [] [])
  | _ => Throw (InternalError "Unexpected AST root")
  end.

(** [Optimizer::plan_query]. *)
Definition plan_query (query : Query) : outcome Plan :=
  match parse query with
  | ast.Help => Ret (OtherPlan T_Help "")
  | ast.ShowTables => Ret (OtherPlan T_ShowTable "")
  | ast.DescTable t => Ret (OtherPlan T_DescTable t)
  | ast.TxnBegin => Ret (OtherPlan T_Transaction_begin "")
  | ast.TxnAbort => Ret (OtherPlan T_Transaction_abort "")
  | ast.TxnCommit => Ret (OtherPlan T_Transaction_commit "")
  | ast.TxnRollback => Ret (OtherPlan T_Transaction_rollback "")
  | _ => do_planner query
  end.
End planner.
