(* ===== verification/PlannerProps.v ===== *)
(** * Correctness of the join planner

    [make_one_rel] builds a tree that scans every table of the query once and evaluates
    every condition once, at a node where its columns are available. *)

From S2P Require Import Prelude Errors Config RecordFile StrMap Values Meta Ast Analyze Plan Planner.
From stdpp Require Import options.

(** ** What a join tree contains *)

Fixpoint plan_tables (p : Plan) : list string :=
  match p with
  | ScanPlan _ t _ _ _ _ _ => [t]
  | JoinPlan _ l r _ _ => plan_tables l ++ plan_tables r
  | _ => []
  end.

Fixpoint scan_conds (p : Plan) : list Condition :=
  match p with
  | ScanPlan _ _ _ cs _ _ _ => cs
  | JoinPlan _ l r _ _ => scan_conds l ++ scan_conds r
  | _ => []
  end.

Fixpoint join_conds (p : Plan) : list Condition :=
  match p with
  | JoinPlan _ l r cs _ => join_conds l ++ join_conds r ++ cs
  | _ => []
  end.

(** A condition of a scan is about its table only, one of a join compares a column of the
    left subtree with one of the right subtree. *)
Definition scan_placed (t : string) (c : Condition) : Prop :=
  tab_name (lhs_col c) = t ∧ (is_rhs_val c = true ∨ tab_name (rhs_col c) = t).

Definition join_placed (l r : Plan) (c : Condition) : Prop :=
  is_rhs_val c = false ∧ tab_name (lhs_col c) ∈ plan_tables l ∧ tab_name (rhs_col c) ∈ plan_tables r.

Fixpoint plan_placed (p : Plan) : Prop :=
  match p with
  | ScanPlan _ t _ cs _ fed _ => Forall (scan_placed t) cs ∧ fed = cs
  | JoinPlan _ l r cs _ => plan_placed l ∧ plan_placed r ∧ Forall (join_placed l r) cs
  | _ => False
  end.

(** Conditions up to order and up to exchanging their sides. *)
Definition same_cond (c c' : Condition) : Prop := c' = c ∨ c' = swap_cond c.
Definition same_conds (l l' : list Condition) : Prop := ∃ l1, l1 ≡ₚ l ∧ Forall2 same_cond l1 l'.

Lemma swap_cond_involutive c : swap_cond (swap_cond c) = c.
Proof. destruct c as [l o b r v]. unfold swap_cond. simpl. f_equal. by destruct o. Qed.

Lemma same_cond_refl c : same_cond c c.
Proof. by left. Qed.

Lemma same_conds_refl l : same_conds l l.
Proof. exists l. split; [done|]. apply Forall_Forall2_diag, Forall_forall. intros c _. apply same_cond_refl. Qed.

Lemma Forall2_Permutation_r {A B} (R : A → B → Prop) l k1 k2 :
  Forall2 R l k1 → k1 ≡ₚ k2 → ∃ l', l ≡ₚ l' ∧ Forall2 R l' k2.
Proof.
  intros Hf Hp. revert l Hf. induction Hp as [|y k1 k2 _ IH|y1 y2 k|k1 k2 k3 _ IH1 _ IH2]; intros l Hf.
  - exists l. done.
  - apply Forall2_cons_inv_r in Hf as (x&l1&Hx&Hf&->). destruct (IH _ Hf) as (l'&Hl&Hf').
    exists (x :: l'). split; [by constructor|by constructor].
  - apply Forall2_cons_inv_r in Hf as (x1&l1&Hx1&Hf&->). apply Forall2_cons_inv_r in Hf as (x2&l2&Hx2&Hf&->).
    exists (x2 :: x1 :: l2). split; [by constructor|by repeat constructor].
  - destruct (IH1 _ Hf) as (l1&Hl1&Hf1). destruct (IH2 _ Hf1) as (l2&Hl2&Hf2). exists l2. split; [by etrans|done].
Qed.

#[global] Instance same_conds_proper : Proper ((≡ₚ) ==> (≡ₚ) ==> iff) same_conds.
Proof.
  assert (∀ l1 l2 k1 k2, l1 ≡ₚ l2 → k1 ≡ₚ k2 → same_conds l1 k1 → same_conds l2 k2) as H.
  { intros l1 l2 k1 k2 Hl Hk (l&Hp&Hf). destruct (Forall2_Permutation_r same_cond l k1 k2 Hf Hk) as (l'&Hl'&Hf').
    exists l'. split; [|done]. by rewrite <- Hl', Hp. }
  intros l1 l2 Hl k1 k2 Hk. split; apply H; done.
Qed.

#[global] Instance same_cond_trans : Transitive same_cond.
Proof.
  intros c1 c2 c3 [->| ->] [->| ->]; rewrite ?swap_cond_involutive; unfold same_cond; auto.
Qed.

Lemma same_conds_trans l1 l2 l3 : same_conds l1 l2 → same_conds l2 l3 → same_conds l1 l3.
Proof.
  intros (a&Ha&Hfa) (b&Hb&Hfb). destruct (Forall2_Permutation_r _ _ _ b Hfa) as (a'&Ha'&Hfa'); [by rewrite Hb|].
  exists a'. split; [by rewrite <- Ha'|]. eapply Forall2_trans; [|done|done]. apply same_cond_trans.
Qed.

Lemma same_conds_app l1 l2 k1 k2 : same_conds l1 k1 → same_conds l2 k2 → same_conds (l1 ++ l2) (k1 ++ k2).
Proof.
  intros (a&Ha&Hfa) (b&Hb&Hfb). exists (a ++ b). split; [by rewrite Ha, Hb|by apply Forall2_app].
Qed.

Lemma same_conds_one c c' : same_cond c c' → same_conds [c] [c'].
Proof. intros H. exists [c]. split; [done|]. constructor; [done|constructor]. Qed.

(** ** The conditions of one table *)

Lemma pop_conds_spec cs t solved rest :
  pop_conds cs t = (solved, rest) →
  solved = filter (λ c, solved_by t c = true) cs ∧ rest = filter (λ c, solved_by t c ≠ true) cs.
Proof.
  revert solved rest. induction cs as [|c cs IH]; intros solved rest; simpl; [by intros [= <- <-]|].
  destruct (pop_conds cs t) as [s r]. destruct (IH s r eq_refl) as [-> ->].
  rewrite !filter_cons. destruct (solved_by t c) eqn:E; intros [= <- <-].
  - rewrite decide_True, decide_False by (done || naive_solver). done.
  - rewrite decide_False, decide_True by (done || naive_solver). done.
Qed.

Lemma filter_split {A} (P : A → Prop) `{∀ x, Decision (P x)} (l : list A) :
  filter P l ++ filter (λ x, ¬ P x) l ≡ₚ l.
Proof.
  induction l as [|x l IH]; [done|]. rewrite !filter_cons. destruct (decide (P x)).
  - rewrite (decide_False (P := ¬ P x)) by tauto. simpl. by rewrite IH.
  - rewrite (decide_True (P := ¬ P x)) by done. rewrite <- Permutation_middle. by rewrite IH.
Qed.

(** The table exists and has a column. *)
Definition scannable (db : DbMeta) (t : string) : Prop := ∃ tab, get_table db t = Ret tab ∧ tm_cols tab ≠ [].

(** [p] scans table [t] under the conditions [cs]. *)
Definition scan_of (db : DbMeta) (t : string) (cs : list Condition) (p : Plan) : Prop :=
  ∃ tag tab len idx, get_table db t = Ret tab ∧ p = ScanPlan tag t (tm_cols tab) cs len cs idx.

Lemma make_scan_ok db t cs : scannable db t → ∃ p, make_scan db t cs = Ret p ∧ scan_of db t cs p.
Proof.
  intros (tab&Htab&Hne). destruct (last (tm_cols tab)) as [back|] eqn:El; [|by apply last_None in El].
  unfold make_scan, get_index_cols, ScanPlan_make. rewrite Htab. simpl. unfold scan_of.
  case_match; simpl; rewrite ?Htab; simpl; rewrite El; simpl; eexists; (split; [done|]); naive_solver.
Qed.

(** A condition over the tables [ts]. *)
Definition cond_over (ts : list string) (c : Condition) : Prop :=
  tab_name (lhs_col c) ∈ ts ∧ if is_rhs_val c then tab_name (rhs_col c) = "" else tab_name (rhs_col c) ∈ ts.

(** It compares columns of two different tables. *)
Definition join_cond (c : Condition) : Prop := is_rhs_val c = false ∧ tab_name (lhs_col c) ≠ tab_name (rhs_col c).

Lemma solved_by_false t c : solved_by t c ≠ true ↔
  (tab_name (lhs_col c) ≠ t ∨ is_rhs_val c = false) ∧ tab_name (lhs_col c) ≠ tab_name (rhs_col c).
Proof.
  unfold solved_by. rewrite not_true_iff_false, orb_false_iff, andb_false_iff, !bool_decide_eq_false. naive_solver.
Qed.

Lemma solved_by_true t c : solved_by t c = true ↔
  (tab_name (lhs_col c) = t ∧ is_rhs_val c = true) ∨ tab_name (lhs_col c) = tab_name (rhs_col c).
Proof.
  unfold solved_by. rewrite orb_true_iff, andb_true_iff, !bool_decide_eq_true. naive_solver.
Qed.

(** The scans of tables when no condition compares two columns of one table. *)
Lemma make_scans_ok db ts cs :
  Forall (scannable db) ts → Forall (λ c, tab_name (lhs_col c) ≠ tab_name (rhs_col c)) cs →
  ∃ ps rest, make_scans db ts cs = Ret (ps, rest) ∧
    Forall2 (λ t p, ∃ l, scan_of db t l p ∧ Forall (scan_placed t) l) ts ps ∧
    concat (scan_conds <$> ps) ++ rest ≡ₚ cs ∧
    Forall (λ c, is_rhs_val c = true → tab_name (lhs_col c) ∉ ts) rest.
Proof.
  intros Hts. revert cs. induction Hts as [|t ts Ht _ IH]; intros cs Hcs.
  - exists [], cs. split_and!; [done|constructor|done|]. apply Forall_forall. set_solver.
  - simpl. destruct (pop_conds cs t) as [solved rest] eqn:E. apply pop_conds_spec in E as [-> ->].
    destruct (make_scan_ok db t (filter (λ c, solved_by t c = true) cs) Ht) as (p&Hp&Hs).
    destruct (IH (filter (λ c, solved_by t c ≠ true) cs)) as (ps&rest&E&Hf&Hperm&Hr).
    { apply Forall_forall. intros c [_ Hc]%list_elem_of_filter. by eapply Forall_forall in Hcs. }
    exists (p :: ps), rest. rewrite Hp. simpl. rewrite E. simpl. split_and!; [done| | |].
    + constructor; [|done]. eexists. split; [done|]. apply Forall_forall.
      intros c [Hc Hin]%list_elem_of_filter. rewrite Forall_forall in Hcs. specialize (Hcs c Hin).
      apply solved_by_true in Hc as [[??]|?]; [|done]. split; auto.
    + destruct Hs as (?&?&?&?&_&->). simpl. rewrite <- app_assoc, Hperm. apply filter_split.
    + apply Forall_forall. intros c Hc Hv. rewrite Forall_forall in Hr. specialize (Hr c Hc Hv).
      apply not_elem_of_cons. split; [|done]. intros Hl.
      assert (c ∈ filter (λ c, solved_by t c ≠ true) cs) as [Hn _]%list_elem_of_filter
        by (rewrite <- Hperm; set_solver).
      apply solved_by_false in Hn. naive_solver congruence.
Qed.

(** ** Leaves *)

Fixpoint leaves (p : Plan) : list Plan :=
  match p with
  | ScanPlan _ _ _ _ _ _ _ => [p]
  | JoinPlan _ l r _ _ => leaves l ++ leaves r
  | _ => []
  end.

Lemma plan_tables_leaves p : plan_tables p = concat (plan_tables <$> leaves p).
Proof. induction p; simpl; try done. rewrite fmap_app, concat_app. congruence. Qed.

Lemma scan_conds_leaves p : scan_conds p = concat (scan_conds <$> leaves p).
Proof. induction p; simpl; rewrite ?app_nil_r; try done. rewrite fmap_app, concat_app. congruence. Qed.

(** ** Pushing a condition into a join tree *)

Definition pushed (c : Condition) (p : Plan) (res : Z) (p' : Plan) : Prop :=
  leaves p' = leaves p ∧ plan_tables p' = plan_tables p ∧ plan_placed p' ∧
  let L := tab_name (lhs_col c) ∈ plan_tables p in
  let R := tab_name (rhs_col c) ∈ plan_tables p in
  (res = 3 ∧ L ∧ R ∧ same_conds (join_conds p ++ [c]) (join_conds p')) ∨
  (join_conds p' = join_conds p ∧
   ((res = 1 ∧ L ∧ ¬ R) ∨ (res = 2 ∧ ¬ L ∧ R) ∨ (res = 0 ∧ ¬ L ∧ ¬ R))).

Lemma join_placed_ext l r l' r' c :
  plan_tables l' = plan_tables l → plan_tables r' = plan_tables r → join_placed l r c → join_placed l' r' c.
Proof. unfold join_placed. by intros -> ->. Qed.

Lemma plan_placed_join tag l r cs ty l' r' :
  plan_placed (JoinPlan tag l r cs ty) → plan_placed l' → plan_placed r' →
  plan_tables l' = plan_tables l → plan_tables r' = plan_tables r → plan_placed (JoinPlan tag l' r' cs ty).
Proof.
  intros (_&_&Hcs) Hl Hr El Er. simpl. split_and!; [done|done|]. eapply Forall_impl; [done|].
  intros c. by apply join_placed_ext.
Qed.

Lemma same_conds_left a b cs a' c :
  same_conds (a ++ [c]) a' → same_conds ((a ++ b ++ cs) ++ [c]) (a' ++ b ++ cs).
Proof.
  intros H. assert ((a ++ b ++ cs) ++ [c] ≡ₚ (a ++ [c]) ++ b ++ cs) as ->
    by by rewrite <- !Permutation_cons_append.
  apply same_conds_app; [done|apply same_conds_refl].
Qed.

Lemma same_conds_right a b cs b' c :
  same_conds (b ++ [c]) b' → same_conds ((a ++ b ++ cs) ++ [c]) (a ++ b' ++ cs).
Proof.
  intros H. assert ((a ++ b ++ cs) ++ [c] ≡ₚ a ++ (b ++ [c]) ++ cs) as ->
    by (rewrite <- !Permutation_cons_append; simpl; by rewrite <- Permutation_middle).
  apply same_conds_app; [apply same_conds_refl|]. apply same_conds_app; [done|apply same_conds_refl].
Qed.

Lemma same_conds_here a b cs c c' :
  same_cond c c' → same_conds ((a ++ b ++ cs) ++ [c]) (a ++ b ++ cs ++ [c']).
Proof.
  intros H. rewrite !(app_assoc b), !(app_assoc a). apply same_conds_app; [apply same_conds_refl|].
  by apply same_conds_one.
Qed.

Lemma push_conds_spec c p :
  plan_placed p → NoDup (plan_tables p) → join_cond c → pushed c p (push_conds c p).1 (push_conds c p).2.
Proof.
  intros Hp Hnd [Hv Hne]. induction p as [|tag t cols cs len fed idx|tag l IHl r IHr cs ty| | | | |]; try done.
  { simpl. unfold pushed. repeat case_decide; simpl; set_solver. }
  simpl in Hnd. apply NoDup_app in Hnd as (Hndl&Hdisj&Hndr). pose proof Hp as (Hpl&Hpr&Hcs).
  specialize (IHl Hpl Hndl). specialize (IHr Hpr Hndr). simpl.
  destruct (push_conds c l) as [lres l']. destruct (push_conds c r) as [rres r']. simpl in IHl, IHr.
  destruct IHl as (Hll&Htl&Hpl'&IHl), IHr as (Hlr&Htr&Hpr'&IHr).
  assert (Hplace : ∀ l1 r1 cs1, l1 = l ∨ l1 = l' → r1 = r ∨ r1 = r' → Forall (join_placed l r) cs1 →
    leaves (JoinPlan tag l1 r1 cs1 ty) = leaves (JoinPlan tag l r cs ty) ∧
    plan_tables (JoinPlan tag l1 r1 cs1 ty) = plan_tables (JoinPlan tag l r cs ty) ∧
    plan_placed (JoinPlan tag l1 r1 cs1 ty)).
  { clear IHl IHr. intros l1 r1 cs1 [->| ->] [->| ->] Hcs1; simpl; rewrite ?Hll, ?Hlr, ?Htl, ?Htr;
      (split_and!; [done|done|done|done|]); (eapply Forall_impl; [exact Hcs1|]);
      intros c'; by apply join_placed_ext. }
  destruct IHl as [(->&HL&HR&Hsame)|[Hjl Hl]].
  { destruct (Hplace l' r cs) as (?&?&?); [by right|by left|done|]. unfold pushed.
    split_and!; try done. left. split_and!; [done|simpl; rewrite elem_of_app; tauto|simpl; rewrite elem_of_app; tauto|by apply same_conds_left]. }
  assert ((lres =? 3) = false) as -> by (apply Z.eqb_neq; naive_solver).
  destruct IHr as [(->&HL&HR&Hsame)|[Hjr Hr]].
  { destruct (Hplace l' r' cs) as (?&?&?); [by right|by right|done|]. unfold pushed.
    split_and!; try done. left. split_and!; [done|simpl; rewrite elem_of_app; tauto|simpl; rewrite elem_of_app; tauto|]. simpl. rewrite Hjl.
    by apply same_conds_right. }
  assert ((rres =? 3) = false) as -> by (apply Z.eqb_neq; naive_solver).
  destruct ((lres =? 0) || (rres =? 0)) eqn:E0.
  { destruct (Hplace l' r' cs) as (?&?&?); [by right|by right|done|]. unfold pushed.
    split_and!; try done. right. split; [simpl; congruence|]. clear -Hl Hr Hdisj E0.
    simpl. rewrite !elem_of_app. rewrite orb_true_iff, !Z.eqb_eq in E0.
    destruct Hl as [(->&?&?)|[(->&?&?)|(->&?&?)]], Hr as [(->&?&?)|[(->&?&?)|(->&?&?)]];
      first [exfalso; naive_solver lia|tauto]. }
  rewrite orb_false_iff, !Z.eqb_neq in E0. simpl.
  set (c' := if lres =? 2 then swap_cond c else c).
  assert (same_cond c c' ∧ join_placed l r c') as [Hsc Hjp].
  { unfold c', same_cond, join_placed. clear -Hl Hr Hdisj E0 Hv.
    destruct Hl as [(->&?&?)|[(->&?&?)|(->&_)]]; [| |naive_solver];
      (destruct Hr as [(->&?&?)|[(->&?&?)|(->&_)]]; [| |naive_solver]); simpl;
      first [tauto|exfalso; by eapply Hdisj]. }
  destruct (Hplace l' r' (cs ++ [c'])) as (?&?&?); [by right|by right|apply Forall_app; auto|]. unfold pushed.
  split_and!; try done. left. simpl. rewrite Hjl, Hjr, !elem_of_app.
  split_and!; [done| | |by apply same_conds_here].
  - destruct Hjp as (_&?&?). unfold c' in *. destruct (lres =? 2); simpl in *; tauto.
  - destruct Hjp as (_&?&?). unfold c' in *. destruct (lres =? 2); simpl in *; tauto.
Qed.

(** ** The join loop *)

(** A scan of [t] with conditions on [t] only. *)
Definition scan_plan (t : string) (p : Plan) : Prop :=
  ∃ tag cols cs len idx, p = ScanPlan tag t cols cs len cs idx ∧ Forall (scan_placed t) cs.

Lemma scan_plan_facts t p : scan_plan t p →
  plan_placed p ∧ plan_tables p = [t] ∧ leaves p = [p] ∧ join_conds p = [] ∧ is_null p = false.
Proof. intros (tag&cols&cs&len&idx&->&Hcs). done. Qed.

Lemma find_scan_from t us ps k i :
  Forall2 scan_plan us ps → NoDup us → us !! i = Some t →
  ∃ p, ps !! i = Some p ∧ find_scan t ps k = Some ((k + i)%nat, p).
Proof.
  intros Hf. revert k i. induction Hf as [|u p us ps (tag&cols&cs&len&idx&->&_) _ IH]; intros k i Hu Hi; [done|].
  apply NoDup_cons in Hu as [Hu Hus]. simpl. destruct i as [|i]; simpl in Hi.
  - injection Hi as ->. rewrite decide_True by done. rewrite Nat.add_0_r. eauto.
  - rewrite decide_False.
    + destruct (IH (S k) i Hus Hi) as (p&Hp'&->). exists p. split; [done|]. f_equal. f_equal. lia.
    + intros ->. apply Hu. by eapply list_elem_of_lookup_2.
Qed.

Section join.
Context (ts : list string) (plans : list Plan).
Context (Hnd : NoDup ts) (Hplans : Forall2 scan_plan ts plans).

Definition the_scan (t : string) : Plan :=
  match find_scan t plans 0 with Some (_, p) => p | None => NullPlan end.

Lemma find_scan_ok t i :
  ts !! i = Some t → find_scan t plans 0 = Some (i, the_scan t) ∧ plans !! i = Some (the_scan t).
Proof using Hnd Hplans.
  intros Hi. destruct (find_scan_from t ts plans 0 i Hplans Hnd Hi) as (p&Hp&Hf).
  unfold the_scan. rewrite Hf. done.
Qed.

Lemma the_scan_ok t : t ∈ ts → scan_plan t (the_scan t).
Proof using Hnd Hplans.
  intros [i Hi]%list_elem_of_lookup. destruct (find_scan_ok t i Hi) as [_ Hp].
  destruct (Forall2_lookup_r _ _ _ _ _ Hplans Hp) as (t'&Ht'&Hs). by simplify_eq.
Qed.

Lemma the_scans : the_scan <$> ts = plans.
Proof using Hnd Hplans.
  apply list_eq. intros i. rewrite list_lookup_fmap. destruct (ts !! i) as [t|] eqn:E; simpl.
  - symmetry. by apply find_scan_ok.
  - symmetry. apply lookup_ge_None. apply lookup_ge_None in E. by rewrite <- (Forall2_length _ _ _ Hplans).
Qed.

(** The work vectors record that the tables [J] are joined. *)
Definition marks (J : list string) (s : JoinState) : Prop :=
  scantbl s = (λ t, if decide (t ∈ J) then 1 else -1) <$> ts ∧
  ∀ t, t ∈ ts → t ∈ joined_tables s ↔ t ∈ J.

Lemma pop_scan_ok t J s :
  marks J s → t ∈ ts →
  ∃ s', pop_scan t plans s = (the_scan t, s') ∧ marks (J ++ [t]) s' ∧
    table_join_executors s' = table_join_executors s.
Proof using Hnd Hplans.
  intros [Hs Hj] [i Hi]%list_elem_of_lookup. unfold pop_scan.
  destruct (find_scan_ok t i Hi) as [-> _]. eexists. split; [done|]. simpl. split; [|done]. split; simpl.
  - rewrite Hs. apply list_eq. intros k. destruct (decide (k = i)) as [->|Hk].
    + rewrite list_lookup_insert_eq by (rewrite length_fmap; by eapply lookup_lt_Some).
      rewrite list_lookup_fmap, Hi. simpl. by rewrite decide_True by set_solver.
    + rewrite list_lookup_insert_ne by done. rewrite !list_lookup_fmap.
      destruct (ts !! k) as [u|] eqn:Hu; [|done]. simpl. f_equal.
      assert (u ≠ t) by (intros ->; apply Hk; by eapply NoDup_lookup).
      repeat case_decide; set_solver.
  - intros u Hu. specialize (Hj u Hu). set_solver.
Qed.

(** The tree joins the tables [J] under the conditions [done]. *)
Definition tree_ok (J : list string) (done : list Condition) (p : Plan) : Prop :=
  plan_placed p ∧ leaves p ≡ₚ the_scan <$> J ∧ same_conds done (join_conds p) ∧ NoDup J ∧ J ⊆ ts.

Lemma concat_singletons J : J ⊆ ts → concat (plan_tables <$> (the_scan <$> J)) = J.
Proof using Hnd Hplans.
  induction J as [|t J IH]; intros Hsub; [done|]. simpl.
  destruct (scan_plan_facts t (the_scan t)) as (_&->&_); [apply the_scan_ok; set_solver|].
  simpl. f_equal. apply IH. set_solver.
Qed.

Lemma concat_Permutation {A} (l1 l2 : list (list A)) : l1 ≡ₚ l2 → concat l1 ≡ₚ concat l2.
Proof.
  induction 1 as [|x l1 l2 _ IH|x y l|l1 l2 l3 _ IH1 _ IH2]; simpl; [done| | |by etrans].
  - by rewrite IH.
  - rewrite !app_assoc. by rewrite (Permutation_app_comm y x).
Qed.

Lemma tree_tables J done p : tree_ok J done p → plan_tables p ≡ₚ J.
Proof using Hnd Hplans.
  intros (_&Hl&_&_&Hsub). rewrite plan_tables_leaves, <- (concat_singletons J) by done.
  apply concat_Permutation. by rewrite Hl.
Qed.

(** A join of two trees over different tables. *)
Lemma tree_join Jl Jr dl dr l r cs :
  tree_ok Jl dl l → tree_ok Jr dr r → (∀ t, t ∈ Jl → t ∉ Jr) → Forall (join_placed l r) cs →
  tree_ok (Jl ++ Jr) (dl ++ dr ++ cs) (JoinPlan_make T_NestLoop l r cs).
Proof using Hnd Hplans.
  intros (Hpl&Hll&Hsl&Hnl&Hjl) (Hpr&Hlr&Hsr&Hnr&Hjr) Hdis Hcs.
  unfold tree_ok. split_and!; simpl; [done| | | |].
  - rewrite Hll, Hlr. by rewrite fmap_app.
  - apply same_conds_app; [done|]. apply same_conds_app; [done|apply same_conds_refl].
  - by apply NoDup_app.
  - set_solver.
Qed.

Lemma tree_scan t : t ∈ ts → tree_ok [t] [] (the_scan t).
Proof using Hnd Hplans.
  intros Ht. destruct (scan_plan_facts t (the_scan t)) as (H1&H2&H3&H4&_); [by apply the_scan_ok|].
  unfold tree_ok. split_and!; [done|by rewrite H3|rewrite H4; apply same_conds_refl|apply NoDup_singleton|set_solver].
Qed.

Lemma tree_ok_perm J J' done done' p :
  J ≡ₚ J' → same_conds done' (join_conds p) → tree_ok J done p → tree_ok J' done' p.
Proof.
  unfold tree_ok. intros HJ Hs (Hp&Hl&_&Hn&Hsub). split_and!; [done|by rewrite <- HJ|done|by rewrite <- HJ|].
  intros t Ht. apply Hsub. by rewrite HJ.
Qed.

Lemma marks_perm J J' s : (∀ t, t ∈ J ↔ t ∈ J') → marks J s → marks J' s.
Proof.
  intros HJ [Hs Hj]. split; [|intros t Ht; by rewrite <- HJ, <- Hj].
  rewrite Hs. apply list_fmap_ext. intros i t _. apply decide_ext. apply HJ.
Qed.

Lemma marks_set J p s : marks J s → marks J (set_join p s).
Proof. done. Qed.

(** The state of the loops: [J] joined under the conditions [done]. *)
Definition jinv (J : list string) (done : list Condition) (s : JoinState) : Prop :=
  marks J s ∧ tree_ok J done (table_join_executors s).

Lemma not_joined_true J s t : marks J s → t ∈ ts → not_joined t s = true ↔ t ∉ J.
Proof. intros [_ Hj] Ht. unfold not_joined. by rewrite bool_decide_eq_true, Hj. Qed.

(** A condition that compares columns of two tables of [ts]. *)
Definition join_over (c : Condition) : Prop :=
  join_cond c ∧ tab_name (lhs_col c) ∈ ts ∧ tab_name (rhs_col c) ∈ ts.

Lemma the_scan_tables t : t ∈ ts → plan_tables (the_scan t) = [t] ∧ is_null (the_scan t) = false.
Proof using Hnd Hplans. intros Ht. apply the_scan_ok in Ht. by apply scan_plan_facts in Ht as (_&?&_&_&?). Qed.

Lemma join_first_ok c s :
  marks [] s → join_over c → ∃ J, jinv J [c] (join_first plans c s).
Proof using Hnd Hplans.
  intros Hm ([Hv Hne]&HL&HR). unfold join_first.
  destruct (pop_scan_ok _ [] s Hm HL) as (s1&->&Hm1&_).
  destruct (pop_scan_ok _ _ s1 Hm1 HR) as (s2&->&Hm2&_).
  exists ([tab_name (lhs_col c)] ++ [tab_name (rhs_col c)]). split; [done|]. simpl table_join_executors.
  apply (tree_join [tab_name (lhs_col c)] [tab_name (rhs_col c)] [] [] _ _ [c]); [by apply tree_scan..| |].
  - intros t ->%list_elem_of_singleton. by rewrite list_elem_of_singleton.
  - constructor; [|constructor]. unfold join_placed. split; [done|].
    rewrite (proj1 (the_scan_tables _ HL)), (proj1 (the_scan_tables _ HR)). split; by left.
Qed.

Lemma same_conds_snoc l k c c' : same_conds l k → same_cond c c' → same_conds (l ++ [c]) (k ++ [c']).
Proof. intros. apply same_conds_app; [done|by apply same_conds_one]. Qed.

(** One more table, joined along [c'] (condition [c] or its exchange). *)
Lemma join_one_ok t c c' J don s s' :
  jinv J don s → t ∈ ts → t ∉ J → marks (J ++ [t]) s' → table_join_executors s' = table_join_executors s →
  is_rhs_val c' = false → same_cond c c' → tab_name (lhs_col c') = t → tab_name (rhs_col c') ∈ J →
  jinv (J ++ [t]) (don ++ [c]) (set_join (JoinPlan_make T_NestLoop (the_scan t) (table_join_executors s') [c']) s').
Proof using Hnd Hplans.
  intros [Hm Ht] Hts HJ Hm' Htj Hv Hsc Hl Hr. split; [done|]. simpl table_join_executors. rewrite Htj.
  apply (tree_ok_perm ([t] ++ J) _ ([] ++ don ++ [c'])); [apply Permutation_app_comm| |].
  - simpl. rewrite (proj1 (proj2 (proj2 (proj2 (scan_plan_facts _ _ (the_scan_ok _ Hts)))))).
    apply same_conds_snoc; [apply Ht|done].
  - apply tree_join; [by apply tree_scan|done| |].
    + by intros u ->%list_elem_of_singleton.
    + constructor; [|constructor]. unfold join_placed. rewrite (proj1 (the_scan_tables _ Hts)), (tree_tables _ _ _ Ht), Hl.
      split_and!; [done|by left|done].
Qed.

Lemma join_next_ok c J don s :
  jinv J don s → join_over c → ∃ J', jinv J' (don ++ [c]) (join_next plans c s).
Proof using Hnd Hplans.
  intros Hinv Hc. pose proof Hinv as [Hm Ht]. pose proof Hc as ([Hv Hne]&HL&HR). unfold join_next.
  destruct (the_scan_tables _ HL) as [HtL HnL], (the_scan_tables _ HR) as [HtR HnR].
  set (L := tab_name (lhs_col c)) in *. set (R := tab_name (rhs_col c)) in *.
  destruct (not_joined L s) eqn:EL.
  - apply (not_joined_true J) in EL; [|done|done].
    destruct (pop_scan_ok _ _ _ Hm HL) as (s1&->&Hm1&Htj1).
    destruct (not_joined R s1) eqn:ER.
    + apply (not_joined_true (J ++ [L])) in ER; [|done|done].
      destruct (pop_scan_ok _ _ _ Hm1 HR) as (s2&->&Hm2&Htj2). rewrite HnL, HnR. simpl.
      exists (([L] ++ [R]) ++ J). split.
      { eapply marks_perm; [|exact (marks_set _ _ _ Hm2)]. set_solver. }
      simpl table_join_executors. rewrite Htj2, Htj1.
      assert (Htemp : tree_ok ([L] ++ [R]) [c] (JoinPlan_make T_NestLoop (the_scan L) (the_scan R) [c])).
      { apply (tree_join [L] [R] [] [] _ _ [c]); [by apply tree_scan..| |].
        - intros t ->%list_elem_of_singleton. by rewrite list_elem_of_singleton.
        - constructor; [|constructor]. unfold join_placed. rewrite HtL, HtR. split_and!; [done|by left|by left]. }
      apply (tree_ok_perm (([L] ++ [R]) ++ J) _ ([c] ++ don ++ [])); [done| |].
      * simpl. rewrite app_nil_r. rewrite (Permutation_app_comm don). apply same_conds_app; [apply Htemp|apply Ht].
      * apply tree_join; [done|done| |constructor]. intros t Hin. set_solver.
    + assert (¬ (R ∉ J)) as HRJ.
      { intros HRJ. assert (R ∉ J ++ [L]) by set_solver.
        assert (not_joined R s1 = true); [by eapply not_joined_true|congruence]. }
      rewrite HnL. simpl. exists (J ++ [L]).
      eapply (join_one_ok L c c); eauto using same_cond_refl. by destruct (decide (R ∈ J)).
  - assert (L ∈ J) as HLJ.
    { destruct (decide (L ∈ J)); [done|]. apply not_true_iff_false in EL. exfalso. apply EL.
      by eapply not_joined_true. }
    destruct (not_joined R s) eqn:ER.
    + apply (not_joined_true J) in ER; [|done|done].
      destruct (pop_scan_ok _ _ _ Hm HR) as (s1&->&Hm1&Htj1). rewrite HnR. simpl. exists (J ++ [R]).
      eapply (join_one_ok R c (swap_cond c)); eauto. by right.
    + assert (R ∈ J) as HRJ.
      { destruct (decide (R ∈ J)); [done|]. apply not_true_iff_false in ER. exfalso. apply ER.
        by eapply not_joined_true. }
      simpl. exists J. split; [done|]. simpl table_join_executors. pose proof Ht as (Hp&Hlv&Hs&Hn&Hsub).
      pose proof (tree_tables _ _ _ Ht) as Htab.
      destruct (push_conds_spec c (table_join_executors s) Hp) as (Hlv'&Htab'&Hp'&Hpush); [by rewrite Htab|done|].
      unfold tree_ok. split_and!; [done|by rewrite Hlv'| |done|done].
      destruct Hpush as [(_&_&_&Hsc)|[_ Hno]]; [|rewrite Htab in Hno; naive_solver].
      eapply same_conds_trans; [|exact Hsc]. by apply same_conds_snoc; [|apply same_cond_refl].
Qed.

Lemma join_all_ok cs c s :
  marks [] s → Forall join_over (c :: cs) →
  ∃ J, jinv J (c :: cs) (foldl (λ s c, join_next plans c s) (join_first plans c s) cs).
Proof using Hnd Hplans.
  intros Hm [Hc Hcs]%Forall_cons. destruct (join_first_ok c s Hm Hc) as [J HJ].
  change (c :: cs) with ([c] ++ cs). revert HJ. generalize [c], J, (join_first plans c s). clear c s J Hm Hc.
  induction Hcs as [|c cs Hc _ IH]; intros don J s HJ; [exists J; by rewrite app_nil_r|].
  destruct (join_next_ok c J don s HJ Hc) as [J' HJ']. simpl.
  destruct (IH _ _ _ HJ') as [J'' HJ'']. exists J''. by rewrite <- app_assoc in HJ''.
Qed.

Lemma join_rest_ok ps i s J don :
  ps = drop i plans → tree_ok J don (table_join_executors s) →
  (∀ k t, ts !! k = Some t → ((i <= k)%nat → scantbl s !! k = Some (-1) ↔ t ∉ J) ∧ ((k < i)%nat → t ∈ J)) →
  ∃ J', tree_ok J' don (join_rest ps i s) ∧ ts ⊆ J'.
Proof using Hnd Hplans.
  revert i s J. induction ps as [|p ps IH]; intros i s J Hps Ht Hk.
  - exists J. split; [done|]. intros t [k Hkt]%list_elem_of_lookup. destruct (Hk k t Hkt) as [_ H]. apply H.
    apply lookup_lt_Some in Hkt. rewrite (Forall2_length _ _ _ Hplans) in Hkt.
    symmetry in Hps. apply (f_equal length) in Hps. rewrite length_drop in Hps. simpl in Hps. lia.
  - assert (plans !! i = Some p) as Hp by (rewrite <- (Nat.add_0_r i), <- lookup_drop, <- Hps; done).
    assert (ps = drop (S i) plans) as Hps' by (by rewrite <- Nat.add_1_r, <- drop_drop, <- Hps).
    destruct (Forall2_lookup_r _ _ _ _ _ Hplans Hp) as (t&Hti&_).
    destruct (find_scan_ok t i Hti) as [_ Hpi]. assert (p = the_scan t) as -> by congruence.
    assert (t ∈ ts) as Hts by by eapply list_elem_of_lookup_2.
    simpl. destruct (decide (scantbl s !! i = Some (-1))) as [Hm|Hm].
    + assert (t ∉ J) as HtJ by (apply (Hk i t Hti); [lia|done]).
      apply (IH _ _ ([t] ++ J)); [done| |].
      * simpl table_join_executors. apply (tree_ok_perm ([t] ++ J) _ ([] ++ don ++ [])); [done| |].
        -- simpl. rewrite app_nil_r. rewrite (proj1 (proj2 (proj2 (proj2 (scan_plan_facts _ _ (the_scan_ok _ Hts)))))).
           apply Ht.
        -- apply tree_join; [by apply tree_scan|done| |constructor]. by intros u ->%list_elem_of_singleton.
      * intros k u Hu. simpl scantbl. destruct (Hk k u Hu) as [H1 H2]. split.
        -- intros Hki. rewrite H1 by lia. assert (u ≠ t); [|set_solver].
           intros ->. assert (k = i) by by eapply NoDup_lookup. lia.
        -- intros Hki. destruct (decide (k = i)) as [->|]; [simplify_eq; set_solver|].
           assert (u ∈ J) by (apply H2; lia). set_solver.
    + apply (IH _ _ J); [done|done|]. intros k u Hu. destruct (Hk k u Hu) as [H1 H2]. split.
      * intros Hki. apply H1. lia.
      * intros Hki. destruct (decide (k = i)) as [->|]; [|apply H2; lia].
        destruct (decide (u ∈ J)); [done|]. exfalso. apply Hm, H1; [lia|done].
Qed.

Definition join_state0 (p : Plan) : JoinState :=
  mkJoinState (replicate (length ts) (-1)) (replicate (length ts) "") p.

Lemma marks_init p : "" ∉ ts → marks [] (join_state0 p).
Proof.
  intros Hne. split.
  - apply list_eq. intros k. rewrite list_lookup_fmap. simpl. destruct (ts !! k) eqn:Ek; simpl.
    + apply lookup_replicate_2. by eapply lookup_lt_Some.
    + apply lookup_replicate_None. by apply lookup_ge_None.
  - intros t Ht. split; [|by intros ?%not_elem_of_nil]. simpl. intros [-> _]%elem_of_replicate. done.
Qed.

Lemma scantbl_first t0 ts' : ts = t0 :: ts' →
  <[0%nat := 1]> (replicate (length ts) (-1)) = ((λ t, if decide (t ∈ [t0]) then 1 else -1) <$> ts).
Proof using Hnd Hplans.
  intros ->. simpl. rewrite decide_True by by left. f_equal. apply NoDup_cons in Hnd as [Ht0 _].
  apply list_eq. intros k. rewrite list_lookup_fmap. destruct (ts' !! k) as [t|] eqn:Ek; simpl.
  - rewrite decide_False by (intros ->%list_elem_of_singleton; apply Ht0; by eapply list_elem_of_lookup_2).
    apply lookup_replicate_2. by eapply lookup_lt_Some.
  - apply lookup_replicate_None. by apply lookup_ge_None.
Qed.

(** The whole tree, from a state that knows the joined tables. *)
Lemma join_finish s J don :
  scantbl s = ((λ t, if decide (t ∈ J) then 1 else -1) <$> ts) → tree_ok J don (table_join_executors s) → tree_ok ts don (join_rest plans 0 s).
Proof using Hnd Hplans.
  intros Hs Ht. destruct (join_rest_ok plans 0 s J don) as (J'&HJ'&Hsub); [done|done| |].
  - intros k t Hk. split; [intros _|lia]. rewrite Hs, list_lookup_fmap, Hk. simpl.
    case_decide; naive_solver.
  - apply (tree_ok_perm J' _ don); [|apply HJ'|done]. destruct HJ' as (_&_&_&Hn&Hsub').
    apply NoDup_Permutation; [done|done|]. intros t. split; [apply Hsub'|apply Hsub].
Qed.

End join.

(** ** make_one_rel *)

(** The queries the planner handles well: conditions mention only tables of the query, and a
    comparison of two columns of one table is about the first table. *)
Definition plannable (db : DbMeta) (q : Query) : Prop :=
  NoDup (tables q) ∧ ("" ∉ tables q) ∧ Forall (scannable db) (tables q) ∧
  Forall (cond_over (tables q)) (conds q) ∧
  Forall (λ c, tab_name (lhs_col c) = tab_name (rhs_col c) → head (tables q) = Some (tab_name (lhs_col c))) (conds q).

Lemma scans_ok db t0 ts cs :
  scannable db t0 → Forall (scannable db) ts → "" ∉ t0 :: ts → Forall (cond_over (t0 :: ts)) cs →
  Forall (λ c, tab_name (lhs_col c) = tab_name (rhs_col c) → Some t0 = Some (tab_name (lhs_col c))) cs →
  ∃ ps rest, make_scans db (t0 :: ts) cs = Ret (ps, rest) ∧ Forall2 scan_plan (t0 :: ts) ps ∧
    concat (scan_conds <$> ps) ++ rest ≡ₚ cs ∧ Forall (join_over (t0 :: ts)) rest.
Proof.
  intros Ht0 Hts Hne Hover Hfirst. simpl. destruct (pop_conds cs t0) as [solved cs1] eqn:E.
  apply pop_conds_spec in E as [-> ->].
  destruct (make_scan_ok db t0 (filter (λ c, solved_by t0 c = true) cs) Ht0) as (p&Hp&Hs).
  assert (Hcs1 : Forall (λ c, tab_name (lhs_col c) ≠ tab_name (rhs_col c)) (filter (λ c, solved_by t0 c ≠ true) cs)).
  { apply Forall_forall. intros c [Hc _]%list_elem_of_filter. by apply solved_by_false in Hc as [_ ?]. }
  destruct (make_scans_ok db ts _ Hts Hcs1) as (ps&rest&E&Hf&Hperm&Hr).
  exists (p :: ps), rest. rewrite Hp. simpl. rewrite E. simpl. rewrite Forall_forall in Hover, Hfirst.
  assert (Hrest : ∀ c, c ∈ rest → solved_by t0 c ≠ true ∧ c ∈ cs).
  { intros c Hc. apply (list_elem_of_filter (λ c, solved_by t0 c ≠ true)). rewrite <- Hperm. set_solver. }
  split_and!; [done| | |].
  - constructor.
    + destruct Hs as (tag&tab&len&idx&_&->). exists tag, (tm_cols tab), (filter (λ c, solved_by t0 c = true) cs), len, idx.
      split; [done|]. apply Forall_forall. intros c [Hc Hin]%list_elem_of_filter. unfold scan_placed.
      apply solved_by_true in Hc as [[??]|Hc]; [auto|]. specialize (Hfirst c Hin Hc). simplify_eq. auto.
    + eapply Forall2_impl; [exact Hf|]. intros t q (l&(tag&tab&len&idx&_&->)&Hl). unfold scan_plan. eauto 10.
  - destruct Hs as (tag&tab&len&idx&_&->). simpl. rewrite <- app_assoc, Hperm. apply filter_split.
  - apply Forall_forall. intros c Hc. destruct (Hrest c Hc) as [Hns Hin]. specialize (Hover c Hin) as [HL HR].
    apply solved_by_false in Hns as [Hv Hne']. rewrite Forall_forall in Hr. specialize (Hr c Hc).
    assert (is_rhs_val c = false) as Hval.
    { destruct (is_rhs_val c); [|done]. specialize (Hr eq_refl). destruct Hv as [Hv|]; [|done]. set_solver. }
    rewrite Hval in HR. done.
Qed.

Lemma make_one_rel_ok db q :
  tables q ≠ [] → plannable db q →
  ∃ p ps rest, make_one_rel db q = Ret p ∧ plan_placed p ∧ plan_tables p ≡ₚ tables q ∧
    same_conds (conds q) (scan_conds p ++ join_conds p) ∧
    make_scans db (tables q) (conds q) = Ret (ps, rest) ∧ leaves p ≡ₚ ps.
Proof.
  intros Hts0 (Hnd&Hne&Hscan&Hover&Hfirst). unfold make_one_rel.
  destruct (tables q) as [|t0 ts]; [done|]. apply Forall_cons in Hscan as [Ht0 Hts].
  destruct (scans_ok db t0 ts (conds q) Ht0 Hts Hne Hover Hfirst) as (ps&rest&E&Hps&Hperm&Hrest).
  rewrite E. cbn [mbind outcome_bind].
  assert (Hfin : ∀ o p, o = Ret p → tree_ok (t0 :: ts) ps (t0 :: ts) rest p →
    ∃ p' ps' rest', o = Ret p' ∧ plan_placed p' ∧ plan_tables p' ≡ₚ t0 :: ts ∧
      same_conds (conds q) (scan_conds p' ++ join_conds p') ∧ Ret (ps, rest) = Ret (ps', rest') ∧ leaves p' ≡ₚ ps').
  { intros o p -> Hp. exists p, ps, rest. pose proof Hp as (_&Hl&Hs&_). rewrite (the_scans _ _ Hnd Hps) in Hl.
    split_and!; [done|apply Hp|by eapply tree_tables| |done|done]. rewrite <- Hperm.
    apply same_conds_app; [|done]. rewrite scan_conds_leaves.
    rewrite (concat_Permutation (scan_conds <$> leaves p) (scan_conds <$> ps)) by by rewrite Hl.
    apply same_conds_refl. }
  assert (Hscan0 : tree_ok (t0 :: ts) ps [t0] [] (the_scan ps t0)) by (apply (tree_scan _ _ Hnd Hps); by left).
  destruct ps as [|p0 [|p1 ps]]; [by inversion Hps| |].
  - apply (Hfin _ p0); [done|]. apply Forall2_length in Hps as Hlen. destruct ts; [|done].
    destruct (find_scan_ok [t0] [p0] Hnd Hps t0 0 eq_refl) as [_ Hp0]. injection Hp0 as Hp0.
    destruct rest as [|c rest]; [by rewrite <- Hp0 in Hscan0|]. apply Forall_cons in Hrest as [([_ Hc]&HL&HR) _]. set_solver.
  - destruct rest as [|c rest].
    + destruct (find_scan_ok _ _ Hnd Hps t0 0 eq_refl) as [_ Hp0]. injection Hp0 as Hp0.
      eapply Hfin; [done|]. eapply (join_finish _ _ Hnd Hps _ [t0]); [by eapply scantbl_first|].
      cbn [table_join_executors]. by rewrite Hp0 at 2.
    + destruct (join_all_ok _ _ Hnd Hps rest c _ (marks_init (t0 :: ts) NullPlan Hne) Hrest) as [J [HmJ HJ]].
      eapply Hfin; [done|]. eapply join_finish; [done|done|apply HmJ|done].
Qed.

(** C11: The planner keeps the meaning of a query that is [plannable]: it is over different tables of
    the catalogue, each with a column, its conditions mention only these tables, and a comparison of
    two columns of one table is about the first table of the FROM list (one about another table is
    put on the scan of the first: [first_scan_takes]).  For such a query [make_one_rel] returns a tree of scans and joins without null children that
    scans every table of the query exactly once and holds every condition exactly once (sides
    exchanged, with the operator turned around, where that is needed); each condition of a scan
    is about the scanned table, and each condition of a join compares a column of the left
    subtree with a column of the right subtree. *)
Theorem make_one_rel_correct db q :
  tables q ≠ [] → plannable db q →
  ∃ p, make_one_rel db q = Ret p ∧ plan_placed p ∧ plan_tables p ≡ₚ tables q ∧
    same_conds (conds q) (scan_conds p ++ join_conds p).
Proof.
  intros Hts Hq. destruct (make_one_rel_ok db q Hts Hq) as (p&_&_&?&?&?&?&_). by exists p.
Qed.

(** Tables without indexes are scanned sequentially. *)
Definition no_index (db : DbMeta) (t : string) : Prop := ∀ tab, get_table db t = Ret tab → tm_indexes tab = [].

Definition seq_scan (p : Plan) : Prop :=
  match p with ScanPlan tag _ _ _ _ _ _ => tag = T_SeqScan | _ => False end.

Lemma make_scan_seq db t cs p : no_index db t → make_scan db t cs = Ret p → seq_scan p.
Proof.
  intros Hi. unfold make_scan, ScanPlan_make. intros ([b names]&Hb&H)%obind_Ret.
  unfold get_index_cols in Hb. apply obind_Ret in Hb as (tab&Htab&[= <- <-]).
  assert (is_index tab ((λ c, col_name (lhs_col c)) <$>
    filter (λ c, is_rhs_val c = true ∧ op c = OP_EQ ∧ tab_name (lhs_col c) = t) cs) = false) as E.
  { unfold is_index. by rewrite (Hi tab Htab). }
  rewrite E in H. rewrite Htab in H. apply obind_Ret in H as (tab'&_&(back&_&[= <-])%obind_Ret). done.
Qed.

Lemma make_scans_seq db ts cs ps rest :
  Forall (no_index db) ts → make_scans db ts cs = Ret (ps, rest) → Forall seq_scan ps.
Proof.
  intros Hi. revert cs ps rest. induction Hi as [|t ts Ht _ IH]; intros cs ps rest; simpl; [by intros [= <- <-]|].
  destruct (pop_conds cs t). intros (p&Hp&([ps' rest']&Hps&[= <- <-])%obind_Ret)%obind_Ret.
  constructor; [by eapply make_scan_seq|by eapply IH].
Qed.

(** ** What [pop_conds] takes *)

Lemma make_scan_inv db t cs p : make_scan db t cs = Ret p → scan_of db t cs p.
Proof.
  unfold make_scan, ScanPlan_make. intros ([b names]&_&H)%obind_Ret. unfold scan_of.
  case_match; apply obind_Ret in H as (tab&Htab&(back&_&[= <-])%obind_Ret); naive_solver.
Qed.

(** C39: Where [pop_conds] goes wrong.  The scan of the first table takes, besides the
    conditions on that table, every comparison of two columns of one table, whatever table
    that is; so a query over the tables [t0, t1, ...] with a condition [t1.a = t1.b] scans
    [t0] under a condition on [t1]'s columns.  And a query over a single table keeps just
    what [pop_conds] takes: a condition about another table is dropped without an error. *)
Theorem first_scan_takes db t0 ts cs ps rest :
  make_scans db (t0 :: ts) cs = Ret (ps, rest) →
  (∃ tag cols cs0 len idx ps', ps = ScanPlan tag t0 cols cs0 len cs0 idx :: ps' ∧
     cs0 = filter (λ c, (tab_name (lhs_col c) = t0 ∧ is_rhs_val c = true) ∨
                        tab_name (lhs_col c) = tab_name (rhs_col c)) cs) ∧
  (ts = [] → ∀ q, tables q = [t0] → conds q = cs →
     ∃ p, make_one_rel db q = Ret p ∧ ps = [p] ∧ join_conds p = []).
Proof.
  intros H. pose proof H as H'. simpl in H. destruct (pop_conds cs t0) as [solved cs1] eqn:E.
  apply pop_conds_spec in E as [-> ->].
  apply obind_Ret in H as (p&Hp%make_scan_inv&([ps' rest']&Hps&[= <- <-])%obind_Ret).
  destruct Hp as (tag&tab&len&idx&_&->). split.
  - exists tag, (tm_cols tab), (filter (λ c, solved_by t0 c = true) cs), len, idx, ps'.
    split; [done|]. apply list_filter_iff. intros c. apply solved_by_true.
  - intros -> q Ht Hc. injection Hps as <- <-. eexists. unfold make_one_rel. rewrite Ht, Hc, H'. done.
Qed.

Definition cond_example (l r : TabCol) (o : CompOp) : Condition := mkCondition l o false r Value_init.
Definition val_example (l : TabCol) (z : Z) : Condition :=
  mkCondition l OP_EQ true (mkTabCol "" "") (mkValue TYPE_INT z "" (Some (mkRmRecord (int_bytes z) 4 true))).

Definition plan_query_example : Query :=
  mkQuery (ast.SelectStmt (ast.SelectNode_make [] [] [] None))
    [cond_example (mkTabCol "t" "id") (mkTabCol "s" "id") OP_LT; val_example (mkTabCol "t" "id") 3]
    [] ["s"; "t"] [] [].

Lemma make_one_rel_correct_witness :
  ∃ p, make_one_rel analyze_db plan_query_example = Ret p ∧ plan_placed p ∧ plan_tables p ≡ₚ ["s"; "t"] ∧
    same_conds (conds plan_query_example) (scan_conds p ++ join_conds p).
Proof.
  apply (make_one_rel_correct analyze_db plan_query_example); [done|]. unfold plannable.
  split; [apply (bool_decide_unpack _); by vm_compute|]. split; [apply (bool_decide_unpack _); by vm_compute|].
  split; [|split].
  - repeat constructor; eexists; (split; [reflexivity|done]).
  - unfold cond_over. repeat (constructor; [simpl; split; set_solver|]). constructor.
  - repeat (constructor; [simpl; done|]). constructor.
Defined.

Lemma first_scan_takes_witness :
  ∃ ps rest, make_scans analyze_db ["s"; "t"] [cond_example (mkTabCol "t" "id") (mkTabCol "t" "x") OP_EQ] = Ret (ps, rest) ∧
  ∃ tag cols cs0 len idx ps', ps = ScanPlan tag "s" cols cs0 len cs0 idx :: ps' ∧
    cond_example (mkTabCol "t" "id") (mkTabCol "t" "x") OP_EQ ∈ cs0.
Proof.
  destruct (make_scans analyze_db ["s"; "t"] [cond_example (mkTabCol "t" "id") (mkTabCol "t" "x") OP_EQ])
    as [[ps rest]|e|k] eqn:E; [|vm_compute in E; discriminate E|vm_compute in E; discriminate E].
  exists ps, rest. split; [done|].
  destruct (first_scan_takes _ _ _ _ _ _ E) as [(tag&cols&cs0&len&idx&ps'&Hps&Hcs) _].
  exists tag, cols, cs0, len, idx, ps'. split; [done|]. rewrite Hcs. apply list_elem_of_filter. simpl. auto using list_elem_of_here.
Defined.
