(* ===== verification/Compare.v ===== *)
(** * Comparing values

    [ix_compare] of [index/ix_index_handle.h]: the order of stored values, used by the
    executors and by index nodes. *)

From S2P Require Import Prelude Errors Config Values.
From stdpp Require Import options.

(** ** IEEE single precision comparison on bit patterns *)

Definition float_exp (bits : Z) : Z := (bits / 2 ^ 23) mod 2 ^ 8.
Definition float_mant (bits : Z) : Z := bits mod 2 ^ 23.
Definition float_sign (bits : Z) : bool := Z.odd (bits / 2 ^ 31).

Definition float_is_nan (bits : Z) : bool := (float_exp bits =? 255) && negb (float_mant bits =? 0).

(** Finite numbers and infinities are ordered as their magnitudes with the sign. *)
Definition float_key (bits : Z) : Z := if float_sign bits then - (bits mod 2 ^ 31) else bits mod 2 ^ 31.

(** [fa < fb]: false when one side is not a number. *)
Definition float_lt (a b : Z) : bool := negb (float_is_nan a) && negb (float_is_nan b) && (float_key a <? float_key b).

(** ** memcmp *)

(** The sign of the first difference; bytes compare as unsigned characters. *)
Fixpoint memcmp (a b : list byte) : Z :=
  match a, b with
  | x :: a', y :: b' =>
      if byte_val x <? byte_val y then -1 else if byte_val x >? byte_val y then 1 else memcmp a' b'
  | _, _ => 0
  end.

(** ** ix_compare *)

(** [a] and [b] point into the buffers at [aoff] and [boff]. *)
Definition ix_compare (a : list byte) (aoff : Z) (b : list byte) (boff : Z) (type : ColType) (col_len : Z) : outcome Z :=
  match type with
  | TYPE_INT =>
      x ← oaccess (mread a aoff 4); y ← oaccess (mread b boff 4);
      let ia := bytes_int x in let ib := bytes_int y in
      Ret (if ia <? ib then -1 else if ia >? ib then 1 else 0)
  | TYPE_FLOAT =>
      x ← oaccess (mread a aoff 4); y ← oaccess (mread b boff 4);
      let fa := bytes_uint32 x in let fb := bytes_uint32 y in
      Ret (if float_lt fa fb then -1 else if float_lt fb fa then 1 else 0)
  | TYPE_STRING =>
      x ← oaccess (mread a aoff col_len); y ← oaccess (mread b boff col_len);
      Ret (memcmp x y)
  end.

(** The overload for keys of several columns. *)
Fixpoint ix_compare_keys (a : list byte) (aoff : Z) (b : list byte) (boff : Z) (col_types : list ColType)
    (col_lens : list Z) : outcome Z :=
  match col_types with
  | [] => Ret 0
  | ty :: col_types' =>
      match col_lens with
      | [] => Crash OutOfBounds
      | len :: col_lens' =>
          res ← ix_compare a aoff b boff ty len;
          if res =? 0 then ix_compare_keys a (aoff + len) b (boff + len) col_types' col_lens' else Ret res
      end
  end.

(** The result of a comparison tested by an operator ([eval_cond] of the executors). *)
Definition eval_op (o : CompOp) (cmp : Z) : bool :=
  match o with
  | OP_EQ => cmp =? 0
  | OP_NE => negb (cmp =? 0)
  | OP_LT => cmp <? 0
  | OP_GT => cmp >? 0
  | OP_LE => cmp <=? 0
  | OP_GE => cmp >=? 0
  end.

(** ** Laws *)

Lemma memcmp_refl a : memcmp a a = 0.
Proof. induction a as [|x a IH]; simpl; [done|]. by rewrite Z.ltb_irrefl, Z.gtb_ltb, Z.ltb_irrefl. Qed.

Lemma memcmp_range a b : memcmp a b = -1 ∨ memcmp a b = 0 ∨ memcmp a b = 1.
Proof. revert b; induction a as [|x a IH]; intros [|y b]; simpl; auto. repeat case_match; auto. Qed.

Lemma memcmp_antisym a b : length a = length b → memcmp b a = - memcmp a b.
Proof.
  revert b; induction a as [|x a IH]; intros [|y b]; simpl; try done. intros [= Hl].
  rewrite !Z.gtb_ltb. destruct (Z.ltb_spec (byte_val x) (byte_val y)), (Z.ltb_spec (byte_val y) (byte_val x)); try done; [lia|auto].
Qed.

Lemma memcmp_eq a b : length a = length b → memcmp a b = 0 ↔ a = b.
Proof.
  intros Hl. split; [|intros ->; apply memcmp_refl].
  revert b Hl; induction a as [|x a IH]; intros [|y b]; simpl; try done. intros [= Hl].
  rewrite Z.gtb_ltb. destruct (Z.ltb_spec (byte_val x) (byte_val y)); [done|].
  destruct (Z.ltb_spec (byte_val y) (byte_val x)); [done|]. intros H1.
  f_equal; [apply byte_val_inj; lia|auto].
Qed.

Lemma memcmp_trans a b c : length a = length b → length b = length c →
  memcmp a b <= 0 → memcmp b c <= 0 → memcmp a c <= 0.
Proof.
  revert b c; induction a as [|x a IH]; intros [|y b] [|z c]; simpl; try done. intros [= H1] [= H2].
  rewrite !Z.gtb_ltb.
  destruct (Z.ltb_spec (byte_val x) (byte_val y)), (Z.ltb_spec (byte_val y) (byte_val x)),
    (Z.ltb_spec (byte_val y) (byte_val z)), (Z.ltb_spec (byte_val z) (byte_val y)),
    (Z.ltb_spec (byte_val x) (byte_val z)), (Z.ltb_spec (byte_val z) (byte_val x)); try lia. eauto.
Qed.

(** Strings of one length compare as the common prefix and the next characters say. *)
Lemma memcmp_lt a b : length a = length b →
  memcmp a b < 0 ↔ ∃ p x y a' b', a = p ++ x :: a' ∧ b = p ++ y :: b' ∧ byte_val x < byte_val y.
Proof.
  intros Hl. split.
  - revert b Hl; induction a as [|x a IH]; intros [|y b]; simpl; try done. intros [= Hl].
    rewrite Z.gtb_ltb. destruct (Z.ltb_spec (byte_val x) (byte_val y)); [by exists [], x, y, a, b|].
    destruct (Z.ltb_spec (byte_val y) (byte_val x)); [done|]. intros Hm.
    destruct (IH b Hl Hm) as (p&x'&y'&a'&b'&->&->&?).
    assert (x = y) as -> by (apply byte_val_inj; lia). by exists (y :: p), x', y', a', b'.
  - intros (p&x&y&a'&b'&->&->&Hxy). clear Hl. induction p as [|z p IH]; simpl.
    + by rewrite (proj2 (Z.ltb_lt _ _)).
    + by rewrite Z.gtb_ltb, Z.ltb_irrefl.
Qed.
