(* ===== verification/Executor.v ===== *)
(** * Executors

    [execution/executor_abstract.h] and the scan, join, projection and sort executors.  The
    virtual interface of [AbstractExecutor] is the class [Cursor]; a node is a record over
    the types of its children.  The state [S] is what the executors work on (the open files
    and the buffer pool); a scan reaches its table through the class [TableAccess]. *)

From S2P Require Import Prelude Errors Config RecordFile Values Meta Compare Planner.
From stdpp Require Import options.

(** ** The interface *)

Class Cursor (S E : Type) := {
  tupleLen : E → Z;
  cols : E → outcome (list ColMeta);
  beginTuple : E → M S E;
  nextTuple : E → M S E;
  is_end : E → M S bool;
  rid : E → Rid;
  Next : E → M S (option RmRecord);
}.

(** The record file of a table ([fh_]): the operations of [RmFileHandle] and [RmScan] a
    scan calls.  [RecordFile] implements them. *)
Class TableAccess (S : Type) := {
  t_scan_make : string → M S RmScan;
  t_scan_next : string → RmScan → M S RmScan;
  t_get_record : string → Rid → M S (option RmRecord);
}.

(** [AbstractExecutor::get_col]. *)
Definition exec_get_col (rec_cols : list ColMeta) (target : TabCol) : outcome ColMeta :=
  match list_find (λ col, cm_tab_name col = tab_name target ∧ cm_name col = col_name target) rec_cols with
  | Some (_, col) => Ret col
  | None => Throw (ColumnNotFoundError (tab_name target +:+ "." +:+ col_name target))
  end.

(** The position of the column, as [pos - prev_cols.begin()]. *)
Definition exec_get_col_idx (rec_cols : list ColMeta) (target : TabCol) : outcome (nat * ColMeta) :=
  match list_find (λ col, cm_tab_name col = tab_name target ∧ cm_name col = col_name target) rec_cols with
  | Some pc => Ret pc
  | None => Throw (ColumnNotFoundError (tab_name target +:+ "." +:+ col_name target))
  end.

(** A pointer that is dereferenced next. *)
Definition oderef {A} (o : option A) : outcome A := match o with Some a => Ret a | None => Crash NullDeref end.

(** [std::all_of] stops at the first condition that does not hold. *)
Fixpoint all_of {A} (f : A → outcome bool) (l : list A) : outcome bool :=
  match l with
  | [] => Ret true
  | x :: l' => b ← f x; if (b : bool) then all_of f l' else Ret false
  end.

(** ** SeqScanExecutor *)

Record SeqScanExecutor := mkSeqScan {
  ss_tab_name : string;
  ss_conds : list Condition;
  ss_cols : list ColMeta;
  ss_len : Z;
  ss_fed_conds : list Condition;
  ss_rid : Rid;
  ss_scan : option RmScan;
}.

Definition scan_eval_cond (rec : option RmRecord) (cond : Condition) (rec_cols : list ColMeta) : outcome bool :=
  lcol ← exec_get_col rec_cols (lhs_col cond);
  r ← oderef rec;
  if is_rhs_val cond then
    rr ← oderef (raw (rhs_val cond));
    cmp ← ix_compare (rec_data r) (cm_offset lcol) (rec_data rr) 0 (cm_type lcol) (cm_len lcol);
    Ret (eval_op (op cond) cmp)
  else
    rcol ← exec_get_col rec_cols (rhs_col cond);
    cmp ← ix_compare (rec_data r) (cm_offset lcol) (rec_data r) (cm_offset rcol) (cm_type lcol) (cm_len lcol);
    Ret (eval_op (op cond) cmp).

Definition scan_eval_conds (rec : option RmRecord) (conds : list Condition) (rec_cols : list ColMeta) : outcome bool :=
  all_of (λ c, scan_eval_cond rec c rec_cols) conds.

Section seqscan.
Context {S : Type} `{!TableAccess S}.
Context (fuel : nat).

(** The constructor; a table without an open file makes [fhs_.at] throw [std::out_of_range],
    which nothing catches. *)
Definition SeqScan_make (db : DbMeta) (has_file : bool) (tab : string) (conds : list Condition)
    : outcome SeqScanExecutor :=
  t ← get_table db tab;
  if negb has_file then Crash OutOfBounds
  else
    back ← oaccess (last (tm_cols t));
    Ret (mkSeqScan tab conds (tm_cols t) (Plan.wrap_size_t (cm_offset back + cm_len back)) conds (mkRid 0 0) None).

(** The loop of [beginTuple] and [nextTuple]: on to the next record that satisfies the
    conditions. *)
Fixpoint seq_loop (fuel : nat) (e : SeqScanExecutor) (sc : RmScan) : M S SeqScanExecutor :=
  match fuel with
  | O => crashes OutOfFuel
  | Datatypes.S fuel' =>
      if scan_is_end sc then
        ret (mkSeqScan (ss_tab_name e) (ss_conds e) (ss_cols e) (ss_len e) (ss_fed_conds e) (ss_rid e) (Some sc))
      else
        let r := scan_rid sc in
        let! rec := t_get_record (ss_tab_name e) r in
        let! b := lift (scan_eval_conds rec (ss_fed_conds e) (ss_cols e)) in
        let e' := mkSeqScan (ss_tab_name e) (ss_conds e) (ss_cols e) (ss_len e) (ss_fed_conds e) r (Some sc) in
        if (b : bool) then ret e'
        else
          let! sc := t_scan_next (ss_tab_name e) sc in
          seq_loop fuel' e' sc
  end.

Definition seq_begin (e : SeqScanExecutor) : M S SeqScanExecutor :=
  let! sc := t_scan_make (ss_tab_name e) in
  seq_loop fuel e sc.

Definition seq_next (e : SeqScanExecutor) : M S SeqScanExecutor :=
  match ss_scan e with
  | None => crashes AssertFailed
  | Some sc =>
      let! sc := t_scan_next (ss_tab_name e) sc in
      seq_loop fuel e sc
  end.

Definition seq_is_end (e : SeqScanExecutor) : M S bool :=
  match ss_scan e with None => crashes NullDeref | Some sc => ret (scan_is_end sc) end.

#[global] Instance SeqScan_cursor : Cursor S SeqScanExecutor := {
  tupleLen := ss_len;
  cols e := Ret (ss_cols e);
  beginTuple := seq_begin;
  nextTuple := seq_next;
  is_end := seq_is_end;
  rid := ss_rid;
  Next e := t_get_record (ss_tab_name e) (ss_rid e);
}.
End seqscan.

(** ** NestedLoopJoinExecutor *)

Record NestedLoopJoinExecutor (L R : Type) := mkJoin {
  left_ : L;
  right_ : R;
  nl_len : Z;
  nl_cols : list ColMeta;
  nl_fed_conds : list Condition;
  isend : bool;
}.
Arguments mkJoin {L R}.
Arguments left_ {L R}.
Arguments right_ {L R}.
Arguments nl_len {L R}.
Arguments nl_cols {L R}.
Arguments nl_fed_conds {L R}.
Arguments isend {L R}.

Definition shift_col (d : Z) (col : ColMeta) : ColMeta :=
  mkColMeta (cm_tab_name col) (cm_name col) (cm_type col) (cm_len col) (wrap32 (cm_offset col + d)) (cm_index col).

(** Where a column of the joined record lies: in the left record below its length, in the
    right one otherwise.  The comparison is on [size_t]. *)
Definition pick (llen : Z) (lrec rrec : option RmRecord) (offset : Z) : outcome (list byte * Z) :=
  if Plan.wrap_size_t offset <? llen then r ← oderef lrec; Ret (rec_data r, offset)
  else r ← oderef rrec; Ret (rec_data r, offset - llen).

Definition join_eval_cond (llen : Z) (lrec rrec : option RmRecord) (cond : Condition) (rec_cols : list ColMeta)
    : outcome bool :=
  lcol ← exec_get_col rec_cols (lhs_col cond);
  '(a, aoff) ← pick llen lrec rrec (cm_offset lcol);
  '(b, boff) ←
    (if is_rhs_val cond then rr ← oderef (raw (rhs_val cond)); Ret (rec_data rr, 0)
     else rcol ← exec_get_col rec_cols (rhs_col cond); pick llen lrec rrec (cm_offset rcol));
  cmp ← ix_compare a aoff b boff (cm_type lcol) (cm_len lcol);
  Ret (eval_op (op cond) cmp).

Definition join_eval_conds (llen : Z) (lrec rrec : option RmRecord) (conds : list Condition) (rec_cols : list ColMeta)
    : outcome bool :=
  all_of (λ c, join_eval_cond llen lrec rrec c rec_cols) conds.

Section join.
Context {S L R : Type} `{!Cursor S L} `{!Cursor S R}.
Context (fuel : nat).

Definition Join_make (l : L) (r : R) (conds : list Condition) : outcome (NestedLoopJoinExecutor L R) :=
  lcols ← cols l;
  rcols ← cols r;
  Ret (mkJoin l r (Plan.wrap_size_t (tupleLen l + tupleLen r)) (lcols ++ (shift_col (tupleLen l) <$> rcols)) conds false).

Definition set_children (e : NestedLoopJoinExecutor L R) (l : L) (r : R) (b : bool) : NestedLoopJoinExecutor L R :=
  mkJoin l r (nl_len e) (nl_cols e) (nl_fed_conds e) b.

(** [while (!right_->is_end()) {...}]: [true] when a pair has been found. *)
Fixpoint join_inner (n : nat) (e : NestedLoopJoinExecutor L R) (l : L) (r : R) : M S (bool * R) :=
  match n with
  | O => crashes OutOfFuel
  | Datatypes.S n' =>
      let! b := is_end r in
      if (b : bool) then ret (false, r)
      else
        let! lrec := Next l in
        let! rrec := Next r in
        let! ok := lift (join_eval_conds (tupleLen l) lrec rrec (nl_fed_conds e) (nl_cols e)) in
        if (ok : bool) then ret (true, r)
        else let! r := nextTuple r in join_inner n' e l r
  end.

(** The outer loop of [beginTuple], entered with the right child at its first tuple. *)
Fixpoint join_outer (n : nat) (e : NestedLoopJoinExecutor L R) (l : L) (r : R) : M S (bool * L * R) :=
  match n with
  | O => crashes OutOfFuel
  | Datatypes.S n' =>
      let! b := is_end l in
      if (b : bool) then ret (false, l, r)
      else
        let! fr := join_inner fuel e l r in
        if fr.1 then ret (true, l, fr.2)
        else
          let! l := nextTuple l in
          let! b := is_end l in
          if (b : bool) then join_outer n' e l fr.2
          else let! r := beginTuple fr.2 in join_outer n' e l r
  end.

Definition join_begin (e : NestedLoopJoinExecutor L R) : M S (NestedLoopJoinExecutor L R) :=
  let! l := beginTuple (left_ e) in
  let! b := is_end l in
  if (b : bool) then let! b := is_end l in ret (set_children e l (right_ e) b)
  else
    let! r := beginTuple (right_ e) in
    let! flr := join_outer fuel e l r in
    let '(found, l, r) := flr in
    if (found : bool) then ret (set_children e l r (isend e))
    else let! b := is_end l in ret (set_children e l r b).

(** The second loop of [nextTuple], which rewinds the right child first. *)
Fixpoint join_outer_next (n : nat) (e : NestedLoopJoinExecutor L R) (l : L) (r : R) : M S (bool * L * R) :=
  match n with
  | O => crashes OutOfFuel
  | Datatypes.S n' =>
      let! b := is_end l in
      if (b : bool) then ret (false, l, r)
      else
        let! r := beginTuple r in
        let! fr := join_inner fuel e l r in
        if fr.1 then ret (true, l, fr.2)
        else let! l := nextTuple l in join_outer_next n' e l fr.2
  end.

Definition join_nextTuple (e : NestedLoopJoinExecutor L R) : M S (NestedLoopJoinExecutor L R) :=
  let! b := is_end (left_ e) in
  assert_ (negb b) ;;
  let! r := nextTuple (right_ e) in
  let! fr := join_inner fuel e (left_ e) r in
  if fr.1 then ret (set_children e (left_ e) fr.2 (isend e))
  else
    let! l := nextTuple (left_ e) in
    let! flr := join_outer_next fuel e l fr.2 in
    let '(found, l, r) := flr in
    ret (set_children e l r (if (found : bool) then isend e else true)).

(** The joined record: the left bytes, then the right bytes. *)
Definition join_Next (e : NestedLoopJoinExecutor L R) : M S (option RmRecord) :=
  let! lrec := Next (left_ e) in
  let! rrec := Next (right_ e) in
  let! l := deref lrec in
  let! lb := access (mread (rec_data l) 0 (tupleLen (left_ e))) in
  let! r := deref rrec in
  let! rb := access (mread (rec_data r) 0 (tupleLen (right_ e))) in
  ret (Some (mkRmRecord (lb ++ rb) (wrap32 (nl_len e)) true)).

#[global] Instance Join_cursor : Cursor S (NestedLoopJoinExecutor L R) := {
  tupleLen := nl_len;
  cols e := Ret (nl_cols e);
  beginTuple := join_begin;
  nextTuple := join_nextTuple;
  is_end e := ret (isend e);
  rid _ := mkRid 0 0;
  Next := join_Next;
}.
End join.

(** ** ProjectionExecutor *)

Record ProjectionExecutor (P : Type) := mkProj {
  prev_ : P;
  pj_cols : list ColMeta;
  pj_len : Z;
  sel_idxs_ : list nat;
}.
Arguments mkProj {P}.
Arguments prev_ {P}.
Arguments pj_cols {P}.
Arguments pj_len {P}.
Arguments sel_idxs_ {P}.

Definition set_offset (o : Z) (col : ColMeta) : ColMeta :=
  mkColMeta (cm_tab_name col) (cm_name col) (cm_type col) (cm_len col) o (cm_index col).

(** The loop of the constructor from offset [curr]: columns, indices, total length. *)
Fixpoint proj_layout (prev_cols : list ColMeta) (sel_cols : list TabCol) (curr : Z)
    : outcome (list ColMeta * list nat * Z) :=
  match sel_cols with
  | [] => Ret ([], [], curr)
  | sel :: sel_cols' =>
      '(i, col) ← exec_get_col_idx prev_cols sel;
      '(cs, is_, len) ← proj_layout prev_cols sel_cols' (Plan.wrap_size_t (curr + cm_len col));
      Ret (set_offset (wrap32 curr) col :: cs, i :: is_, len)
  end.

(** The copy loop of [Next]: source offsets from the child's columns, targets from ours. *)
Fixpoint proj_copy (prev_cols : list ColMeta) (idxs : list nat) (cs : list ColMeta) (src dst : list byte)
    : outcome (list byte) :=
  match idxs, cs with
  | i :: idxs', col :: cs' =>
      pcol ← oaccess (prev_cols !! i);
      bs ← oaccess (mread src (cm_offset pcol) (cm_len col));
      dst ← oaccess (mwrite dst (cm_offset col) bs);
      proj_copy prev_cols idxs' cs' src dst
  | [], _ => Ret dst
  | _, [] => Crash OutOfBounds
  end.

Section projection.
Context {S P : Type} `{!Cursor S P}.
(** The bytes a fresh buffer happens to hold. *)
Context (junk : Z → list byte).

Definition Proj_make (prev : P) (sel_cols : list TabCol) : outcome (ProjectionExecutor P) :=
  prev_cols ← cols prev;
  '(cs, is_, len) ← proj_layout prev_cols sel_cols 0;
  Ret (mkProj prev cs len is_).

Definition proj_Next (e : ProjectionExecutor P) : M S (option RmRecord) :=
  let! prec := Next (prev_ e) in
  match sel_idxs_ e with
  | [] => ret (Some (mkRmRecord (junk (pj_len e)) (pj_len e) true))
  | _ =>
      let! p := deref prec in
      let! prev_cols := lift (cols (prev_ e)) in
      let! d := lift (proj_copy prev_cols (sel_idxs_ e) (pj_cols e) (rec_data p) (junk (pj_len e))) in
      ret (Some (mkRmRecord d (wrap32 (pj_len e)) true))
  end.

Definition set_prev (e : ProjectionExecutor P) (p : P) : ProjectionExecutor P :=
  mkProj p (pj_cols e) (pj_len e) (sel_idxs_ e).

#[global] Instance Proj_cursor : Cursor S (ProjectionExecutor P) := {
  tupleLen := pj_len;
  cols e := Ret (pj_cols e);
  beginTuple e := let! p := beginTuple (prev_ e) in ret (set_prev e p);
  nextTuple e := let! p := nextTuple (prev_ e) in ret (set_prev e p);
  is_end e := is_end (prev_ e);
  rid _ := mkRid 0 0;
  Next := proj_Next;
}.
End projection.

(** ** SortExecutor

    Its operations are empty in the code: [is_end] is the one of [AbstractExecutor], which
    answers [true], and [cols] dereferences a null pointer. *)

Record SortExecutor (P : Type) := mkSort { so_prev : P; so_is_desc : bool; tuple_num : Z }.
Arguments mkSort {P}.
Arguments so_prev {P}.

Definition Sort_make {P} (prev : P) (is_desc : bool) : SortExecutor P := mkSort prev is_desc 0.

#[global] Instance Sort_cursor S P : Cursor S (SortExecutor P) := {
  tupleLen _ := 0;
  cols _ := Crash NullDeref;
  beginTuple e := ret e;
  nextTuple e := ret e;
  is_end _ := ret true;
  rid _ := mkRid 0 0;
  Next _ := ret None;
}.

(** ** IndexScanExecutor

    The constructor is complete, the operations are empty as for sorting. *)

Record IndexScanExecutor := mkIndexScan {
  is_tab_name : string;
  is_tab : TabMeta;
  is_conds : list Condition;
  is_cols : list ColMeta;
  is_len : Z;
  is_fed_conds : list Condition;
  is_index_col_names : list string;
  is_index_meta : IndexMeta;
}.

(** One iteration of the loop that brings the columns of the table to the left. *)
Definition turn_cond (tab : string) (c : Condition) : outcome Condition :=
  if decide (tab_name (lhs_col c) = tab) then Ret c
  else oassert (negb (is_rhs_val c) && bool_decide (tab_name (rhs_col c) = tab)) ≫= λ _, Ret (swap_cond c).

Definition IndexScan_make (db : DbMeta) (has_file : bool) (tab : string) (conds : list Condition) (names : list string)
    : outcome IndexScanExecutor :=
  t ← get_table db tab;
  '(_, im) ← get_index_meta t names;
  if negb has_file then Crash OutOfBounds
  else
    back ← oaccess (last (tm_cols t));
    cs ← omap_list (turn_cond tab) conds;
    Ret (mkIndexScan tab t cs (tm_cols t) (Plan.wrap_size_t (cm_offset back + cm_len back)) cs names im).

#[global] Instance IndexScan_cursor S : Cursor S IndexScanExecutor := {
  tupleLen _ := 0;
  cols _ := Crash NullDeref;
  beginTuple e := ret e;
  nextTuple e := ret e;
  is_end _ := ret true;
  rid _ := mkRid 0 0;
  Next _ := ret None;
}.

(** ** Running an executor: the loop of [QlManager::select_from]

    [for (beginTuple(); !is_end(); nextTuple()) Next()]. *)

Section drain.
Context {S E : Type} `{!Cursor S E}.

Fixpoint drain_loop (fuel : nat) (e : E) : M S (list (option RmRecord)) :=
  match fuel with
  | O => crashes OutOfFuel
  | Datatypes.S fuel' =>
      let! b := is_end e in
      if (b : bool) then ret []
      else
        let! r := Next e in
        let! e := nextTuple e in
        let! rs := drain_loop fuel' e in
        ret (r :: rs)
  end.

Definition drain (fuel : nat) (e : E) : M S (list (option RmRecord)) :=
  let! e := beginTuple e in drain_loop fuel e.
End drain.
