(* ===== verification/ExecutorProps.v ===== *)
(** * Correctness of the executors

    What a client may expect of an [AbstractExecutor] is the record [CursorOk]: the executor
    runs through a list of rows.  The join and the projection are proved against it, for
    children of which nothing else is known. *)

From S2P Require Import Prelude Errors Config RecordFile Values Meta Compare Planner Executor.
From stdpp Require Import options.

Abbreviation row := (list byte) (only parsing).

(** ** The contract of an executor *)

Section contract.
Context {S E : Type} `{!Cursor S E}.

(** [I] is the invariant of the state all executors share; [fresh e]: [e] may be started;
    [P e rem]: [e] stands before the rows [rem], the first of which is the current tuple. *)
Record CursorOk (I : S → Prop) (len : Z) (rows : list row) (fresh : E → Prop) (P : E → list row → Prop) := {
  co_begin e σ : I σ → fresh e → ∃ e' σ', beginTuple e σ = (Ret e', σ') ∧ I σ' ∧ P e' rows;
  co_next e σ x rem : I σ → P e (x :: rem) → ∃ e' σ', nextTuple e σ = (Ret e', σ') ∧ I σ' ∧ P e' rem;
  co_end e σ rem : I σ → P e rem → is_end e σ = (Ret (bool_decide (rem = [])), σ);
  co_Next e σ x rem : I σ → P e (x :: rem) →
    ∃ r σ', Next e σ = (Ret (Some r), σ') ∧ I σ' ∧ rec_data r = x;
  co_len e rem : P e rem → tupleLen e = len;
  co_rows : Forall (λ x : row, Z.of_nat (length x) = len) rows;
}.

(** It can be started again at any time. *)
Definition rewindable (fresh : E → Prop) (P : E → list row → Prop) : Prop := ∀ e rem, P e rem → fresh e.

Context (I : S → Prop) (len : Z) (rows : list row) (fresh : E → Prop) (P : E → list row → Prop).
Context (Hok : CursorOk I len rows fresh P).

Lemma drain_loop_ok fuel e σ rem :
  I σ → P e rem → (length rem < fuel)%nat →
  ∃ rs σ', drain_loop fuel e σ = (Ret (Some <$> rs), σ') ∧ I σ' ∧ rec_data <$> rs = rem.
Proof using Hok.
  revert e σ rem. induction fuel as [|fuel IH]; intros e σ rem HI HP Hf; [lia|]. simpl.
  unfold bind at 1. rewrite (co_end _ _ _ _ _ Hok e σ rem HI HP). destruct rem as [|x rem].
  - rewrite bool_decide_true by done. by exists [], σ.
  - rewrite bool_decide_false by done.
    destruct (co_Next _ _ _ _ _ Hok e σ x rem HI HP) as (r&σ1&E1&HI1&Hr).
    destruct (co_next _ _ _ _ _ Hok e σ1 x rem HI1 HP) as (e'&σ2&E2&HI2&HP2).
    destruct (IH e' σ2 rem HI2 HP2) as (rs&σ3&E3&HI3&Hrs); [simpl in Hf; lia|].
    exists (r :: rs), σ3. unfold bind. rewrite E1, E2, E3. split_and!; [done|done|]. rewrite fmap_cons. congruence.
Qed.

Lemma drain_ok fuel e σ :
  I σ → fresh e → (length rows < fuel)%nat →
  ∃ rs σ', drain fuel e σ = (Ret (Some <$> rs), σ') ∧ I σ' ∧ rec_data <$> rs = rows.
Proof using Hok.
  intros HI Hfr Hf. destruct (co_begin _ _ _ _ _ Hok e σ HI Hfr) as (e'&σ'&E1&HI'&HP).
  destruct (drain_loop_ok fuel e' σ' rows HI' HP Hf) as (rs&σ2&E2&HI2&Hrs).
  exists rs, σ2. unfold drain, bind. by rewrite E1, E2.
Qed.
End contract.

(** ** The nested loop join *)

Lemma suffix_tail {A} (x : A) l k : (x :: l) `suffix_of` k → l `suffix_of` k ∧ x ∈ k.
Proof. intros [pre ->]. split; [exists (pre ++ [x]); by rewrite <- app_assoc|set_solver]. Qed.

Section join.
Context {S L R : Type} `{!Cursor S L} `{!Cursor S R}.
Context (I : S → Prop) (nl nr : Z) (ls rs : list row).
Context (freshL : L → Prop) (PL : L → list row → Prop) (freshR : R → Prop) (PR : R → list row → Prop).
Context (HL : CursorOk I nl ls freshL PL) (HR : CursorOk I nr rs freshR PR) (HRw : rewindable freshR PR).
Context (conds : list Condition) (jcols : list ColMeta) (sat : row → row → bool).
Context (Hsat : ∀ lr rr, rec_data lr ∈ ls → rec_data rr ∈ rs →
  join_eval_conds nl (Some lr) (Some rr) conds jcols = Ret (sat (rec_data lr) (rec_data rr))).
Context (fuel : nat) (Hfuel : (length ls < fuel ∧ length rs < fuel)%nat).

(** The rows a left row gives with some right rows, and those of some left rows. *)
Definition matches (x : row) (ys : list row) : list row := (λ y, x ++ y) <$> filter (λ y, sat x y = true) ys.
Definition join_rows (xs : list row) : list row := xs ≫= λ x, matches x rs.

Lemma matches_cons x y ys :
  matches x (y :: ys) = if sat x y then (x ++ y) :: matches x ys else matches x ys.
Proof. unfold matches. rewrite filter_cons. case_decide as H; [by rewrite H|by apply not_true_is_false in H as ->]. Qed.

Definition join_over_nodes (e : NestedLoopJoinExecutor L R) : Prop :=
  nl_fed_conds e = conds ∧ nl_cols e = jcols ∧ nl_len e = nl + nr.

Lemma join_inner_ok n e l r σ x remL rem :
  join_over_nodes e → I σ → PL l (x :: remL) → x ∈ ls → PR r rem → rem `suffix_of` rs → (length rem < n)%nat →
  ∃ b r' σ', join_inner n e l r σ = (Ret (b, r'), σ') ∧ I σ' ∧
    if b then ∃ y rem', PR r' (y :: rem') ∧ (y :: rem') `suffix_of` rs ∧
                matches x rem = (x ++ y) :: matches x rem'
    else PR r' [] ∧ matches x rem = [].
Proof using HL HR HRw Hsat Hfuel.
  intros (Ec&Ecol&_) HI HPl Hx. revert r σ rem HI.
  induction n as [|n IH]; intros r σ rem HI HPr Hsuf Hn; [lia|]. simpl. unfold bind at 1.
  rewrite (co_end _ _ _ _ _ HR r σ rem HI HPr). destruct rem as [|y rem].
  - rewrite bool_decide_true by done. by exists false, r, σ.
  - rewrite bool_decide_false by done.
    destruct (co_Next _ _ _ _ _ HL l σ x remL HI HPl) as (lr&σ1&E1&HI1&Hlr).
    destruct (co_Next _ _ _ _ _ HR r σ1 y rem HI1 HPr) as (rr&σ2&E2&HI2&Hrr).
    unfold bind at 1. rewrite E1. unfold bind at 1. rewrite E2. unfold bind at 1, lift.
    rewrite (co_len _ _ _ _ _ HL l _ HPl), Ec, Ecol.
    assert (y ∈ rs) as Hy by (destruct Hsuf as [pre ->]; set_solver).
    rewrite (Hsat lr rr) by by rewrite ?Hlr, ?Hrr. rewrite Hlr, Hrr, matches_cons.
    destruct (sat x y) eqn:Es.
    + exists true, r, σ2. split_and!; [done|done|]. by exists y, rem.
    + destruct (co_next _ _ _ _ _ HR r σ2 y rem HI2 HPr) as (r'&σ3&E3&HI3&HPr').
      unfold bind at 1. rewrite E3.
      apply IH; [done|done| |simpl in Hn; lia]. destruct Hsuf as [pre ->]. exists (pre ++ [y]). by rewrite <- app_assoc.
Qed.

(** The state the outer loops leave. *)
Definition outer_post (xs : list row) (b : bool) (l : L) (r : R) : Prop :=
  if b then ∃ x remL y remR, PL l (x :: remL) ∧ (x :: remL) `suffix_of` ls ∧
    PR r (y :: remR) ∧ (y :: remR) `suffix_of` rs ∧ join_rows xs = (x ++ y) :: matches x remR ++ join_rows remL
  else PL l [] ∧ join_rows xs = [].

Lemma join_outer_ok n e l r σ xs :
  join_over_nodes e → I σ → PL l xs → xs `suffix_of` ls → (xs ≠ [] → PR r rs) → (length xs < n)%nat →
  ∃ b l' r' σ', join_outer fuel n e l r σ = (Ret (b, l', r'), σ') ∧ I σ' ∧ outer_post xs b l' r'.
Proof using HL HR HRw Hsat Hfuel.
  intros He. revert l r σ xs. induction n as [|n IH]; intros l r σ xs HI HPl Hsl HPr Hn; [lia|].
  simpl. unfold bind at 1. rewrite (co_end _ _ _ _ _ HL l σ xs HI HPl). destruct xs as [|x xs].
  { rewrite bool_decide_true by done. by exists false, l, r, σ. }
  rewrite bool_decide_false by done. destruct (suffix_tail _ _ _ Hsl) as [Hsl' Hx].
  destruct (join_inner_ok fuel e l r σ x xs rs He HI HPl Hx (HPr ltac:(done))) as (b&r'&σ1&E1&HI1&Hb); [done|lia|].
  unfold bind at 1. rewrite E1. simpl. destruct b.
  - destruct Hb as (y&remR&HPr'&Hsr&Hm). exists true, l, r', σ1. split_and!; [done|done|].
    exists x, xs, y, remR. split_and!; try done. unfold join_rows. simpl. by rewrite Hm.
  - destruct Hb as [HPr' Hm].
    destruct (co_next _ _ _ _ _ HL l σ1 x xs HI1 HPl) as (l2&σ2&E2&HI2&HPl2).
    unfold bind at 1. rewrite E2. unfold bind at 1. rewrite (co_end _ _ _ _ _ HL l2 σ2 xs HI2 HPl2).
    assert (Hrows : join_rows (x :: xs) = join_rows xs) by (unfold join_rows; simpl; by rewrite Hm).
    unfold outer_post in *. rewrite Hrows. destruct xs as [|x' xs].
    + rewrite bool_decide_true by done. apply IH; [done|done|done|done|simpl in *; lia].
    + rewrite bool_decide_false by done.
      destruct (co_begin _ _ _ _ _ HR r' σ2 HI2 (HRw _ _ HPr')) as (r3&σ3&E3&HI3&HPr3).
      unfold bind at 1. rewrite E3. apply IH; [done|done|done|done|simpl in *; lia].
Qed.

Lemma join_outer_next_ok n e l r σ xs :
  join_over_nodes e → I σ → PL l xs → xs `suffix_of` ls → freshR r → (length xs < n)%nat →
  ∃ b l' r' σ', join_outer_next fuel n e l r σ = (Ret (b, l', r'), σ') ∧ I σ' ∧ outer_post xs b l' r'.
Proof using HL HR HRw Hsat Hfuel.
  intros He. revert l r σ xs. induction n as [|n IH]; intros l r σ xs HI HPl Hsl HFr Hn; [lia|].
  simpl. unfold bind at 1. rewrite (co_end _ _ _ _ _ HL l σ xs HI HPl). destruct xs as [|x xs].
  { rewrite bool_decide_true by done. by exists false, l, r, σ. }
  rewrite bool_decide_false by done. destruct (suffix_tail _ _ _ Hsl) as [Hsl' Hx].
  destruct (co_begin _ _ _ _ _ HR r σ HI HFr) as (r1&σ1&E1&HI1&HPr1). unfold bind at 1. rewrite E1.
  destruct (join_inner_ok fuel e l r1 σ1 x xs rs He HI1 HPl Hx HPr1) as (b&r2&σ2&E2&HI2&Hb); [done|lia|].
  unfold bind at 1. rewrite E2. simpl. destruct b.
  - destruct Hb as (y&remR&HPr'&Hsr&Hm). exists true, l, r2, σ2. split_and!; [done|done|].
    exists x, xs, y, remR. split_and!; try done. unfold join_rows. simpl. by rewrite Hm.
  - destruct Hb as [HPr' Hm].
    destruct (co_next _ _ _ _ _ HL l σ2 x xs HI2 HPl) as (l3&σ3&E3&HI3&HPl3).
    unfold bind at 1. rewrite E3.
    assert (Hrows : join_rows (x :: xs) = join_rows xs) by (unfold join_rows; simpl; by rewrite Hm).
    unfold outer_post in *. rewrite Hrows. apply IH; [done|done|done|exact (HRw _ _ HPr')|simpl in *; lia].
Qed.

(** Where the join stands. *)
Definition join_fresh (e : NestedLoopJoinExecutor L R) : Prop :=
  join_over_nodes e ∧ isend e = false ∧ freshL (left_ e) ∧ freshR (right_ e).

Definition join_at (e : NestedLoopJoinExecutor L R) (rem : list row) : Prop :=
  join_over_nodes e ∧
  if isend e then rem = []
  else ∃ x remL y remR, PL (left_ e) (x :: remL) ∧ (x :: remL) `suffix_of` ls ∧
    PR (right_ e) (y :: remR) ∧ (y :: remR) `suffix_of` rs ∧ rem = (x ++ y) :: matches x remR ++ join_rows remL.

Lemma join_at_post e l r b xs rem :
  join_over_nodes e → isend e = false → outer_post xs b l r → rem = join_rows xs →
  join_at (set_children e l r (if b then isend e else true)) rem.
Proof.
  intros He Hend Hp ->. split; [done|]. destruct b; simpl; [rewrite Hend; exact Hp|by destruct Hp].
Qed.

(** [beginTuple], whatever [isend] says before. *)
Lemma join_begin_ok e σ :
  join_over_nodes e → I σ → freshL (left_ e) → freshR (right_ e) →
  ∃ (b : bool) l' r' σ', join_begin fuel e σ = (Ret (set_children e l' r' (if b then isend e else true)), σ') ∧
    I σ' ∧ outer_post ls b l' r'.
Proof using HL HR HRw Hsat Hfuel.
  intros He HI HfL HfR. unfold join_begin.
  destruct (co_begin _ _ _ _ _ HL _ σ HI HfL) as (l&σ1&E1&HI1&HPl). unfold bind at 1. rewrite E1.
  unfold bind at 1. rewrite (co_end _ _ _ _ _ HL l σ1 ls HI1 HPl). destruct (decide (ls = [])) as [Hnil|Hne].
  - rewrite bool_decide_true by done. unfold bind at 1. rewrite (co_end _ _ _ _ _ HL l σ1 ls HI1 HPl).
    rewrite bool_decide_true by done. exists false, l, (right_ e), σ1. split_and!; [done|done|].
    simpl. rewrite Hnil in *. done.
  - rewrite bool_decide_false by done.
    destruct (co_begin _ _ _ _ _ HR _ σ1 HI1 HfR) as (r&σ2&E2&HI2&HPr). unfold bind at 1. rewrite E2.
    destruct (join_outer_ok fuel e l r σ2 ls He HI2 HPl) as (b&l'&r'&σ3&E3&HI3&Hp); [done|done|lia|].
    unfold bind at 1. rewrite E3. exists b, l', r', σ3. destruct b; [done|]. destruct Hp as [HPl' Hj].
    unfold bind at 1. rewrite (co_end _ _ _ _ _ HL l' σ3 [] HI3 HPl'). done.
Qed.

Lemma join_next_at e σ z rem :
  I σ → join_at e (z :: rem) →
  ∃ e' σ', join_nextTuple fuel e σ = (Ret e', σ') ∧ I σ' ∧ join_at e' rem.
Proof using HL HR HRw Hsat Hfuel.
  intros HI [He Hat]. destruct (isend e) eqn:Hend; [done|].
  destruct Hat as (x&remL&y&remR&HPl&Hsl&HPr&Hsr&[= -> ->]).
  destruct (suffix_tail _ _ _ Hsl) as [Hsl' Hx], (suffix_tail _ _ _ Hsr) as [Hsr' Hy].
  unfold join_nextTuple. unfold bind at 1. rewrite (co_end _ _ _ _ _ HL _ σ _ HI HPl).
  rewrite bool_decide_false by done. cbn [negb assert_]. unfold bind at 1. cbn [ret].
  destruct (co_next _ _ _ _ _ HR _ σ y remR HI HPr) as (r1&σ1&E1&HI1&HPr1). unfold bind at 1. rewrite E1.
  destruct (join_inner_ok fuel e (left_ e) r1 σ1 x remL remR He HI1 HPl Hx HPr1 Hsr') as (b&r2&σ2&E2&HI2&Hb).
  { apply suffix_length in Hsr'. lia. }
  unfold bind at 1. rewrite E2. simpl. destruct b.
  - destruct Hb as (y'&remR'&HPr'&Hsr''&Hm). eexists _, σ2. split_and!; [done|done|].
    split; [done|]. simpl. rewrite Hend. exists x, remL, y', remR'. by rewrite Hm.
  - destruct Hb as [HPr' Hm]. rewrite Hm. simpl.
    destruct (co_next _ _ _ _ _ HL _ σ2 x remL HI2 HPl) as (l3&σ3&E3&HI3&HPl3). unfold bind at 1. rewrite E3.
    destruct (join_outer_next_ok fuel e l3 r2 σ3 remL He HI3 HPl3 Hsl') as (b&l4&r4&σ4&E4&HI4&Hp).
    { exact (HRw _ _ HPr'). }
    { apply suffix_length in Hsl'. lia. }
    unfold bind at 1. rewrite E4. eexists _, σ4. split_and!; [done|done|].
    by apply (join_at_post e l4 r4 b remL).
Qed.

Lemma join_Next_at e σ z rem :
  I σ → join_at e (z :: rem) → ∃ r σ', join_Next e σ = (Ret (Some r), σ') ∧ I σ' ∧ rec_data r = z.
Proof using HL HR HRw Hsat Hfuel.
  intros HI [He Hat]. destruct (isend e); [done|].
  destruct Hat as (x&remL&y&remR&HPl&Hsl&HPr&Hsr&[= -> _]).
  destruct (suffix_tail _ _ _ Hsl) as [_ Hx], (suffix_tail _ _ _ Hsr) as [_ Hy]. unfold join_Next.
  destruct (co_Next _ _ _ _ _ HL _ σ x remL HI HPl) as (lr&σ1&E1&HI1&Hlr). unfold bind at 1. rewrite E1.
  destruct (co_Next _ _ _ _ _ HR _ σ1 y remR HI1 HPr) as (rr&σ2&E2&HI2&Hrr). unfold bind at 1. rewrite E2.
  cbn [deref bind ret]. unfold bind, ret. rewrite (co_len _ _ _ _ _ HL _ _ HPl), (co_len _ _ _ _ _ HR _ _ HPr), Hlr, Hrr.
  pose proof (co_rows _ _ _ _ _ HL) as HlL. pose proof (co_rows _ _ _ _ _ HR) as HlR.
  rewrite Forall_forall in HlL, HlR.
  rewrite <- (HlL x Hx), <- (HlR y Hy), !mread_all. cbn. eexists _, _. split_and!; [done|done|done].
Qed.

(** C12: The nested loop join.  Over children that meet the contract of an executor, of which the right
    one can be started again at any time ([rewindable], which scans are and joins are not, see
    [join_restart_ends]), the join meets the contract too: from its first start it runs, without an
    error and with the fuel of one more step than each child has rows, through exactly the
    concatenated pairs of a left and a right row that satisfy its conditions, in the order of
    the left rows and for each of them of the right rows. *)
Theorem join_cursor_ok :
  CursorOk (E := NestedLoopJoinExecutor L R) (Cursor0 := Join_cursor fuel) I (nl + nr) (join_rows ls) join_fresh join_at.
Proof using HL HR HRw Hsat Hfuel.
  split.
  - intros e σ HI (He&Hend&HfL&HfR). destruct (join_begin_ok e σ He HI HfL HfR) as (b&l&r&σ'&E&HI'&Hp).
    exists (set_children e l r (if b then isend e else true)), σ'. split_and!; [done|done|].
    by apply (join_at_post e l r b ls).
  - intros e σ x rem. apply join_next_at.
  - intros e σ rem HI [_ Hat]. simpl. unfold ret. destruct (isend e).
    + subst. by rewrite bool_decide_true.
    + destruct Hat as (?&?&?&?&_&_&_&_&->). by rewrite bool_decide_false.
  - intros e σ x rem. apply join_Next_at.
  - by intros e rem [(_&_&?) _].
  - pose proof (co_rows _ _ _ _ _ HL) as HlL. pose proof (co_rows _ _ _ _ _ HR) as HlR.
    rewrite Forall_forall in HlL, HlR. apply Forall_forall. intros z (x&Hz&Hx)%list_elem_of_bind.
    apply list_elem_of_fmap in Hz as (y&->&[_ Hy]%list_elem_of_filter).
    rewrite length_app, Nat2Z.inj_add. by rewrite (HlL x Hx), (HlR y Hy).
Qed.

(** C36: A join cannot be started again.  [isend] is set when the rows of a join are used up, and
    [beginTuple] leaves it set: over children that meet the contract and are ready to start, the right
    one restartable at any time, a join that has rows and [isend] set finds its first pair again and
    yet answers [is_end] at once.  (So a join that is the right child of another join, which is how the
    planner nests the joins of three and more tables, gives its rows for the first left row
    only; the witness computes such a join.) *)
Theorem join_restart_ends e σ :
  join_over_nodes e → I σ → freshL (left_ e) → freshR (right_ e) → isend e = true → join_rows ls ≠ [] →
  ∃ e' σ', join_begin fuel e σ = (Ret e', σ') ∧ is_end (Cursor := Join_cursor fuel) e' σ' = (Ret true, σ') ∧
    ∃ x remL y remR, PL (left_ e') (x :: remL) ∧ PR (right_ e') (y :: remR) ∧ head (join_rows ls) = Some (x ++ y).
Proof using HL HR HRw Hsat Hfuel.
  intros He HI HfL HfR Hend Hne. destruct (join_begin_ok e σ He HI HfL HfR) as (b&l&r&σ'&E&HI'&Hp).
  eexists _, σ'. split; [done|]. simpl. unfold ret. destruct b; [|by destruct Hp as [_ Hp]]. rewrite Hend. split; [done|].
  destruct Hp as (x&remL&y&remR&HPl&Hsl&HPr&Hsr&Hj). exists x, remL, y, remR. split_and!; try done.
  by rewrite Hj.
Qed.
End join.

(** ** The projection *)

(** The bytes of a column in a row, and those of several columns. *)
Definition col_bytes (col : ColMeta) (x : row) : row := take (Z.to_nat (cm_len col)) (drop (Z.to_nat (cm_offset col)) x).
Definition proj_row (cs : list ColMeta) (x : row) : row := cs ≫= λ c, col_bytes c x.

(** The column lies within rows of [n] bytes. *)
Definition col_within (n : Z) (col : ColMeta) : Prop :=
  0 <= cm_offset col ∧ 0 <= cm_len col ∧ cm_offset col + cm_len col <= n.

Definition total_len (cs : list ColMeta) : Z := foldr (λ c, Z.add (cm_len c)) 0 cs.

Lemma total_len_nonneg n cs : Forall (col_within n) cs → 0 <= total_len cs.
Proof. induction 1 as [|c cs (?&?&?) _ IH]; simpl; lia. Qed.

Lemma length_col_bytes n c x : col_within n c → Z.of_nat (length x) = n → Z.of_nat (length (col_bytes c x)) = cm_len c.
Proof. intros (?&?&?) Hx. unfold col_bytes. rewrite length_take, length_drop. lia. Qed.

Lemma length_proj_row n cs x :
  Forall (col_within n) cs → Z.of_nat (length x) = n → Z.of_nat (length (proj_row cs x)) = total_len cs.
Proof.
  intros Hcs Hx. induction Hcs as [|c cs Hc _ IH]; [done|]. simpl.
  rewrite length_app, Nat2Z.inj_add, (length_col_bytes n) by done. by rewrite IH.
Qed.

(** The columns a projection selects. *)
Definition selects (pcols : list ColMeta) (sel : list TabCol) (scols : list ColMeta) : Prop :=
  Forall2 (λ t c, exec_get_col pcols t = Ret c) sel scols.

(** The layout: consecutive offsets from [curr]. *)
Fixpoint layout_from (curr : Z) (scols : list ColMeta) : list ColMeta :=
  match scols with
  | [] => []
  | c :: scols' => set_offset curr c :: layout_from (curr + cm_len c) scols'
  end.

Lemma proj_layout_ok pcols n sel curr cs idxs len :
  proj_layout pcols sel curr = Ret (cs, idxs, len) →
  (∀ t c, t ∈ sel → exec_get_col pcols t = Ret c → col_within n c) → 0 <= curr →
  (∀ scols, selects pcols sel scols → curr + total_len scols < 2 ^ 31) →
  ∃ scols, selects pcols sel scols ∧ Forall (col_within n) scols ∧ cs = layout_from curr scols ∧
    Forall2 (λ i c, pcols !! i = Some c) idxs scols ∧ len = curr + total_len scols.
Proof.
  revert curr cs idxs len. induction sel as [|t sel IH]; intros curr cs idxs len; simpl.
  - intros [= <- <- <-] _ _ _. exists []. split_and!; try by constructor. simpl. lia.
  - intros ([i c]&Hi&([[cs' idxs'] len']&Hl&[= <- <- <-])%obind_Ret)%obind_Ret Hw Hcurr Htot.
    unfold exec_get_col_idx in Hi. destruct (list_find _ pcols) as [[i' c']|] eqn:Ef; [|done]. injection Hi as -> ->.
    assert (Hc : exec_get_col pcols t = Ret c) by (unfold exec_get_col; by rewrite Ef).
    assert (Hcw : col_within n c) by (eapply Hw; [left|done]). pose proof Hcw as (?&?&?).
    assert (Hwrap : curr + cm_len c < 2 ^ 31 → Plan.wrap_size_t (curr + cm_len c) = curr + cm_len c).
    { intros. apply Z.mod_small. lia. }
    assert (Hsome : ∀ sc, selects pcols sel sc → curr + cm_len c + total_len sc < 2 ^ 31).
    { intros sc Hsc. specialize (Htot (c :: sc)). simpl in Htot. rewrite <- Z.add_assoc. apply Htot. by constructor. }
    assert (∃ sc, selects pcols sel sc ∧ 0 <= total_len sc) as (sc&Hsc&Hpos).
    { clear -Hl Hw. revert Hl. generalize (Plan.wrap_size_t (curr + cm_len c)). clear curr.
      revert cs' idxs' len'. induction sel as [|t' sel IH]; intros cs' idxs' len' z; simpl; [intros _; exists []; split; [constructor|done]|].
      intros ([i2 c2]&Hi&([[a b] d]&Hl&_)%obind_Ret)%obind_Ret.
      unfold exec_get_col_idx in Hi. destruct (list_find _ pcols) as [[i' c']|] eqn:Ef; [|done]. injection Hi as -> ->.
      assert (Hc : exec_get_col pcols t' = Ret c2) by (unfold exec_get_col; by rewrite Ef).
      edestruct (IH) as (sc&Hsc&?); [|exact Hl|].
      { intros t2 c3 H2. apply Hw. apply elem_of_cons in H2 as [->|H2]; [left|right; by right]. }
      exists (c2 :: sc). split; [by constructor|]. destruct (Hw t' c2) as (?&?&?); [right; left|done|]. simpl. lia. }
    specialize (Hsome sc Hsc) as Hlt. rewrite Hwrap in Hl by lia.
    destruct (IH _ _ _ _ Hl) as (scols&Hs&Hf&->&Hidx&->).
    { intros t' c' Ht'. apply Hw. by right. }
    { lia. }
    { done. }
    exists (c :: scols). split_and!; [by constructor|by constructor| |constructor|simpl; lia].
    + simpl. f_equal. rewrite wrap32_id; [done|]. unfold is_int32, INT_MIN, INT_MAX. lia.
    + by apply list_find_Some in Ef as [? _].
    + done.
Qed.

Lemma proj_copy_ok pcols n scols idxs src curr dst :
  Forall (col_within n) scols → Forall2 (λ i c, pcols !! i = Some c) idxs scols → Z.of_nat (length src) = n →
  0 <= curr → Z.of_nat (length dst) = curr + total_len scols →
  proj_copy pcols idxs (layout_from curr scols) src dst = Ret (take (Z.to_nat curr) dst ++ proj_row scols src).
Proof.
  intros Hw Hidx Hsrc. revert curr dst. induction Hidx as [|i c idxs scols Hi _ IH]; intros curr dst Hcurr Hdst.
  - simpl in *. rewrite app_nil_r, take_ge by lia. done.
  - apply Forall_cons in Hw as [Hc Hw]. pose proof Hc as (?&?&?). pose proof (total_len_nonneg _ _ Hw).
    cbn [proj_copy layout_from]. rewrite Hi. simpl in Hdst. cbn [set_offset cm_len cm_offset oaccess mbind outcome_bind].
    assert (mread src (cm_offset c) (cm_len c) = Some (col_bytes c src)) as ->.
    { apply mread_Some. split_and!; try lia. done. }
    cbn [oaccess mbind outcome_bind set_offset cm_offset].
    pose proof (length_col_bytes n c src Hc Hsrc) as Hlc.
    destruct (mwrite_is_Some dst curr (col_bytes c src)) as [dst' Hd]; [lia|lia|]. rewrite Hd. cbn [oaccess mbind outcome_bind].
    rewrite IH; [|done|lia|rewrite (mwrite_length _ _ _ _ Hd); lia].
    f_equal. cbn. rewrite app_assoc. f_equal.
    apply mwrite_Some in Hd as (_&_&->).
    rewrite app_assoc, take_app_le by (rewrite length_app, length_take; lia).
    rewrite take_ge; [done|]. rewrite length_app, length_take. lia.
Qed.

Section projection.
Context {S P : Type} `{!Cursor S P}.
Context (I : S → Prop) (n : Z) (rows : list row) (fresh : P → Prop) (At : P → list row → Prop).
Context (HP : CursorOk I n rows fresh At).
Context (pcols : list ColMeta) (Hcols : ∀ p rem, At p rem → cols p = Ret pcols).
Context (junk : Z → list byte) (Hjunk : ∀ k, 0 <= k → Z.of_nat (length (junk k)) = k).

(** [e] has the layout of [e0] over a child that satisfies [Q]. *)
Definition same_layout (e0 : ProjectionExecutor P) (Q : P → Prop) (e : ProjectionExecutor P) : Prop :=
  pj_cols e = pj_cols e0 ∧ pj_len e = pj_len e0 ∧ sel_idxs_ e = sel_idxs_ e0 ∧ Q (prev_ e).

(** C27: The projection.  When its constructor returns, every selected name is a column of the
    child, and the executor runs through the rows of the child, each cut down to the bytes of
    the selected columns in the order of the selection; a selected column must lie within the
    child's rows, and the result must be shorter than 2^31 bytes. *)
Theorem projection_cursor_ok p sel e0 :
  cols p = Ret pcols → Proj_make p sel = Ret e0 → sel ≠ [] →
  (∀ t c, t ∈ sel → exec_get_col pcols t = Ret c → col_within n c) →
  (∀ scols, selects pcols sel scols → total_len scols < 2 ^ 31) →
  ∃ scols, selects pcols sel scols ∧ pj_cols e0 = layout_from 0 scols ∧
    CursorOk (E := ProjectionExecutor P) (Cursor0 := Proj_cursor junk) I (total_len scols) (proj_row scols <$> rows)
      (same_layout e0 fresh) (λ e rem, ∃ rem0, rem = proj_row scols <$> rem0 ∧ rem0 `suffix_of` rows ∧
                                same_layout e0 (λ p, At p rem0) e).
Proof using HP Hcols Hjunk.
  intros Hp He Hsel Hw Htot. unfold Proj_make in He. rewrite Hp in He. simpl in He.
  apply obind_Ret in He as ([[cs idxs] len]&Hl&[= <-]).
  destruct (proj_layout_ok pcols n sel 0 cs idxs len Hl Hw) as (scols&Hs&Hf&->&Hidx&->); [done|done|].
  exists scols. split; [done|]. split; [done|]. pose proof (total_len_nonneg _ _ Hf) as Hpos.
  assert (Hne : idxs ≠ []).
  { intros ->. apply Forall2_nil_inv_l in Hidx as ->. by apply Forall2_nil_inv_r in Hs. }
  split.
  - intros e σ HI (E1&E2&E3&Hfr). destruct (co_begin _ _ _ _ _ HP _ σ HI Hfr) as (p'&σ'&E&HI'&HAt).
    exists (set_prev e p'), σ'. simpl. unfold bind. rewrite E. split_and!; [done|done|]. exists rows. done.
  - intros e σ x rem HI (rem0&Hrem&Hsuf&E1&E2&E3&HAt). destruct rem0 as [|x0 rem0]; [done|].
    injection Hrem as -> ->. destruct (co_next _ _ _ _ _ HP _ σ x0 rem0 HI HAt) as (p'&σ'&E&HI'&HAt').
    exists (set_prev e p'), σ'. simpl. unfold bind. rewrite E. split_and!; [done|done|].
    exists rem0. by destruct (suffix_tail _ _ _ Hsuf).
  - intros e σ rem HI (rem0&->&_&_&_&_&HAt). simpl. rewrite (co_end _ _ _ _ _ HP _ σ rem0 HI HAt).
    f_equal. f_equal. apply bool_decide_ext. by destruct rem0.
  - intros e σ x rem HI (rem0&Hrem&Hsuf&E1&E2&E3&HAt). destruct rem0 as [|x0 rem0]; [done|].
    injection Hrem as -> ->. destruct (suffix_tail _ _ _ Hsuf) as [_ Hx0].
    pose proof (co_rows _ _ _ _ _ HP) as Hlen. rewrite Forall_forall in Hlen. specialize (Hlen x0 Hx0).
    destruct (co_Next _ _ _ _ _ HP _ σ x0 rem0 HI HAt) as (r&σ'&E&HI'&Hr).
    simpl. unfold proj_Next. unfold bind at 1. rewrite E, E3. simpl sel_idxs_.
    destruct idxs as [|i idxs]; [done|]. cbn [deref bind ret]. unfold bind, ret, lift.
    rewrite (Hcols _ _ HAt), E1, E2. cbn [pj_cols pj_len].
    rewrite Hr, (proj_copy_ok pcols n scols (i :: idxs) x0 0); [|done|done|done|done|by rewrite Hjunk].
    eexists _, σ'. split_and!; [done|done|done].
  - intros e rem (rem0&_&_&_&E2&_). simpl. by rewrite E2.
  - apply Forall_fmap. eapply Forall_impl; [apply HP|]. intros x Hx. simpl. by eapply length_proj_row.
Qed.
End projection.

(** ** Comparisons *)

(** The order [ix_compare] means for values of a type. *)
Definition val_lt (ty : ColType) (x y : list byte) : Prop :=
  match ty with
  | TYPE_INT => bytes_int x < bytes_int y
  | TYPE_FLOAT => float_lt (bytes_uint32 x) (bytes_uint32 y) = true
  | TYPE_STRING => ∃ p a b x' y', x = p ++ a :: x' ∧ y = p ++ b :: y' ∧ byte_val a < byte_val b
  end.

Lemma float_lt_asym a b : float_lt a b = true → float_lt b a = false.
Proof.
  unfold float_lt. rewrite !andb_true_iff, Z.ltb_lt. intros [[_ _] ?].
  rewrite (proj2 (Z.ltb_ge _ _)) by lia. by rewrite andb_false_r.
Qed.

Lemma bytes_int_inj x y : length x = 4%nat → length y = 4%nat → bytes_int x = bytes_int y → x = y.
Proof.
  intros Hx Hy H. rewrite <- (le_encode_decode x), <- (le_encode_decode y), Hx, Hy. f_equal.
  pose proof (le_decode_range x) as Rx. pose proof (le_decode_range y) as Ry.
  rewrite Hx in Rx. rewrite Hy in Ry. change (256 ^ Z.of_nat 4) with (2 ^ 32) in *.
  assert (Hw : ∀ z, 0 <= z < 2 ^ 32 → wrap32 z mod 2 ^ 32 = z).
  { intros z Hz. unfold wrap32. rewrite Zminus_mod_idemp_l.
    replace (z + 2 ^ 31 - 2 ^ 31) with z by lia. by apply Z.mod_small. }
  rewrite <- (Hw (le_decode x)), <- (Hw (le_decode y)) by lia. unfold bytes_int in H. by rewrite H.
Qed.

Lemma three_way (lt gt : bool) :
  ¬ (lt = true ∧ gt = true) →
  let r := if lt then -1 else if gt then 1 else 0 in
  (if gt then -1 else if lt then 1 else 0) = - r ∧ (r < 0 ↔ lt = true) ∧ (r > 0 ↔ gt = true) ∧
  (r = 0 ↔ lt = false ∧ gt = false).
Proof. destruct lt, gt; intros H; simpl; [exfalso; auto|..]; split_and!; (done || lia || naive_solver lia). Qed.

(** [ix_compare] on two stored values of one column: it returns, without reading outside
    the values, the sign of the order of their type (integers by value, floats by the IEEE
    order, strings by the first different character); exchanging the values negates it, and
    an operator tested on the result means the same as the exchanged operator tested on the
    exchanged values.  Integers and strings compare equal exactly when their bytes are. *)
Theorem ix_compare_order ty len x y :
  Z.of_nat (length x) = len → Z.of_nat (length y) = len → (ty ≠ TYPE_STRING → len = 4) →
  ∃ r, ix_compare x 0 y 0 ty len = Ret r ∧ ix_compare y 0 x 0 ty len = Ret (- r) ∧
    (r < 0 ↔ val_lt ty x y) ∧ (r > 0 ↔ val_lt ty y x) ∧
    (ty ≠ TYPE_FLOAT → r = 0 ↔ x = y) ∧
    ∀ o, eval_op (swap_op o) (- r) = eval_op o r.
Proof.
  intros Hx Hy Hl.
  assert (Hop : ∀ r o, eval_op (swap_op o) (- r) = eval_op o r).
  { intros r []; simpl; rewrite ?Z.gtb_ltb, ?Z.geb_leb; apply eq_true_iff_eq;
      rewrite ?negb_true_iff, ?Z.eqb_eq, ?Z.eqb_neq, ?Z.ltb_lt, ?Z.leb_le; lia. }
  unfold ix_compare. destruct ty; simpl val_lt.
  - specialize (Hl ltac:(done)). rewrite Hl in Hx, Hy.
    assert (mread x 0 4 = Some x) as -> by (rewrite <- Hx; apply mread_all).
    assert (mread y 0 4 = Some y) as -> by (rewrite <- Hy; apply mread_all). simpl. rewrite !Z.gtb_ltb.
    destruct (three_way (bytes_int x <? bytes_int y) (bytes_int y <? bytes_int x)) as (H1&H2&H3&H4).
    { rewrite !Z.ltb_lt. lia. }
    eexists. split; [done|]. rewrite H1, H2, H3, !Z.ltb_lt. split_and!; try done. intros _. rewrite H4, !Z.ltb_ge.
    split; [|by intros ->]. intros [??]. apply bytes_int_inj; lia.
  - specialize (Hl ltac:(done)). rewrite Hl in Hx, Hy.
    assert (mread x 0 4 = Some x) as -> by (rewrite <- Hx; apply mread_all).
    assert (mread y 0 4 = Some y) as -> by (rewrite <- Hy; apply mread_all). simpl.
    destruct (three_way (float_lt (bytes_uint32 x) (bytes_uint32 y)) (float_lt (bytes_uint32 y) (bytes_uint32 x)))
      as (H1&H2&H3&H4).
    { intros [H%float_lt_asym ?]. congruence. }
    eexists. split; [done|]. rewrite H1, H2, H3. split_and!; try done.
  - assert (mread x 0 len = Some x) as -> by (rewrite <- Hx; apply mread_all).
    assert (mread y 0 len = Some y) as -> by (rewrite <- Hy; apply mread_all). simpl.
    assert (length x = length y) as Hxy by lia.
    eexists. split; [done|]. rewrite memcmp_antisym by done. split; [done|].
    split; [by apply memcmp_lt|]. split; [|split; [intros _; by apply memcmp_eq|done]].
    rewrite <- memcmp_lt, (memcmp_antisym x y) by done. lia.
Qed.

(** ** An executor over a list *)

Record ListCursor := mkLC { lc_all : list row; lc_rem : list row; lc_len : Z; lc_cols : list ColMeta }.

#[global] Instance List_cursor : Cursor unit ListCursor := {
  tupleLen := lc_len;
  cols e := Ret (lc_cols e);
  beginTuple e := ret (mkLC (lc_all e) (lc_all e) (lc_len e) (lc_cols e));
  nextTuple e := ret (mkLC (lc_all e) (tail (lc_rem e)) (lc_len e) (lc_cols e));
  is_end e := ret (bool_decide (lc_rem e = []));
  rid _ := mkRid 0 0;
  Next e := ret ((λ x, mkRmRecord x (lc_len e) true) <$> head (lc_rem e));
}.

Definition lc_fresh (n : Z) (rows : list row) (cs : list ColMeta) (e : ListCursor) : Prop :=
  lc_all e = rows ∧ lc_len e = n ∧ lc_cols e = cs.
Definition lc_at (n : Z) (rows : list row) (cs : list ColMeta) (e : ListCursor) (rem : list row) : Prop :=
  lc_fresh n rows cs e ∧ lc_rem e = rem.

Lemma list_cursor_ok n rows cs :
  Forall (λ x : row, Z.of_nat (length x) = n) rows →
  CursorOk (λ _ : unit, True) n rows (lc_fresh n rows cs) (lc_at n rows cs).
Proof.
  intros Hr. split; simpl.
  - intros e σ _ (<-&<-&<-). eexists _, σ. done.
  - intros e σ x rem _ [Hf Hrem]. eexists _, σ. split_and!; [done|done|]. split; [done|]. simpl. by rewrite Hrem.
  - intros e σ rem _ [_ ->]. done.
  - intros e σ x rem _ [_ ->]. eexists _, σ. done.
  - by intros e rem [(_&?&_) _].
  - done.
Qed.

Lemma list_rewindable n rows cs : rewindable (lc_fresh n rows cs) (lc_at n rows cs).
Proof. by intros e rem [? _]. Qed.

Definition jcol (t c : string) (o : Z) : ColMeta := mkColMeta t c TYPE_INT 4 o false.
Definition rowsA : list row := [int_bytes 1; int_bytes 2].
Definition rowsB : list row := [int_bytes 2; int_bytes 3; int_bytes 1].
Definition cursorA : ListCursor := mkLC rowsA [] 4 [jcol "a" "x" 0].
Definition cursorB : ListCursor := mkLC rowsB [] 4 [jcol "b" "y" 0].
Definition condAB : list Condition := [mkCondition (mkTabCol "a" "x") OP_LT false (mkTabCol "b" "y") Value_init].
Definition colsAB : list ColMeta := [jcol "a" "x" 0; jcol "b" "y" 4].
Definition joinAB : NestedLoopJoinExecutor ListCursor ListCursor := mkJoin cursorA cursorB 8 colsAB condAB false.
Definition satAB (x y : row) : bool := bytes_int x <? bytes_int y.

Lemma satAB_ok lr rr : rec_data lr ∈ rowsA → rec_data rr ∈ rowsB →
  join_eval_conds 4 (Some lr) (Some rr) condAB colsAB = Ret (satAB (rec_data lr) (rec_data rr)).
Proof.
  destruct lr as [x ? ?], rr as [y ? ?]. simpl rec_data. intros Hx Hy.
  repeat (apply elem_of_cons in Hx as [->|Hx]; [|try by apply not_elem_of_nil in Hx]);
    repeat (apply elem_of_cons in Hy as [->|Hy]; [reflexivity|try by apply not_elem_of_nil in Hy]).
Qed.


Lemma rowsA_len : Forall (λ x : row, Z.of_nat (length x) = 4) rowsA.
Proof. repeat constructor. Qed.
Lemma rowsB_len : Forall (λ x : row, Z.of_nat (length x) = 4) rowsB.
Proof. repeat constructor. Qed.

Lemma joinAB_fuel : (length rowsA < 5 ∧ length rowsB < 5)%nat.
Proof. simpl. lia. Qed.

(** The rows of a join with [x < y], in order. *)
Lemma join_cursor_ok_witness :
  ∃ rs σ', drain (Cursor0 := Join_cursor 5) 5 joinAB tt = (Ret (Some <$> rs), σ') ∧
    rec_data <$> rs = [int_bytes 1 ++ int_bytes 2; int_bytes 1 ++ int_bytes 3; int_bytes 2 ++ int_bytes 3].
Proof.
  pose proof (join_cursor_ok (λ _ : unit, True) 4 4 rowsA rowsB _ _ _ _
    (list_cursor_ok 4 rowsA [jcol "a" "x" 0] rowsA_len) (list_cursor_ok 4 rowsB [jcol "b" "y" 0] rowsB_len)
    (list_rewindable 4 rowsB [jcol "b" "y" 0]) condAB colsAB satAB satAB_ok 5 joinAB_fuel) as Hok.
  destruct (drain_ok _ _ _ _ _ Hok 5 joinAB tt) as (rs&σ'&E&_&Hrs).
  - done.
  - split; [done|]. split; [done|]. split; done.
  - vm_compute. lia.
  - exists rs, σ'. split; [exact E|]. rewrite Hrs. reflexivity.
Defined.

(** The join of [a], [b] and [c] as the planner nests it: three of its six rows are given. *)
Definition rowsC : list row := [int_bytes 7].
Definition cursorC : ListCursor := mkLC rowsC [] 4 [jcol "c" "z" 0].
Definition joinBC : NestedLoopJoinExecutor ListCursor ListCursor :=
  mkJoin cursorB cursorC 8 [jcol "b" "y" 0; jcol "c" "z" 4] [] true.
Definition joinABC : NestedLoopJoinExecutor ListCursor (NestedLoopJoinExecutor ListCursor ListCursor) :=
  mkJoin cursorA (mkJoin cursorB cursorC 8 [jcol "b" "y" 0; jcol "c" "z" 4] [] false) 12
    [jcol "a" "x" 0; jcol "b" "y" 4; jcol "c" "z" 8] [] false.

Lemma rowsC_len : Forall (λ x : row, Z.of_nat (length x) = 4) rowsC.
Proof. repeat constructor. Qed.

Lemma joinBC_fuel : (length rowsB < 5 ∧ length rowsC < 5)%nat.
Proof. simpl. lia. Qed.

Lemma join_restart_ends_witness :
  (∃ e' σ', join_begin 5 joinBC tt = (Ret e', σ') ∧ is_end (Cursor := Join_cursor 5) e' σ' = (Ret true, σ')) ∧
  (λ o : outcome (list (option RmRecord)), match o with Ret l => length l | _ => 0%nat end)
    (drain (Cursor0 := Join_cursor (Cursor1 := Join_cursor 5) 5) 9 joinABC tt).1 = 3%nat.
Proof.
  split; [|vm_compute; reflexivity].
  destruct (join_restart_ends (λ _ : unit, True) 4 4 rowsB rowsC _ _ _ _
    (list_cursor_ok 4 rowsB [jcol "b" "y" 0] rowsB_len) (list_cursor_ok 4 rowsC [jcol "c" "z" 0] rowsC_len)
    (list_rewindable 4 rowsC [jcol "c" "z" 0]) [] [jcol "b" "y" 0; jcol "c" "z" 4] (λ _ _, true)
    (λ _ _ _ _, eq_refl) 5 joinBC_fuel joinBC tt) as (e'&σ'&E1&E2&_); [done..|].
  by exists e', σ'.
Defined.

Definition proj_child : ListCursor :=
  mkLC [int_bytes 1 ++ [x61; x62]; int_bytes 2 ++ [x63; x00]] [] 6 [jcol "t" "id" 0; mkColMeta "t" "c" TYPE_STRING 2 4 false].

Lemma projection_cursor_ok_witness :
  ∃ e0 rs σ', Proj_make proj_child [mkTabCol "t" "c"; mkTabCol "t" "id"] = Ret e0 ∧
    drain (Cursor0 := Proj_cursor zeros) 5 e0 tt = (Ret (Some <$> rs), σ') ∧
    rec_data <$> rs = [[x61; x62] ++ int_bytes 1; [x63; x00] ++ int_bytes 2].
Proof.
  destruct (Proj_make proj_child [mkTabCol "t" "c"; mkTabCol "t" "id"]) as [e0| |] eqn:E;
    [|vm_compute in E; discriminate E|vm_compute in E; discriminate E].
  assert (Hc : ∀ t c, t ∈ [mkTabCol "t" "c"; mkTabCol "t" "id"] → exec_get_col (lc_cols proj_child) t = Ret c →
    c = mkColMeta "t" "c" TYPE_STRING 2 4 false ∨ c = jcol "t" "id" 0).
  { intros t c Ht Hg. repeat (apply elem_of_cons in Ht as [->|Ht]; [vm_compute in Hg; injection Hg as <-; auto|]).
    by apply not_elem_of_nil in Ht. }
  assert (Hlen : Forall (λ x : row, Z.of_nat (length x) = 6) (lc_all proj_child)) by (repeat constructor).
  destruct (projection_cursor_ok (λ _ : unit, True) 6 (lc_all proj_child) _ _
    (list_cursor_ok 6 (lc_all proj_child) (lc_cols proj_child) Hlen) (lc_cols proj_child)
    ltac:(intros p rem [(_&_&Hp) _]; simpl; by rewrite Hp) zeros
    ltac:(intros k Hk; rewrite length_zeros; lia) proj_child [mkTabCol "t" "c"; mkTabCol "t" "id"] e0)
    as (scols&Hs&Hlay&Hok).
  - reflexivity.
  - exact E.
  - done.
  - intros t c Ht Hg. destruct (Hc t c Ht Hg) as [->| ->]; vm_compute; split_and!; discriminate.
  - intros scols Hs. apply Forall2_cons_inv_l in Hs as (c1&l1&H1&Hs&->).
    apply Forall2_cons_inv_l in Hs as (c2&l2&H2&Hs&->). apply Forall2_nil_inv_l in Hs as ->.
    vm_compute in H1, H2. injection H1 as <-. injection H2 as <-. reflexivity.
  - destruct (drain_ok _ _ _ _ _ Hok 5 e0 tt) as (rs&σ'&E1&_&Hrs).
    + done.
    + vm_compute in E. injection E as <-. done.
    + rewrite length_fmap. vm_compute. lia.
    + exists e0, rs, σ'. split; [done|]. split; [exact E1|]. rewrite Hrs.
      apply Forall2_cons_inv_l in Hs as (c1&l1&H1&Hs&->).
      apply Forall2_cons_inv_l in Hs as (c2&l2&H2&Hs&->). apply Forall2_nil_inv_l in Hs as ->.
      vm_compute in H1, H2. injection H1 as <-. injection H2 as <-. reflexivity.
Defined.

Lemma ix_compare_order_witness :
  ∃ r, ix_compare [x61; x62] 0 [x61; x7a] 0 TYPE_STRING 2 = Ret r ∧ r < 0 ∧ eval_op OP_GT (- r) = eval_op OP_LT r.
Proof.
  destruct (ix_compare_order TYPE_STRING 2 [x61; x62] [x61; x7a]) as (r&E&_&Hlt&_&_&Hop); [done|done|done|].
  exists r. split; [exact E|]. split; [|apply (Hop OP_LT)]. apply Hlt. by exists [x61], x62, x7a, [], [].
Defined.
