(* ===== verification/Index.v ===== *)
(** * Index files

    [index/ix_defs.h], [index/ix_index_handle.{h,cpp}], [index/ix_manager.h] and
    [index/ix_scan.{h,cpp}].  The file header with its packed form, the nodes of the tree as
    three parts of a page, the handle of an open index, and the operations that create, open
    and close index files.  The searching and updating operations of the tree are unfinished
    in the code (empty bodies that return a constant); they are here as they are there. *)

From S2P Require Import Prelude Errors Config Posix DiskManager Replacer BufferPool Bitmap RecordFile.
From S2P Require Import StrMap Values Text Meta Compare.
From stdpp Require Import options.

(** ** ix_defs.h *)

Definition IX_NO_PAGE : Z := -1.
Definition IX_FILE_HDR_PAGE : Z := 0.
Definition IX_LEAF_HEADER_PAGE : Z := 1.
Definition IX_INIT_ROOT_PAGE : Z := 2.
Definition IX_INIT_NUM_PAGES : Z := 3.
Definition IX_MAX_COL_LEN : Z := 512.

Record IxFileHdr := mkIxFileHdr {
  first_free_page_no_ : Z;
  num_pages_ : Z;
  root_page_ : Z;
  col_num_ : Z;
  col_types_ : list ColType;
  col_lens_ : list Z;
  col_tot_len_ : Z;
  btree_order_ : Z;
  keys_size_ : Z;
  first_leaf_ : Z;
  last_leaf_ : Z;
  tot_len_ : Z;
}.

(** [IxFileHdr()] sets two members; the other integers keep what the memory held. *)
Definition IxFileHdr_default (junk : IxFileHdr) : IxFileHdr :=
  mkIxFileHdr (first_free_page_no_ junk) (num_pages_ junk) (root_page_ junk) 0 [] []
    (col_tot_len_ junk) (btree_order_ junk) (keys_size_ junk) (first_leaf_ junk) (last_leaf_ junk) 0.

(** The constructor with arguments; the vectors start empty. *)
Definition IxFileHdr_make (first_free num_pages root col_num col_tot_len order keys_size first_leaf last_leaf : Z)
    : IxFileHdr :=
  mkIxFileHdr first_free num_pages root col_num [] [] col_tot_len order keys_size first_leaf last_leaf 0.

(** Two [push_back]s for a column. *)
Definition push_col (t : ColType) (len : Z) (h : IxFileHdr) : IxFileHdr :=
  mkIxFileHdr (first_free_page_no_ h) (num_pages_ h) (root_page_ h) (col_num_ h) (col_types_ h ++ [t])
    (col_lens_ h ++ [len]) (col_tot_len_ h) (btree_order_ h) (keys_size_ h) (first_leaf_ h) (last_leaf_ h) (tot_len_ h).

Definition set_tot_len (n : Z) (h : IxFileHdr) : IxFileHdr :=
  mkIxFileHdr (first_free_page_no_ h) (num_pages_ h) (root_page_ h) (col_num_ h) (col_types_ h) (col_lens_ h)
    (col_tot_len_ h) (btree_order_ h) (keys_size_ h) (first_leaf_ h) (last_leaf_ h) n.

(** The sums are on [size_t], and each is stored in an [int]. *)
Definition update_tot_len (h : IxFileHdr) : IxFileHdr :=
  set_tot_len (wrap32 (wrap32 (4 * 4 + 4 * 6) + (4 * col_num_ h + 4 * col_num_ h))) h.

(** Consecutive [memcpy(dest + offset, &x, 4); offset += 4]. *)
Fixpoint put_ints (vs : list Z) (offset : Z) (dest : list byte) : outcome (Z * list byte) :=
  match vs with
  | [] => Ret (offset, dest)
  | v :: vs' => dest ← oaccess (mwrite dest offset (int_bytes v)); put_ints vs' (offset + 4) dest
  end.

(** [v[0..n-1]] of a vector. *)
Definition first_of {A} (n : Z) (v : list A) : outcome (list A) :=
  if n <=? Z.of_nat (length v) then Ret (take (Z.to_nat n) v) else Crash OutOfBounds.

Definition serialize (h : IxFileHdr) (dest : list byte) : outcome (list byte) :=
  '(offset, dest) ← put_ints [tot_len_ h; first_free_page_no_ h; num_pages_ h; root_page_ h; col_num_ h] 0 dest;
  tys ← first_of (col_num_ h) (col_types_ h);
  '(offset, dest) ← put_ints (coltype_to_int <$> tys) offset dest;
  lens ← first_of (col_num_ h) (col_lens_ h);
  '(offset, dest) ← put_ints lens offset dest;
  '(offset, dest) ← put_ints [col_tot_len_ h; btree_order_ h; keys_size_ h; first_leaf_ h; last_leaf_ h] offset dest;
  oassert (offset =? tot_len_ h) ≫= λ _, Ret dest.

(** Consecutive reads of an [int] at [src + offset], each followed by [offset += 4]. *)
Fixpoint get_ints (n : nat) (offset : Z) (src : list byte) : outcome (Z * list Z) :=
  match n with
  | O => Ret (offset, [])
  | S n' =>
      bs ← oaccess (mread src offset 4);
      '(offset, vs) ← get_ints n' (offset + 4) src;
      Ret (offset, bytes_int bs :: vs)
  end.

(** [deserialize] on the object [h], whose vectors it extends; a type that is none of the
    enumerators is kept apart as a failure. *)
Definition deserialize (h : IxFileHdr) (src : list byte) : outcome IxFileHdr :=
  '(offset, a) ← get_ints 5 0 src;
  match a with
  | [tot; ff; np; root; n] =>
      '(offset, tys) ← get_ints (Z.to_nat n) offset src;
      tys ← omap_list (λ t, oaccess (int_to_coltype t)) tys;
      '(offset, lens) ← get_ints (Z.to_nat n) offset src;
      '(offset, b) ← get_ints 5 offset src;
      match b with
      | [ctl; order; ks; fl; ll] =>
          oassert (offset =? tot) ≫= λ _,
          Ret (mkIxFileHdr ff np root n (col_types_ h ++ tys) (col_lens_ h ++ lens) ctl order ks fl ll tot)
      | _ => Crash OutOfBounds
      end
  | _ => Crash OutOfBounds
  end.

(** [IxPageHdr]: the offsets of its members; three bytes of padding follow [is_leaf]. *)
Definition sizeof_IxPageHdr : Z := 24.
Definition sizeof_Rid : Z := 8.
Definition OFFSET_ix_next_free : Z := 0.
Definition OFFSET_ix_parent : Z := 4.
Definition OFFSET_ix_num_key : Z := 8.
Definition OFFSET_ix_is_leaf : Z := 12.
Definition OFFSET_ix_prev_leaf : Z := 16.
Definition OFFSET_ix_next_leaf : Z := 20.

Record IxPageHdr := mkIxPageHdr {
  next_free_page_no : Z; parent : Z; num_key : Z; is_leaf : bool; prev_leaf : Z; next_leaf : Z;
}.

(** [*phdr = {...}] on a zeroed page: the members are stored, the padding keeps its zeros. *)
Definition IxPageHdr_bytes (p : IxPageHdr) : list byte :=
  int_bytes (next_free_page_no p) ++ int_bytes (parent p) ++ int_bytes (num_key p) ++
  [byte_of (if is_leaf p then 1 else 0)] ++ zeros 3 ++ int_bytes (prev_leaf p) ++ int_bytes (next_leaf p).

Record Iid := mkIid { iid_page_no : Z; iid_slot_no : Z }.

#[global] Instance Iid_eq_dec : EqDecision Iid.
Proof. solve_decision. Defined.

Definition Iid_eqb (x y : Iid) : bool := (iid_page_no x =? iid_page_no y) && (iid_slot_no x =? iid_slot_no y).

(** ** Nodes

    An [IxNodeHandle] is the frame of its page and the header of its file; the pointers
    [page_hdr], [keys] and [rids] are offsets in the page. *)

Record IxNodeHandle := mkNode { file_hdr : IxFileHdr; page : frame_id_t; keys : Z; rids : Z }.

Definition IxNodeHandle_make (h : IxFileHdr) (f : frame_id_t) : IxNodeHandle :=
  mkNode h f sizeof_IxPageHdr (sizeof_IxPageHdr + keys_size_ h).

Definition get_max_size (n : IxNodeHandle) : Z := wrap32 (btree_order_ (file_hdr n) + 1).
Definition get_min_size (n : IxNodeHandle) : Z := get_max_size n `quot` 2.

Definition get_key (n : IxNodeHandle) (key_idx : Z) : Z := keys n + key_idx * col_tot_len_ (file_hdr n).
Definition get_rid_ptr (n : IxNodeHandle) (rid_idx : Z) : Z := rids n + rid_idx * sizeof_Rid.

Section node.
Context {R : Type} `{!Replacer R}.
Implicit Types n : IxNodeHandle.

Definition hdr_get (n : IxNodeHandle) (off : Z) : M (Store R) Z := page_get_int (page n) off.
Definition hdr_set (n : IxNodeHandle) (off v : Z) : M (Store R) unit := page_set_int (page n) off v.

Definition get_size n : M (Store R) Z := hdr_get n OFFSET_ix_num_key.
Definition set_size n (size : Z) : M (Store R) unit := hdr_set n OFFSET_ix_num_key size.
Definition get_next_leaf n : M (Store R) Z := hdr_get n OFFSET_ix_next_leaf.
Definition get_prev_leaf n : M (Store R) Z := hdr_get n OFFSET_ix_prev_leaf.
Definition get_parent_page_no n : M (Store R) Z := hdr_get n OFFSET_ix_parent.
Definition set_next_leaf n (page_no : Z) : M (Store R) unit := hdr_set n OFFSET_ix_next_leaf page_no.
Definition set_prev_leaf n (page_no : Z) : M (Store R) unit := hdr_set n OFFSET_ix_prev_leaf page_no.
Definition set_parent_page_no n (parent : Z) : M (Store R) unit := hdr_set n OFFSET_ix_parent parent.

Definition is_leaf_page n : M (Store R) bool :=
  page_get (page n) (λ d, (λ bs, negb (bool_decide (bs = [x00]))) <$> mread d OFFSET_ix_is_leaf 1).
Definition is_root_page n : M (Store R) bool :=
  let! p := get_parent_page_no n in ret (p =? INVALID_PAGE_ID).

Definition get_page_id n : M (Store R) PageId := page_id_of (page n).
Definition get_page_no n : M (Store R) Z := let! pid := get_page_id n in ret (pid_no pid).

(** What the pointers point to. *)
Definition key_bytes n (key_idx : Z) : M (Store R) (list byte) :=
  page_get (page n) (λ d, mread d (get_key n key_idx) (col_tot_len_ (file_hdr n))).
Definition rid_at n (rid_idx : Z) : M (Store R) Rid :=
  let! p := page_get_int (page n) (get_rid_ptr n rid_idx) in
  let! s := page_get_int (page n) (get_rid_ptr n rid_idx + 4) in
  ret (mkRid p s).

Definition key_at n (i : Z) : M (Store R) Z := page_get_int (page n) (get_key n i).
Definition value_at n (i : Z) : M (Store R) Z := page_get_int (page n) (get_rid_ptr n i).

Definition set_key n (key_idx : Z) (key : list byte) : M (Store R) unit :=
  page_update (page n) (λ d, bs ← mread key 0 (col_tot_len_ (file_hdr n)); mwrite d (get_key n key_idx) bs).
Definition set_rid n (rid_idx : Z) (rid : Rid) : M (Store R) unit :=
  page_update (page n) (λ d, mwrite d (get_rid_ptr n rid_idx) (int_bytes (page_no rid) ++ int_bytes (slot_no rid))).

(** Bodies left to be written: they return a constant and change nothing. *)
Definition node_lower_bound n (target : list byte) : M (Store R) Z := ret (-1).
Definition node_upper_bound n (target : list byte) : M (Store R) Z := ret (-1).
Definition leaf_lookup n (key : list byte) : M (Store R) bool := ret false.
Definition internal_lookup n (key : list byte) : M (Store R) Z := ret (-1).
Definition insert_pairs n (pos : Z) (key : list byte) (rid : list Rid) (k : Z) : M (Store R) unit := ret tt.
Definition insert_pair n (pos : Z) (key : list byte) (rid : Rid) : M (Store R) unit := insert_pairs n pos key [rid] 1.
Definition node_insert n (key : list byte) (value : Rid) : M (Store R) Z := ret (-1).
Definition erase_pair n (pos : Z) : M (Store R) unit := ret tt.
Definition node_remove n (key : list byte) : M (Store R) Z := ret (-1).

Definition remove_and_return_only_child n : M (Store R) Z :=
  let! s := get_size n in assert_ (s =? 1) ;;
  let! child := value_at n 0 in
  erase_pair n 0 ;;
  let! s := get_size n in assert_ (s =? 0) ;;
  ret child.

(** The loop of [find_child] from [rid_idx]; [fuel] iterations reach the last key. *)
Fixpoint find_child_loop n (child : Z) (fuel : nat) (rid_idx : Z) : M (Store R) Z :=
  match fuel with
  | O => ret rid_idx
  | S fuel' =>
      let! v := value_at n rid_idx in
      if v =? child then ret rid_idx else find_child_loop n child fuel' (rid_idx + 1)
  end.

Definition find_child n (child : IxNodeHandle) : M (Store R) Z :=
  let! s := get_size n in
  let! c := get_page_no child in
  let! idx := find_child_loop n c (Z.to_nat s) 0 in
  assert_ (idx <? s) ;;
  ret idx.
End node.

Inductive Operation := FIND | INSERT | DELETE.

(** ** The handle of an open index

    As for record files: the operations run on the handle together with the store. *)

Record IxIndexHandle := mkIxIndexHandle { ih_fd : Z; ih_hdr : IxFileHdr }.

Section handle.
Context {R : Type} `{!Replacer R}.

Record IxState := mkIx { ix_handle : IxIndexHandle; ix_store : Store R }.

Definition ix_with_store {A} (m : M (Store R) A) : M IxState A :=
  zoom ix_store (λ s w, mkIx (ix_handle w) s) m.

Definition ix_hdr : M IxState IxFileHdr := gets (λ w, ih_hdr (ix_handle w)).
Definition ix_fd : M IxState Z := gets (λ w, ih_fd (ix_handle w)).
Definition ix_upd_hdr (f : IxFileHdr → IxFileHdr) : M IxState unit :=
  modify (λ w, mkIx (mkIxIndexHandle (ih_fd (ix_handle w)) (f (ih_hdr (ix_handle w)))) (ix_store w)).

Definition set_root (root : Z) (h : IxFileHdr) : IxFileHdr :=
  mkIxFileHdr (first_free_page_no_ h) (num_pages_ h) root (col_num_ h) (col_types_ h) (col_lens_ h)
    (col_tot_len_ h) (btree_order_ h) (keys_size_ h) (first_leaf_ h) (last_leaf_ h) (tot_len_ h).
Definition ix_set_num_pages (n : Z) (h : IxFileHdr) : IxFileHdr :=
  mkIxFileHdr (first_free_page_no_ h) n (root_page_ h) (col_num_ h) (col_types_ h) (col_lens_ h)
    (col_tot_len_ h) (btree_order_ h) (keys_size_ h) (first_leaf_ h) (last_leaf_ h) (tot_len_ h).

Definition update_root_page_no (root : Z) : M IxState unit := ix_upd_hdr (set_root root).
Definition ix_is_empty : M IxState bool := let! h := ix_hdr in ret (root_page_ h =? IX_NO_PAGE).

Definition unpin_node (n : IxNodeHandle) (dirty : bool) : M IxState bool :=
  let! pid := ix_with_store (get_page_id n) in ix_with_store (unpin_page pid dirty).

(** The null page pointer makes the constructor of the node undefined. *)
Definition fetch_node (page_no : Z) : M IxState IxNodeHandle :=
  let! h := ix_hdr in
  let! fd := ix_fd in
  let! f := ix_with_store (fetch_page (mkPageId fd page_no)) in
  let! f := deref f in
  ret (IxNodeHandle_make h f).

Definition create_node : M IxState IxNodeHandle :=
  ix_upd_hdr (λ h, ix_set_num_pages (wrap32 (num_pages_ h + 1)) h) ;;
  let! h := ix_hdr in
  let! fd := ix_fd in
  let! f := ix_with_store (new_page fd) in
  let! f := deref f in
  ret (IxNodeHandle_make h f.1).

(** The unpin sits in an [assert], as in a debug build.  The loop climbs to the root. *)
Fixpoint maintain_parent (fuel : nat) (curr : IxNodeHandle) : M IxState unit :=
  match fuel with
  | O => crashes OutOfFuel
  | S fuel' =>
      let! p := ix_with_store (get_parent_page_no curr) in
      if p =? IX_NO_PAGE then ret tt
      else
        let! parent := fetch_node p in
        let! rank := ix_with_store (find_child parent curr) in
        let! parent_key := ix_with_store (key_bytes parent rank) in
        let! child_first_key := ix_with_store (key_bytes curr 0) in
        if memcmp parent_key child_first_key =? 0 then
          let! ok := unpin_node parent true in assert_ ok
        else
          ix_with_store (set_key parent rank child_first_key) ;;
          let! ok := unpin_node parent true in assert_ ok ;;
          maintain_parent fuel' parent
  end.

Definition erase_leaf (leaf : IxNodeHandle) : M IxState unit :=
  let! b := ix_with_store (is_leaf_page leaf) in assert_ b ;;
  let! pl := ix_with_store (get_prev_leaf leaf) in
  let! prev := fetch_node pl in
  let! nl := ix_with_store (get_next_leaf leaf) in
  ix_with_store (set_next_leaf prev nl) ;;
  unpin_node prev true ;;
  let! nl := ix_with_store (get_next_leaf leaf) in
  let! next := fetch_node nl in
  let! pl := ix_with_store (get_prev_leaf leaf) in
  ix_with_store (set_prev_leaf next pl) ;;
  unpin_node next true ;;
  ret tt.

Definition release_node_handle (node : IxNodeHandle) : M IxState unit :=
  ix_upd_hdr (λ h, ix_set_num_pages (wrap32 (num_pages_ h - 1)) h).

Definition maintain_child (node : IxNodeHandle) (child_idx : Z) : M IxState unit :=
  let! b := ix_with_store (is_leaf_page node) in
  if (b : bool) then ret tt
  else
    let! child_page_no := ix_with_store (value_at node child_idx) in
    let! child := fetch_node child_page_no in
    let! me := ix_with_store (get_page_no node) in
    ix_with_store (set_parent_page_no child me) ;;
    unpin_node child true ;;
    ret tt.

(** The exception leaves the page pinned. *)
Definition ix_get_rid (iid : Iid) : M IxState Rid :=
  let! node := fetch_node (iid_page_no iid) in
  let! size := ix_with_store (get_size node) in
  if iid_slot_no iid >=? size then throw IndexEntryNotFoundError
  else
    unpin_node node false ;;
    ix_with_store (rid_at node (iid_slot_no iid)).

Definition leaf_end : M IxState Iid :=
  let! h := ix_hdr in
  let! node := fetch_node (last_leaf_ h) in
  let! size := ix_with_store (get_size node) in
  let iid := mkIid (last_leaf_ h) size in
  unpin_node node false ;;
  ret iid.

Definition leaf_begin : M IxState Iid := let! h := ix_hdr in ret (mkIid (first_leaf_ h) 0).

(** Bodies left to be written. *)
Definition find_leaf_page (key : list byte) (operation : Operation) (find_first : bool) : M IxState (option IxNodeHandle * bool) :=
  ret (None, false).
Definition get_value (key : list byte) : M IxState bool := ret false.
Definition ix_split (node : IxNodeHandle) : M IxState (option IxNodeHandle) := ret None.
Definition insert_into_parent (old_node : IxNodeHandle) (key : list byte) (new_node : IxNodeHandle) : M IxState unit :=
  ret tt.
Definition insert_entry (key : list byte) (value : Rid) : M IxState Z := ret (-1).
Definition delete_entry (key : list byte) : M IxState bool := ret false.
Definition coalesce_or_redistribute (node : IxNodeHandle) : M IxState bool := ret false.
Definition adjust_root (old_root_node : IxNodeHandle) : M IxState bool := ret false.
Definition redistribute (neighbor_node node parent : IxNodeHandle) (index : Z) : M IxState unit := ret tt.
Definition coalesce (neighbor_node node parent : IxNodeHandle) (index : Z) : M IxState bool := ret false.
Definition ih_lower_bound (key : list byte) : M IxState Iid := ret (mkIid (-1) (-1)).
Definition ih_upper_bound (key : list byte) : M IxState Iid := ret (mkIid (-1) (-1)).

(** ** IxScan *)

Record IxScan := mkIxScan { iid_ : Iid; end_ : Iid }.

Definition ixscan_is_end (sc : IxScan) : bool := Iid_eqb (iid_ sc) (end_ sc).

Definition ixscan_next (sc : IxScan) : M IxState IxScan :=
  assert_ (negb (ixscan_is_end sc)) ;;
  let! node := fetch_node (iid_page_no (iid_ sc)) in
  let! b := ix_with_store (is_leaf_page node) in assert_ b ;;
  let! size := ix_with_store (get_size node) in
  assert_ (iid_slot_no (iid_ sc) <? size) ;;
  let slot := wrap32 (iid_slot_no (iid_ sc) + 1) in
  let! h := ix_hdr in
  if negb (iid_page_no (iid_ sc) =? last_leaf_ h) && (slot =? size) then
    let! next := ix_with_store (get_next_leaf node) in
    ret (mkIxScan (mkIid next 0) (end_ sc))
  else ret (mkIxScan (mkIid (iid_page_no (iid_ sc)) slot) (end_ sc)).

Definition ixscan_rid (sc : IxScan) : M IxState Rid := ix_get_rid (iid_ sc).

(** ** IxManager *)

(** [get_index_name]: the overload for columns takes their names. *)
Definition get_index_name (filename : string) (index_cols : list string) : string :=
  foldl (λ name col, name +:+ ("_" +:+ col)) filename index_cols +:+ ".idx".
Definition get_index_name_cols (filename : string) (index_cols : list ColMeta) : string :=
  get_index_name filename (cm_name <$> index_cols).

Definition index_exists (filename : string) (index_cols : list ColMeta) : M Disk bool :=
  is_file (get_index_name_cols filename index_cols).

(** [(PAGE_SIZE - sizeof(IxPageHdr)) / (col_tot_len + sizeof(Rid)) - 1] on [size_t]. *)
Definition ix_btree_order (col_tot_len : Z) : Z :=
  wrap32 ((((PAGE_SIZE - sizeof_IxPageHdr) `quot` ((col_tot_len mod 2 ^ 64 + sizeof_Rid) mod 2 ^ 64)) - 1) mod 2 ^ 64).

Definition ix_col_tot_len (index_cols : list ColMeta) : Z := foldl (λ n col, wrap32 (n + cm_len col)) 0 index_cols.

(** The header [create_index] writes. *)
Definition ix_initial_hdr (index_cols : list ColMeta) : IxFileHdr :=
  let col_tot_len := ix_col_tot_len index_cols in
  let order := ix_btree_order col_tot_len in
  update_tot_len
    (foldl (λ h col, push_col (cm_type col) (cm_len col) h)
       (IxFileHdr_make IX_NO_PAGE IX_INIT_NUM_PAGES IX_INIT_ROOT_PAGE (Z.of_nat (length index_cols)) col_tot_len order
          (wrap32 ((order + 1) * col_tot_len)) IX_INIT_ROOT_PAGE IX_INIT_ROOT_PAGE) index_cols).

(** [page_buf] of one page with a page header at its start. *)
Definition ix_page_buf (p : IxPageHdr) : list byte :=
  IxPageHdr_bytes p ++ zeros (PAGE_SIZE - sizeof_IxPageHdr).

Definition leaf_header_page : list byte :=
  ix_page_buf (mkIxPageHdr IX_NO_PAGE IX_NO_PAGE 0 true IX_INIT_ROOT_PAGE IX_INIT_ROOT_PAGE).
Definition init_root_page : list byte :=
  ix_page_buf (mkIxPageHdr IX_NO_PAGE IX_NO_PAGE 0 true IX_LEAF_HEADER_PAGE IX_LEAF_HEADER_PAGE).

(** The serialized header in a buffer of [tot_len_] bytes ([new char[]] leaves it
    uninitialised). *)
Definition hdr_data (junk : Z → list byte) (h : IxFileHdr) : outcome (list byte) := serialize h (junk (tot_len_ h)).

Definition ix_create_index (junk : Z → list byte) (filename : string) (index_cols : list ColMeta) : M Disk unit :=
  let ix_name := get_index_name_cols filename index_cols in
  create_file ix_name ;;
  let! fd := open_file ix_name in
  let col_tot_len := ix_col_tot_len index_cols in
  if col_tot_len >? IX_MAX_COL_LEN then throw (InvalidColLengthError col_tot_len)
  else
    assert_ (ix_btree_order col_tot_len >? 2) ;;
    let fhdr := ix_initial_hdr index_cols in
    let! data := lift (hdr_data junk fhdr) in
    write_page fd IX_FILE_HDR_PAGE data (tot_len_ fhdr) ;;
    write_page fd IX_LEAF_HEADER_PAGE leaf_header_page PAGE_SIZE ;;
    write_page fd IX_INIT_ROOT_PAGE init_root_page PAGE_SIZE ;;
    set_fd2pageno fd (IX_INIT_NUM_PAGES - 1) ;;
    close_file fd.

Definition ix_destroy_index (filename : string) (index_cols : list ColMeta) : M Disk unit :=
  destroy_file (get_index_name_cols filename index_cols).

(** [read_page] into a buffer of the caller; the buffer is the result. *)
Definition read_buf (fd : Z) (page_no : Z) (num_bytes : Z) (buf : list byte) : M Disk (list byte) := λ d,
  let '(r, (buf, d')) := read_page fd page_no num_bytes (buf, d) in
  (match r with Ret _ => Ret buf | Throw e => Throw e | Crash c => Crash c end, d').

(** The constructor.  The first read stores the eight bytes of a pointer over [file_hdr_],
    which is assigned right after. *)
Definition IxIndexHandle_make (junk : IxFileHdr) (fd : Z) : M Disk IxIndexHandle :=
  read_buf fd IX_FILE_HDR_PAGE 8 (zeros 8) ;;
  let! buf := read_buf fd IX_FILE_HDR_PAGE PAGE_SIZE (zeros PAGE_SIZE) in
  let! h := lift (deserialize (IxFileHdr_default junk) buf) in
  let! now_page_no := get_fd2pageno fd in
  set_fd2pageno fd (wrap32 (now_page_no + 1)) ;;
  ret (mkIxIndexHandle fd h).

Definition ix_open_index (junk : IxFileHdr) (filename : string) (index_cols : list ColMeta) : M Disk IxIndexHandle :=
  let! fd := open_file (get_index_name_cols filename index_cols) in
  IxIndexHandle_make junk fd.

Definition ix_close_index (junk : Z → list byte) (ih : IxIndexHandle) : M (Store R) unit :=
  let! data := lift (hdr_data junk (ih_hdr ih)) in
  with_disk (write_page (ih_fd ih) IX_FILE_HDR_PAGE data (tot_len_ (ih_hdr ih))) ;;
  flush_all_pages (ih_fd ih) ;;
  with_disk (close_file (ih_fd ih)).
End handle.
Arguments IxState R : clear implicits.
