(* ===== verification/IndexProps.v ===== *)
(** * Index files: layout, round trip, creation and opening *)

From S2P Require Import Prelude Errors Config Posix DiskManager Replacer BufferPool RecordFile RecordManager.
From S2P Require Import StrMap Values Text Meta Compare Index.
From stdpp Require Import options.

(** ** Runs of integers in memory *)

Definition ints_bytes (vs : list Z) : list byte := mjoin (int_bytes <$> vs).

Lemma length_ints_bytes vs : length (ints_bytes vs) = (4 * length vs)%nat.
Proof.
  induction vs as [|v vs IH]; [done|]. change (ints_bytes (v :: vs)) with (int_bytes v ++ ints_bytes vs).
  rewrite length_app, IH. change (length (int_bytes v)) with 4%nat. cbn [length]. lia.
Qed.

Lemma ints_bytes_app a b : ints_bytes (a ++ b) = ints_bytes a ++ ints_bytes b.
Proof. unfold ints_bytes. by rewrite fmap_app, join_app. Qed.

Lemma put_ints_run vs pre dest :
  (4 * length vs <= length dest)%nat →
  put_ints vs (Z.of_nat (length pre)) (pre ++ dest) =
    Ret (Z.of_nat (length pre) + 4 * Z.of_nat (length vs), pre ++ ints_bytes vs ++ drop (4 * length vs) dest).
Proof.
  revert pre dest. induction vs as [|v vs IH]; intros pre dest Hl.
  - simpl. by rewrite Z.add_0_r.
  - cbn [put_ints]. cbn [length] in Hl.
    assert (Hw : mwrite (pre ++ dest) (Z.of_nat (length pre)) (int_bytes v) = Some ((pre ++ int_bytes v) ++ drop 4 dest)).
    { unfold mwrite. rewrite decide_True by (rewrite length_app; change (length (int_bytes v)) with 4%nat; lia).
      rewrite Nat2Z.id, take_app_length. change (length (int_bytes v)) with 4%nat.
      by rewrite drop_app_add, <- app_assoc. }
    rewrite Hw. cbn [oaccess mbind outcome_bind].
    replace (Z.of_nat (length pre) + 4) with (Z.of_nat (length (pre ++ int_bytes v)))
      by (rewrite length_app; change (length (int_bytes v)) with 4%nat; lia).
    rewrite IH by (rewrite length_drop; lia). f_equal. f_equal.
    + rewrite length_app. cbn [length]. change (length (int_bytes v)) with 4%nat. lia.
    + rewrite <- !app_assoc. f_equal. rewrite drop_drop.
      replace (4 + 4 * length vs)%nat with (4 * length (v :: vs))%nat by (cbn [length]; lia). done.
Qed.

Lemma get_ints_run vs pre post :
  Forall is_int32 vs →
  get_ints (length vs) (Z.of_nat (length pre)) (pre ++ ints_bytes vs ++ post) =
    Ret (Z.of_nat (length pre) + 4 * Z.of_nat (length vs), vs).
Proof.
  revert pre. induction vs as [|v vs IH]; intros pre Hv.
  - simpl. by rewrite Z.add_0_r.
  - inversion Hv as [|? ? H1 H2]; subst. cbn [length get_ints].
    assert (Hr : mread (pre ++ ints_bytes (v :: vs) ++ post) (Z.of_nat (length pre)) 4 = Some (int_bytes v)).
    { apply mread_Some. rewrite !length_app, length_ints_bytes. cbn [length]. split_and!; [lia..|].
      by rewrite Nat2Z.id, drop_app_length. }
    rewrite Hr. cbn [oaccess mbind outcome_bind].
    change (ints_bytes (v :: vs)) with (int_bytes v ++ ints_bytes vs).
    replace (pre ++ (int_bytes v ++ ints_bytes vs) ++ post) with ((pre ++ int_bytes v) ++ ints_bytes vs ++ post)
      by by rewrite <- !app_assoc.
    replace (Z.of_nat (length pre) + 4) with (Z.of_nat (length (pre ++ int_bytes v)))
      by (rewrite length_app; change (length (int_bytes v)) with 4%nat; lia).
    rewrite IH by done. cbn [mbind outcome_bind]. rewrite bytes_int_bytes by done.
    rewrite length_app. cbn [length]. change (length (int_bytes v)) with 4%nat. do 2 f_equal. lia.
Qed.

(** ** The packed header *)

Record ix_hdr_wf (h : IxFileHdr) : Prop := {
  iw_types : col_num_ h = Z.of_nat (length (col_types_ h));
  iw_lens : col_num_ h = Z.of_nat (length (col_lens_ h));
  iw_tot : tot_len_ h = 40 + 8 * col_num_ h;
  iw_ints : Forall is_int32 [tot_len_ h; first_free_page_no_ h; num_pages_ h; root_page_ h; col_num_ h];
  iw_ints' : Forall is_int32 [col_tot_len_ h; btree_order_ h; keys_size_ h; first_leaf_ h; last_leaf_ h];
  iw_lens_int : Forall is_int32 (col_lens_ h);
}.

Definition ix_hdr_bytes (h : IxFileHdr) : list byte :=
  ints_bytes [tot_len_ h; first_free_page_no_ h; num_pages_ h; root_page_ h; col_num_ h] ++
  ints_bytes (coltype_to_int <$> col_types_ h) ++ ints_bytes (col_lens_ h) ++
  ints_bytes [col_tot_len_ h; btree_order_ h; keys_size_ h; first_leaf_ h; last_leaf_ h].

Lemma first_of_all {A} n (v : list A) : n = Z.of_nat (length v) → first_of n v = Ret v.
Proof. intros ->. unfold first_of. by rewrite Z.leb_refl, Nat2Z.id, firstn_all. Qed.

Lemma length_ix_hdr_bytes h : ix_hdr_wf h → Z.of_nat (length (ix_hdr_bytes h)) = tot_len_ h.
Proof.
  intros [H1 H2 H3 _ _ _]. unfold ix_hdr_bytes. rewrite !length_app, !length_ints_bytes, length_fmap. cbn [length]. lia.
Qed.

Lemma serialize_run h dest :
  ix_hdr_wf h → Z.of_nat (length dest) = tot_len_ h → serialize h dest = Ret (ix_hdr_bytes h).
Proof.
  intros [H1 H2 H3 _ _ _] Hd. unfold serialize.
  rewrite (put_ints_run [_; _; _; _; _] [] dest) by (cbn [length]; lia). cbn [mbind outcome_bind].
  rewrite (first_of_all (col_num_ h) (col_types_ h)) by done. cbn [mbind outcome_bind app length].
  set (d1 := drop (4 * 5) dest). set (b1 := ints_bytes _).
  assert (Hd1 : length d1 = (length dest - 20)%nat) by apply length_drop.
  change (Z.of_nat 0 + 4 * Z.of_nat 5) with (Z.of_nat (length b1)).
  rewrite (put_ints_run _ b1 d1) by (rewrite length_fmap; lia). cbn [mbind outcome_bind].
  rewrite (first_of_all (col_num_ h) (col_lens_ h)) by done. cbn [mbind outcome_bind]. rewrite length_fmap.
  set (b2 := ints_bytes (coltype_to_int <$> _)).
  assert (Hb2 : length b2 = (4 * length (col_types_ h))%nat) by (unfold b2; by rewrite length_ints_bytes, length_fmap).
  set (d2 := drop _ d1). assert (Hd2 : length d2 = (length d1 - 4 * length (col_types_ h))%nat) by apply length_drop.
  rewrite app_assoc. replace (Z.of_nat (length b1) + _) with (Z.of_nat (length (b1 ++ b2)))
    by (rewrite length_app; lia).
  rewrite put_ints_run by lia. cbn [mbind outcome_bind].
  set (b3 := ints_bytes (col_lens_ h)).
  assert (Hb3 : length b3 = (4 * length (col_lens_ h))%nat) by apply length_ints_bytes.
  set (d3 := drop _ d2). assert (Hd3 : length d3 = (length d2 - 4 * length (col_lens_ h))%nat) by apply length_drop.
  rewrite app_assoc. replace (Z.of_nat (length (b1 ++ b2)) + _) with (Z.of_nat (length ((b1 ++ b2) ++ b3)))
    by (rewrite (length_app _ b3); lia).
  rewrite (put_ints_run [_; _; _; _; _]) by (cbn [length]; lia). cbn [mbind outcome_bind length].
  rewrite (drop_ge d3) by lia. rewrite app_nil_r, !length_app.
  assert (Hb1 : length b1 = 20%nat) by done.
  replace (Z.of_nat _ + 4 * Z.of_nat 5) with (tot_len_ h) by lia.
  rewrite Z.eqb_refl. unfold ix_hdr_bytes. by rewrite <- !app_assoc.
Qed.

Lemma types_of_ints l :
  omap_list (λ t, oaccess (int_to_coltype t)) (coltype_to_int <$> l) = Ret l.
Proof. induction l as [|t l IH]; [done|]. rewrite fmap_cons. cbn [omap_list]. rewrite IH. by destruct t. Qed.

(** Reading a run of integers in the middle of a buffer. *)
Lemma get_ints_at src off n vs pre post :
  src = pre ++ ints_bytes vs ++ post → off = Z.of_nat (length pre) → n = length vs → Forall is_int32 vs →
  get_ints n off src = Ret (off + 4 * Z.of_nat n, vs).
Proof. intros -> -> ->. apply get_ints_run. Qed.

Lemma deserialize_run h junk post :
  ix_hdr_wf h → deserialize (IxFileHdr_default junk) (ix_hdr_bytes h ++ post) = Ret h.
Proof.
  intros [H1 H2 H3 H4 H5 H6]. unfold deserialize, ix_hdr_bytes.
  set (b1 := ints_bytes [tot_len_ h; _; _; _; _]). set (b2 := ints_bytes (coltype_to_int <$> _)).
  set (b3 := ints_bytes (col_lens_ h)). set (b4 := ints_bytes _). set (src := (b1 ++ _) ++ post).
  assert (Hsrc : src = b1 ++ b2 ++ b3 ++ b4 ++ post) by (unfold src; by rewrite <- !app_assoc).
  assert (Hb1 : length b1 = 20%nat) by done.
  assert (Hb2 : length b2 = (4 * length (col_types_ h))%nat) by (unfold b2; by rewrite length_ints_bytes, length_fmap).
  assert (Hb3 : length b3 = (4 * length (col_lens_ h))%nat) by apply length_ints_bytes.
  rewrite (get_ints_at src 0 5 _ [] _ Hsrc eq_refl eq_refl H4). cbn [mbind outcome_bind].
  rewrite (get_ints_at src _ _ (coltype_to_int <$> col_types_ h) b1 (b3 ++ b4 ++ post));
    [|done|rewrite Hb1; lia|rewrite length_fmap; lia|].
  2:{ apply Forall_forall. intros x (t&->&_)%list_elem_of_fmap. destruct t; vm_compute; split; discriminate. }
  cbn [mbind outcome_bind]. rewrite types_of_ints. cbn [mbind outcome_bind].
  rewrite (get_ints_at src _ _ (col_lens_ h) (b1 ++ b2) (b4 ++ post));
    [|by rewrite Hsrc, <- app_assoc|rewrite length_app; lia|lia|done].
  cbn [mbind outcome_bind].
  rewrite (get_ints_at src _ 5 [col_tot_len_ h; btree_order_ h; keys_size_ h; first_leaf_ h; last_leaf_ h]
    (b1 ++ b2 ++ b3) post); [|by rewrite Hsrc, <- !app_assoc|rewrite !length_app; lia|done|done].
  cbn [mbind outcome_bind]. rewrite (proj2 (Z.eqb_eq _ (tot_len_ h))) by lia. by destruct h.
Qed.

(** ** The header of a new index *)

Definition cols_len (cs : list ColMeta) : Z := foldr (λ c n, cm_len c + n) 0 cs.

Lemma cols_len_app a b : cols_len (a ++ b) = cols_len a + cols_len b.
Proof. unfold cols_len. induction a as [|c a IH]; simpl; lia. Qed.

Lemma cols_len_nonneg cs : Forall (λ c, 0 <= cm_len c) cs → 0 <= cols_len cs.
Proof. induction 1 as [|c cs Hc Hcs IH]; simpl; [lia|]. unfold cols_len in *. simpl. lia. Qed.

Lemma cols_len_in cs c : Forall (λ c, 0 <= cm_len c) cs → c ∈ cs → cm_len c <= cols_len cs.
Proof.
  intros H Hin. apply list_elem_of_split in Hin as (a&b&->). rewrite cols_len_app.
  apply Forall_app in H as [Ha [Hc Hb]%Forall_cons]. apply cols_len_nonneg in Ha, Hb.
  unfold cols_len in *. simpl. lia.
Qed.

Lemma wrap32_wrap32_add a b : wrap32 (wrap32 a + b) = wrap32 (a + b).
Proof.
  unfold wrap32. f_equal.
  replace ((a + 2 ^ 31) mod 2 ^ 32 - 2 ^ 31 + b + 2 ^ 31) with ((a + 2 ^ 31) mod 2 ^ 32 + b) by lia.
  rewrite Zplus_mod_idemp_l. f_equal. lia.
Qed.

Lemma ix_col_tot_len_eq cs : is_int32 (cols_len cs) → ix_col_tot_len cs = cols_len cs.
Proof.
  intros Hi. unfold ix_col_tot_len.
  assert (H : ∀ n, is_int32 n → foldl (λ n col, wrap32 (n + cm_len col)) n cs = wrap32 (n + cols_len cs)).
  { clear Hi. induction cs as [|c cs IH]; intros n Hn; simpl.
    - unfold cols_len. simpl. by rewrite Z.add_0_r, wrap32_id.
    - rewrite IH by apply wrap32_range. rewrite wrap32_wrap32_add. f_equal. unfold cols_len. simpl. lia. }
  rewrite H by (unfold is_int32, INT_MIN, INT_MAX; lia). by rewrite Z.add_0_l, wrap32_id.
Qed.

(** The columns an index may have: lengths are not negative and their sum is within the
    limit of [create_index]. *)
Definition index_cols_ok (cs : list ColMeta) : Prop :=
  Forall (λ c, 0 <= cm_len c) cs ∧ cols_len cs <= IX_MAX_COL_LEN.

Lemma index_cols_total cs : index_cols_ok cs → ix_col_tot_len cs = cols_len cs ∧ 0 <= cols_len cs <= 512.
Proof.
  intros [H1 H2]. pose proof (cols_len_nonneg _ H1). unfold IX_MAX_COL_LEN in *.
  split; [|lia]. apply ix_col_tot_len_eq. unfold is_int32, INT_MIN, INT_MAX. lia.
Qed.

(** Between the limits every order is the exact quotient. *)
Lemma ix_btree_order_eq t : 0 <= t <= 512 → ix_btree_order t = 4072 / (t + 8) - 1 ∧ 6 <= ix_btree_order t <= 508.
Proof.
  intros Ht. unfold ix_btree_order, sizeof_IxPageHdr, sizeof_Rid, PAGE_SIZE.
  rewrite (Z.mod_small t) by lia. rewrite (Z.mod_small (t + 8)) by lia.
  change (4096 - 24) with 4072. rewrite Z.quot_div_nonneg by lia.
  assert (7 <= 4072 / (t + 8)) by (apply Z.div_le_lower_bound; lia).
  assert (4072 / (t + 8) <= 509) by (apply Z.div_le_upper_bound; lia).
  rewrite Z.mod_small by lia. rewrite wrap32_id by (unfold is_int32, INT_MIN, INT_MAX; lia). lia.
Qed.

Lemma push_cols_eq cs h :
  foldl (λ h col, push_col (cm_type col) (cm_len col) h) h cs =
  mkIxFileHdr (first_free_page_no_ h) (num_pages_ h) (root_page_ h) (col_num_ h) (col_types_ h ++ (cm_type <$> cs))
    (col_lens_ h ++ (cm_len <$> cs)) (col_tot_len_ h) (btree_order_ h) (keys_size_ h) (first_leaf_ h) (last_leaf_ h)
    (tot_len_ h).
Proof.
  revert h. induction cs as [|c cs IH]; intros h; simpl.
  - rewrite !app_nil_r. by destruct h.
  - rewrite IH. unfold push_col. simpl. by rewrite <- !app_assoc.
Qed.

Lemma ix_initial_hdr_eq cs :
  index_cols_ok cs → Z.of_nat (length cs) <= 2 ^ 24 →
  let t := cols_len cs in
  let order := 4072 / (t + 8) - 1 in
  ix_initial_hdr cs =
    mkIxFileHdr IX_NO_PAGE IX_INIT_NUM_PAGES IX_INIT_ROOT_PAGE (Z.of_nat (length cs)) (cm_type <$> cs) (cm_len <$> cs)
      t order ((order + 1) * t) IX_INIT_ROOT_PAGE IX_INIT_ROOT_PAGE (40 + 8 * Z.of_nat (length cs)).
Proof.
  intros Hok Hn t order. destruct (index_cols_total cs Hok) as [Ht Hr].
  destruct (ix_btree_order_eq (cols_len cs) Hr) as [Ho Hro].
  unfold ix_initial_hdr. rewrite push_cols_eq, Ht, Ho. unfold update_tot_len, set_tot_len, IxFileHdr_make. cbn.
  rewrite Ho in Hro. fold t in Hro, Hr |- *. fold order in Hro |- *. assert (0 <= (order + 1) * t <= 509 * 512).
  { split; [apply Z.mul_nonneg_nonneg; lia|]. apply Z.mul_le_mono_nonneg; lia. }
  rewrite (wrap32_id ((order + 1) * t)) by (unfold is_int32, INT_MIN, INT_MAX; lia).
  change (wrap32 (4 * 4 + 4 * 6)) with 40. rewrite wrap32_id by (unfold is_int32, INT_MIN, INT_MAX; lia).
  f_equal. lia.
Qed.

Lemma ix_initial_hdr_wf cs : index_cols_ok cs → Z.of_nat (length cs) <= 2 ^ 24 → ix_hdr_wf (ix_initial_hdr cs).
Proof.
  intros Hok Hn. rewrite ix_initial_hdr_eq by done. pose proof (index_cols_total cs Hok) as [_ Hr].
  destruct (ix_btree_order_eq (cols_len cs) Hr) as [Ho Hro]. rewrite Ho in Hro.
  assert (0 <= (4072 / (cols_len cs + 8) - 1 + 1) * cols_len cs <= 509 * 512).
  { split; [apply Z.mul_nonneg_nonneg; lia|]. apply Z.mul_le_mono_nonneg; lia. }
  split; cbn; rewrite ?length_fmap; try lia.
  - repeat constructor; unfold is_int32, INT_MIN, INT_MAX, IX_NO_PAGE, IX_INIT_NUM_PAGES, IX_INIT_ROOT_PAGE; lia.
  - repeat constructor; unfold is_int32, INT_MIN, INT_MAX, IX_INIT_ROOT_PAGE; lia.
  - apply Forall_forall. intros x (c&->&Hc)%list_elem_of_fmap. destruct Hok as [Hl Ht].
    pose proof (cols_len_in _ _ Hl Hc). rewrite Forall_forall in Hl. apply Hl in Hc.
    unfold is_int32, INT_MIN, INT_MAX, IX_MAX_COL_LEN in *. lia.
Qed.

(** ** Layout of a node

    The arrays of keys and of record identifiers have room for one entry more than the
    order, they do not overlap, and there would be no room for yet another entry. *)

(** C33: For every list of index columns that [create_index] accepts, its assertion
    [btree_order > 2] holds, and in a page of the index the key and the record identifier
    of every entry up to [get_max_size()] lie inside the page, behind the page header and
    apart from each other; an order one larger would not fit. *)
Theorem ix_node_layout cs f :
  index_cols_ok cs → Z.of_nat (length cs) <= 2 ^ 24 →
  let n := IxNodeHandle_make (ix_initial_hdr cs) f in
  let len := cols_len cs in
  2 < btree_order_ (file_hdr n) ∧ get_max_size n = btree_order_ (file_hdr n) + 1 ∧
  (∀ i, 0 <= i < get_max_size n →
     sizeof_IxPageHdr <= get_key n i ∧ get_key n i + len <= rids n ∧
     rids n <= get_rid_ptr n i ∧ get_rid_ptr n i + sizeof_Rid <= PAGE_SIZE) ∧
  (∀ i j, 0 <= i < j → get_key n i + len <= get_key n j ∧ get_rid_ptr n i + sizeof_Rid <= get_rid_ptr n j) ∧
  PAGE_SIZE < sizeof_IxPageHdr + (get_max_size n + 1) * (len + sizeof_Rid).
Proof.
  intros Hok Hn n len. pose proof (index_cols_total cs Hok) as [_ Hr].
  destruct (ix_btree_order_eq (cols_len cs) Hr) as [Ho Hro]. rewrite Ho in Hro.
  set (q := 4072 / (cols_len cs + 8)) in *.
  assert (Hq : (len + 8) * q <= 4072 < (len + 8) * (q + 1)).
  { pose proof (Z.mul_div_le 4072 (len + 8)). pose proof (Z.mul_succ_div_gt 4072 (len + 8)).
    unfold q, len in *. lia. }
  assert (Hm : get_max_size n = q).
  { unfold get_max_size, n, IxNodeHandle_make. rewrite ix_initial_hdr_eq by done. cbn. fold q.
    rewrite wrap32_id by (unfold is_int32, INT_MIN, INT_MAX; lia). lia. }
  assert (Hk : ∀ i, get_key n i = 24 + i * len ∧ get_rid_ptr n i = 24 + q * len + i * 8).
  { intros i. unfold get_key, get_rid_ptr, n, IxNodeHandle_make, sizeof_IxPageHdr, sizeof_Rid.
    rewrite ix_initial_hdr_eq by done. cbn. fold q len. lia. }
  assert (Hb : btree_order_ (file_hdr n) = q - 1) by (unfold n, IxNodeHandle_make; by rewrite ix_initial_hdr_eq).
  assert (Hrids : rids n = 24 + q * len).
  { unfold n, IxNodeHandle_make, sizeof_IxPageHdr. rewrite ix_initial_hdr_eq by done. cbn. fold q len. lia. }
  rewrite Hm, Hb, Hrids. unfold sizeof_IxPageHdr, sizeof_Rid, PAGE_SIZE.
  split_and!; [lia|lia| | |lia].
  - intros i Hi. destruct (Hk i) as [-> ->]. assert (i * len + len <= q * len) by nia.
    assert (0 <= i * len) by (apply Z.mul_nonneg_nonneg; lia). lia.
  - intros i j Hij. destruct (Hk i) as [-> ->], (Hk j) as [-> ->]. assert (i * len + len <= j * len) by nia. lia.
Qed.

Definition cols_example : list ColMeta :=
  [mkColMeta "t" "a" TYPE_INT 4 0 false; mkColMeta "t" "b" TYPE_STRING 20 4 false].

Lemma cols_example_ok : index_cols_ok cols_example.
Proof. split; [repeat constructor; simpl; lia|vm_compute; discriminate]. Qed.

Lemma ix_node_layout_witness :
  let n := IxNodeHandle_make (ix_initial_hdr cols_example) 0 in
  get_max_size n = 127 ∧ 2 < btree_order_ (file_hdr n).
Proof.
  split; [vm_compute; reflexivity|].
  exact (proj1 (ix_node_layout cols_example 0 cols_example_ok ltac:(vm_compute; discriminate))).
Defined.

(** C34: What [serialize] writes into a buffer of [tot_len_] bytes [deserialize] reads back,
    on an object whatever its uninitialised members hold and whatever follows in the page;
    both final assertions hold. *)
Theorem ix_hdr_roundtrip h dest junk post :
  ix_hdr_wf h → Z.of_nat (length dest) = tot_len_ h →
  ∃ bs, serialize h dest = Ret bs ∧ Z.of_nat (length bs) = tot_len_ h ∧
    deserialize (IxFileHdr_default junk) (bs ++ post) = Ret h.
Proof.
  intros Hw Hd. exists (ix_hdr_bytes h). split; [by apply serialize_run|].
  split; [by apply length_ix_hdr_bytes|by apply deserialize_run].
Qed.

Lemma ix_hdr_roundtrip_witness :
  let h := ix_initial_hdr cols_example in
  ∃ bs, serialize h (zeros 56) = Ret bs ∧ Z.of_nat (length bs) = tot_len_ h ∧
    deserialize (IxFileHdr_default h) (bs ++ zeros 10) = Ret h.
Proof.
  apply ix_hdr_roundtrip; [|vm_compute; reflexivity].
  apply ix_initial_hdr_wf; [apply cols_example_ok|vm_compute; discriminate].
Defined.

(** ** Creating and opening *)

(** The bytes of an index file just created. *)
Definition index_image (cs : list ColMeta) (c : list byte) : Prop :=
  (∃ post, mread c 0 PAGE_SIZE = Some (ix_hdr_bytes (ix_initial_hdr cs) ++ post)) ∧
  mread c (IX_LEAF_HEADER_PAGE * PAGE_SIZE) PAGE_SIZE = Some leaf_header_page ∧
  mread c (IX_INIT_ROOT_PAGE * PAGE_SIZE) PAGE_SIZE = Some init_root_page.

Lemma length_ix_page_buf p : Z.of_nat (length (ix_page_buf p)) = PAGE_SIZE.
Proof. unfold ix_page_buf. rewrite length_app, length_zeros. reflexivity. Qed.

(** The three writes of [create_index] on an empty file. *)
Lemma index_writes cs :
  ix_hdr_wf (ix_initial_hdr cs) → tot_len_ (ix_initial_hdr cs) <= PAGE_SIZE →
  index_image cs
    (file_write (file_write (file_write [] 0 (ix_hdr_bytes (ix_initial_hdr cs))) PAGE_SIZE leaf_header_page)
       (IX_INIT_ROOT_PAGE * PAGE_SIZE) init_root_page).
Proof.
  intros Hw Hlen. pose proof (length_ix_hdr_bytes _ Hw) as Hb. set (hb := ix_hdr_bytes _) in *.
  assert (Hl1 : Z.of_nat (length leaf_header_page) = PAGE_SIZE) by apply length_ix_page_buf.
  assert (Hl2 : Z.of_nat (length init_root_page) = PAGE_SIZE) by apply length_ix_page_buf.
  assert (Hpos : 0 < tot_len_ (ix_initial_hdr cs)) by (destruct Hw as [E _ -> _ _ _]; lia).
  unfold index_image, IX_INIT_ROOT_PAGE, IX_LEAF_HEADER_PAGE, PAGE_SIZE in *.
  set (c1 := file_write [] 0 hb). set (c2 := file_write c1 4096 leaf_header_page).
  change (2 * 4096) with 8192. change (1 * 4096) with 4096. set (pg := Z.to_nat 4096).
  assert (Hpg : Z.of_nat pg = 4096) by (unfold pg; lia). assert (Hpg2 : Z.to_nat 8192 = (pg + pg)%nat) by lia.
  assert (Hc1 : length c1 = length hb) by (unfold c1; rewrite length_file_write by lia; simpl; lia).
  assert (Hc2 : length c2 = (pg + pg)%nat) by (unfold c2; rewrite length_file_write by lia; lia).
  assert (Hc3 : length (file_write c2 8192 init_root_page) = (pg + pg + pg)%nat)
    by (rewrite length_file_write by lia; lia).
  assert (Hp1 : length leaf_header_page = pg) by lia. assert (Hp2 : length init_root_page = pg) by lia.
  split_and!.
  - exists (drop (length hb) (take pg c2)). apply mread_Some. unfold PAGE_SIZE. rewrite Hc3. split_and!; [lia..|].
    fold pg. change (Z.to_nat 0) with 0%nat. rewrite file_write_other by lia. rewrite drop_0.
    assert (Hh : take (length hb) (take pg c2) = hb).
    { rewrite take_take, Nat.min_l by lia. rewrite <- (drop_0 c2). unfold c2. rewrite file_write_other by lia.
      rewrite drop_0. apply file_write_0_prefix. }
    pose proof (take_drop (length hb) (take pg c2)) as E. rewrite Hh in E. done.
  - apply mread_Some. rewrite Hc3. split_and!; [lia..|]. fold pg. rewrite file_write_other by lia.
    symmetry. unfold c2. replace pg with (length leaf_header_page) by done. apply (file_write_read c1 4096). lia.
  - apply mread_Some. rewrite Hc3. split_and!; [lia..|]. fold pg. symmetry.
    replace pg with (length init_root_page) by done. apply (file_write_read c2 8192). lia.
Qed.

(** A disk on which the file [q] of contents [c] is open as [fd], over the disk [d]. *)
Definition open_on (d : Disk) (q : path) (fd : Z) (c : list byte) (off : Z) (m : DiskManager) : Disk :=
  mkDisk (set_fds (<[fd := (q, off)]> (os_fds (os d))) (set_files (<[q := c]> (os_files (os d))) (os d))) m.

Lemma write_open_on d q fd c off m no buf n :
  0 <= no → 0 < n → no * PAGE_SIZE + n <= os_limit (os d) → Z.of_nat (length buf) = n →
  write_page fd no buf n (open_on d q fd c off m) =
    (Ret tt, open_on d q fd (file_write c (no * PAGE_SIZE) buf) (no * PAGE_SIZE + n) m).
Proof.
  intros Hno Hn Hlim Hb. unfold open_on.
  rewrite (write_page_run _ fd no buf n q off c); [|cbn; apply lookup_insert_eq..|lia|lia|done|lia].
  replace (Z.to_nat n) with (length buf) by lia. rewrite firstn_all.
  unfold set_os, set_fds, set_files. cbn. by rewrite !insert_insert_eq.
Qed.

Lemma close_open_on d q fd c off m name :
  fd2path_ m !! fd = Some name → os_fds (os d) !! fd = None →
  close_file fd (open_on d q fd c off m) =
    (Ret tt, mkDisk (set_files (<[q := c]> (os_files (os d))) (os d)) (record_close name fd m)).
Proof.
  intros Hm Hfd. unfold close_file, gets, bind at 1, open_on. cbn. rewrite Hm.
  unfold syscall, sys_close, bind. cbn. rewrite lookup_insert_eq. cbn.
  unfold modify, set_dm, set_os, set_fds, set_files. cbn. by rewrite delete_insert_eq, delete_id.
Qed.

Lemma set_pageno_run d fd n :
  0 <= fd < MAX_FD → set_fd2pageno fd n d = (Ret tt, set_dm (set_pageno fd n (dm d)) d).
Proof. intros H. unfold set_fd2pageno, gets, pageno_at, bind. by rewrite decide_True. Qed.

Lemma record_close_open name fd n m :
  path2fd_ m !! name = None → fd2path_ m !! fd = None →
  record_close name fd (set_pageno fd n (record_open name fd m)) = set_pageno fd n m.
Proof.
  intros H1 H2. unfold record_close, record_open, set_pageno. cbn.
  rewrite !delete_insert_eq, !delete_id by done. done.
Qed.

Definition index_room (d : Disk) : Prop := IX_INIT_NUM_PAGES * PAGE_SIZE <= os_limit (os d).

(** At most 507 columns: with more the header is longer than its page. *)
Definition index_cols_fit (cs : list ColMeta) : Prop := index_cols_ok cs ∧ Z.of_nat (length cs) <= 507.

Lemma index_cols_fit_hdr cs : index_cols_fit cs →
  ix_hdr_wf (ix_initial_hdr cs) ∧ 0 < tot_len_ (ix_initial_hdr cs) <= PAGE_SIZE ∧ (ix_btree_order (ix_col_tot_len cs) >? 2) = true.
Proof.
  intros [Hok Hn]. split; [apply ix_initial_hdr_wf; [done|lia]|]. destruct (index_cols_total cs Hok) as [-> Hr].
  destruct (ix_btree_order_eq _ Hr) as [_ Ho]. rewrite ix_initial_hdr_eq by (done || lia). unfold PAGE_SIZE. cbn. lia.
Qed.

Lemma create_index_run junk d p cs :
  let name := get_index_name_cols p cs in
  disk_inv d → index_cols_fit cs → (∀ n, 0 <= n → Z.of_nat (length (junk n)) = n) → index_room d →
  os_files (os d) !! resolve (os d) name = None → (resolve (os d) name ∉ os_dirs (os d)) →
  new_fd (os d) < os_nofile (os d) → new_fd (os d) < MAX_FD →
  ∃ c, ix_create_index junk p cs d =
    (Ret tt, mkDisk (set_files (<[resolve (os d) name := c]> (os_files (os d))) (os d))
                    (set_pageno (new_fd (os d)) 2 (dm d))) ∧
    index_image cs c.
Proof.
  intros name Hdi Hfit Hjunk Hroom Hn Hdir Hno Hmax. set (q := resolve (os d) name) in *. set (fd := new_fd (os d)) in *.
  destruct (index_cols_fit_hdr cs Hfit) as (Hw&Hlen&Hord).
  eexists. split; [|apply index_writes; [done|apply Hlen]].
  unfold ix_create_index. fold name.
  rewrite (bind_Ret _ _ _ _ _ (create_file_run d name Hn Hdir Hno)). fold q. set (d1 := mkDisk _ _).
  assert (Hp1 : path2fd_ (dm d1) !! name = None).
  { destruct (path2fd_ (dm d) !! name) as [x|] eqn:E; [|done].
    apply (di_maps _ Hdi) in E. apply (di_open _ Hdi) in E as [_ [c Hc]]. fold q in Hc. congruence. }
  rewrite (bind_Ret _ _ d1 fd (open_on d q fd [] 0 (record_open name fd (dm d)))).
  2:{ rewrite open_file_cases. unfold stat_reg.
      rewrite bool_decide_eq_true_2 by (cbn; rewrite lookup_insert_eq; eauto). cbn [negb].
      rewrite decide_False by (rewrite Hp1; by intros []). by rewrite decide_True. }
  assert (Hf1 : fd2path_ (dm d) !! fd = None).
  { destruct (fd2path_ (dm d) !! fd) as [x|] eqn:E; [|done].
    apply (di_open _ Hdi) in E as [[y Hy] _]. pose proof (new_fd_fresh (os d)) as Hfr. fold fd in Hfr. congruence. }
  destruct (index_cols_total cs (proj1 Hfit)) as [Ht Hr].
  rewrite Z.gtb_ltb, (proj2 (Z.ltb_ge _ _)) by (unfold IX_MAX_COL_LEN; lia). rewrite Hord.
  unfold assert_, hdr_data, lift, ret, bind at 1 2. rewrite serialize_run by (done || (apply Hjunk; lia)).
  pose proof (length_ix_hdr_bytes _ Hw) as Hb. unfold index_room, IX_INIT_NUM_PAGES in Hroom.
  erewrite bind_Ret by (apply write_open_on; unfold IX_FILE_HDR_PAGE, PAGE_SIZE in *; (done || lia)).
  erewrite bind_Ret by (apply write_open_on; rewrite ?length_ix_page_buf; unfold IX_LEAF_HEADER_PAGE, PAGE_SIZE in *; (done || lia)).
  erewrite bind_Ret by (apply write_open_on; rewrite ?length_ix_page_buf; unfold IX_INIT_ROOT_PAGE, PAGE_SIZE in *; (done || lia)).
  change (IX_FILE_HDR_PAGE * PAGE_SIZE) with 0. change (IX_LEAF_HEADER_PAGE * PAGE_SIZE) with PAGE_SIZE.
  pose proof (new_fd_ge (os d)) as Hge. fold fd in Hge.
  erewrite bind_Ret by (apply set_pageno_run; lia).
  unfold set_dm, open_on at 1. cbn [os]. set (m2 := set_pageno _ _ _).
  match goal with |- close_file fd (mkDisk _ _) = (_, mkDisk (set_files (<[_ := ?c]> _) _) _) =>
    change (close_file fd (open_on d q fd c (IX_INIT_ROOT_PAGE * PAGE_SIZE + PAGE_SIZE) m2) =
      (Ret tt, mkDisk (set_files (<[q := c]> (os_files (os d))) (os d)) (set_pageno fd 2 (dm d)))) end.
  rewrite (close_open_on _ _ _ _ _ _ name); [|apply lookup_insert_eq|apply new_fd_fresh].
  change m2 with (set_pageno fd 2 (record_open name fd (dm d))). by rewrite record_close_open.
Qed.

Lemma read_buf_run d fd no n p off c bs :
  os_fds (os d) !! fd = Some (p, off) → os_files (os d) !! p = Some c → 0 <= n →
  mread c (no * PAGE_SIZE) n = Some bs →
  read_buf fd no n (zeros n) d =
    (Ret bs, set_os (set_fds (<[fd := (p, no * PAGE_SIZE + n)]> (os_fds (os d))) (os d)) d).
Proof.
  intros Hfd Hc Hn Hr. unfold read_buf.
  rewrite (read_page_run d fd no (zeros n) n p off c bs) by (done || (rewrite length_zeros; lia)).
  by rewrite drop_ge, app_nil_r by (rewrite length_zeros; lia).
Qed.

(** Opening an index file: the handle holds the header of the file, and the counter of its
    descriptor moves on by one from whatever it was. *)
Lemma open_index_run junk d p cs c :
  let name := get_index_name_cols p cs in
  let fd := new_fd (os d) in
  index_cols_fit cs → index_image cs c → os_files (os d) !! resolve (os d) name = Some c →
  path2fd_ (dm d) !! name = None → fd < os_nofile (os d) → fd < MAX_FD →
  ∃ d', ix_open_index junk p cs d = (Ret (mkIxIndexHandle fd (ix_initial_hdr cs)), d') ∧
    fd_content (os d') fd = Some c ∧
    fd2pageno_ (dm d') !! fd = Some (wrap32 (default 0 (fd2pageno_ (dm d) !! fd) + 1)).
Proof.
  intros name fd Hfit ([post Hc0]&_&_) Hc Hp Hno Hmax. set (q := resolve (os d) name) in *.
  destruct (index_cols_fit_hdr cs Hfit) as (Hw&Hlen&_). pose proof (new_fd_ge (os d)) as Hge. fold fd in Hge.
  unfold ix_open_index. fold name.
  rewrite (bind_Ret _ _ d fd (mkDisk (set_fds (<[fd := (q, 0)]> (os_fds (os d))) (os d)) (record_open name fd (dm d)))).
  2:{ rewrite open_file_cases. unfold stat_reg. fold q. rewrite bool_decide_eq_true_2 by (rewrite Hc; eauto). cbn [negb].
      rewrite decide_False by (rewrite Hp; by intros []). by rewrite decide_True. }
  unfold IxIndexHandle_make.
  assert (is_Some (mread c (IX_FILE_HDR_PAGE * PAGE_SIZE) 8)) as [bs H8].
  { apply mread_Some in Hc0 as (?&?&?&_). unfold PAGE_SIZE, IX_FILE_HDR_PAGE in *. apply mread_is_Some; lia. }
  erewrite bind_Ret by (eapply read_buf_run; [cbn; apply lookup_insert_eq|exact Hc|done|exact H8]).
  erewrite bind_Ret by (eapply read_buf_run; [cbn; apply lookup_insert_eq|exact Hc|done|exact Hc0]).
  unfold lift, bind at 1. rewrite deserialize_run by done.
  unfold get_fd2pageno, set_fd2pageno, gets, pageno_at, bind, access, ret, modify. cbn.
  rewrite decide_True by lia. rewrite decide_True by lia.
  eexists. split; [done|]. unfold fd_content. cbn. rewrite !lookup_insert_eq. done.
Qed.

(** The pages after opening. *)
Definition index_pages_ok (d : Disk) (fd : Z) : Prop :=
  disk_page d (mkPageId fd IX_LEAF_HEADER_PAGE) = Some leaf_header_page ∧
  disk_page d (mkPageId fd IX_INIT_ROOT_PAGE) = Some init_root_page.

Lemma index_image_pages cs c d fd : index_image cs c → fd_content (os d) fd = Some c → index_pages_ok d fd.
Proof. intros (_&H1&H2) Hc. unfold index_pages_ok, disk_page. cbn [pid_fd pid_no]. by rewrite Hc. Qed.

Lemma allocate_after d fd n : 3 <= fd < MAX_FD → fd2pageno_ (dm d) !! fd = Some n → (allocate_page fd d).1 = Ret n.
Proof. intros Hfd Hn. rewrite allocate_page_run by lia. by rewrite Hn. Qed.

(** C35: An index file that [create_index] makes can be opened: the handle holds the header
    that was computed from the columns, the leaf list header and the root are on their
    pages, and the first page the session allocates in the file is page 3. *)
Theorem create_open_index junk junk' d p cs :
  let name := get_index_name_cols p cs in
  let fd := new_fd (os d) in
  disk_inv d → index_cols_fit cs → (∀ n, 0 <= n → Z.of_nat (length (junk n)) = n) → index_room d →
  os_files (os d) !! resolve (os d) name = None → (resolve (os d) name ∉ os_dirs (os d)) →
  fd < os_nofile (os d) → fd < MAX_FD →
  ∃ d1 d2, ix_create_index junk p cs d = (Ret tt, d1) ∧
    ix_open_index junk' p cs d1 = (Ret (mkIxIndexHandle fd (ix_initial_hdr cs)), d2) ∧
    index_pages_ok d2 fd ∧ (allocate_page fd d2).1 = Ret IX_INIT_NUM_PAGES.
Proof.
  intros name fd Hdi Hfit Hjunk Hroom Hn Hdir Hno Hmax.
  destruct (create_index_run junk d p cs) as (c&Hcr&Himg); [done..|]. set (d1 := mkDisk _ _) in Hcr.
  assert (Hp1 : path2fd_ (dm d1) !! name = None).
  { destruct (path2fd_ (dm d1) !! name) as [x|] eqn:E; [|done]. cbn in E.
    apply (di_maps _ Hdi) in E. apply (di_open _ Hdi) in E as [_ [c' Hc]]. congruence. }
  destruct (open_index_run junk' d1 p cs c) as (d2&Hop&Hcont&Hcnt); try done; [apply lookup_insert_eq|].
  exists d1, d2. split_and!; [done|done|by eapply index_image_pages|].
  pose proof (new_fd_ge (os d)). apply allocate_after; [unfold fd; lia|].
  change (new_fd (os d1)) with fd in Hcnt. rewrite Hcnt. cbn. by rewrite lookup_insert_eq.
Qed.

(** After a restart (no descriptor open, a fresh [DiskManager]) the same file opens with
    the same header, but the first page the session allocates in it is page 1: the node
    [create_node] makes takes the place of the leaf list header. *)
Theorem restarted_index_reuses_leaf_header junk o p cs c :
  let d := mkDisk (set_fds ∅ o) DiskManager_init in
  index_cols_fit cs → index_image cs c → os_files o !! resolve o (get_index_name_cols p cs) = Some c →
  3 < os_nofile o →
  ∃ d', ix_open_index junk p cs d = (Ret (mkIxIndexHandle 3 (ix_initial_hdr cs)), d') ∧
    index_pages_ok d' 3 ∧ (allocate_page 3 d').1 = Ret IX_LEAF_HEADER_PAGE.
Proof.
  intros d Hfit Himg Hc Hno.
  destruct (open_index_run junk d p cs c) as (d2&Hop&Hcont&Hcnt); try done.
  exists d2. split_and!; [done|by eapply index_image_pages|].
  apply allocate_after; [unfold MAX_FD; lia|done].
Qed.

Definition index_os : OS := mkOS ∅ ∅ [] ∅ 1000000 1024.
Definition index_disk : Disk := mkDisk index_os DiskManager_init.

Lemma cols_example_fit : index_cols_fit cols_example.
Proof. split; [apply cols_example_ok|vm_compute; discriminate]. Qed.

Lemma zeros_length n : 0 <= n → Z.of_nat (length (zeros n)) = n.
Proof. intros H. rewrite length_zeros. lia. Qed.

Lemma create_open_index_witness :
  ∃ d1 d2, ix_create_index zeros "t" cols_example index_disk = (Ret tt, d1) ∧
    ix_open_index (ix_initial_hdr []) "t" cols_example d1 = (Ret (mkIxIndexHandle 3 (ix_initial_hdr cols_example)), d2) ∧
    index_pages_ok d2 3 ∧ (allocate_page 3 d2).1 = Ret IX_INIT_NUM_PAGES.
Proof.
  apply (create_open_index zeros (ix_initial_hdr []) index_disk "t" cols_example);
    [by apply disk_inv_init|apply cols_example_fit|apply zeros_length|vm_compute; discriminate|reflexivity
    |apply not_elem_of_empty|vm_compute; reflexivity|vm_compute; reflexivity].
Defined.

Lemma restarted_index_reuses_leaf_header_witness :
  ∃ c d', index_image cols_example c ∧
    ix_open_index (ix_initial_hdr []) "t" cols_example
      (mkDisk (set_fds ∅ (mkOS {[ ["t_a_b.idx"] := c ]} ∅ [] ∅ 1000000 1024)) DiskManager_init) =
        (Ret (mkIxIndexHandle 3 (ix_initial_hdr cols_example)), d') ∧
    (allocate_page 3 d').1 = Ret IX_LEAF_HEADER_PAGE.
Proof.
  destruct (index_cols_fit_hdr _ cols_example_fit) as (Hw&Hl&_).
  pose proof (index_writes cols_example Hw (proj2 Hl)) as Hi. set (c := file_write _ _ _) in Hi.
  clearbody c.
  destruct (restarted_index_reuses_leaf_header (ix_initial_hdr []) (mkOS {[ ["t_a_b.idx"] := c ]} ∅ [] ∅ 1000000 1024)
    "t" cols_example c cols_example_fit Hi ltac:(apply lookup_singleton_eq) ltac:(vm_compute; reflexivity)) as (d'&H1&_&H3).
  exists c, d'. exact (conj Hi (conj H1 H3)).
Defined.
