(* ===== verification/Printer.v ===== *)
(** * Printing results

    [record_printer.h] and the members of [common/context.h] it uses: tables are written
    into the reply buffer of the client, which holds [BUFFER_LENGTH] bytes.  A piece of
    output is copied only while room for the record count remains. *)

From Stdlib Require Import Strings.Ascii.
From S2P Require Import Prelude Errors Config StrMap Values Text.
From stdpp Require Import options.

Definition RECORD_COUNT_LENGTH : Z := 40.
Definition COL_WIDTH : Z := 16.

(** The buffer [data_send_], the length [*offset_] written so far, [ellipsis_]. *)
Record Context := mkContext { data_send_ : list byte; offset_ : Z; ellipsis_ : bool }.

(** [memcpy(data_send_ + *offset_, str.c_str(), str.length()); *offset_ += str.length()]. *)
Definition ctx_append (str : string) : M Context unit := λ c,
  match mwrite (data_send_ c) (offset_ c) (str_bytes str) with
  | Some d => (Ret tt, mkContext d (offset_ c + str_size str) (ellipsis_ c))
  | None => (Crash OutOfBounds, c)
  end.

(** The guard of every piece: the sum is on [size_t]. *)
Definition has_room (str : string) (c : Context) : bool :=
  negb (ellipsis_ c) && ((offset_ c + RECORD_COUNT_LENGTH + str_size str) mod 2 ^ 64 <? BUFFER_LENGTH).

Definition set_ellipsis : M Context unit := modify (λ c, mkContext (data_send_ c) (offset_ c) true).

Definition emit (str : string) : M Context unit :=
  let! b := gets (has_room str) in
  if (b : bool) then ctx_append str else set_ellipsis.

(** The end of a record line has no [else]. *)
Definition emit_end (str : string) : M Context unit :=
  let! b := gets (has_room str) in
  if (b : bool) then ctx_append str else ret tt.

(** [std::string(n, c)]. *)
Definition string_fill (n : Z) (c : ascii) : string := Nat.iter (Z.to_nat n) (String c) "".

Record RecordPrinter := mkRecordPrinter { num_cols : Z }.

Definition RecordPrinter_make (num_cols_ : Z) : M Context RecordPrinter :=
  assert_ (num_cols_ >? 0) ;; ret (mkRecordPrinter num_cols_).

Definition separator_piece : string := "+" +:+ string_fill (COL_WIDTH + 2) "-".

Definition print_separator (p : RecordPrinter) : M Context unit :=
  for_each (λ _, emit separator_piece) (seqZ 0 (num_cols p)) ;;
  emit ("+" +:+ nl).

(** [std::setw(width)] pads on the left. *)
Definition setw (width : Z) (s : string) : string := string_fill (width - str_size s) " " +:+ s.

Definition shorten (col : string) : string :=
  if str_size col >? COL_WIDTH then String.substring 0 (Z.to_nat (COL_WIDTH - 3)) col +:+ "..." else col.

Definition cell_piece (col : string) : string := "| " +:+ setw COL_WIDTH (shorten col) +:+ " ".

Definition print_record (p : RecordPrinter) (rec_str : list string) : M Context unit :=
  assert_ (Z.of_nat (length rec_str) =? num_cols p) ;;
  for_each (λ col, emit (cell_piece col)) rec_str ;;
  emit_end ("|" +:+ nl).

Definition count_line (ellipsis : bool) (num_rec : Z) : string :=
  (if ellipsis then "... ..." +:+ nl else "") +:+ "Total record(s): " +:+ to_string num_rec +:+ nl.

Definition print_record_count (num_rec : Z) : M Context unit :=
  let! e := gets ellipsis_ in ctx_append (count_line e num_rec).

(** ** What is printed *)

(** The calls a printer gets. *)
Inductive PrintOp := PSeparator | PRecord (rec_str : list string).

Definition run_print (p : RecordPrinter) (o : PrintOp) : M Context unit :=
  match o with PSeparator => print_separator p | PRecord r => print_record p r end.

Definition run_prints (p : RecordPrinter) (os : list PrintOp) : M Context unit := for_each (run_print p) os.

(** The pieces a call consists of. *)
Definition pieces (n : Z) (o : PrintOp) : list string :=
  match o with
  | PSeparator => replicate (Z.to_nat n) separator_piece ++ ["+" +:+ nl]
  | PRecord r => (cell_piece <$> r) ++ ["|" +:+ nl]
  end.

Definition op_ok (n : Z) (o : PrintOp) : Prop :=
  match o with PSeparator => True | PRecord r => Z.of_nat (length r) = n end.

(** The longest prefix of the pieces that fits from the given offset, as one text. *)
Fixpoint fitting (off : Z) (ps : list string) : string :=
  match ps with
  | [] => ""
  | p :: ps' =>
      if off + RECORD_COUNT_LENGTH + str_size p <? BUFFER_LENGTH then p +:+ fitting (off + str_size p) ps' else ""
  end.

Fixpoint all_fit (off : Z) (ps : list string) : bool :=
  match ps with
  | [] => true
  | p :: ps' => (off + RECORD_COUNT_LENGTH + str_size p <? BUFFER_LENGTH) && all_fit (off + str_size p) ps'
  end.
