(* ===== verification/PrinterProps.v ===== *)
(** * What the reply buffer holds after printing

    The printed text is the longest prefix of the pieces that leaves room for the record
    count, and the buffer is never overrun. *)

From S2P Require Import Prelude Errors Config StrMap Values Text Printer.
From stdpp Require Import options.

(** ** Lengths of texts *)

Lemma str_size_app a b : str_size (a +:+ b) = str_size a + str_size b.
Proof.
  unfold str_size. induction a as [|c a IH]; [done|]. change (String c a +:+ b) with (String c (a +:+ b)).
  cbn [String.length]. lia.
Qed.
Lemma str_size_nonneg s : 0 <= str_size s.
Proof. unfold str_size. lia. Qed.
Lemma str_bytes_app a b : str_bytes (a +:+ b) = str_bytes a ++ str_bytes b.
Proof. unfold str_bytes, String.list_byte_of_string. induction a as [|c a IH]; [done|]. exact (f_equal (cons _) IH). Qed.
Lemma str_size_fill n c : str_size (string_fill n c) = Z.max 0 n.
Proof.
  unfold string_fill. replace (Z.max 0 n) with (Z.of_nat (Z.to_nat n)) by lia.
  induction (Z.to_nat n) as [|k IH]; [done|].
  change (Nat.iter (S k) (String c) "") with (String c (Nat.iter k (String c) "")).
  unfold str_size in *. cbn [String.length]. lia.
Qed.

Lemma length_substring k s : (k <= String.length s)%nat → String.length (String.substring 0 k s) = k.
Proof. revert s. induction k as [|k IH]; intros [|c s] H; simpl in *; [done..|lia|]. by rewrite IH by lia. Qed.

(** A shortened column is at most as wide as a cell. *)
Lemma shorten_size col : str_size (shorten col) <= COL_WIDTH.
Proof.
  unfold shorten. destruct (Z.gtb_spec (str_size col) COL_WIDTH) as [H|H]; [|lia].
  rewrite str_size_app. unfold str_size, COL_WIDTH in *. rewrite length_substring by lia. vm_compute. discriminate.
Qed.

(** Every cell has the same width. *)
Lemma cell_piece_size col : str_size (cell_piece col) = COL_WIDTH + 3.
Proof.
  unfold cell_piece, setw. pose proof (shorten_size col). pose proof (str_size_nonneg (shorten col)).
  rewrite !str_size_app, str_size_fill. change (str_size "| ") with 2. change (str_size " ") with 1. lia.
Qed.

Lemma separator_piece_size : str_size separator_piece = COL_WIDTH + 3.
Proof. reflexivity. Qed.

Lemma pieces_sizes n o : Forall (λ p, 2 <= str_size p <= COL_WIDTH + 3) (pieces n o).
Proof.
  destruct o as [|r]; simpl; apply Forall_app; split.
  - apply Forall_replicate. rewrite separator_piece_size. unfold COL_WIDTH. lia.
  - constructor; [|constructor]. vm_compute. split; discriminate.
  - apply Forall_fmap, Forall_true. intros x. cbn. rewrite cell_piece_size. unfold COL_WIDTH. lia.
  - constructor; [|constructor]. vm_compute. split; discriminate.
Qed.

(** A number below [10 ^ k] has at most [k] digits. *)
Lemma pretty_N_go_length k x s :
  (x < 10 ^ N.of_nat k)%N → (String.length (pretty_N_go x s) <= k + String.length s)%nat.
Proof.
  revert x s. induction k as [|k IH]; intros x s Hx.
  - assert (x = 0)%N as -> by (simpl in Hx; lia). by rewrite pretty_N_go_0.
  - destruct (decide (x = 0)%N) as [->|H0]; [rewrite pretty_N_go_0; lia|].
    rewrite pretty_N_go_step by lia. etrans; [apply IH|simpl; lia].
    rewrite Nat2N.inj_succ, N.pow_succ_r' in Hx. apply N.Div0.div_lt_upper_bound. lia.
Qed.

Lemma to_string_size k z : 0 <= z < 10 ^ Z.of_nat (S k) → str_size (to_string z) <= Z.of_nat (S k).
Proof.
  intros Hz. unfold to_string, str_size. destruct z as [|p|p]; [simpl; lia| |lia].
  change (pretty (Z.pos p)) with (pretty (N.pos p)). unfold pretty, pretty_N. rewrite decide_False by done.
  pose proof (pretty_N_go_length (S k) (N.pos p) "") as H. simpl String.length in H. apply Nat2Z.inj_le.
  rewrite Nat.add_0_r in H. apply H. apply N2Z.inj_lt. rewrite N2Z.inj_pow. rewrite nat_N_Z. apply Hz.
Qed.

(** ** Fitting pieces *)

Definition sizes (ps : list string) : Z := foldr (λ p n, str_size p + n) 0 ps.

Lemma fitting_app off ps qs :
  fitting off (ps ++ qs) = if all_fit off ps then fitting off ps +:+ fitting (off + sizes ps) qs else fitting off ps.
Proof.
  revert off. induction ps as [|p ps IH]; intros off; simpl.
  - by rewrite Z.add_0_r.
  - destruct (_ <? BUFFER_LENGTH); [|done]. rewrite IH. simpl. destruct (all_fit _ ps); [|done].
    by rewrite string_app_assoc, Z.add_assoc.
Qed.
Lemma all_fit_app off ps qs : all_fit off (ps ++ qs) = all_fit off ps && all_fit (off + sizes ps) qs.
Proof.
  revert off. induction ps as [|p ps IH]; intros off; simpl; [by rewrite Z.add_0_r|].
  by rewrite IH, Z.add_assoc, andb_assoc.
Qed.
Lemma fitting_all off ps : all_fit off ps = true → str_size (fitting off ps) = sizes ps.
Proof.
  revert off. induction ps as [|p ps IH]; intros off; simpl; [done|]. destruct (_ <? BUFFER_LENGTH); [|done].
  simpl. intros H. by rewrite str_size_app, IH.
Qed.

(** ** The printer *)

(** The buffer after the pieces [ps] have been offered. *)
Record printed (c : Context) (ps : list string) : Prop := {
  pr_len : Z.of_nat (length (data_send_ c)) = BUFFER_LENGTH;
  pr_off : offset_ c = str_size (fitting 0 ps);
  pr_data : take (Z.to_nat (offset_ c)) (data_send_ c) = str_bytes (fitting 0 ps);
  pr_rest : Forall (.= x00) (drop (Z.to_nat (offset_ c)) (data_send_ c));
  pr_room : offset_ c + RECORD_COUNT_LENGTH < BUFFER_LENGTH;
  pr_ellipsis : if all_fit 0 ps then ellipsis_ c = false
                else ellipsis_ c = true ∨ BUFFER_LENGTH <= offset_ c + RECORD_COUNT_LENGTH + 2;
}.

Definition fresh_ctx (c : Context) : Prop :=
  data_send_ c = zeros BUFFER_LENGTH ∧ offset_ c = 0 ∧ ellipsis_ c = false.


Lemma fresh_printed c : fresh_ctx c → printed c [].
Proof.
  intros (H1&H2&H3). split; simpl; rewrite ?H1, ?H2; try done.
  apply Forall_drop, Forall_replicate. done.
Qed.

Lemma ctx_append_run str c :
  0 <= offset_ c → offset_ c + str_size str <= Z.of_nat (length (data_send_ c)) →
  ∃ d, ctx_append str c = (Ret tt, mkContext d (offset_ c + str_size str) (ellipsis_ c)) ∧
    length d = length (data_send_ c) ∧
    take (Z.to_nat (offset_ c + str_size str)) d = take (Z.to_nat (offset_ c)) (data_send_ c) ++ str_bytes str ∧
    drop (Z.to_nat (offset_ c + str_size str)) d = drop (Z.to_nat (offset_ c + str_size str)) (data_send_ c).
Proof.
  intros Ho Hb. pose proof (length_str_bytes str) as Hl. pose proof (str_size_nonneg str).
  unfold ctx_append, mwrite. rewrite decide_True by lia. eexists. split; [done|].
  split; [rewrite !length_app, length_take, length_drop; lia|].
  rewrite app_assoc. split.
  - rewrite take_app_le by (rewrite length_app, length_take; lia). apply take_ge. rewrite length_app, length_take. lia.
  - rewrite drop_app_ge by (rewrite length_app, length_take; lia). rewrite length_app, length_take, drop_drop. f_equal. lia.
Qed.

Lemma has_room_eq str c : 0 <= offset_ c <= BUFFER_LENGTH → str_size str <= 2 ^ 32 →
  has_room str c = negb (ellipsis_ c) && (offset_ c + RECORD_COUNT_LENGTH + str_size str <? BUFFER_LENGTH).
Proof.
  intros H1 H2. pose proof (str_size_nonneg str). unfold has_room, BUFFER_LENGTH, RECORD_COUNT_LENGTH in *.
  by rewrite Z.mod_small by lia.
Qed.

(** What becomes of one more piece. *)
Lemma printed_step c ps p :
  printed c ps → 2 <= str_size p <= COL_WIDTH + 3 →
  (has_room p c = true ∧ all_fit 0 (ps ++ [p]) = true ∧
   ∃ c', ctx_append p c = (Ret tt, c') ∧ printed c' (ps ++ [p])) ∨
  (has_room p c = false ∧ all_fit 0 (ps ++ [p]) = false ∧ fitting 0 (ps ++ [p]) = fitting 0 ps).
Proof.
  intros [H1 H2 H3 Hz H4 H5] Hp. pose proof (str_size_nonneg (fitting 0 ps)) as Hn. rewrite <- H2 in Hn.
  rewrite has_room_eq by (unfold BUFFER_LENGTH, COL_WIDTH, RECORD_COUNT_LENGTH in *; lia).
  rewrite all_fit_app, fitting_app. destruct (all_fit 0 ps) eqn:Ha.
  - rewrite H5. pose proof (fitting_all 0 ps Ha) as Hs. rewrite <- H2 in Hs. rewrite Z.add_0_l, <- Hs.
    cbn [all_fit fitting negb andb]. destruct (Z.ltb_spec (offset_ c + RECORD_COUNT_LENGTH + str_size p) BUFFER_LENGTH) as [Hlt|Hge].
    + left. split_and!; [done..|].
      destruct (ctx_append_run p c) as (d&Hd&Hl&Ht&Hr); [lia|unfold BUFFER_LENGTH, RECORD_COUNT_LENGTH in *; lia|].
      eexists. split; [exact Hd|].
      assert (Hf : fitting 0 (ps ++ [p]) = fitting 0 ps +:+ p).
      { rewrite fitting_app, Ha. cbn [fitting]. rewrite Z.add_0_l, <- Hs.
        by rewrite (proj2 (Z.ltb_lt _ _) Hlt), string_app_nil. }
      split; cbn [data_send_ offset_ ellipsis_].
      * by rewrite Hl.
      * by rewrite Hf, str_size_app, H2.
      * by rewrite Hf, Ht, str_bytes_app, H3.
      * rewrite Hr, Z2Nat.inj_add, <- drop_drop by lia. by apply Forall_drop.
      * lia.
      * rewrite all_fit_app, Ha, Z.add_0_l, <- Hs. cbn [all_fit andb]. by rewrite (proj2 (Z.ltb_lt _ _) Hlt).
    + right. by rewrite string_app_nil.
  - right. split_and!; [|done|done]. destruct H5 as [->|H5]; [done|].
    rewrite (proj2 (Z.ltb_ge _ _)) by lia. apply andb_false_r.
Qed.

(** A piece that does not fit, with the ellipsis set or not. *)
Lemma printed_drop c ps p (b : bool) :
  printed c ps → all_fit 0 (ps ++ [p]) = false → fitting 0 (ps ++ [p]) = fitting 0 ps →
  b = true ∨ (b = ellipsis_ c ∧ BUFFER_LENGTH <= offset_ c + RECORD_COUNT_LENGTH + 2) →
  printed (mkContext (data_send_ c) (offset_ c) b) (ps ++ [p]).
Proof.
  intros [H1 H2 H3 Hz H4 H5] Ha Hf He. split; cbn [data_send_ offset_ ellipsis_]; rewrite ?Hf, ?Ha; try done.
  destruct He as [He|[_ He]]; auto.
Qed.

Lemma emit_step c ps p :
  printed c ps → 2 <= str_size p <= COL_WIDTH + 3 →
  ∃ c', emit p c = (Ret tt, c') ∧ printed c' (ps ++ [p]) ∧ ellipsis_ c' = negb (all_fit 0 (ps ++ [p])).
Proof.
  intros Hc Hp. unfold emit, gets, bind. destruct (printed_step c ps p Hc Hp) as [(->&Ha&c'&E&Hc')|(->&Ha&Hf)].
  - exists c'. split_and!; [done..|]. rewrite Ha. pose proof (pr_ellipsis _ _ Hc') as He. by rewrite Ha in He.
  - eexists. split; [reflexivity|]. rewrite Ha. split; [|done]. apply printed_drop; auto.
Qed.

Lemma emit_end_step c ps p :
  printed c ps → str_size p = 2 → ∃ c', emit_end p c = (Ret tt, c') ∧ printed c' (ps ++ [p]).
Proof.
  intros Hc Hp. unfold emit_end, gets, bind.
  destruct (printed_step c ps p Hc) as [(->&Ha&c'&E&Hc')|(Hr&Ha&Hf)]; [unfold COL_WIDTH; lia|by exists c'|].
  rewrite Hr. exists c. split; [done|].
  replace c with (mkContext (data_send_ c) (offset_ c) (ellipsis_ c)) by by destruct c.
  apply printed_drop; [done..|].
  pose proof (pr_room _ _ Hc) as Hm. pose proof (pr_off _ _ Hc) as Ho. pose proof (str_size_nonneg (fitting 0 ps)).
  rewrite has_room_eq in Hr by (unfold BUFFER_LENGTH, RECORD_COUNT_LENGTH in *; lia). rewrite Hp in Hr.
  destruct (ellipsis_ c); [by left|]. cbn [negb andb] in Hr. apply Z.ltb_ge in Hr. by right.
Qed.

Lemma emits_step {A} (f : A → string) l c ps :
  printed c ps → (∀ x, x ∈ l → 2 <= str_size (f x) <= COL_WIDTH + 3) →
  ∃ c', for_each (λ x, emit (f x)) l c = (Ret tt, c') ∧ printed c' (ps ++ (f <$> l)).
Proof.
  revert c ps. induction l as [|x l IH]; intros c ps Hc Hl; simpl.
  - exists c. by rewrite app_nil_r.
  - destruct (emit_step c ps (f x) Hc) as (c1&E1&H1&_); [apply Hl; by left|].
    destruct (IH c1 _ H1) as (c2&E2&H2); [intros y Hy; apply Hl; by right|].
    exists c2. unfold bind. rewrite E1, E2. by rewrite <- app_assoc in H2.
Qed.

Lemma separator_ok n c ps :
  printed c ps →
  ∃ c', print_separator (mkRecordPrinter n) c = (Ret tt, c') ∧ printed c' (ps ++ pieces n PSeparator) ∧
    ellipsis_ c' = negb (all_fit 0 (ps ++ pieces n PSeparator)).
Proof.
  intros Hc. unfold print_separator. cbn [num_cols].
  destruct (emits_step (λ _, separator_piece) (seqZ 0 n) c ps Hc) as (c1&E1&H1).
  { intros. rewrite separator_piece_size. unfold COL_WIDTH. lia. }
  assert (Hr : (λ _ : Z, separator_piece) <$> seqZ 0 n = replicate (Z.to_nat n) separator_piece).
  { rewrite <- (length_seqZ 0 n). apply list_eq_same_length with (length (seqZ 0 n)); [by rewrite length_replicate|by rewrite length_fmap|].
    intros i x y Hi. rewrite list_lookup_fmap. intros Hx [-> _]%lookup_replicate. destruct (_ !! i); naive_solver. }
  rewrite Hr in H1. destruct (emit_step c1 _ ("+" +:+ nl) H1) as (c2&E2&H2&He); [vm_compute; split; discriminate|].
  exists c2. unfold bind. rewrite E1, E2. cbn [pieces]. by rewrite app_assoc.
Qed.

Lemma print_record_ok n r c ps :
  printed c ps → Z.of_nat (length r) = n →
  ∃ c', print_record (mkRecordPrinter n) r c = (Ret tt, c') ∧ printed c' (ps ++ pieces n (PRecord r)).
Proof.
  intros Hc Hr. unfold print_record. cbn [num_cols]. rewrite (proj2 (Z.eqb_eq _ _) Hr). unfold assert_, ret, bind at 1.
  destruct (emits_step cell_piece r c ps Hc) as (c1&E1&H1).
  { intros. rewrite cell_piece_size. unfold COL_WIDTH. lia. }
  destruct (emit_end_step c1 _ ("|" +:+ nl) H1) as (c2&E2&H2); [reflexivity|].
  exists c2. unfold bind. rewrite E1, E2. cbn [pieces]. by rewrite app_assoc.
Qed.

Lemma run_print_ok n o c ps :
  printed c ps → op_ok n o →
  ∃ c', run_print (mkRecordPrinter n) o c = (Ret tt, c') ∧ printed c' (ps ++ pieces n o).
Proof.
  intros Hc Ho. destruct o as [|r]; [|by apply print_record_ok].
  destruct (separator_ok n c ps Hc) as (c'&?&?&_). by exists c'.
Qed.

Definition all_pieces (n : Z) (os : list PrintOp) : list string := os ≫= pieces n.

Lemma run_prints_ok n os c ps :
  printed c ps → Forall (op_ok n) os →
  ∃ c', run_prints (mkRecordPrinter n) os c = (Ret tt, c') ∧ printed c' (ps ++ all_pieces n os).
Proof.
  revert c ps. induction os as [|o os IH]; intros c ps Hc Hos; simpl.
  - exists c. by rewrite app_nil_r.
  - inversion Hos as [|? ? Ho Hos']; subst.
    destruct (run_print_ok n o c ps Hc Ho) as (c1&E1&H1).
    destruct (IH c1 _ H1 Hos') as (c2&E2&H2). exists c2. unfold run_prints, bind. cbn [for_each]. unfold bind.
    rewrite E1. rewrite <- app_assoc in H2. by split.
Qed.

(** The text of a whole reply: the pieces that fit, then the record count, with a mark when
    something has been left out. *)
Definition reply_text (n : Z) (os : list PrintOp) (num_rec : Z) : string :=
  let ps := all_pieces n os in
  fitting 0 ps +:+ count_line (negb (all_fit 0 ps)) num_rec.

Lemma count_line_size e num : 0 <= num < 10 ^ 14 → 0 <= str_size (count_line e num) <= RECORD_COUNT_LENGTH.
Proof.
  intros Hn. pose proof (to_string_size 13 num Hn) as Hs. split; [apply str_size_nonneg|].
  unfold count_line. rewrite !str_size_app. change (str_size "Total record(s): ") with 17. change (str_size nl) with 1.
  assert (str_size (if e then "... ..." +:+ nl else "") <= 8) by (destruct e; vm_compute; discriminate).
  unfold RECORD_COUNT_LENGTH. lia.
Qed.

Lemma printed_ok n os num_rec c :
  fresh_ctx c → Forall (op_ok n) os → 0 <= num_rec < 10 ^ 14 →
  ∃ c', (run_prints (mkRecordPrinter n) os ;; print_separator (mkRecordPrinter n) ;; print_record_count num_rec) c = (Ret tt, c') ∧
    let out := reply_text n (os ++ [PSeparator]) num_rec in
    length (data_send_ c') = Z.to_nat BUFFER_LENGTH ∧ offset_ c' = str_size out ∧
    take (Z.to_nat (offset_ c')) (data_send_ c') = str_bytes out ∧
    Forall (.= x00) (drop (Z.to_nat (offset_ c')) (data_send_ c')) ∧ offset_ c' + 1 <= BUFFER_LENGTH.
Proof.
  intros Hc Hos Hnum. destruct (run_prints_ok n os c [] (fresh_printed c Hc) Hos) as (c1&E1&H1).
  destruct (separator_ok n c1 _ H1) as (c2&E2&H2&He). cbn [app] in *.
  assert (Hps : all_pieces n os ++ pieces n PSeparator = all_pieces n (os ++ [PSeparator])).
  { unfold all_pieces. by rewrite bind_app, bind_singleton. }
  rewrite Hps in *. set (ps := all_pieces n (os ++ [PSeparator])) in *. destruct H2 as [G1 G2 G3 Gz G4 _].
  pose proof (count_line_size (ellipsis_ c2) num_rec Hnum) as Hs. pose proof (str_size_nonneg (fitting 0 ps)).
  destruct (ctx_append_run (count_line (ellipsis_ c2) num_rec) c2) as (d&Hd&Hl&Ht&Hr);
    [lia|unfold RECORD_COUNT_LENGTH, BUFFER_LENGTH in *; lia|].
  eexists. split.
  { unfold bind. rewrite E1, E2. unfold print_record_count, gets, bind. exact Hd. }
  cbn [data_send_ offset_]. unfold reply_text. fold ps. rewrite <- He, str_size_app, str_bytes_app, Ht, G3, <- G2.
  split_and!; [|done|done| |unfold RECORD_COUNT_LENGTH, BUFFER_LENGTH in *; lia].
  - lia.
  - rewrite Hr, Z2Nat.inj_add, <- drop_drop by lia. by apply Forall_drop.
Qed.

(** C15: Whatever is printed into a fresh reply buffer with a printer of [n] columns, tables
    that end in a separator followed by the record count, the calls neither fail nor overrun
    the buffer: it holds exactly the longest prefix of the pieces that leaves room for the
    count, then the count line, marked with dots when a piece was left out; the rest of the
    buffer is still zero and at least one byte, so that the reply ends in a NUL. *)
Theorem printed_reply n os num_rec c :
  fresh_ctx c → Forall (op_ok n) os → 0 <= num_rec < 10 ^ 14 →
  ∃ c', (run_prints (mkRecordPrinter n) os ;; print_separator (mkRecordPrinter n) ;; print_record_count num_rec) c = (Ret tt, c') ∧
    let out := reply_text n (os ++ [PSeparator]) num_rec in
    length (data_send_ c') = Z.to_nat BUFFER_LENGTH ∧ offset_ c' = str_size out ∧
    take (Z.to_nat (offset_ c')) (data_send_ c') = str_bytes out ∧
    Forall (.= x00) (drop (Z.to_nat (offset_ c')) (data_send_ c')) ∧ offset_ c' + 1 <= BUFFER_LENGTH.
Proof. apply printed_ok. Qed.

Definition ctx_example : Context := mkContext (zeros 8192) 0 false.

Lemma printed_reply_witness :
  ∃ c', (run_prints (mkRecordPrinter 2) [PSeparator; PRecord ["id"; "a name of twenty cha"]] ;;
         print_separator (mkRecordPrinter 2) ;; print_record_count 1) ctx_example = (Ret tt, c') ∧ offset_ c' = 139.
Proof.
  destruct (printed_reply 2 [PSeparator; PRecord ["id"; "a name of twenty cha"]] 1 ctx_example) as (c'&E&_&H2&_&_).
  - done.
  - repeat constructor.
  - lia.
  - exists c'. split; [exact E|]. rewrite H2. vm_compute. reflexivity.
Defined.
