(* ===== verification/System.v ===== *)
(** * The system manager

    [system/sm_manager.{h,cpp}]: databases and tables.  The state is the catalogue, the
    handles of the open files and the store; the result buffer of the client and the file
    [output.txt] are written by the operations that report something. *)

From S2P Require Import Prelude Errors Config Posix DiskManager Replacer BufferPool Bitmap RecordFile.
From S2P Require Import StrMap Values Text Meta Plan Compare Index Printer.
From stdpp Require Import options.

(** ** File streams

    A [std::ofstream] or [std::fstream] on a name in the current directory.  Opening needs a
    free descriptor, which is free again at the end of the operation; a stream that does not
    open, or has no more room, drops what is written to it without an exception. *)

Definition stream_opens (o : OS) (name : string) : bool :=
  bool_decide (new_fd o < os_nofile o ∧ (resolve o name ∉ os_dirs o)).

(** [ofstream ofs(name); ofs << text;] *)
Definition write_stream (name text : string) (o : OS) : OS :=
  if stream_opens o name
  then set_files (<[resolve o name := take (Z.to_nat (os_limit o)) (str_bytes text)]> (os_files o)) o
  else o.

(** [outfile.open(name, out | app); outfile << text;] *)
Definition append_stream (name text : string) (o : OS) : OS :=
  if stream_opens o name then
    let c := default [] (os_files o !! resolve o name) in
    set_files (<[resolve o name := c ++ take (Z.to_nat (os_limit o) - length c) (str_bytes text)]> (os_files o)) o
  else o.

(** [ifstream ifs(name)]: [None] when the file does not open. *)
Definition read_stream (name : string) (o : OS) : option string :=
  if decide (new_fd o < os_nofile o) then
    String.string_of_list_byte <$> os_files o !! resolve o name
  else None.

Definition on_os (f : OS → OS) : M Disk unit := modify (λ d, set_os (f (os d)) d).

Definition OUTPUT_FILE : string := "output.txt".

(** [if (call < 0) throw UnixError()] for a system call. *)
Definition checked {A} (f : OS → (A + errno) * OS) : M Disk A :=
  let! r := syscall f in
  match r with inl a => ret a | inr e => throw (UnixError e) end.

(** ** Databases *)

(** [system(...) < 0] is false whatever the command's exit status is. *)
Definition create_db (db_name : string) : M Disk unit :=
  let! b := is_dir db_name in
  if (b : bool) then throw (DatabaseExistsError db_name)
  else
    let! st := syscall (system_mkdir db_name) in
    (if st <? 0 then throw (UnixError ENOENT) else ret tt) ;;
    checked (sys_chdir db_name) ;;
    on_os (write_stream DB_META_NAME (write_DbMeta (mkDbMeta db_name []))) ;;
    create_file LOG_FILE_NAME ;;
    checked (sys_chdir "..") ;;
    ret tt.

Definition drop_db (db_name : string) : M Disk unit :=
  let! b := is_dir db_name in
  if negb b then throw (DatabaseNotFoundError db_name)
  else
    let! st := syscall (system_rm_r db_name) in
    if st <? 0 then throw (UnixError ENOENT) else ret tt.

Section system.
Context {R : Type} `{!Replacer R}.

(** [fhs_] and [ihs_] are hash tables; the order in which one is iterated is not specified. *)
Record SmState := mkSm {
  db_ : DbMeta;
  fhs_ : gmap string RmFileHandle;
  ihs_ : gmap string IxIndexHandle;
  sm_store : Store R;
}.

Context (iter : ∀ A : Type, gmap string A → list (string * A)).
(** What uninitialised buffers and objects hold. *)
Context (junk : Z → list byte) (junk_hdr : IxFileHdr).

Definition sm_with_store {A} (m : M (Store R) A) : M SmState A :=
  zoom sm_store (λ s w, mkSm (db_ w) (fhs_ w) (ihs_ w) s) m.
Definition sm_with_disk {A} (m : M Disk A) : M SmState A := sm_with_store (with_disk m).
Definition sm_os (f : OS → OS) : M SmState unit := sm_with_disk (on_os f).

Definition set_db (db : DbMeta) (w : SmState) : SmState := mkSm db (fhs_ w) (ihs_ w) (sm_store w).
Definition set_fhs (f : gmap string RmFileHandle) (w : SmState) : SmState := mkSm (db_ w) f (ihs_ w) (sm_store w).
Definition set_ihs (f : gmap string IxIndexHandle) (w : SmState) : SmState := mkSm (db_ w) (fhs_ w) f (sm_store w).

(** [m.emplace(k, v)]: an entry that is there stays. *)
Definition emplace {A} (k : string) (v : A) (m : gmap string A) : gmap string A :=
  match m !! k with Some _ => m | None => <[k := v]> m end.

Definition open_table (name : string) : M SmState unit :=
  let! h := sm_with_disk (rm_open_file name) in
  modify (λ w, set_fhs (emplace name h (fhs_ w)) w).

Definition open_one_index (tab_name : string) (index : IndexMeta) : M SmState unit :=
  let! ih := sm_with_disk (ix_open_index junk_hdr tab_name (im_cols index)) in
  modify (λ w, set_ihs (emplace (get_index_name_cols tab_name (im_cols index)) ih (ihs_ w)) w).

(** A [db.meta] that does not parse leaves the catalogue half read in the code; such runs
    are kept apart as a failure. *)
Definition open_db (db_name : string) : M SmState unit :=
  let! b := sm_with_disk (is_dir db_name) in
  if negb b then throw (DatabaseNotFoundError db_name)
  else
    sm_with_disk (checked (sys_chdir db_name)) ;;
    let! t := gets (λ w, read_stream DB_META_NAME (os (disk (sm_store w)))) in
    match t with
    | None => throw (UnixError ENOENT)
    | Some text =>
        let! db := gets db_ in
        let! r := access (read_DbMeta db text) in
        modify (set_db r.1) ;;
        for_each (λ entry, open_table entry.1 ;; for_each (open_one_index entry.1) (tm_indexes entry.2)) (tabs_ r.1)
    end.

Definition flush_meta : M SmState unit :=
  let! db := gets db_ in sm_os (write_stream DB_META_NAME (write_DbMeta db)).

Definition close_db : M SmState unit :=
  flush_meta ;;
  let! ihs := gets ihs_ in
  for_each (λ entry, sm_with_store (ix_close_index junk entry.2)) (iter _ ihs) ;;
  modify (set_ihs ∅) ;;
  let! fhs := gets fhs_ in
  for_each (λ entry, sm_with_store (rm_close_file entry.2)) (iter _ fhs) ;;
  modify (set_fhs ∅).

(** ** Tables *)

(** The loop of [create_table] from offset [curr_offset]: the columns and the size of a
    record. *)
Fixpoint layout_cols (tab_name : string) (col_defs : list ColDef) (curr_offset : Z) : list ColMeta * Z :=
  match col_defs with
  | [] => ([], curr_offset)
  | d :: ds =>
      let col := mkColMeta tab_name (def_name d) (def_type d) (def_len d) curr_offset false in
      let '(cs, size) := layout_cols tab_name ds (wrap32 (curr_offset + def_len d)) in
      (col :: cs, size)
  end.

Definition create_table (tab_name : string) (col_defs : list ColDef) : M SmState unit :=
  let! db := gets db_ in
  if is_table db tab_name then throw (TableExistsError tab_name)
  else
    let '(cols, record_size) := layout_cols tab_name col_defs 0 in
    let tab := mkTabMeta tab_name cols [] in
    sm_with_disk (rm_create_file tab_name record_size) ;;
    modify (λ w, set_db (SetTabMeta tab_name tab (db_ w)) w) ;;
    open_table tab_name ;;
    flush_meta.

Definition drop_table_index (tab_name : string) (index : IndexMeta) : M SmState unit :=
  let index_name := get_index_name_cols tab_name (im_cols index) in
  let! ih := gets (λ w, ihs_ w !! index_name) in
  match ih with
  | Some ih =>
      sm_with_store (ix_close_index junk ih) ;;
      modify (λ w, set_ihs (delete index_name (ihs_ w)) w)
  | None => ret tt
  end ;;
  sm_with_disk (ix_destroy_index tab_name (im_cols index)).

Definition drop_table (tab_name : string) : M SmState unit :=
  let! db := gets db_ in
  if negb (is_table db tab_name) then throw (TableNotFoundError tab_name)
  else
    let! tab := lift (get_table db tab_name) in
    for_each (drop_table_index tab_name) (tm_indexes tab) ;;
    let! fh := gets (λ w, fhs_ w !! tab_name) in
    match fh with
    | Some fh =>
        sm_with_store (rm_close_file fh) ;;
        modify (λ w, set_fhs (delete tab_name (fhs_ w)) w)
    | None => ret tt
    end ;;
    sm_with_disk (rm_destroy_file tab_name) ;;
    modify (λ w, set_db (mkDbMeta (db_name (db_ w)) (sm_erase tab_name (tabs_ (db_ w)))) w) ;;
    flush_meta.

(** Bodies left to be written. *)
Definition create_index (tab_name : string) (col_names : list string) : M SmState unit := ret tt.
Definition drop_index (tab_name : string) (col_names : list string) : M SmState unit := ret tt.
Definition drop_index_cols (tab_name : string) (cols : list ColMeta) : M SmState unit := ret tt.

(** ** Reports

    The operations with a [Context] run on the system together with it. *)

Record World := mkWorld { w_sm : SmState; w_ctx : Context }.

Definition with_sm {A} (m : M SmState A) : M World A := zoom w_sm (λ s w, mkWorld s (w_ctx w)) m.
Definition with_ctx {A} (m : M Context A) : M World A := zoom w_ctx (λ c w, mkWorld (w_sm w) c) m.
Definition output (text : string) : M World unit := with_sm (sm_os (append_stream OUTPUT_FILE text)).

Definition show_tables : M World unit :=
  output ("| Tables |" +:+ nl) ;;
  let! printer := with_ctx (RecordPrinter_make 1) in
  with_ctx (print_separator printer) ;;
  with_ctx (print_record printer ["Tables"]) ;;
  with_ctx (print_separator printer) ;;
  let! db := gets (λ w, db_ (w_sm w)) in
  for_each (λ entry,
    with_ctx (print_record printer [tm_name entry.2]) ;;
    output ("| " +:+ tm_name entry.2 +:+ " |" +:+ nl)) (tabs_ db) ;;
  with_ctx (print_separator printer).

Definition desc_row (col : ColMeta) : list string :=
  [cm_name col; coltype2str (cm_type col); if cm_index col then "YES" else "NO"].

Definition desc_table (tab_name : string) : M World unit :=
  let! db := gets (λ w, db_ (w_sm w)) in
  let! tab := lift (get_table db tab_name) in
  let captions := ["Field"; "Type"; "Index"] in
  let! printer := with_ctx (RecordPrinter_make (Z.of_nat (length captions))) in
  with_ctx (print_separator printer) ;;
  with_ctx (print_record printer captions) ;;
  with_ctx (print_separator printer) ;;
  for_each (λ col, with_ctx (print_record printer (desc_row col))) (tm_cols tab) ;;
  with_ctx (print_separator printer).
End system.

Arguments SmState R : clear implicits.
Arguments World R : clear implicits.
