(* ===== verification/Dml.v ===== *)
(** * INSERT, UPDATE and DELETE

    [execution/executor_insert.h], [execution/executor_update.h] and
    [execution/executor_delete.h]: executors whose [Next] does the whole statement.  Their
    other operations are those of [AbstractExecutor], which are empty. *)

From S2P Require Import Prelude Errors Config Posix DiskManager Replacer BufferPool Bitmap RecordFile.
From S2P Require Import StrMap Values Text Meta Plan Compare Index Printer System.
From stdpp Require Import options.

Section dml.
Context {R : Type} `{!Replacer R}.
(** What a fresh record buffer of the given size holds. *)
Context (junk : Z → list byte).

(** An operation on the record file of a table; a handle that is gone is a null pointer. *)
Definition with_table {A} (tab : string) (m : M (RmState R) A) : M (SmState R) A := λ w,
  match fhs_ w !! tab with
  | None => (Crash NullDeref, w)
  | Some hd =>
      let '(r, v) := m (mkRm hd (sm_store w)) in
      (r, mkSm (db_ w) (<[tab := rm_handle v]> (fhs_ w)) (ihs_ w) (rm_store v))
  end.

(** The same for an index; [ihs_.at] of an index that is not open throws an exception that
    nothing catches. *)
Definition with_index {A} (name : string) (m : M (IxState R) A) : M (SmState R) A := λ w,
  match ihs_ w !! name with
  | None => (Crash OutOfBounds, w)
  | Some ih =>
      let '(r, v) := m (mkIx ih (sm_store w)) in
      (r, mkSm (db_ w) (fhs_ w) (<[name := ix_handle v]> (ihs_ w)) (ix_store v))
  end.

(** [fhs_.at(tab)]. *)
Definition the_table_hdr (tab : string) : M (SmState R) RmFileHdr :=
  let! h := gets (λ w, fhs_ w !! tab) in
  let! h := access h in
  ret (file_hdr_ h).

Definition require_file (tab : string) : M (SmState R) unit := the_table_hdr tab ;; ret tt.

Definition the_tab (tab : string) : M (SmState R) TabMeta :=
  let! db := gets db_ in lift (get_table db tab).

(** ** InsertExecutor *)

Record InsertExecutor := mkInsert { in_tab : TabMeta; in_values : list Value; in_tab_name : string }.

Definition Insert_make (tab : string) (values : list Value) : M (SmState R) InsertExecutor :=
  let! t := the_tab tab in
  if negb (Nat.eqb (length values) (length (tm_cols t))) then throw InvalidValueCountError
  else require_file tab ;; ret (mkInsert t values tab).

(** One value laid out in the record: the check of the type, [init_raw], the copy. *)
Definition insert_field (col : ColMeta) (val : Value) (rec : list byte) : outcome (list byte) :=
  if decide (cm_type col = type val) then
    val ← init_raw (cm_len col) val;
    r ← (match raw val with Some r => Ret r | None => Crash NullDeref end);
    bs ← oaccess (mread (rec_data r) 0 (cm_len col));
    oaccess (mwrite rec (cm_offset col) bs)
  else Throw (IncompatibleTypeError (coltype2str (cm_type col)) (coltype2str (type val))).

(** The loop over the values; [tab_.cols[i]] is there for each of them. *)
Fixpoint insert_fields (cols : list ColMeta) (vals : list Value) (rec : list byte) : outcome (list byte) :=
  match vals, cols with
  | [], _ => Ret rec
  | val :: vals', col :: cols' => rec ← insert_field col val rec; insert_fields cols' vals' rec
  | _ :: _, [] => Crash OutOfBounds
  end.

(** The key of an index: its columns cut out of the record one after the other. *)
Fixpoint index_key (cols : list ColMeta) (rec key : list byte) (offset : Z) : outcome (list byte) :=
  match cols with
  | [] => Ret key
  | col :: cols' =>
      bs ← oaccess (mread rec (cm_offset col) (cm_len col));
      key ← oaccess (mwrite key offset bs);
      index_key cols' rec key (wrap32 (offset + cm_len col))
  end.

Definition insert_index (tab : string) (rec : list byte) (rid : Rid) (index : IndexMeta) : M (SmState R) unit :=
  let name := get_index_name_cols tab (im_cols index) in
  let! ih := gets (λ w, ihs_ w !! name) in
  access ih ;;
  let! cs := lift (first_of (im_col_num index mod 2 ^ 64) (im_cols index)) in
  let! key := lift (index_key cs rec (junk (im_col_tot_len index)) 0) in
  with_index name (insert_entry key rid) ;;
  ret tt.

(** [InsertExecutor::Next]; the result is the position of the new record ([rid_]). *)
Definition insert_Next (e : InsertExecutor) : M (SmState R) Rid :=
  let! h := the_table_hdr (in_tab_name e) in
  let! rec := lift (insert_fields (tm_cols (in_tab e)) (in_values e) (junk (record_size h))) in
  let! rid := with_table (in_tab_name e) (insert_record rec) in
  for_each (insert_index (in_tab_name e) rec rid) (tm_indexes (in_tab e)) ;;
  ret rid.

(** ** UpdateExecutor *)

Record UpdateExecutor := mkUpdate {
  up_tab : TabMeta; up_conds : list Condition; up_rids : list Rid; up_tab_name : string; up_set_clauses : list SetClause;
}.

Definition Update_make (tab : string) (set_clauses : list SetClause) (conds : list Condition) (rids : list Rid)
    : M (SmState R) UpdateExecutor :=
  let! t := the_tab tab in
  require_file tab ;;
  ret (mkUpdate t conds rids tab set_clauses).

Definition reset_raw (v : Value) : Value := with_raw v None.

(** One assignment to a field of the record. *)
Definition update_field (tab : TabMeta) (c : SetClause) (rec : option RmRecord) : outcome (option RmRecord) :=
  col ← get_col tab (col_name (lhs c));
  if decide (cm_type col = type (rhs c)) then
    val ← init_raw (cm_len col) (reset_raw (rhs c));
    r ← (match raw val with Some r => Ret r | None => Crash NullDeref end);
    rec ← (match rec with Some rec => Ret rec | None => Crash NullDeref end);
    bs ← oaccess (mread (rec_data r) 0 (cm_len col));
    d ← oaccess (mwrite (rec_data rec) (cm_offset col) bs);
    Ret (Some (mkRmRecord d (rec_size rec) (allocated_ rec)))
  else Throw (IncompatibleTypeError (coltype2str (cm_type col)) (coltype2str (type (rhs c)))).

Fixpoint update_fields (tab : TabMeta) (cs : list SetClause) (rec : option RmRecord) : outcome (option RmRecord) :=
  match cs with
  | [] => Ret rec
  | c :: cs' => rec ← update_field tab c rec; update_fields tab cs' rec
  end.

Definition update_one (e : UpdateExecutor) (rid : Rid) : M (SmState R) unit :=
  let! rec := with_table (up_tab_name e) (get_record rid) in
  let! rec := lift (update_fields (up_tab e) (up_set_clauses e) rec) in
  let! rec := deref rec in
  with_table (up_tab_name e) (update_record rid (rec_data rec)).

Definition update_Next (e : UpdateExecutor) : M (SmState R) unit := for_each (update_one e) (up_rids e).

(** ** DeleteExecutor *)

Record DeleteExecutor := mkDelete {
  de_tab : TabMeta; de_conds : list Condition; de_rids : list Rid; de_tab_name : string;
}.

Definition Delete_make (tab : string) (conds : list Condition) (rids : list Rid) : M (SmState R) DeleteExecutor :=
  let! t := the_tab tab in
  require_file tab ;;
  ret (mkDelete t conds rids tab).

Definition delete_Next (e : DeleteExecutor) : M (SmState R) unit :=
  for_each (λ rid, with_table (de_tab_name e) (delete_record rid)) (de_rids e).
End dml.
