(* ===== verification/Txn.v ===== *)
(** * Transactions, locks and recovery

    [transaction/txn_defs.h], [transaction/transaction.h], [transaction/transaction_manager.{h,cpp}],
    [transaction/concurrency/lock_manager.{h,cpp}] and [recovery/log_recovery.{h,cpp}].  The data
    types and the transaction table are complete; beginning, committing, aborting, locking and
    recovering are unfinished in the code and do nothing.  Latches are left out: every
    operation here runs alone. *)

From S2P Require Import Prelude Errors Config RecordFile StrMap Values Text.
From stdpp Require Import options.

Inductive TransactionState := DEFAULT | GROWING | SHRINKING | COMMITTED | ABORTED.
Inductive IsolationLevel := READ_UNCOMMITTED | REPEATABLE_READ | READ_COMMITTED | SERIALIZABLE.
Inductive WType := INSERT_TUPLE | DELETE_TUPLE | UPDATE_TUPLE.
Inductive LockDataType := LOCK_TABLE | LOCK_RECORD.
Inductive AbortReason := LOCK_ON_SHIRINKING | UPGRADE_CONFLICT | DEADLOCK_PREVENTION.
Inductive ConcurrencyMode := TWO_PHASE_LOCKING | BASIC_TO.

#[global] Instance LockDataType_eq_dec : EqDecision LockDataType.
Proof. solve_decision. Defined.
#[global] Instance TransactionState_eq_dec : EqDecision TransactionState.
Proof. solve_decision. Defined.

Record WriteRecord := mkWriteRecord {
  wr_wtype : WType; wr_tab_name : string; wr_rid : Rid; wr_record : option RmRecord;
}.

Definition WriteRecord_insert (wtype : WType) (tab_name : string) (rid : Rid) : WriteRecord :=
  mkWriteRecord wtype tab_name rid None.
Definition WriteRecord_change (wtype : WType) (tab_name : string) (rid : Rid) (record : RmRecord) : option WriteRecord :=
  (λ r, mkWriteRecord wtype tab_name rid (Some r)) <$> RmRecord_copy record.

(** ** Lock identifiers *)

Record LockDataId := mkLockDataId { lk_fd : Z; lk_rid : Rid; lk_type : LockDataType }.

Definition LockDataId_table (fd : Z) (type : LockDataType) : outcome LockDataId :=
  oassert (bool_decide (type = LOCK_TABLE)) ≫= λ _, Ret (mkLockDataId fd (mkRid (-1) (-1)) type).
Definition LockDataId_record (fd : Z) (rid : Rid) (type : LockDataType) : outcome LockDataId :=
  oassert (bool_decide (type = LOCK_RECORD)) ≫= λ _, Ret (mkLockDataId fd rid type).

Definition wrap64 (z : Z) : Z := (z + 2 ^ 63) mod 2 ^ 64 - 2 ^ 63.

Definition lock_type_to_int (t : LockDataType) : Z := match t with LOCK_TABLE => 0 | LOCK_RECORD => 1 end.

(** [LockDataId::Get]: shifts and bitwise or of 64-bit integers. *)
Definition LockDataId_Get (x : LockDataId) : Z :=
  match lk_type x with
  | LOCK_TABLE => lk_fd x
  | LOCK_RECORD =>
      Z.lor (Z.lor (Z.lor (wrap64 (Z.shiftl (lock_type_to_int (lk_type x)) 63)) (wrap64 (Z.shiftl (lk_fd x) 31)))
        (wrap64 (Z.shiftl (page_no (lk_rid x)) 16))) (slot_no (lk_rid x))
  end.

Definition LockDataId_eqb (x other : LockDataId) : bool :=
  if negb (bool_decide (lk_type x = lk_type other)) then false
  else if negb (lk_fd x =? lk_fd other) then false
  else Rid_eqb (lk_rid x) (lk_rid other).

(** ** Abort reasons *)

Definition GetInfo (txn_id : Z) (reason : AbortReason) : string :=
  match reason with
  | LOCK_ON_SHIRINKING =>
      "Transaction " +:+ to_string txn_id +:+ " aborted because it cannot request locks on SHRINKING phase" +:+ nl
  | UPGRADE_CONFLICT =>
      "Transaction " +:+ to_string txn_id +:+ " aborted because another transaction is waiting for upgrading" +:+ nl
  | DEADLOCK_PREVENTION =>
      "Transaction " +:+ to_string txn_id +:+ " aborted for deadlock prevention" +:+ nl
  end.

(** ** Transactions *)

Record Transaction := mkTransaction {
  txn_mode_ : bool;
  state_ : TransactionState;
  isolation_level_ : IsolationLevel;
  thread_id_ : Z;
  prev_lsn_ : lsn_t;
  txn_id_ : txn_id_t;
  start_ts_ : timestamp_t;
  write_set_ : list WriteRecord;
  lock_set_ : list LockDataId;
  index_latch_page_set_ : list frame_id_t;
  index_deleted_page_set_ : list frame_id_t;
}.

(** The constructor; [txn_mode_] and [start_ts_] keep what the memory held. *)
Definition Transaction_make (junk : Transaction) (self_thread txn_id : Z) (level : IsolationLevel) : Transaction :=
  mkTransaction (txn_mode_ junk) DEFAULT level self_thread INVALID_LSN txn_id (start_ts_ junk) [] [] [] [].

Definition set_txn_mode (b : bool) (t : Transaction) : Transaction :=
  mkTransaction b (state_ t) (isolation_level_ t) (thread_id_ t) (prev_lsn_ t) (txn_id_ t) (start_ts_ t)
    (write_set_ t) (lock_set_ t) (index_latch_page_set_ t) (index_deleted_page_set_ t).
Definition set_start_ts (ts : timestamp_t) (t : Transaction) : Transaction :=
  mkTransaction (txn_mode_ t) (state_ t) (isolation_level_ t) (thread_id_ t) (prev_lsn_ t) (txn_id_ t) ts
    (write_set_ t) (lock_set_ t) (index_latch_page_set_ t) (index_deleted_page_set_ t).
Definition set_state (s : TransactionState) (t : Transaction) : Transaction :=
  mkTransaction (txn_mode_ t) s (isolation_level_ t) (thread_id_ t) (prev_lsn_ t) (txn_id_ t) (start_ts_ t)
    (write_set_ t) (lock_set_ t) (index_latch_page_set_ t) (index_deleted_page_set_ t).
Definition set_prev_lsn (lsn : lsn_t) (t : Transaction) : Transaction :=
  mkTransaction (txn_mode_ t) (state_ t) (isolation_level_ t) (thread_id_ t) lsn (txn_id_ t) (start_ts_ t)
    (write_set_ t) (lock_set_ t) (index_latch_page_set_ t) (index_deleted_page_set_ t).
Definition append_write_record (w : WriteRecord) (t : Transaction) : Transaction :=
  mkTransaction (txn_mode_ t) (state_ t) (isolation_level_ t) (thread_id_ t) (prev_lsn_ t) (txn_id_ t) (start_ts_ t)
    (write_set_ t ++ [w]) (lock_set_ t) (index_latch_page_set_ t) (index_deleted_page_set_ t).
Definition append_index_deleted_page (p : frame_id_t) (t : Transaction) : Transaction :=
  mkTransaction (txn_mode_ t) (state_ t) (isolation_level_ t) (thread_id_ t) (prev_lsn_ t) (txn_id_ t) (start_ts_ t)
    (write_set_ t) (lock_set_ t) (index_latch_page_set_ t) (index_deleted_page_set_ t ++ [p]).
Definition append_index_latch_page_set (p : frame_id_t) (t : Transaction) : Transaction :=
  mkTransaction (txn_mode_ t) (state_ t) (isolation_level_ t) (thread_id_ t) (prev_lsn_ t) (txn_id_ t) (start_ts_ t)
    (write_set_ t) (lock_set_ t) (index_latch_page_set_ t ++ [p]) (index_deleted_page_set_ t).

(** ** The transaction table

    [txn_map]; a pointer to a transaction is its identifier. *)

Record TransactionManager := mkTM {
  txn_map : gmap Z Transaction;
  concurrency_mode_ : ConcurrencyMode;
  next_txn_id_ : Z;
  next_timestamp_ : Z;
}.

Definition TransactionManager_make (mode : ConcurrencyMode) (m : gmap Z Transaction) : TransactionManager := mkTM m mode 0 0.

(** [None] is the null pointer. *)
Definition get_transaction (self_thread txn_id : Z) : M TransactionManager (option Z) :=
  if txn_id =? INVALID_TXN_ID then ret None
  else
    let! t := gets (λ tm, txn_map tm !! txn_id) in
    assert_ (bool_decide (is_Some t)) ;;
    let! t := deref t in
    assert_ (thread_id_ t =? self_thread) ;;
    ret (Some txn_id).

(** Bodies left to be written. *)
Definition txn_begin (txn : option Z) : M TransactionManager (option Z) := ret None.
Definition txn_commit (txn : option Z) : M TransactionManager unit := ret tt.
Definition txn_abort (txn : option Z) : M TransactionManager unit := ret tt.

(** ** LockManager: every request is granted, nothing is recorded *)

Inductive LockMode := SHARED | EXLUCSIVE | INTENTION_SHARED | INTENTION_EXCLUSIVE | S_IX.
Inductive GroupLockMode := NON_LOCK | GIS | GIX | GS | GX | GSIX.

Record LockRequest := mkLockRequest { lr_txn_id : Z; lr_lock_mode : LockMode; lr_granted : bool }.
Definition LockRequest_make (txn_id : Z) (mode : LockMode) : LockRequest := mkLockRequest txn_id mode false.

Record LockRequestQueue := mkQueue { request_queue_ : list LockRequest; group_lock_mode_ : GroupLockMode }.
Definition LockRequestQueue_init : LockRequestQueue := mkQueue [] NON_LOCK.

Definition lock_shared_on_record (txn : option Z) (rid : Rid) (tab_fd : Z) : bool := true.
Definition lock_exclusive_on_record (txn : option Z) (rid : Rid) (tab_fd : Z) : bool := true.
Definition lock_shared_on_table (txn : option Z) (tab_fd : Z) : bool := true.
Definition lock_exclusive_on_table (txn : option Z) (tab_fd : Z) : bool := true.
Definition lock_IS_on_table (txn : option Z) (tab_fd : Z) : bool := true.
Definition lock_IX_on_table (txn : option Z) (tab_fd : Z) : bool := true.
Definition unlock (txn : option Z) (lock_data_id : LockDataId) : bool := true.

(** ** RecoveryManager *)

Section recovery.
Context {S : Type}.
Definition recovery_analyze : M S unit := ret tt.
Definition recovery_redo : M S unit := ret tt.
Definition recovery_undo : M S unit := ret tt.
End recovery.

(** Equal identifiers have equal hashes, as the hash table of the lock manager needs. *)
Lemma LockDataId_eqb_eq x y : LockDataId_eqb x y = true ↔ x = y.
Proof.
  unfold LockDataId_eqb. destruct x as [f1 r1 t1], y as [f2 r2 t2]. simpl.
  case_bool_decide; simpl; [|naive_solver]. destruct (Z.eqb_spec f1 f2); simpl; [|naive_solver].
  rewrite Rid_eqb_eq. naive_solver.
Qed.
