(* ===== verification/Ql.v ===== *)
(** * Running statements

    [portal.h] and [execution/execution_manager.{h,cpp}]: a plan becomes a tree of executors,
    the tree is run, rows and reports go to the reply buffer and to [output.txt]. *)

From Stdlib Require Import Strings.Ascii.
From S2P Require Import Prelude Errors Config Posix DiskManager Replacer BufferPool Bitmap RecordFile.
From S2P Require Import StrMap Values Text Meta Ast Plan Compare Executor Index Printer System Dml Txn.
From stdpp Require Import options.

(** ** Scans reach their tables through the system manager *)

#[global] Instance table_access {R : Type} `{!Replacer R} : TableAccess (SmState R) := {
  t_scan_make tab := with_table tab RmScan_make;
  t_scan_next tab sc := with_table tab (scan_next sc);
  t_get_record tab rid := with_table tab (get_record rid);
}.

(** ** Executor trees

    A [unique_ptr<AbstractExecutor>] is an executor with the shape of its tree. *)

Inductive Shape := ShSeq | ShIndex | ShJoin (l r : Shape) | ShProj (p : Shape) | ShSort (p : Shape).

Fixpoint ExecT (sh : Shape) : Type :=
  match sh with
  | ShSeq => SeqScanExecutor
  | ShIndex => IndexScanExecutor
  | ShJoin l r => NestedLoopJoinExecutor (ExecT l) (ExecT r)
  | ShProj p => ProjectionExecutor (ExecT p)
  | ShSort p => SortExecutor (ExecT p)
  end.

Definition AnyExec : Type := { sh : Shape & ExecT sh }.

Section trees.
Context {S : Type} `{!TableAccess S} (fuel : nat) (junk : Z → list byte).

Fixpoint shape_cursor (sh : Shape) : Cursor S (ExecT sh) :=
  match sh return Cursor S (ExecT sh) with
  | ShSeq => SeqScan_cursor fuel
  | ShIndex => IndexScan_cursor S
  | ShJoin l r => @Join_cursor S (ExecT l) (ExecT r) (shape_cursor l) (shape_cursor r) fuel
  | ShProj p => @Proj_cursor S (ExecT p) (shape_cursor p) junk
  | ShSort p => Sort_cursor S (ExecT p)
  end.

#[global] Instance any_cursor : Cursor S AnyExec := {
  tupleLen e := @tupleLen _ _ (shape_cursor (projT1 e)) (projT2 e);
  cols e := @cols _ _ (shape_cursor (projT1 e)) (projT2 e);
  beginTuple e := let! e' := @beginTuple _ _ (shape_cursor (projT1 e)) (projT2 e) in ret (existT (projT1 e) e');
  nextTuple e := let! e' := @nextTuple _ _ (shape_cursor (projT1 e)) (projT2 e) in ret (existT (projT1 e) e');
  is_end e := @is_end _ _ (shape_cursor (projT1 e)) (projT2 e);
  rid e := @rid _ _ (shape_cursor (projT1 e)) (projT2 e);
  Next e := @Next _ _ (shape_cursor (projT1 e)) (projT2 e);
}.

(** [Portal::convert_plan_executor]; [has_file] tells whether a table has an open file.  The
    null pointer is passed on to a parent, whose constructor dereferences it. *)
Fixpoint convert_plan_executor (db : DbMeta) (has_file : string → bool) (plan : Plan) : outcome (option AnyExec) :=
  match plan with
  | ProjectionPlan _ sub sel_cols =>
      c ← convert_plan_executor db has_file sub;
      c ← oderef c;
      e ← @Proj_make S _ (shape_cursor (projT1 c)) (projT2 c) sel_cols;
      Ret (Some (existT (ShProj (projT1 c)) e : AnyExec))
  | ScanPlan tag tab _ conds _ _ names =>
      if decide (tag = T_SeqScan) then
        e ← SeqScan_make db (has_file tab) tab conds; Ret (Some (existT ShSeq e : AnyExec))
      else
        e ← IndexScan_make db (has_file tab) tab conds names; Ret (Some (existT ShIndex e : AnyExec))
  | JoinPlan _ l r conds _ =>
      l ← convert_plan_executor db has_file l;
      r ← convert_plan_executor db has_file r;
      l ← oderef l; r ← oderef r;
      e ← @Join_make S _ _ (shape_cursor (projT1 l)) (shape_cursor (projT1 r)) (projT2 l) (projT2 r) conds;
      Ret (Some (existT (ShJoin (projT1 l) (projT1 r)) e : AnyExec))
  | SortPlan _ sub _ is_desc =>
      c ← convert_plan_executor db has_file sub;
      c ← oderef c;
      Ret (Some (existT (ShSort (projT1 c)) (Sort_make (projT2 c) is_desc) : AnyExec))
  | _ => Ret None
  end.
End trees.

(** ** Values as text *)

(** [n / d] rounded to the nearest integer, ties to even. *)
Definition round_half_even (n d : Z) : Z :=
  let q := n / d in let r := n mod d in
  if (2 * r <? d) || ((2 * r =? d) && Z.even q) then q else q + 1.

Definition pad6 (z : Z) : string := string_fill (6 - str_size (to_string z)) "0"%char +:+ to_string z.

(** [std::to_string(float)]: the value with six decimals ([%f] on the exact value). *)
Definition float_to_string (bits : Z) : string :=
  let e := float_exp bits in
  let m := float_mant bits in
  (if float_sign bits then "-" else "") +:+
  if e =? 255 then (if m =? 0 then "inf" else "nan")
  else
    let mant := if e =? 0 then m else m + 2 ^ 23 in
    let ex := (if e =? 0 then 1 else e) - 150 in
    let n := if 0 <=? ex then mant * 10 ^ 6 * 2 ^ ex else round_half_even (mant * 10 ^ 6) (2 ^ (- ex)) in
    to_string (n / 10 ^ 6) +:+ "." +:+ pad6 (n mod 10 ^ 6).

(** The text of one column of a tuple. *)
Definition col_text (tuple : list byte) (col : ColMeta) : outcome string :=
  match cm_type col with
  | TYPE_INT => bs ← oaccess (mread tuple (cm_offset col) 4); Ret (to_string (bytes_int bs))
  | TYPE_FLOAT => bs ← oaccess (mread tuple (cm_offset col) 4); Ret (float_to_string (bytes_uint32 bs))
  | TYPE_STRING =>
      bs ← oaccess (mread tuple (cm_offset col) (cm_len col)); Ret (String.string_of_list_byte (c_str bs))
  end.

(** A line of [output.txt]. *)
Definition out_line (cells : list string) : string :=
  "|" +:+ foldr (λ c t, " " +:+ c +:+ " |" +:+ t) "" cells +:+ nl.

(** ** QlManager *)

Definition help_info : string :=
  "Supported SQL syntax:" +:+ nl +:+
  "  command ;" +:+ nl +:+
  "command:" +:+ nl +:+
  "  CREATE TABLE table_name (column_name type [, column_name type ...])" +:+ nl +:+
  "  DROP TABLE table_name" +:+ nl +:+
  "  CREATE INDEX table_name (column_name)" +:+ nl +:+
  "  DROP INDEX table_name (column_name)" +:+ nl +:+
  "  INSERT INTO table_name VALUES (value [, value ...])" +:+ nl +:+
  "  DELETE FROM table_name [WHERE where_clause]" +:+ nl +:+
  "  UPDATE table_name SET column_name = value [, column_name = value ...] [WHERE where_clause]" +:+ nl +:+
  "  SELECT selector FROM table_name [WHERE where_clause]" +:+ nl +:+
  "type:" +:+ nl +:+
  "  {INT | FLOAT | CHAR(n)}" +:+ nl +:+
  "where_clause:" +:+ nl +:+
  "  condition [AND condition ...]" +:+ nl +:+
  "condition:" +:+ nl +:+
  "  column op {column | value}" +:+ nl +:+
  "column:" +:+ nl +:+
  "  [table_name.]column_name" +:+ nl +:+
  "op:" +:+ nl +:+
  "  {= | <> | < | > | <= | >=}" +:+ nl +:+
  "selector:" +:+ nl +:+
  "  {* | column [, column ...]}" +:+ nl.

Section ql.
Context {R : Type} `{!Replacer R}.
Context (fuel : nat) (junk : Z → list byte) (self_thread : Z).

(** One row: its cells go to the reply and to [output.txt]. *)
Definition select_row (p : RecordPrinter) (cs : list ColMeta) (rec : option RmRecord) : M (World R) unit :=
  let! columns := lift (omap_list (λ col, r ← oderef rec; col_text (rec_data r) col) cs) in
  with_ctx (print_record p columns) ;;
  output (out_line columns).

(** The loop of [select_from] from the executor [e]; the number of rows. *)
Fixpoint select_loop {E} `{!Cursor (SmState R) E} (n : nat) (p : RecordPrinter) (e : E) : M (World R) Z :=
  match n with
  | O => crashes OutOfFuel
  | Datatypes.S n' =>
      let! b := with_sm (is_end e) in
      if (b : bool) then ret 0
      else
        let! rec := with_sm (Next e) in
        let! cs := lift (cols e) in
        select_row p cs rec ;;
        let! e := with_sm (nextTuple e) in
        let! k := select_loop n' p e in
        ret (k + 1)
  end.

Definition select_from {E} `{!Cursor (SmState R) E} (root : E) (sel_cols : list TabCol) : M (World R) unit :=
  let captions := col_name <$> sel_cols in
  let! p := with_ctx (RecordPrinter_make (Z.of_nat (length sel_cols))) in
  with_ctx (print_separator p) ;;
  with_ctx (print_record p captions) ;;
  with_ctx (print_separator p) ;;
  output (out_line captions) ;;
  let! e := with_sm (beginTuple root) in
  let! num_rec := select_loop fuel p e in
  with_ctx (print_separator p) ;;
  with_ctx (print_record_count num_rec).

Definition run_mutli_query (plan : Plan) : M (World R) unit :=
  match plan with
  | DDLPlan tag tab names cols =>
      match tag with
      | T_CreateTable => with_sm (create_table tab cols)
      | T_DropTable => with_sm (drop_table junk tab)
      | T_CreateIndex => with_sm (create_index tab names)
      | T_DropIndex => with_sm (drop_index tab names)
      | _ => throw (InternalError "Unexpected field type")
      end
  | _ => ret tt
  end.

(** What a statement runs on: the system, the reply, the transaction table and
    [context->txn_]. *)
Record Session := mkSession { se_world : World R; se_tm : TransactionManager; se_txn : option Z }.

Definition on_world {A} (m : M (World R) A) : M Session A :=
  zoom se_world (λ w s, mkSession w (se_tm s) (se_txn s)) m.
Definition on_txns {A} (m : M TransactionManager A) : M Session A :=
  zoom se_tm (λ t s, mkSession (se_world s) t (se_txn s)) m.
Definition set_txn (t : option Z) : M Session unit := modify (λ s, mkSession (se_world s) (se_tm s) t).

(** [memcpy(data_send_ + *offset_, help_info, ...); *offset_ = strlen(help_info);] *)
Definition send_help : M Context unit :=
  ctx_append help_info ;; modify (λ c, mkContext (data_send_ c) (str_size help_info) (ellipsis_ c)).

Definition run_cmd_utility (plan : Plan) (txn_id : Z) : M Session unit :=
  match plan with
  | OtherPlan tag tab =>
      match tag with
      | T_Help => on_world (with_ctx send_help)
      | T_ShowTable => on_world show_tables
      | T_DescTable => on_world (desc_table tab)
      | T_Transaction_begin =>
          let! t := gets se_txn in
          let! t := deref t in
          on_txns (modify (λ tm, mkTM (alter (set_txn_mode true) t (txn_map tm)) (concurrency_mode_ tm)
                                      (next_txn_id_ tm) (next_timestamp_ tm)))
      | T_Transaction_commit =>
          let! t := on_txns (get_transaction self_thread txn_id) in
          set_txn t ;; on_txns (txn_commit t)
      | T_Transaction_rollback | T_Transaction_abort =>
          let! t := on_txns (get_transaction self_thread txn_id) in
          set_txn t ;; on_txns (txn_abort t)
      | _ => throw (InternalError "Unexpected field type")
      end
  | _ => ret tt
  end.

(** ** Portal *)

Inductive portalTag := PORTAL_Invalid_Query | PORTAL_ONE_SELECT | PORTAL_DML_WITHOUT_SELECT | PORTAL_MULTI_QUERY | PORTAL_CMD_UTILITY.

(** The root of a statement: a tree for a query, or one of the three DML executors. *)
Inductive Root := NoRoot | TreeRoot (e : AnyExec) | InsertRoot (e : InsertExecutor) | UpdateRoot (e : UpdateExecutor) | DeleteRoot (e : DeleteExecutor).

Record PortalStmt := mkPortalStmt { ps_tag : portalTag; ps_sel_cols : list TabCol; ps_root : Root; ps_plan : Plan }.

(** [for (scan->beginTuple(); !scan->is_end(); scan->nextTuple()) rids.push_back(scan->rid());] *)
Fixpoint rid_loop {S E} `{!Cursor S E} (n : nat) (e : E) : M S (list Rid) :=
  match n with
  | O => crashes OutOfFuel
  | Datatypes.S n' =>
      let! b := is_end e in
      if (b : bool) then ret []
      else
        let r := rid e in
        let! e := nextTuple e in
        let! rs := rid_loop n' e in
        ret (r :: rs)
  end.

Definition collect_rids {S E} `{!Cursor S E} (e : E) : M S (list Rid) := let! e := beginTuple e in rid_loop fuel e.

Definition convert (plan : Plan) : M (SmState R) (option AnyExec) :=
  let! db := gets db_ in
  let! fhs := gets fhs_ in
  lift (convert_plan_executor (S := SmState R) fuel junk db (λ t, bool_decide (is_Some (fhs !! t))) plan).

Definition portal_start (plan : Plan) : M (SmState R) PortalStmt :=
  match plan with
  | OtherPlan _ _ => ret (mkPortalStmt PORTAL_CMD_UTILITY [] NoRoot plan)
  | DDLPlan _ _ _ _ => ret (mkPortalStmt PORTAL_MULTI_QUERY [] NoRoot plan)
  | DMLPlan tag sub tab vals conds sets =>
      match tag with
      | T_select =>
          match sub with
          | ProjectionPlan _ _ sel_cols =>
              let! root := convert sub in
              let! root := deref root in
              ret (mkPortalStmt PORTAL_ONE_SELECT sel_cols (TreeRoot root) plan)
          | _ => crashes NullDeref
          end
      | T_Update =>
          let! scan := convert sub in
          let! scan := deref scan in
          let! rids := collect_rids (Cursor0 := any_cursor fuel junk) scan in
          let! e := Update_make tab sets conds rids in
          ret (mkPortalStmt PORTAL_DML_WITHOUT_SELECT [] (UpdateRoot e) plan)
      | T_Delete =>
          let! scan := convert sub in
          let! scan := deref scan in
          let! rids := collect_rids (Cursor0 := any_cursor fuel junk) scan in
          let! e := Delete_make tab conds rids in
          ret (mkPortalStmt PORTAL_DML_WITHOUT_SELECT [] (DeleteRoot e) plan)
      | T_Insert =>
          let! e := Insert_make tab vals in
          ret (mkPortalStmt PORTAL_DML_WITHOUT_SELECT [] (InsertRoot e) plan)
      | _ => throw (InternalError "Unexpected field type")
      end
  | _ => throw (InternalError "Unexpected field type")
  end.

(** [QlManager::run_dml]: [exec->Next()]. *)
Definition run_dml (root : Root) : M (SmState R) unit :=
  match root with
  | NoRoot => crashes NullDeref
  | TreeRoot e => @Next _ _ (any_cursor fuel junk) e ;; ret tt
  | InsertRoot e => insert_Next junk e ;; ret tt
  | UpdateRoot e => update_Next e
  | DeleteRoot e => delete_Next e
  end.

Definition portal_run (p : PortalStmt) (txn_id : Z) : M Session unit :=
  match ps_tag p with
  | PORTAL_ONE_SELECT =>
      match ps_root p with
      | TreeRoot e => on_world (select_from (Cursor0 := any_cursor fuel junk) e (ps_sel_cols p))
      | _ => crashes NullDeref
      end
  | PORTAL_DML_WITHOUT_SELECT => on_world (with_sm (run_dml (ps_root p)))
  | PORTAL_MULTI_QUERY => on_world (run_mutli_query (ps_plan p))
  | PORTAL_CMD_UTILITY => run_cmd_utility (ps_plan p) txn_id
  | PORTAL_Invalid_Query => throw (InternalError "Unexpected field type")
  end.
End ql.
Arguments Session R : clear implicits.
