(* ===== verification/Server.v ===== *)
(** * One request of a client

    [client_handler] of [rmdb.cpp]: what one round of its loop does between reading a request
    and writing the reply.  What the parser makes of the text is an argument, which [Frontend.v]
    gives with the generated scanner and parser; requests run one at a time.
    Transactions are not started (the call of [SetTransaction] is commented out in the
    code), so [context->txn_] is null. *)

From S2P Require Import Prelude Errors Config Posix DiskManager Replacer BufferPool Bitmap RecordFile.
From S2P Require Import StrMap Values Text Meta Ast Analyze Plan Planner Compare Executor Index Printer System Dml Txn Ql.
From stdpp Require Import options.

Section server.
Context {R : Type} `{!Replacer R}.
Context (fuel : nat) (junk : Z → list byte) (self_thread : Z).
(** [yy_scan_string; yyparse]: [None] when it does not accept, [Some None] when it accepts
    without a tree. *)
Context (yyparse : string → option (option ast.TreeNode)).

(** What the reader of a socket does with the bytes it got. *)
Inductive Step := ClientGone | ServerExit | Reply (bytes : list byte).

(** [try { m } catch (RMDBError &e) { h e }]. *)
Definition catch {S A} (m : M S A) (h : RMDBError → M S A) : M S A := λ s,
  match m s with
  | (Throw e, s') => h e s'
  | r => r
  end.

(** The handler: the message, a newline and a NUL in the reply, a line in [output.txt]. *)
Definition error_reply (e : RMDBError) : M (World R) unit :=
  let len := get_msg_len e in
  with_ctx (λ c,
    match mwrite (data_send_ c) 0 (str_bytes (what e)) with
    | Some d =>
        match mwrite d len (str_bytes nl ++ [x00]) with
        | Some d => (Ret tt, mkContext d (len + 1) (ellipsis_ c))
        | None => (Crash OutOfBounds, c)
        end
    | None => (Crash OutOfBounds, c)
    end) ;;
  output ("failure" +:+ nl).

(** Analysis, planning and execution of a parsed statement. *)
Definition run_statement (tree : ast.TreeNode) (txn_id : Z) : M (Session R) unit :=
  let! db := gets (λ s, db_ (w_sm (se_world s))) in
  let! query := lift (do_analyze db tree) in
  let! plan := lift (plan_query db query) in
  let! stmt := on_world (with_sm (portal_start fuel junk plan)) in
  portal_run fuel junk self_thread stmt txn_id.

(** [memset(data_send, 0, BUFFER_LENGTH); offset = 0; new Context(...)]. *)
Definition new_context : M (Session R) unit :=
  modify (λ s, mkSession (mkWorld (w_sm (se_world s)) (mkContext (zeros BUFFER_LENGTH) 0 false)) (se_tm s) None).

(** [SetTransaction], whose call is commented out in [client_handler]; the result is the new
    [*txn_id].  [begin] returns the null pointer, whose use is a crash. *)
Definition finished_txn (t : Transaction) : bool :=
  bool_decide (state_ t = COMMITTED) || bool_decide (state_ t = ABORTED).

Definition SetTransaction (txn_id : Z) : M (Session R) Z :=
  let! t := on_txns (get_transaction self_thread txn_id) in
  set_txn t ;;
  let! tm := gets se_tm in
  if (match t with None => true | Some p => default false (finished_txn <$> txn_map tm !! p) end)
  then
    let! t := on_txns (txn_begin None) in
    set_txn t ;;
    let! p := deref t in
    let! tm := gets se_tm in
    let! txn := access (txn_map tm !! p) in
    on_txns (modify (λ tm, mkTM (<[p := set_txn_mode false txn]> (txn_map tm)) (concurrency_mode_ tm)
                                (next_txn_id_ tm) (next_timestamp_ tm))) ;;
    ret (txn_id_ txn)
  else ret txn_id.

(** What [main] does before the server listens: the database is created when its directory is
    not there, opened, and recovered. *)
Definition start_db (junk_hdr : IxFileHdr) (db_name : string) : M (SmState R) unit :=
  let! b := sm_with_disk (is_dir db_name) in
  (if negb b then sm_with_disk (create_db db_name) else ret tt) ;;
  open_db junk_hdr db_name ;;
  recovery_analyze ;; recovery_redo ;; recovery_undo.

Definition handle_request (text : string) (txn_id : Z) : M (Session R) Step :=
  if decide (text = "exit") then ret ClientGone
  else if decide (text = "crash") then ret ServerExit
  else
    new_context ;;
    match yyparse text with
    | Some (Some tree) => catch (run_statement tree txn_id) (λ e, on_world (error_reply e))
    | _ => ret tt
    end ;;
    let! c := gets (λ s, w_ctx (se_world s)) in
    let! bytes := access (mread (data_send_ c) 0 (offset_ c + 1)) in
    ret (Reply bytes).
End server.
