(* ===== verification/Tables.v ===== *)
(** * The open tables

    What a statement may rely on: every open table is a record file that holds known records,
    there is a frame for every page that may be pinned, and [output.txt] is not one of the open
    files.  The operations executors call on a table keep this and do to the records what the
    record layer promises. *)

From S2P Require Import Prelude Errors Config Posix DiskManager Replacer BufferPool BufferPoolSpec BufferPoolProps.
From S2P Require Import Bitmap RecordFile RecordPage RecordSpec RecordStore RecordProps StrMap Values Text Meta Plan.
From S2P Require Import Compare Planner Executor ExecutorProps Index Printer System Dml Txn Ql.
From stdpp Require Import options.

(** ** The environment of the process

    Where it is, what it may open, which file each descriptor is on. *)

Record Env := mkEnv {
  e_cwd : path; e_dirs : gset path; e_limit : Z; e_nofile : Z; e_fds : gmap Z path;
}.

Definition env_of (o : OS) : Env := mkEnv (os_cwd o) (os_dirs o) (os_limit o) (os_nofile o) (fst <$> os_fds o).

Definition out_path (e : Env) : path := e_cwd e ++ [OUTPUT_FILE].

Definition meta_path (e : Env) : path := e_cwd e ++ [DB_META_NAME].

(** No descriptor is on [output.txt] or [db.meta]. *)
Definition env_ok (e : Env) : Prop := ∀ fd p, e_fds e !! fd = Some p → p ≠ out_path e ∧ p ≠ meta_path e.

(** The environment is [e] and [output.txt] holds [out]. *)
Definition in_env (e : Env) (out : option (list byte)) (o : OS) : Prop :=
  env_of o = e ∧ os_files o !! out_path e = out.

Lemma env_fd e out o fd p off : in_env e out o → os_fds o !! fd = Some (p, off) → e_fds e !! fd = Some p.
Proof. intros [<- _] H. simpl. by rewrite lookup_fmap, H. Qed.

Lemma in_env_offset e out o fd p off n :
  in_env e out o → os_fds o !! fd = Some (p, off) → in_env e out (set_fds (<[fd := (p, n)]> (os_fds o)) o).
Proof.
  intros [He Ho] Hfd. split; [|done]. rewrite <- He. unfold env_of. simpl. f_equal. rewrite fmap_insert. simpl.
  apply insert_id. by rewrite lookup_fmap, Hfd.
Qed.

Lemma in_env_file e out o p c : in_env e out o → p ≠ out_path e → in_env e out (set_files (<[p := c]> (os_files o)) o).
Proof. intros [He Ho] Hp. split; [done|]. simpl. by rewrite lookup_insert_ne. Qed.

Lemma lowest_free_dom f g n i : (∀ k, f !! k = None ↔ g !! k = None) → lowest_free f n i = lowest_free g n i.
Proof.
  intros H. revert i. induction n as [|n IH]; intros i; [done|]. simpl. specialize (H i).
  destruct (f !! i), (g !! i); naive_solver.
Qed.

(** The next descriptor depends on the environment only. *)
Lemma new_fd_env o o' : env_of o = env_of o' → new_fd o = new_fd o'.
Proof.
  intros [= _ _ _ _ H]. unfold new_fd. assert (size (os_fds o) = size (os_fds o')) as ->.
  { rewrite <- (map_size_fmap fst (os_fds o)), <- (map_size_fmap fst (os_fds o')). by rewrite H. }
  apply lowest_free_dom. intros k. apply (f_equal (lookup k)) in H. rewrite !lookup_fmap in H.
  destruct (os_fds o !! k), (os_fds o' !! k); naive_solver.
Qed.

(** Whether [output.txt] can be opened, and what it holds after a text is appended. *)
Definition env_opens (e : Env) : bool :=
  stream_opens (mkOS ∅ (e_dirs e) (e_cwd e) ((λ p, (p, 0)) <$> e_fds e) (e_limit e) (e_nofile e)) OUTPUT_FILE.

Definition appended (e : Env) (out : option (list byte)) (text : string) : option (list byte) :=
  if env_opens e then
    let c := default [] out in Some (c ++ take (Z.to_nat (e_limit e) - length c) (str_bytes text))
  else out.

Lemma append_stream_env e out o text :
  in_env e out o →
  (append_stream OUTPUT_FILE text o = o ∨
   ∃ c, append_stream OUTPUT_FILE text o = set_files (<[out_path e := c]> (os_files o)) o) ∧
  in_env e (appended e out text) (append_stream OUTPUT_FILE text o).
Proof.
  intros [He Ho]. assert (Hop : stream_opens o OUTPUT_FILE = env_opens e).
  { unfold env_opens, stream_opens. subst e. cbn [env_of e_dirs e_cwd e_fds e_limit e_nofile].
    rewrite (new_fd_env o (mkOS ∅ (os_dirs o) (os_cwd o) ((λ p, (p, 0)) <$> (fst <$> os_fds o)) (os_limit o) (os_nofile o))).
    - done.
    - unfold env_of. cbn. f_equal. rewrite <- !map_fmap_compose. apply map_fmap_ext. done. }
  assert (Hr : resolve o OUTPUT_FILE = out_path e) by (by subst e).
  unfold append_stream, appended. rewrite Hop, Hr, Ho. destruct (env_opens e).
  - split; [right; by eexists|]. split; [by subst e|]. cbn. rewrite lookup_insert_eq. by subst e.
  - split; [by left|done].
Qed.

(** ** What every store operation keeps *)

Section keeps.
Context {R : Type} `{!Replacer R}.
Context (e : Env) (He : env_ok e) (out : option (list byte)) (n : Z).

Definition disk_env (d : Disk) : Prop := in_env e out (os d) ∧ disk_inv d.
Definition store_env (s : Store R) : Prop := pool_size_ (bpm s) = n ∧ disk_env (disk s).

Lemma keeps_env_syscall {A} (f : OS → A * OS) :
  quiet f → (∀ o, in_env e out o → in_env e out (f o).2) → keeps disk_env (syscall f).
Proof using.
  intros Hq Hf d [Hd Hi]. pose proof (keeps_syscall f Hq d Hi) as Hi'. unfold syscall in *. specialize (Hf (os d) Hd).
  destruct (f (os d)). by split.
Qed.

Lemma keeps_env_lseek fd off : keeps disk_env (syscall (sys_lseek fd off)).
Proof using.
  apply keeps_env_syscall; [apply quiet_lseek|]. intros o Ho. unfold sys_lseek. destruct (os_fds o !! fd) as [[p k]|] eqn:E; [|done].
  case_decide; [done|]. by eapply in_env_offset.
Qed.

Lemma keeps_env_read fd k : keeps disk_env (syscall (sys_read fd k)).
Proof using.
  apply keeps_env_syscall; [apply quiet_read|]. intros o Ho. unfold sys_read. destruct (os_fds o !! fd) as [[p off]|] eqn:E; [|done].
  destruct (os_files o !! p); [|done]. by eapply in_env_offset.
Qed.

Lemma keeps_env_write fd bs : keeps disk_env (syscall (sys_write fd bs)).
Proof using He.
  apply keeps_env_syscall; [apply quiet_write|]. intros o Ho. unfold sys_write. destruct (os_fds o !! fd) as [[p off]|] eqn:E; [|done].
  destruct (os_files o !! p); [|done]. case_decide; [done|]. case_decide; [done|]. cbn [snd].
  eapply (in_env_offset e out (set_files _ o)); [|done]. apply in_env_file; [done|]. eapply (He fd). by eapply env_fd.
Qed.

Lemma keeps_env_on_disk {A} (m : M Disk A) : keeps disk_env m → keeps (λ w : list byte * Disk, disk_env w.2) (on_disk m).
Proof using. apply keeps_on_disk. Qed.
Lemma keeps_env_store bs : keeps (λ w : list byte * Disk, disk_env w.2) (store_bytes bs).
Proof using. apply (keeps_store disk_env). Qed.

Hint Resolve keeps_env_lseek keeps_env_read keeps_env_write keeps_env_on_disk keeps_env_store : rmdb.

Lemma keeps_write_page fd no buf k : keeps disk_env (write_page fd no buf k).
Proof using He. unfold write_page. keeps_tac. Qed.

Lemma keeps_read_page fd no k : keeps (λ w : list byte * Disk, disk_env w.2) (read_page fd no k).
Proof using. unfold read_page. keeps_tac. Qed.

Lemma keeps_allocate fd : keeps disk_env (allocate_page fd).
Proof using. 
  unfold allocate_page, get_fd2pageno. keeps_tac. apply keeps_modify. intros d [Hd [Hm Hf Ho]]. split; [done|by split].
Qed.

Lemma keeps_with_disk {A} (m : M Disk A) : keeps disk_env m → keeps store_env (with_disk m).
Proof using.
  intros Hm s [Hs Hd]. specialize (Hm (disk s) Hd). unfold with_disk, zoom. destruct (m (disk s)). by split.
Qed.

Lemma keeps_pool (g : Store R → Store R) :
  (∀ s, pool_size_ (bpm (g s)) = pool_size_ (bpm s) ∧ disk (g s) = disk s) → keeps store_env (modify g).
Proof using. intros Hg. apply keeps_modify. intros s [Hs Hd]. destruct (Hg s) as [E1 E2]. unfold store_env. by rewrite E1, E2. Qed.

Lemma keeps_frame f : keeps store_env (frame f).
Proof using. intros s Hs. unfold frame. by destruct (pages_ (bpm s) !! f). Qed.

Hint Resolve keeps_write_page keeps_allocate keeps_with_disk keeps_frame : rmdb.
Hint Extern 1 (keeps store_env (modify _)) => apply keeps_pool; done : rmdb.

Lemma keeps_modify_frame f g : keeps store_env (modify_frame f g).
Proof using. unfold modify_frame. keeps_tac. Qed.

Lemma keeps_read_into f pid : keeps store_env (read_into_frame f pid).
Proof using.
  intros s [Hs Hd]. unfold read_into_frame. destruct (pages_ (bpm s) !! f) as [pg|]; [|done].
  pose proof (keeps_read_page (pid_fd pid) (pid_no pid) PAGE_SIZE (data_ pg, disk s) Hd) as H.
  destruct (read_page _ _ _ _) as [r [b d]]. by split.
Qed.

Lemma keeps_victim : keeps store_env find_victim_page.
Proof using.
  intros s [Hs Hd]. unfold find_victim_page. destruct (free_list_ (bpm s)); [|by split].
  destruct (victim (replacer_ (bpm s))). by split.
Qed.

Hint Resolve keeps_modify_frame keeps_read_into keeps_victim : rmdb.

Lemma keeps_evict f : keeps store_env (evict_frame f).
Proof using He. unfold evict_frame. keeps_tac. Qed.
Hint Resolve keeps_evict : rmdb.

Lemma keeps_fetch pid : keeps store_env (fetch_page pid).
Proof using He. unfold fetch_page. keeps_tac. Qed.
Lemma keeps_unpin pid b : keeps store_env (unpin_page pid b).
Proof using. unfold unpin_page. keeps_tac. Qed.
Lemma keeps_new fd : keeps store_env (new_page fd).
Proof using He. unfold new_page. keeps_tac. Qed.
Lemma keeps_page_get {A} f (g : list byte → option A) : keeps store_env (page_get f g).
Proof using. unfold page_get. keeps_tac. Qed.
Lemma keeps_page_update f g : keeps store_env (page_update f g).
Proof using. unfold page_update. keeps_tac. Qed.
Lemma keeps_page_id f : keeps store_env (page_id_of f).
Proof using. unfold page_id_of. keeps_tac. Qed.

(** The same for the operations on a record file. *)
Definition rm_env (w : RmState R) : Prop := store_env (rm_store w).

Lemma keeps_with_store {A} (m : M (Store R) A) : keeps store_env m → keeps rm_env (with_store m).
Proof using. intros Hm w Hw. specialize (Hm _ Hw). unfold with_store, zoom. by destruct (m (rm_store w)). Qed.

Lemma keeps_upd_hdr f : keeps rm_env (upd_hdr f).
Proof using. by apply keeps_modify. Qed.

Lemma keeps_deref {A} (o : option A) : keeps rm_env (deref o).
Proof using. intros s Hs. by destruct o. Qed.

Hint Resolve keeps_fetch keeps_unpin keeps_new keeps_page_get keeps_page_update keeps_page_id keeps_with_store
  keeps_upd_hdr keeps_deref : rmdb.
Hint Unfold page_get_int page_set_int the_hdr the_fd : rmdb.

Lemma keeps_fetch_handle p : keeps rm_env (fetch_page_handle p).
Proof using He. unfold fetch_page_handle, the_hdr, the_fd. keeps_tac. Qed.
Lemma keeps_unpin_handle ph b : keeps rm_env (unpin_handle ph b).
Proof using. unfold unpin_handle. keeps_tac. Qed.
Hint Resolve keeps_fetch_handle keeps_unpin_handle : rmdb.

Lemma keeps_get_record r : keeps rm_env (get_record r).
Proof using He. unfold get_record, the_hdr. keeps_tac. Qed.

Lemma keeps_insert_record buf : keeps rm_env (insert_record buf).
Proof using He.
  unfold insert_record, create_page_handle, create_new_page_handle, page_get_int, page_set_int, the_hdr, the_fd. keeps_tac.
Qed.

Lemma keeps_delete_record r : keeps rm_env (delete_record r).
Proof using He. unfold delete_record, release_page_handle, page_get_int, page_set_int, the_hdr. keeps_tac. Qed.

Lemma keeps_update_record r buf : keeps rm_env (update_record r buf).
Proof using He. unfold update_record, the_hdr. keeps_tac. Qed.

Lemma keeps_scan_step r : keeps rm_env (scan_step r).
Proof using He. unfold scan_step, the_hdr. keeps_tac. Qed.

Lemma keeps_scan_loop k r : keeps rm_env (scan_loop k r).
Proof using He.
  revert r. induction k as [|k IH]; intros r; simpl; [keeps_tac|].
  apply keeps_bind; [apply keeps_scan_step|]. intros []. simpl. case_match; [keeps_tac|apply IH].
Qed.

Lemma keeps_scan_next sc : keeps rm_env (scan_next sc).
Proof using He. unfold scan_next, the_hdr. apply keeps_bind; [keeps_tac|]. intros h. apply keeps_bind; [apply keeps_scan_loop|]. keeps_tac. Qed.
End keeps.

(** ** The invariant *)

Section tables.
Context {R : Type} `{!Replacer R, !ReplacerSpec R}.
Implicit Types (s : Store R) (w : SmState R).

(** As long as fewer pages may be pinned than there are frames, a frame can be had. *)
Lemma available_room T s (A : gset PageId) :
  bp_inv ∅ T s → (∀ pid, pinned s pid → pid ∈ A) → Z.of_nat (size A) < pool_size_ (bpm s) → available s.
Proof.
  intros Hi Hpin Hroom. unfold available. destruct (decide (free_list_ (bpm s) = [])) as [Hf|]; [|by left].
  destruct (decide (evictable (replacer_ (bpm s)) = ∅)) as [Hev|]; [|by right]. exfalso.
  set (n := pool_size_ (bpm s)) in *.
  assert (Hall : ∀ f, 0 <= f < n → ∃ pg, pages_ (bpm s) !! f = Some pg ∧ resident pg ∧ id_ pg ∈ A).
  { intros f Hfr. apply (bi_dom _ _ _ Hi) in Hfr as [pg Hpg]. exists pg.
    pose proof (bi_pin _ _ _ Hi f pg (not_elem_of_empty f) Hpg) as Hp.
    assert (resident pg) as Hr.
    { destruct (decide (pid_no (id_ pg) = INVALID_PAGE_ID)) as [E|E]; [|done]. exfalso.
      assert (f ∈ free_list_ (bpm s)) as Hin; [|rewrite Hf in Hin; by apply not_elem_of_nil in Hin].
      apply (bi_free _ _ _ Hi). split; [apply not_elem_of_empty|]. exists pg. split; [done|]. unfold resident. lia. }
    split_and!; [done|done|]. apply Hpin. exists f, pg. split_and!; [done|done|].
    destruct (decide (pin_count_ pg = 0)) as [E|E]; [|lia].
    pose proof (bi_unpinned _ _ _ Hi f pg (not_elem_of_empty f) Hpg Hr E). set_solver. }
  set (g := λ f, default (mkPageId 0 0) (id_ <$> pages_ (bpm s) !! f)).
  assert (Hg : NoDup (g <$> seqZ 0 n)).
  { apply NoDup_fmap_2_strong; [|apply NoDup_seqZ]. intros f1 f2 H1%elem_of_seqZ H2%elem_of_seqZ E.
    destruct (Hall f1) as (p1&E1&R1&_); [lia|]. destruct (Hall f2) as (p2&E2&_); [lia|].
    unfold g in E. rewrite E1, E2 in E. simpl in E. destruct (decide (f2 = f1)) as [->|Hne]; [done|].
    by destruct (bp_inv_id_inj T s f1 f2 p1 p2 Hi E1 E2 R1). }
  assert (Hsub : list_to_set (g <$> seqZ 0 n) ⊆ A).
  { intros pid. rewrite elem_of_list_to_set, list_elem_of_fmap. intros (f&->&Hfr%elem_of_seqZ).
    destruct (Hall f) as (pg&E&_&HA); [lia|]. unfold g. by rewrite E. }
  apply subseteq_size in Hsub. rewrite size_list_to_set, length_fmap, length_seqZ in Hsub by done. lia.
Qed.

(** A record file keeps its records when another one is worked on. *)
Lemma rm_inv_others T T' hd hd' s s' m m' :
  rm_inv T hd s m → rm_inv T' hd' s' m' → fd_ hd ≠ fd_ hd' → others_kept (fd_ hd') s s' → rm_inv T' hd s' m.
Proof.
  intros Hi Hi' Hne (Hv&Hn&Hw&Ht&_). split.
  - apply Hi'.
  - eapply file_ok_ext; [|apply Hi]. intros p Hp. unfold file_view.
    destruct (fo_page _ _ _ (ri_file _ _ _ _ Hi) p Hp) as (x&Hx&_). unfold file_view in Hx. rewrite Hx. by apply Hv.
  - apply Hi.
  - rewrite Hn by done. apply Hi.
  - intros p Hp. apply (ri_table _ _ _ _ Hi). by apply Ht.
  - intros p Hp. apply Hw. by apply (ri_writable _ _ _ _ Hi).
Qed.

(** The records of every open table, with its handle. *)
Abbreviation Data := (gmap string (RmFileHandle * gmap Rid row)).

Definition fds_apart (data : Data) : Prop :=
  ∀ t1 t2 x1 x2, data !! t1 = Some x1 → data !! t2 = Some x2 → fd_ x1.1 = fd_ x2.1 → t1 = t2.

(** [A] are the pages that may be pinned, [n] the size of the pool. *)
Record tables_inv (A : gset PageId) (n : Z) (e : Env) (out : option (list byte)) (db : DbMeta) (data : Data) w : Prop := {
  ti_db : db_ w = db;
  ti_handles : fhs_ w = fst <$> data;
  ti_indexes : ihs_ w = ∅;
  ti_apart : fds_apart data;
  ti_files : ∃ T, bp_inv ∅ T (sm_store w) ∧ map_Forall (λ _ x, rm_inv T x.1 (sm_store w) x.2) data;
  ti_pages : ∀ t x p, data !! t = Some x → in_file (file_hdr_ x.1) p → mkPageId (fd_ x.1) p ∈ A;
  ti_pins : ∀ pid, pinned (sm_store w) pid → pid ∈ A;
  ti_room : Z.of_nat (size A) < n;
  ti_open : ∀ t x, data !! t = Some x → e_fds e !! fd_ x.1 = Some (e_cwd e ++ [t]);
  ti_cached : ∀ pid, is_Some (page_table_ (bpm (sm_store w)) !! pid) → ∃ t x, data !! t = Some x ∧ fd_ x.1 = pid_fd pid;
  ti_env : store_env e out n (sm_store w);
}.

Lemma tables_handle A n e out db data w t hd m :
  tables_inv A n e out db data w → data !! t = Some (hd, m) → fhs_ w !! t = Some hd.
Proof. intros Hi Ht. by rewrite (ti_handles _ _ _ _ _ _ _ Hi), lookup_fmap, Ht. Qed.

Lemma tables_available A n e out db data w :
  tables_inv A n e out db data w → available (sm_store w).
Proof.
  intros Hi. destruct (ti_files _ _ _ _ _ _ _ Hi) as (T&Hbp&_).
  destruct (ti_env _ _ _ _ _ _ _ Hi) as [Hn _]. eapply available_room; [done|apply Hi|]. rewrite Hn. apply Hi.
Qed.

(** The table [t] has been worked on. *)
Lemma tables_step A n e out db data w t hd m hd' m' s' T' :
  tables_inv A n e out db data w → data !! t = Some (hd, m) →
  rm_inv T' hd' s' m' → fd_ hd' = fd_ hd → others_kept (fd_ hd) (sm_store w) s' → store_env e out n s' →
  (∀ p, in_file (file_hdr_ hd') p → mkPageId (fd_ hd) p ∈ A) →
  tables_inv A n e out db (<[t := (hd', m')]> data) (mkSm (db_ w) (<[t := hd']> (fhs_ w)) (ihs_ w) s').
Proof.
  intros [Hdb Hh Hix Hap (T&Hbp&Hf) Hpg Hpin Hroom Hop Hca Henv] Ht Hi' Hfd Ho He' HA.
  assert (Hother : ∀ t2 x, data !! t2 = Some x → t2 ≠ t → fd_ x.1 ≠ fd_ hd).
  { intros t2 x Hx Hne E. apply Hne. by apply (Hap t2 t x (hd, m)). }
  split; simpl.
  - done.
  - by rewrite fmap_insert, Hh.
  - done.
  - assert (Hfst : ∀ k x, <[t:=(hd', m')]> data !! k = Some x → ∃ y, data !! k = Some y ∧ fd_ y.1 = fd_ x.1).
    { intros k x. rewrite lookup_insert. case_decide as Hk; [intros [= <-]; subst k; by exists (hd, m)|by exists x]. }
    intros t1 t2 x1 x2 (y1&H1&E1)%Hfst (y2&H2&E2)%Hfst E. apply (Hap t1 t2 y1 y2); [done|done|congruence].
  - exists T'. split; [apply Hi'|]. intros t2 x. rewrite lookup_insert. case_decide as Hk; [by intros [= <-]|].
    intros Hx. eapply rm_inv_others; [by apply (Hf t2)|done|rewrite Hfd; by apply (Hother t2)|by rewrite Hfd].
  - intros t2 x p. rewrite lookup_insert. case_decide; [intros [= <-]; simpl; rewrite Hfd; apply HA|by apply Hpg].
  - intros pid Hp. destruct (decide (pid_fd pid = fd_ hd)) as [E|E].
    + destruct pid as [fd p]. simpl in E. subst fd. apply HA. apply (ri_table _ _ _ _ Hi'). rewrite Hfd.
      eapply pinned_resident; [apply Hi'|done].
    + apply Hpin. by apply Ho.
  - done.
  - intros t2 x. rewrite lookup_insert. case_decide as Hk; [|by apply Hop]. intros [= <-]. subst t2. simpl. rewrite Hfd.
    by apply (Hop t (hd, m)).
  - destruct Ho as (_&_&_&Ho&_). intros pid Hp. destruct (decide (pid_fd pid = fd_ hd)) as [E|E].
    + exists t, (hd', m'). by rewrite lookup_insert_eq, E.
    + destruct (Hca pid) as (t2&x&Hx&Hfx); [by apply Ho|]. exists t2, x. split; [|done].
      rewrite lookup_insert_ne; [done|]. intros <-. rewrite Ht in Hx. injection Hx as <-. by apply E.
  - done.
Qed.

(** An open descriptor of the process is on a file that exists. *)
Lemma env_content e out (d : Disk) fd : disk_env e out d → is_Some (e_fds e !! fd) → is_Some (fd_content (os d) fd).
Proof.
  intros [[<- _] [_ Hf Ho]] Hfd. simpl in Hfd. rewrite lookup_fmap, fmap_is_Some in Hfd. destruct Hfd as [[q off] Hq].
  unfold fd_content. rewrite Hq. destruct (Hf _ _ _ Hq) as (p&Hp&->). by destruct (Ho _ _ Hp).
Qed.

(** ** Running an operation on a table *)

Lemma with_table_run {A} w t hd (m : M (RmState R) A) r hd' s' :
  fhs_ w !! t = Some hd → m (mkRm hd (sm_store w)) = (r, mkRm hd' s') →
  with_table t m w = (r, mkSm (db_ w) (<[t := hd']> (fhs_ w)) (ihs_ w) s').
Proof. intros Ht Hm. unfold with_table. by rewrite Ht, Hm. Qed.

Lemma keeps_run {S B} (P : S → Prop) (op : M S B) (x : S) r (x' : S) : keeps P op → P x → op x = (r, x') → P x'.
Proof. intros Hk Hs E. specialize (Hk x Hs). by rewrite E in Hk. Qed.

(** ** Writing to [output.txt] *)

(** A file no descriptor is on is written. *)
Definition file_written (p : path) (c : list byte) (s : Store R) : Store R :=
  BufferPool.set_disk (set_os (set_files (<[p := c]> (os_files (os (disk s)))) (os (disk s))) (disk s)) s.

Definition no_fd (p : path) (s : Store R) : Prop := ∀ fd q off, os_fds (os (disk s)) !! fd = Some (q, off) → q ≠ p.

Lemma file_written_content p c s fd :
  no_fd p s → fd_content (os (disk (file_written p c s))) fd = fd_content (os (disk s)) fd.
Proof.
  intros Hp. unfold fd_content. simpl. destruct (os_fds (os (disk s)) !! fd) as [[q off]|] eqn:E; [|done].
  rewrite lookup_insert_ne; [done|]. symmetry. by eapply Hp.
Qed.

Lemma file_written_page p c s pid : no_fd p s → disk_page (disk (file_written p c s)) pid = disk_page (disk s) pid.
Proof. intros Hp. unfold disk_page. by rewrite (file_written_content p c s). Qed.

Lemma bp_inv_file_written T p c s : no_fd p s → bp_inv ∅ T s → bp_inv ∅ T (file_written p c s).
Proof.
  intros Hp Hi. apply bp_inv_change_disk; [done|apply Hi|]. intros pid _. unfold page_writable.
  rewrite <- (file_written_content p c s), <- (file_written_page p c s) by done. auto.
Qed.

Lemma rm_inv_file_written T hd p c s m : no_fd p s → rm_inv T hd s m → rm_inv T hd (file_written p c s) m.
Proof.
  intros Hp Hi. split; [by apply bp_inv_file_written, Hi| |apply Hi|apply Hi|apply Hi|].
  - eapply file_ok_ext; [|apply Hi]. intros q _. unfold file_view, view. simpl.
    by rewrite <- (file_written_page p c s).
  - intros q Hq. unfold page_writable. rewrite file_written_content by done. by apply (ri_writable _ _ _ _ Hi).
Qed.

Lemma disk_inv_file_written p c s : disk_inv (disk s) → disk_inv (disk (file_written p c s)).
Proof.
  intros [Hm Hf Ho]. split; [done|done|]. intros fd q Hq. destruct (Ho _ _ Hq) as [? Hx]. split; [done|]. simpl.
  change (resolve _ q) with (resolve (os (disk s)) q). rewrite lookup_insert. by case_decide.
Qed.

Lemma tables_output A n e (He : env_ok e) out db data w text :
  tables_inv A n e out db data w →
  ∃ w', sm_os (append_stream OUTPUT_FILE text) w = (Ret tt, w') ∧ tables_inv A n e (appended e out text) db data w'.
Proof.
  intros [Hdb Hh Hix Hap (T&Hbp&Hf) Hpg Hpin Hroom Hop Hca [Hn [Henv Hdi]]].
  destruct (append_stream_env e out (os (disk (sm_store w))) text Henv) as [Hrun Henv'].
  assert (Hno : no_fd (out_path e) (sm_store w)).
  { intros fd q off Hq. apply (He fd q). by apply (env_fd e out (os (disk (sm_store w))) fd q off). }
  eexists. split; [done|]. unfold on_os, modify, with_disk, sm_with_disk, sm_with_store, zoom. simpl.
  destruct Hrun as [Hrun|[c Hrun]]; rewrite Hrun in *.
  - split; simpl; try done; [|by destruct w as [? ? ? [? []]]]. exists T. by destruct w as [? ? ? [? []]].
  - change (BufferPool.set_disk _ (sm_store w)) with (file_written (out_path e) c (sm_store w)).
    split; simpl; try done; [|by split; [|split; [|apply disk_inv_file_written]]].
    exists T. split; [by apply bp_inv_file_written|].
    intros t x Hx. apply rm_inv_file_written; [done|]. by apply (Hf t).
Qed.

Section ops.
Context (A : gset PageId) (n : Z) (e : Env) (He : env_ok e) (out : option (list byte)) (db : DbMeta).

(** A reading operation leaves the data as they are. *)
Lemma tables_read {B} data w t hd m (op : M (RmState R) B) r s' T' :
  tables_inv A n e out db data w → data !! t = Some (hd, m) → keeps (rm_env e out n) op →
  op (mkRm hd (sm_store w)) = (r, mkRm hd s') → rm_inv T' hd s' m → others_kept (fd_ hd) (sm_store w) s' →
  ∃ w', with_table t op w = (r, w') ∧ tables_inv A n e out db data w'.
Proof using.
  intros Hi Ht Hk Hrun Hi' Ho. pose proof (tables_handle _ _ _ _ _ _ _ _ _ _ Hi Ht) as Hh.
  eexists. split; [by eapply with_table_run|]. rewrite <- (insert_id data t (hd, m)) by done.
  eapply tables_step; [done|done|done|done|done| |].
  2:{ intros p. by apply (ti_pages _ _ _ _ _ _ _ Hi t (hd, m)). }
  eapply (keeps_run (rm_env e out n) op (mkRm hd (sm_store w)) r (mkRm hd s')); [done|apply Hi|done].
Qed.

Lemma tables_get data w t hd m r :
  tables_inv A n e out db data w → data !! t = Some (hd, m) → is_Some (m !! r) →
  ∃ w', with_table t (get_record r) w =
      (Ret ((λ v, mkRmRecord v (record_size (file_hdr_ hd)) true) <$> m !! r), w') ∧ tables_inv A n e out db data w'.
Proof using He.
  intros Hi Ht Hr. destruct (ti_files _ _ _ _ _ _ _ Hi) as (T&Hbp&Hf). pose proof (Hf t _ Ht) as Hrm. simpl in Hrm.
  destruct (record_in_file _ _ _ _ _ Hrm Hr) as [Hin Hk].
  destruct (get_ok T hd (sm_store w) m r Hrm) as (f&s'&x&k&Hrun&Hi'&_&Hmv).
  { split_and!; [done|lia|lia|]. right. by eapply tables_available. }
  eapply tables_read; [done|done|by apply keeps_get_record|done|done|by eapply moved_others].
Qed.

Lemma tables_scan data w t hd m sc :
  tables_inv A n e out db data w → data !! t = Some (hd, m) →
  1 <= page_no (scan_rid sc) <= num_pages (file_hdr_ hd) →
  -1 <= slot_no (scan_rid sc) < num_records_per_page (file_hdr_ hd) →
  ∃ r w', with_table t (scan_next sc) w = (Ret (mkRmScan r), w') ∧ tables_inv A n e out db data w' ∧
    next_record m (scan_rid sc) r.
Proof using He.
  intros Hi Ht Hp Hk. destruct (ti_files _ _ _ _ _ _ _ Hi) as (T&Hbp&Hf). pose proof (Hf t _ Ht) as Hrm. simpl in Hrm.
  destruct (scan_next_ok T hd (sm_store w) m sc Hrm) as (r&s'&Hrun&Hi'&_&Ho&Hn); [by eapply tables_available|done|done|].
  destruct (tables_read data w t hd m _ _ s' T Hi Ht (keeps_scan_next e He out n sc) Hrun Hi' Ho) as (w'&E&Hi2).
  by exists r, w'.
Qed.
End ops.
End tables.
