(* ===== verification/SeqScan.v ===== *)
(** * Sequential scans over record files

    The sequential scan of an open table meets the executor contract: it runs through the
    records of the table that satisfy its conditions, in the order of pages and slots. *)

From Stdlib Require Import Sorting.Sorted.
From stdpp Require Import sorting.
From S2P Require Import Prelude Errors Config Posix DiskManager Replacer BufferPool BufferPoolSpec BufferPoolProps.
From S2P Require Import Bitmap RecordFile RecordPage RecordSpec RecordStore RecordProps StrMap Values Text Meta Plan.
From S2P Require Import Compare Planner Executor ExecutorProps Index Printer System Dml Txn Ql Tables.
From stdpp Require Import options.

(** ** The records of a file in the order of a scan *)

Definition by_rid (a b : Rid * row) : Prop :=
  page_no a.1 < page_no b.1 ∨ (page_no a.1 = page_no b.1 ∧ slot_no a.1 <= slot_no b.1).

#[global] Instance by_rid_dec : RelDecision by_rid.
Proof. unfold by_rid. intros a b. apply _. Defined.
#[global] Instance by_rid_trans : Transitive by_rid.
Proof. unfold by_rid. intros a b c. lia. Qed.
#[global] Instance by_rid_total : Total by_rid.
Proof. unfold by_rid. intros a b. lia. Qed.
#[global] Instance rid_lt_dec : RelDecision rid_lt.
Proof. unfold rid_lt. intros a b. apply _. Defined.

Definition records (m : gmap Rid row) : list (Rid * row) := merge_sort by_rid (map_to_list m).

(** Those after a position. *)
Definition records_after (m : gmap Rid row) (from : Rid) : list (Rid * row) := filter (λ x, rid_lt from x.1) (records m).

Lemma elem_of_records m x : x ∈ records m ↔ m !! x.1 = Some x.2.
Proof. unfold records. rewrite merge_sort_Permutation. destruct x. apply elem_of_map_to_list. Qed.

Lemma length_records m : length (records m) = size m.
Proof. unfold records. rewrite (Permutation_length (merge_sort_Permutation _ _)). apply length_map_to_list. Qed.

Lemma records_sorted m : StronglySorted (λ a b, rid_lt a.1 b.1) (records m).
Proof.
  assert (Hs : StronglySorted by_rid (records m)) by apply (StronglySorted_merge_sort _ _).
  assert (Hn : NoDup (records m).*1).
  { unfold records. rewrite merge_sort_Permutation. apply NoDup_fst_map_to_list. }
  revert Hs Hn. generalize (records m). intros l Hs. induction Hs as [|x l Hs IH Hx]; [constructor|].
  intros [Hnx Hn]%NoDup_cons. constructor; [by apply IH|]. rewrite Forall_forall in *. intros y Hy.
  specialize (Hx y Hy). unfold by_rid, rid_lt in *. destruct (decide (slot_no x.1 = slot_no y.1)) as [E|E]; [|lia].
  destruct (decide (page_no x.1 = page_no y.1)) as [E2|E2]; [|lia]. exfalso. apply Hnx.
  apply list_elem_of_fmap. exists y. split; [|done]. destruct x as [[] ?], y as [[] ?]. simpl in *. congruence.
Qed.

Lemma filter_none {A} (P : A → Prop) `{∀ x, Decision (P x)} (l : list A) : (∀ x, x ∈ l → ¬ P x) → filter P l = [].
Proof.
  induction l as [|a l IH]; intros Hl; [done|]. rewrite filter_cons_False by set_solver. apply IH. set_solver.
Qed.

Lemma records_after_next m from r v :
  m !! r = Some v → rid_lt from r → (∀ r', is_Some (m !! r') → rid_lt from r' → r' = r ∨ rid_lt r r') →
  records_after m from = (r, v) :: records_after m r.
Proof.
  intros Hr Hlt Hmin. assert (Hin : (r, v) ∈ records m) by by apply elem_of_records.
  apply list_elem_of_split in Hin as (l1&l2&E). pose proof (records_sorted m) as Hs.
  assert (Hall : ∀ x, x ∈ l1 ++ (r, v) :: l2 → is_Some (m !! x.1)).
  { intros x Hx. rewrite <- E in Hx. apply elem_of_records in Hx. eauto. }
  unfold records_after. rewrite E in *. rewrite !filter_app, !filter_cons.
  rewrite decide_True by done. rewrite decide_False by (simpl; unfold rid_lt; lia).
  apply StronglySorted_app in Hs as (H12&_&H2). apply StronglySorted_inv in H2 as [_ H2]. rewrite Forall_forall in H2.
  assert (H1 : ∀ x, x ∈ l1 → rid_lt x.1 r) by (intros x Hx; apply (H12 x (r, v)); [done|left]).
  rewrite (filter_none (λ x, rid_lt from x.1) l1).
  2:{ intros x Hx Hf. destruct (Hmin x.1) as [E'|?]; [apply Hall; set_solver|done| |].
      - specialize (H1 x Hx). rewrite E' in H1. unfold rid_lt in H1. lia.
      - specialize (H1 x Hx). unfold rid_lt in *. lia. }
  rewrite (filter_none (λ x, rid_lt r x.1) l1) by (intros x Hx; specialize (H1 x Hx); unfold rid_lt in *; lia).
  rewrite !filter_all; [done| |].
  - intros x Hx. by apply (H2 x).
  - intros x Hx. specialize (H2 x Hx). simpl in H2. unfold rid_lt in *. lia.
Qed.

Lemma records_after_none m from : (∀ r', is_Some (m !! r') → ¬ rid_lt from r') → records_after m from = [].
Proof. intros H. apply filter_none. intros x Hx%elem_of_records. apply H. eauto. Qed.

Lemma records_after_first T hd {R} `{!Replacer R, !ReplacerSpec R} (s : Store R) m :
  rm_inv T hd s m → records_after m (mkRid RM_FIRST_RECORD_PAGE (-1)) = records m.
Proof.
  intros Hi. apply filter_all. intros x Hx%elem_of_records.
  destruct (record_in_file _ _ _ _ _ Hi (mk_is_Some _ _ Hx)) as [Hin ?]. unfold in_file, rid_lt in *. simpl. lia.
Qed.

(** Where a scan stands: before the records [l]. *)
Definition scan_at (m : gmap Rid row) (sc : RmScan) (l : list (Rid * row)) : Prop :=
  match l with
  | [] => scan_rid sc = mkRid RM_NO_PAGE (-1)
  | x :: l' => scan_rid sc = x.1 ∧ m !! x.1 = Some x.2 ∧ l' = records_after m x.1
  end.

Lemma next_record_at m from r : next_record m from r → scan_at m (mkRmScan r) (records_after m from).
Proof.
  intros [([v Hv]&Hlt&Hmin)|(->&Hnone)].
  - by rewrite (records_after_next m from r v).
  - by rewrite records_after_none.
Qed.

(** ** The scan executor *)

Section seqscan.
Context {R : Type} `{!Replacer R, !ReplacerSpec R}.
Context (A : gset PageId) (n : Z) (e : Env) (He : env_ok e) (out : option (list byte)) (db : DbMeta).
Context (data : gmap string (RmFileHandle * gmap Rid row)).
Context (t : string) (hd : RmFileHandle) (m : gmap Rid row) (Ht : data !! t = Some (hd, m)).
Context (conds : list Condition) (cs : list ColMeta) (sat : row → bool).
Context (Hsat : ∀ r v k b, m !! r = Some v → scan_eval_conds (Some (mkRmRecord v k b)) conds cs = Ret (sat v)).

Definition tables_here (w : SmState R) : Prop := tables_inv A n e out db data w.

Abbreviation sat_rec := (λ x : Rid * row, sat x.2 = true).

(** The records the scan runs through. *)
Definition seq_records : list (Rid * row) := filter sat_rec (records m).

Definition seq_over (x : SeqScanExecutor) : Prop :=
  ss_tab_name x = t ∧ ss_cols x = cs ∧ ss_fed_conds x = conds ∧ ss_len x = record_size (file_hdr_ hd).

Definition seq_at (x : SeqScanExecutor) (rem : list (Rid * row)) : Prop :=
  seq_over x ∧ ∃ sc l, ss_scan x = Some sc ∧ scan_at m sc l ∧
    match l with
    | [] => rem = []
    | y :: l' => ss_rid x = y.1 ∧ rem = y :: filter sat_rec l'
    end.

Lemma scan_at_next w sc x l :
  tables_here w → scan_at m sc (x :: l) →
  ∃ sc' w', with_table t (scan_next sc) w = (Ret sc', w') ∧ tables_here w' ∧ scan_at m sc' l.
Proof using He Ht.
  intros Hi (Hr&Hx&->). destruct (ti_files _ _ _ _ _ _ _ Hi) as (T&_&Hf). pose proof (Hf t _ Ht) as Hrm. simpl in Hrm.
  destruct (record_in_file _ _ _ _ _ Hrm (mk_is_Some _ _ Hx)) as [Hin Hk]. unfold in_file, RM_FIRST_RECORD_PAGE in Hin.
  rewrite <- Hr in *.
  destruct (tables_scan A n e He out db data w t hd m sc Hi Ht) as (r&w'&E&Hi'&Hn); [lia|lia|].
  exists (mkRmScan r), w'. split_and!; [done|done|]. by apply next_record_at.
Qed.

Lemma scan_at_make w :
  tables_here w → ∃ sc w', with_table t RmScan_make w = (Ret sc, w') ∧ tables_here w' ∧ scan_at m sc (records m).
Proof using He Ht.
  intros Hi. destruct (ti_files _ _ _ _ _ _ _ Hi) as (T&_&Hf). pose proof (Hf t _ Ht) as Hrm. simpl in Hrm.
  destruct (hdr_bounds _ (fo_hdr _ _ _ (ri_file _ _ _ _ Hrm))) as [? _].
  pose proof (fo_num _ _ _ (ri_file _ _ _ _ Hrm)).
  destruct (tables_scan A n e He out db data w t hd m (mkRmScan (mkRid RM_FIRST_RECORD_PAGE (-1))) Hi Ht)
    as (r&w'&E&Hi'&Hn); [unfold RM_FIRST_RECORD_PAGE; simpl; lia|simpl; lia|].
  exists (mkRmScan r), w'. split_and!; [done|done|]. apply next_record_at in Hn. simpl in Hn.
  by erewrite records_after_first in Hn.
Qed.

Lemma scan_at_end w sc l : tables_here w → scan_at m sc l → scan_is_end sc = bool_decide (l = []).
Proof using Ht.
  intros Hi Hsc. unfold scan_is_end. destruct l as [|x l]; simpl in Hsc.
  - by rewrite Hsc.
  - destruct Hsc as (->&Hx&_). destruct (ti_files _ _ _ _ _ _ _ Hi) as (T&_&Hf). pose proof (Hf t _ Ht) as Hrm.
    destruct (record_in_file _ _ _ _ _ Hrm (mk_is_Some _ _ Hx)) as [Hin _].
    unfold in_file, RM_FIRST_RECORD_PAGE, RM_NO_PAGE in *. rewrite bool_decide_false by done. apply Z.eqb_neq. lia.
Qed.

Lemma scan_get w r v :
  tables_here w → m !! r = Some v →
  ∃ w', with_table t (get_record r) w = (Ret (Some (mkRmRecord v (record_size (file_hdr_ hd)) true)), w') ∧ tables_here w'.
Proof using He Ht.
  intros Hi Hr. destruct (tables_get A n e He out db data w t hd m r Hi Ht (mk_is_Some _ _ Hr)) as (w'&E&Hi').
  exists w'. by rewrite Hr in E.
Qed.

Context (fuel : nat).

Lemma seq_loop_ok k x w sc l :
  seq_over x → tables_here w → scan_at m sc l → (length l < k)%nat →
  ∃ x' w', seq_loop k x sc w = (Ret x', w') ∧ tables_here w' ∧ seq_at x' (filter sat_rec l).
Proof using He Hsat Ht.
  intros Hx. revert x w sc l Hx. induction k as [|k IH]; intros x w sc l Hx Hi Hsc Hk; [lia|]. cbn [seq_loop].
  rewrite (scan_at_end w sc l Hi Hsc). destruct l as [|[r v] l].
  - rewrite bool_decide_true by done. eexists _, w. split_and!; [done|done|]. split; [done|]. by exists sc, [].
  - rewrite bool_decide_false by done. pose proof Hsc as (Hr&Hv&Hl). simpl in Hr, Hv. rewrite Hr.
    destruct Hx as (E1&E2&E3&E4). rewrite E1, E2, E3.
    destruct (scan_get w r v Hi Hv) as (w1&Eg&Hi1).
    cbn [t_get_record table_access]. rewrite (bind_Ret _ _ _ _ _ Eg).
    unfold bind at 1, lift. rewrite (Hsat r v _ _ Hv). rewrite filter_cons. cbn [snd].
    destruct (sat v) eqn:Es.
    + rewrite decide_True by done. eexists _, w1. split_and!; [done|done|]. split; [by split_and!|].
      exists sc, ((r, v) :: l). by split_and!.
    + rewrite decide_False by done. destruct (scan_at_next w1 sc (r, v) l Hi1 Hsc) as (sc'&w2&En&Hi2&Hsc2).
      cbn [t_scan_next table_access]. rewrite (bind_Ret _ _ _ _ _ En).
      apply IH; [by split_and!|done|done|simpl in Hk; lia].
Qed.

Lemma scan_at_length sc l : scan_at m sc l → (length l <= size m)%nat.
Proof using.
  intros Hsc. rewrite <- length_records. destruct l as [|y l]; simpl; [lia|]. destruct Hsc as (_&Hy&->).
  apply elem_of_records in Hy. apply list_elem_of_split in Hy as (l1&l2&E). unfold records_after. rewrite E.
  rewrite filter_app, filter_cons, decide_False by (unfold rid_lt; lia).
  rewrite !length_app. simpl. pose proof (length_filter (λ x, rid_lt y.1 x.1) l1). pose proof (length_filter (λ x, rid_lt y.1 x.1) l2). lia.
Qed.

Context (Hfuel : (size m < fuel)%nat).

Lemma seq_begin_ok x w :
  tables_here w → seq_over x → ∃ x' w', seq_begin fuel x w = (Ret x', w') ∧ tables_here w' ∧ seq_at x' seq_records.
Proof using He Hsat Ht Hfuel.
  intros Hi Hx. unfold seq_begin. pose proof Hx as (->&_). destruct (scan_at_make w Hi) as (sc&w1&E&Hi1&Hsc).
  cbn [t_scan_make table_access]. rewrite (bind_Ret _ _ _ _ _ E). apply seq_loop_ok; [done|done|done|by rewrite length_records].
Qed.

Lemma seq_next_ok x w y rem :
  tables_here w → seq_at x (y :: rem) →
  ∃ x' w', seq_next fuel x w = (Ret x', w') ∧ tables_here w' ∧ seq_at x' rem.
Proof using He Hsat Ht Hfuel.
  intros Hi Hat. pose proof Hat as (Hx&sc&l&Esc&Hsc&Hl). destruct l as [|z l]; [done|]. destruct Hl as (Hr&[= -> ->]).
  pose proof (scan_at_length sc _ Hsc) as Hlen. simpl in Hlen.
  unfold seq_next. rewrite Esc. pose proof Hx as (->&_). destruct (scan_at_next w sc z l Hi Hsc) as (sc'&w1&E&Hi1&Hsc1).
  cbn [t_scan_next table_access]. rewrite (bind_Ret _ _ _ _ _ E). apply seq_loop_ok; [done|done|done|lia].
Qed.

Lemma seq_at_record x y rem : seq_at x (y :: rem) → ss_rid x = y.1 ∧ m !! y.1 = Some y.2.
Proof. intros (_&sc&l&_&Hsc&Hl). destruct l as [|z l]; [done|]. destruct Hl as (?&[= -> _]). by destruct Hsc as (_&?&_). Qed.

Lemma seq_end_ok x w rem :
  tables_here w → seq_at x rem → seq_is_end x w = (Ret (bool_decide (rem = [])), w).
Proof using Ht.
  intros Hi (_&sc&l&Esc&Hsc&Hl). unfold seq_is_end. rewrite Esc, (scan_at_end w sc l Hi Hsc).
  destruct l; [by rewrite Hl|]. destruct Hl as [_ ->]. by rewrite !bool_decide_false.
Qed.

(** The contract, with rows instead of records. *)
Definition seq_before (x : SeqScanExecutor) (rem : list row) : Prop := ∃ recs, seq_at x recs ∧ rem = recs.*2.

Lemma seq_cursor_ok :
  (∀ r v, m !! r = Some v → Z.of_nat (length v) = record_size (file_hdr_ hd)) →
  CursorOk (Cursor0 := SeqScan_cursor fuel) tables_here (record_size (file_hdr_ hd)) (seq_records.*2) seq_over seq_before.
Proof using He Hsat Ht Hfuel.
  intros Hlen. split.
  - intros x w Hi Hx. destruct (seq_begin_ok x w Hi Hx) as (x'&w'&?&?&?). exists x', w'. split_and!; [done|done|]. by eexists.
  - intros x w y rem Hi (recs&Hat&E). destruct recs as [|z recs]; [done|]. injection E as -> ->.
    destruct (seq_next_ok x w z recs Hi Hat) as (x'&w'&?&?&?). exists x', w'. split_and!; [done|done|]. by eexists.
  - intros x w rem Hi (recs&Hat&->). simpl. rewrite (seq_end_ok x w recs Hi Hat). f_equal. f_equal.
    apply bool_decide_ext. by destruct recs.
  - intros x w y rem Hi (recs&Hat&E). destruct recs as [|z recs]; [done|]. injection E as -> ->.
    destruct (seq_at_record _ _ _ Hat) as [Er Hz]. destruct Hat as ((E1&_)&_). simpl. rewrite E1, Er.
    destruct (scan_get w z.1 z.2 Hi Hz) as (w'&E&Hi'). by eexists _, w'.
  - by intros x rem (recs&((_&_&_&?)&_)&_).
  - apply Forall_fmap, Forall_forall. intros [r v] [_ Hx]%list_elem_of_filter. apply elem_of_records in Hx. by apply (Hlen r).
Qed.

Lemma seq_rewindable : rewindable seq_over seq_before.
Proof. by intros x rem (recs&[? _]&_). Qed.

(** ** Collecting the positions, as UPDATE and DELETE do *)

Lemma rid_loop_ok k x w rem :
  tables_here w → seq_at x rem → (length rem < k)%nat →
  ∃ w', rid_loop (Cursor0 := SeqScan_cursor fuel) k x w = (Ret rem.*1, w') ∧ tables_here w'.
Proof using He Hsat Ht Hfuel.
  revert x w rem. induction k as [|k IH]; intros x w rem Hi Hat Hk; [lia|]. cbn [rid_loop].
  unfold bind at 1. cbn [is_end SeqScan_cursor]. rewrite (seq_end_ok x w rem Hi Hat). destruct rem as [|y rem].
  - rewrite bool_decide_true by done. by exists w.
  - rewrite bool_decide_false by done. destruct (seq_next_ok x w y rem Hi Hat) as (x'&w1&E1&Hi1&Hat1).
    cbn [nextTuple SeqScan_cursor]. rewrite (bind_Ret _ _ _ _ _ E1).
    destruct (IH x' w1 rem Hi1 Hat1) as (w2&E2&Hi2); [simpl in Hk; lia|].
    rewrite (bind_Ret _ _ _ _ _ E2). exists w2. split; [|done]. cbn [rid SeqScan_cursor].
    destruct (seq_at_record _ _ _ Hat) as [-> _]. done.
Qed.

Lemma collect_rids_ok x w :
  tables_here w → seq_over x →
  ∃ w', collect_rids (Cursor0 := SeqScan_cursor fuel) fuel x w = (Ret seq_records.*1, w') ∧ tables_here w'.
Proof using He Hsat Ht Hfuel.
  intros Hi Hx. unfold collect_rids. destruct (seq_begin_ok x w Hi Hx) as (x'&w1&E&Hi1&Hat).
  cbn [beginTuple SeqScan_cursor]. rewrite (bind_Ret _ _ _ _ _ E). apply rid_loop_ok; [done|done|].
  unfold seq_records. pose proof (length_filter sat_rec (records m)). rewrite length_records in *. lia.
Qed.
End seqscan.

(** ** The positions a scan passes *)

Lemma seq_records_rids m sat r :
  r ∈ (seq_records m sat).*1 ↔ ∃ v, m !! r = Some v ∧ sat v = true.
Proof.
  rewrite list_elem_of_fmap. unfold seq_records. split.
  - intros ([q v]&->&[Hs Hv]%list_elem_of_filter). apply elem_of_records in Hv. by exists v.
  - intros (v&Hv&Hs). exists (r, v). split; [done|]. apply list_elem_of_filter. by rewrite elem_of_records.
Qed.

Lemma seq_records_NoDup m sat : NoDup (seq_records m sat).*1.
Proof.
  assert (H : NoDup (records m).*1).
  { unfold records. rewrite merge_sort_Permutation. apply NoDup_fst_map_to_list. }
  unfold seq_records. eapply sublist_NoDup; [exact H|]. apply fmap_sublist, sublist_filter.
Qed.
