(* ===== verification/Columns.v ===== *)
(** * Columns, values and conditions

    What a column of a row and a condition over a row mean, for tables whose columns are laid
    out one after the other; the evaluation the executors do agrees with it. *)

From S2P Require Import Prelude Errors Config RecordFile StrMap Values Meta Plan Compare Planner Executor ExecutorProps.
From stdpp Require Import options.

(** ** Columns laid out in a row *)

(** The columns lie one after the other from offset 0; numbers have four bytes. *)
Definition col_ok (c : ColMeta) : Prop := 0 < cm_len c ∧ (cm_type c ≠ TYPE_STRING → cm_len c = 4).

Record cols_ok (t : string) (cs : list ColMeta) : Prop := {
  ck_table : Forall (λ c, cm_tab_name c = t) cs;
  ck_layout : layout_from 0 cs = cs;
  ck_cols : Forall col_ok cs;
  ck_some : cs ≠ [];
}.

Lemma total_len_app cs ds : total_len (cs ++ ds) = total_len cs + total_len ds.
Proof. induction cs as [|c cs IH]; simpl; [done|]. lia. Qed.

Lemma set_offset_id o c : set_offset o c = c → cm_offset c = o.
Proof. intros <-. done. Qed.

Lemma layout_from_within k cs c :
  layout_from k cs = cs → Forall col_ok cs → c ∈ cs → k <= cm_offset c ∧ cm_offset c + cm_len c <= k + total_len cs.
Proof.
  revert k. induction cs as [|d cs IH]; intros k Hl Hok Hc; [by apply not_elem_of_nil in Hc|].
  simpl in Hl. injection Hl as Hd Hl. apply Forall_cons in Hok as [[Hd0 _] Hok].
  assert (Hpos : 0 <= total_len cs) by (clear -Hok; induction Hok as [|x l [??] _ IH]; simpl; lia).
  apply set_offset_id in Hd. simpl. apply elem_of_cons in Hc as [->|Hc]; [lia|].
  destruct (IH (k + cm_len d) Hl Hok Hc). lia.
Qed.

Lemma cols_ok_within t cs c : cols_ok t cs → c ∈ cs → col_within (total_len cs) c ∧ 0 < cm_len c.
Proof.
  intros [_ Hl Hok _] Hc. destruct (layout_from_within 0 cs c Hl Hok Hc). rewrite Forall_forall in Hok.
  destruct (Hok c Hc). unfold col_within. lia.
Qed.

Lemma layout_from_last k cs c : layout_from k cs = cs → last cs = Some c → cm_offset c + cm_len c = k + total_len cs.
Proof.
  revert k. induction cs as [|d cs IH]; intros k Hl Hc; [done|]. simpl in Hl. injection Hl as Hd Hl.
  apply set_offset_id in Hd. destruct cs as [|d' cs]; [injection Hc as <-; simpl; lia|].
  rewrite (IH (k + cm_len d) Hl Hc). simpl. lia.
Qed.

(** ** Comparing stored values *)

Definition compare_values (ty : ColType) (x y : row) : Z :=
  match ix_compare x 0 y 0 ty (Z.of_nat (length x)) with Ret r => r | _ => 0 end.

(** Values read from two buffers. *)
Lemma ix_compare_at x xoff y yoff ty len a b :
  mread x xoff len = Some a → mread y yoff len = Some b → (ty ≠ TYPE_STRING → len = 4) →
  ix_compare x xoff y yoff ty len = Ret (compare_values ty a b).
Proof.
  intros Ha Hb Hl. pose proof (mread_length _ _ _ _ Ha) as La. pose proof (mread_length _ _ _ _ Hb) as Lb.
  unfold compare_values. rewrite La.
  assert (mread a 0 len = Some a) as Ea by (rewrite <- La; apply mread_all).
  assert (mread b 0 len = Some b) as Eb by (rewrite <- Lb; apply mread_all).
  unfold ix_compare. destruct ty; [specialize (Hl ltac:(done)); subst len..|]; by rewrite Ha, Hb, ?Ea, ?Eb.
Qed.

Lemma compare_values_swap ty x y o :
  length x = length y → (ty ≠ TYPE_STRING → length x = 4%nat) →
  eval_op (swap_op o) (compare_values ty y x) = eval_op o (compare_values ty x y).
Proof.
  intros Hxy Hl. assert (Hop : ∀ r, eval_op (swap_op o) (- r) = eval_op o r).
  { intros r. destruct o; simpl; rewrite ?Z.gtb_ltb, ?Z.geb_leb; apply eq_true_iff_eq;
      rewrite ?negb_true_iff, ?Z.eqb_eq, ?Z.eqb_neq, ?Z.ltb_lt, ?Z.leb_le; lia. }
  enough (compare_values ty y x = - compare_values ty x y) as -> by apply Hop.
  unfold compare_values. rewrite <- Hxy. unfold ix_compare.
  assert (Hn : ∀ lt gt : bool, ¬ (lt = true ∧ gt = true) →
    (if gt then -1 else if lt then 1 else 0) = - (if lt then -1 else if gt then 1 else 0)) by (intros [] []; naive_solver).
  assert (Ex : mread x 0 (Z.of_nat (length x)) = Some x) by apply mread_all.
  assert (Ey : mread y 0 (Z.of_nat (length x)) = Some y) by (rewrite Hxy; apply mread_all).
  destruct ty.
  - specialize (Hl ltac:(done)). rewrite Hl in Ex, Ey. change (Z.of_nat 4) with 4 in *. rewrite Ex, Ey. simpl.
    rewrite !Z.gtb_ltb. apply Hn. rewrite !Z.ltb_lt. lia.
  - specialize (Hl ltac:(done)). rewrite Hl in Ex, Ey. change (Z.of_nat 4) with 4 in *. rewrite Ex, Ey. simpl.
    apply Hn. intros [H%float_lt_asym ?]. congruence.
  - rewrite Ex, Ey. simpl. by apply memcmp_antisym.
Qed.

(** ** Conditions on a row *)

(** The value a condition compares with. *)
Definition literal (c : Condition) : row := default [] (rec_data <$> raw (rhs_val c)).

Definition row_value (cs : list ColMeta) (x : row) (t : TabCol) : row :=
  match exec_get_col cs t with Ret c => col_bytes c x | _ => [] end.

Definition row_holds (cs : list ColMeta) (c : Condition) (x : row) : bool :=
  match exec_get_col cs (lhs_col c) with
  | Ret l =>
      eval_op (op c) (compare_values (cm_type l) (row_value cs x (lhs_col c))
        (if is_rhs_val c then literal c else row_value cs x (rhs_col c)))
  | _ => false
  end.

(** The condition can be evaluated on rows of [n] bytes with the columns [cs]: the sides have
    one length, numbers four bytes. *)
Definition cond_typed (n : Z) (cs : list ColMeta) (c : Condition) : Prop :=
  ∃ l, exec_get_col cs (lhs_col c) = Ret l ∧ col_within n l ∧ (cm_type l ≠ TYPE_STRING → cm_len l = 4) ∧
    if is_rhs_val c then ∃ rr, raw (rhs_val c) = Some rr ∧ Z.of_nat (length (rec_data rr)) = cm_len l
    else ∃ r, exec_get_col cs (rhs_col c) = Ret r ∧ col_within n r ∧ cm_len r = cm_len l.

Lemma col_bytes_read n c x : col_within n c → Z.of_nat (length x) = n → mread x (cm_offset c) (cm_len c) = Some (col_bytes c x).
Proof. intros (?&?&?) Hx. apply mread_Some. split_and!; [lia..|done]. Qed.

Lemma all_of_holds {A} (f : A → outcome bool) (g : A → bool) l :
  (∀ c, c ∈ l → f c = Ret (g c)) → all_of f l = Ret (forallb g l).
Proof.
  induction l as [|c l IH]; intros H; [done|]. simpl. rewrite (H c) by left. simpl. destruct (g c); [|done].
  apply IH. intros d Hd. apply H. by right.
Qed.

(** The scan. *)
Lemma scan_eval_ok n cs c v k b :
  cond_typed n cs c → Z.of_nat (length v) = n → scan_eval_cond (Some (mkRmRecord v k b)) c cs = Ret (row_holds cs c v).
Proof.
  intros (l&El&Hw&Hl&Hr) Hv. unfold scan_eval_cond, row_holds, row_value. rewrite El. simpl.
  pose proof (col_bytes_read n l v Hw Hv) as Ea. destruct (is_rhs_val c).
  - destruct Hr as (rr&Err&Hlr). unfold literal. rewrite Err. simpl.
    rewrite (ix_compare_at _ _ _ _ _ _ _ (rec_data rr) Ea); [done|rewrite <- Hlr; apply mread_all|done].
  - destruct Hr as (r&Er&Hwr&Hlr). rewrite Er. simpl.
    rewrite (ix_compare_at _ _ _ _ _ _ _ (col_bytes r v) Ea); [done| |done].
    rewrite <- Hlr. by apply (col_bytes_read n).
Qed.

Lemma scan_conds_ok n cs conds v k b :
  Forall (cond_typed n cs) conds → Z.of_nat (length v) = n →
  scan_eval_conds (Some (mkRmRecord v k b)) conds cs = Ret (forallb (λ c, row_holds cs c v) conds).
Proof.
  intros Hc Hv. apply all_of_holds. intros c Hin. rewrite Forall_forall in Hc. by apply (scan_eval_ok n); [apply Hc|].
Qed.

(** ** Names in concatenated column lists *)

Lemma exec_get_col_cons c cs t :
  exec_get_col (c :: cs) t =
    if decide (cm_tab_name c = tab_name t ∧ cm_name c = col_name t) then Ret c else exec_get_col cs t.
Proof.
  unfold exec_get_col. simpl. case_decide; [done|]. by destruct (list_find _ cs) as [[]|].
Qed.

Lemma exec_get_col_elem cs t c : exec_get_col cs t = Ret c → c ∈ cs ∧ cm_tab_name c = tab_name t ∧ cm_name c = col_name t.
Proof.
  induction cs as [|d cs IH]; [done|]. rewrite exec_get_col_cons. case_decide as H.
  - intros [= ->]. split; [left|done].
  - intros E. destruct (IH E) as [? ?]. split; [by right|done].
Qed.

Lemma exec_get_col_app_l cs ds t c : exec_get_col cs t = Ret c → exec_get_col (cs ++ ds) t = Ret c.
Proof.
  induction cs as [|d cs IH]; [done|]. rewrite <- app_comm_cons, !exec_get_col_cons. case_decide; auto.
Qed.

Lemma exec_get_col_app_r cs ds t :
  (∀ c, c ∈ cs → cm_tab_name c ≠ tab_name t) → exec_get_col (cs ++ ds) t = exec_get_col ds t.
Proof.
  induction cs as [|d cs IH]; intros H; [done|]. rewrite <- app_comm_cons, exec_get_col_cons.
  rewrite decide_False by (intros [E _]; apply (H d); [left|done]). apply IH. intros c Hc. apply H. by right.
Qed.

Lemma exec_get_col_shift d cs t c : exec_get_col cs t = Ret c → exec_get_col (shift_col d <$> cs) t = Ret (shift_col d c).
Proof.
  induction cs as [|x cs IH]; [done|]. rewrite fmap_cons, !exec_get_col_cons. simpl. case_decide; [by intros [= ->]|auto].
Qed.

(** A column of the right part of a joined row. *)
Lemma shift_col_offset d n c :
  col_within n c → 0 <= d → d + n < 2 ^ 31 → cm_offset (shift_col d c) = cm_offset c + d.
Proof. intros (?&?&?) ??. simpl. apply wrap32_id. unfold is_int32, INT_MIN, INT_MAX. lia. Qed.

Lemma shift_col_within d n c :
  col_within n c → 0 <= d → d + n < 2 ^ 31 → col_within (d + n) (shift_col d c).
Proof. intros Hc ??. unfold col_within. rewrite (shift_col_offset d n) by done. destruct Hc as (?&?&?). simpl. lia. Qed.

Lemma col_bytes_app_l c n x y : col_within n c → Z.of_nat (length x) = n → col_bytes c (x ++ y) = col_bytes c x.
Proof.
  intros (?&?&?) Hx. unfold col_bytes. rewrite drop_app_le by lia. apply take_app_le. rewrite length_drop. lia.
Qed.

Lemma col_bytes_app_r c d n x y :
  col_within n c → d + n < 2 ^ 31 → Z.of_nat (length x) = d → col_bytes (shift_col d c) (x ++ y) = col_bytes c y.
Proof.
  intros Hc ? Hx. unfold col_bytes. rewrite (shift_col_offset d n) by (done || lia). destruct Hc as (?&?&?).
  simpl. rewrite drop_app_ge by lia. repeat f_equal. lia.
Qed.

Lemma pick_left nl lr rrec o : 0 <= o < nl → nl < 2 ^ 31 → pick nl (Some lr) rrec o = Ret (rec_data lr, o).
Proof. intros ??. unfold pick, Plan.wrap_size_t. rewrite Z.mod_small by lia. by rewrite (proj2 (Z.ltb_lt _ _)) by lia. Qed.

Lemma pick_right nl lrec rr o :
  0 <= nl → 0 <= o → o + nl < 2 ^ 31 → pick nl lrec (Some rr) (o + nl) = Ret (rec_data rr, o).
Proof.
  intros ???. unfold pick, Plan.wrap_size_t. rewrite Z.mod_small by lia. rewrite (proj2 (Z.ltb_ge _ _)) by lia.
  cbn [oderef mbind outcome_bind]. repeat f_equal. lia.
Qed.

(** The join: a column of the left part against one of the right part. *)
Lemma join_eval_ok nl nr lcols rcols c l r x y lr rr :
  is_rhs_val c = false → exec_get_col lcols (lhs_col c) = Ret l → exec_get_col rcols (rhs_col c) = Ret r →
  (∀ d, d ∈ lcols → cm_tab_name d ≠ tab_name (rhs_col c)) →
  col_within nl l → 0 < cm_len l → col_within nr r → cm_len r = cm_len l → (cm_type l ≠ TYPE_STRING → cm_len l = 4) →
  nl + nr < 2 ^ 31 → Z.of_nat (length x) = nl → Z.of_nat (length y) = nr → rec_data lr = x → rec_data rr = y →
  let jcols := lcols ++ (shift_col nl <$> rcols) in
  join_eval_cond nl (Some lr) (Some rr) c jcols = Ret (row_holds jcols c (x ++ y)) ∧
  row_holds jcols c (x ++ y) = eval_op (op c) (compare_values (cm_type l) (col_bytes l x) (col_bytes r y)).
Proof.
  intros Hv El Er Hnl Hl Hl0 Hr Hlen Hty Hn Hx Hy Elr Err jcols. subst x y.
  pose proof (exec_get_col_app_l _ (shift_col nl <$> rcols) _ _ El) as El'. fold jcols in El'.
  assert (Er' : exec_get_col jcols (rhs_col c) = Ret (shift_col nl r)).
  { unfold jcols. rewrite exec_get_col_app_r by done. by apply exec_get_col_shift. }
  pose proof Hl as (?&?&?). pose proof Hr as (?&?&?).
  unfold row_holds, row_value. rewrite El', Er', Hv, (col_bytes_app_l l nl), (col_bytes_app_r r nl nr) by done.
  split; [|done]. unfold join_eval_cond. rewrite El', Er', Hv. cbn [mbind outcome_bind].
  rewrite (shift_col_offset nl nr), (pick_right nl _ rr (cm_offset r)), (pick_left nl lr) by (done || lia).
  cbn [mbind outcome_bind].
  erewrite (ix_compare_at _ _ _ _ _ _ (col_bytes l (rec_data lr)) (col_bytes r (rec_data rr)));
    [done|by apply (col_bytes_read nl)| |done].
  rewrite <- Hlen. by apply (col_bytes_read nr).
Qed.
