(* ===== verification/Relational.v ===== *)
(** * What a query means

    A binding gives one row of every table of a query.  The answer of a query is the list of
    bindings under which all its conditions hold, whatever the order of the tables and of the
    conditions.  The rows of a join tree are shown to be exactly these. *)

From S2P Require Import Prelude Errors Config RecordFile StrMap Values Meta Plan Compare Planner PlannerProps.
From S2P Require Import Executor ExecutorProps Columns.
From stdpp Require Import options.

(** ** Lists *)

Lemma bind_ext {A B} (f g : A → list B) (l : list A) : (∀ x, x ∈ l → f x = g x) → l ≫= f = l ≫= g.
Proof.
  induction l as [|a l IH]; intros H; [done|]. rewrite !bind_cons, (H a) by left. f_equal. apply IH.
  intros x Hx. apply H. by right.
Qed.

Lemma filter_bind {A B} (P : B → Prop) `{∀ x, Decision (P x)} (f : A → list B) (l : list A) :
  filter P (l ≫= f) = l ≫= λ x, filter P (f x).
Proof. induction l as [|a l IH]; [done|]. by rewrite !bind_cons, filter_app, IH. Qed.

Lemma filter_fmap {A B} (P : B → Prop) `{∀ x, Decision (P x)} (f : A → B) (l : list A) :
  filter P (f <$> l) = f <$> filter (λ x, P (f x)) l.
Proof. symmetry. by apply fmap_filter_agree. Qed.

Lemma fmap_bind {A B C} (g : B → C) (f : A → list B) (l : list A) : g <$> (l ≫= f) = l ≫= λ x, g <$> f x.
Proof. induction l as [|a l IH]; [done|]. by rewrite !bind_cons, fmap_app, IH. Qed.

Lemma list_bind_assoc {A B C} (f : A → list B) (g : B → list C) (l : list A) : (l ≫= f) ≫= g = l ≫= (λ x, f x ≫= g).
Proof. induction l as [|a l IH]; [done|]. by rewrite !bind_cons, bind_app, IH. Qed.

Lemma bind_fmap {A B C} (f : A → B) (g : B → list C) (l : list A) : (f <$> l) ≫= g = l ≫= λ x, g (f x).
Proof. induction l as [|a l IH]; [done|]. by rewrite fmap_cons, !bind_cons, IH. Qed.

Lemma bind_filter {A B} (P : A → Prop) `{∀ x, Decision (P x)} (f : A → list B) (l : list A) :
  filter P l ≫= f = l ≫= λ x, if decide (P x) then f x else [].
Proof. induction l as [|a l IH]; [done|]. rewrite filter_cons, bind_cons. case_decide; rewrite ?bind_cons, IH; done. Qed.

Lemma bind_swap {A B C} (f : A → B → list C) (l : list A) (k : list B) :
  (l ≫= λ x, k ≫= λ y, f x y) ≡ₚ (k ≫= λ y, l ≫= λ x, f x y).
Proof.
  induction l as [|a l IH].
  - induction k as [|b k IHk]; [done|]. rewrite bind_cons. exact IHk.
  - rewrite bind_cons, IH. clear IH. induction k as [|b k IHk]; [done|]. rewrite !bind_cons, <- IHk.
    rewrite !app_assoc. apply Permutation_app_tail. rewrite <- !app_assoc. apply Permutation_app_head, Permutation_app_comm.
Qed.

Lemma bind_perm {A B} (f g : A → list B) (l k : list A) :
  l ≡ₚ k → (∀ x, f x ≡ₚ g x) → l ≫= f ≡ₚ k ≫= g.
Proof.
  intros Hl Hf. assert (∀ l, l ≫= f ≡ₚ l ≫= g) as Hfg.
  { clear -Hf. induction l as [|a l IH]; [done|]. by rewrite !bind_cons, IH, Hf. }
  rewrite Hfg. by rewrite Hl.
Qed.

Lemma forallb_forall' {A} (f : A → bool) l : forallb f l = true ↔ ∀ x, x ∈ l → f x = true.
Proof. rewrite forallb_forall. by setoid_rewrite list_elem_of_In. Qed.

Lemma forallb_ext_elem {A} (f g : A → bool) l : (∀ x, x ∈ l → f x = g x) → forallb f l = forallb g l.
Proof. intros H. apply eq_true_iff_eq. rewrite !forallb_forall'. by split; intros ? x Hx; [rewrite <- H|rewrite H]; auto. Qed.

Lemma list_filter_iff' {A} (P Q : A → Prop) `{∀ x, Decision (P x)} `{∀ x, Decision (Q x)} (l : list A) :
  (∀ x, x ∈ l → P x ↔ Q x) → filter P l = filter Q l.
Proof.
  induction l as [|a l IH]; intros H'; [done|]. rewrite !filter_cons, IH by (intros x Hx; apply H'; by right).
  specialize (H' a ltac:(left)). repeat case_decide; tauto.
Qed.

Lemma filter_none' {A} (P : A → Prop) `{∀ x, Decision (P x)} (l : list A) : (∀ x, x ∈ l → ¬ P x) → filter P l = [].
Proof.
  induction l as [|a l IH]; intros Hl; [done|]. rewrite filter_cons_False by set_solver. apply IH. set_solver.
Qed.

(** ** Bindings *)

Abbreviation Binding := (gmap string row).

Section semantics.
Context (db : DbMeta) (rows_of : string → list row).

Definition table_cols (t : string) : list ColMeta := match get_table db t with Ret tab => tm_cols tab | _ => [] end.
Definition table_len (t : string) : Z := total_len (table_cols t).

(** One row of every table. *)
Fixpoint bindings (ts : list string) : list Binding :=
  match ts with
  | [] => [∅]
  | t :: ts' => rows_of t ≫= λ x, (λ b : Binding, <[t := x]> b) <$> bindings ts'
  end.

(** The value of a column, and the truth of a condition. *)
Definition field (b : Binding) (tc : TabCol) : row :=
  row_value (table_cols (tab_name tc)) (default [] (b !! tab_name tc)) tc.

Definition holds (b : Binding) (c : Condition) : bool :=
  match exec_get_col (table_cols (tab_name (lhs_col c))) (lhs_col c) with
  | Ret l =>
      eval_op (op c) (compare_values (cm_type l) (field b (lhs_col c))
        (if is_rhs_val c then literal c else field b (rhs_col c)))
  | _ => false
  end.

Definition all_hold (cs : list Condition) (b : Binding) : bool := forallb (holds b) cs.

(** The answer of a query. *)
Definition answers (ts : list string) (cs : list Condition) : list Binding :=
  filter (λ b, all_hold cs b = true) (bindings ts).

(** The condition names columns of the tables [ts]; its sides have one type and length. *)
Definition cond_ok (ts : list string) (c : Condition) : Prop :=
  tab_name (lhs_col c) ∈ ts ∧ ∃ l, exec_get_col (table_cols (tab_name (lhs_col c))) (lhs_col c) = Ret l ∧
    if is_rhs_val c then
      tab_name (rhs_col c) = "" ∧ ∃ rr, raw (rhs_val c) = Some rr ∧ Z.of_nat (length (rec_data rr)) = cm_len l
    else
      tab_name (rhs_col c) ∈ ts ∧ ∃ r, exec_get_col (table_cols (tab_name (rhs_col c))) (rhs_col c) = Ret r ∧
        cm_type r = cm_type l ∧ cm_len r = cm_len l.

Lemma all_hold_app cs ds b : all_hold (cs ++ ds) b = all_hold cs b && all_hold ds b.
Proof using. apply forallb_app. Qed.

(** What a condition says depends on the rows of its tables only. *)
Definition cond_tables (c : Condition) : list string :=
  tab_name (lhs_col c) :: (if is_rhs_val c then [] else [tab_name (rhs_col c)]).

Lemma holds_agree b b' c : (∀ t, t ∈ cond_tables c → b !! t = b' !! t) → holds b c = holds b' c.
Proof using.
  intros H. unfold holds, field. rewrite (H (tab_name (lhs_col c))) by left.
  destruct (is_rhs_val c) eqn:E; [done|].
  assert (Hr : b !! tab_name (rhs_col c) = b' !! tab_name (rhs_col c)); [|by rewrite Hr].
  apply H. unfold cond_tables. rewrite E. right. left.
Qed.

(** ** The order of tables and conditions does not matter *)

Lemma bindings_perm ts ts' : ts ≡ₚ ts' → NoDup ts → bindings ts ≡ₚ bindings ts'.
Proof using.
  induction 1 as [|t ts ts' Hp IH|t1 t2 ts|ts1 ts2 ts3 H1 IH1 H2 IH2]; intros Hnd; [done| | |].
  - apply NoDup_cons in Hnd as [_ Hnd]. simpl. apply bind_perm; [done|]. intros x. by apply fmap_Permutation, IH.
  - apply NoDup_cons in Hnd as [Hnin _]. apply not_elem_of_cons in Hnin as [Hne _]. simpl.
    transitivity (rows_of t2 ≫= λ x, rows_of t1 ≫= λ y, (λ b : Binding, <[t2:=x]> (<[t1:=y]> b)) <$> bindings ts).
    { apply bind_perm; [done|]. intros x. rewrite fmap_bind. apply reflexive_eq, bind_ext. intros y _.
      by rewrite <- list_fmap_compose. }
    rewrite bind_swap. apply bind_perm; [done|]. intros y. rewrite fmap_bind. apply reflexive_eq, bind_ext. intros x _.
    rewrite <- list_fmap_compose. apply list_fmap_ext. intros _ b _. simpl. by apply insert_insert_ne.
  - rewrite IH1 by done. apply IH2. by rewrite <- H1.
Qed.

Lemma filter_perm {A} (P : A → Prop) `{∀ x, Decision (P x)} (l k : list A) : l ≡ₚ k → filter P l ≡ₚ filter P k.
Proof using. by intros ->. Qed.

Lemma elem_of_bindings b ts :
  b ∈ bindings ts → NoDup ts → dom b = list_to_set ts ∧ ∀ t x, b !! t = Some x → x ∈ rows_of t.
Proof using.
  revert b. induction ts as [|t ts IH]; intros b Hb Hnd; simpl in Hb.
  - apply list_elem_of_singleton in Hb as ->. split; [by rewrite dom_empty_L|]. intros t x. by rewrite lookup_empty.
  - apply list_elem_of_bind in Hb as (x&(b'&->&Hb)%list_elem_of_fmap&Hx). apply NoDup_cons in Hnd as [_ Hnd].
    destruct (IH b' Hb Hnd) as [Hd Hr]. split; [by rewrite dom_insert_L, Hd|]. intros t' y.
    rewrite lookup_insert. case_decide; [intros [= <-]; by subst|apply Hr].
Qed.
End semantics.

Section plans.
Context (db : DbMeta) (rows_of : string → list row).
(** Every table has laid out columns, and rows of their length. *)
Context (Htab : ∀ t, scannable db t → cols_ok t (table_cols db t)).
Context (Hrows : ∀ t, scannable db t → Forall (λ x : row, Z.of_nat (length x) = table_len db t) (rows_of t)).

Abbreviation holds := (holds db).
Abbreviation all_hold := (all_hold db).

Lemma column_scannable t tc c : exec_get_col (table_cols db t) tc = Ret c → scannable db t.
Proof using.
  clear Htab Hrows.
  unfold table_cols, scannable. destruct (get_table db t) as [tab| |]; [|done..]. intros H. exists tab. split; [done|].
  apply exec_get_col_elem in H as [H _]. destruct (tm_cols tab); [by apply not_elem_of_nil in H|done].
Qed.

Lemma column_ok t tc c :
  exec_get_col (table_cols db t) tc = Ret c →
  col_within (table_len db t) c ∧ 0 < cm_len c ∧ (cm_type c ≠ TYPE_STRING → cm_len c = 4) ∧ cm_tab_name c = t.
Proof using Htab.
  clear Hrows.
  intros H. pose proof (Htab t (column_scannable t tc c H)) as Hok. apply exec_get_col_elem in H as [H _].
  destruct (cols_ok_within t _ c Hok H). pose proof (ck_cols _ _ Hok) as Hc. rewrite Forall_forall in Hc.
  pose proof (ck_table _ _ Hok) as Ht. rewrite Forall_forall in Ht. split_and!; [done|done|by apply Hc|auto].
Qed.

(** The row a binding gives a table. *)
Definition bound (b : Binding) (t : string) : row := default [] (b !! t).
Definition binds (b : Binding) (ts : list string) : Prop :=
  dom b = list_to_set ts ∧ ∀ t x, b !! t = Some x → x ∈ rows_of t.

Lemma bound_length b ts t : binds b ts → t ∈ ts → scannable db t → Z.of_nat (length (bound b t)) = table_len db t.
Proof using Hrows Htab.
  intros [Hd Hr] Ht Hs. unfold bound. destruct (b !! t) as [x|] eqn:E.
  - specialize (Hrows t Hs). rewrite Forall_forall in Hrows. by apply Hrows, Hr.
  - apply not_elem_of_dom in E. rewrite Hd in E. set_solver.
Qed.

Lemma field_value b ts tc c :
  binds b ts → tab_name tc ∈ ts → exec_get_col (table_cols db (tab_name tc)) tc = Ret c →
  field db b tc = col_bytes c (bound b (tab_name tc)) ∧ Z.of_nat (length (field db b tc)) = cm_len c.
Proof using Hrows Htab.
  intros Hb Ht Hc. unfold field, row_value. rewrite Hc. split; [done|].
  destruct (column_ok _ _ _ Hc) as (Hw&_). eapply length_col_bytes; [done|].
  apply (bound_length b ts); [done|done|by eapply column_scannable].
Qed.

(** Exchanging the sides of a condition. *)
Lemma cond_ok_swap ts c : is_rhs_val c = false → cond_ok db ts c → cond_ok db ts (swap_cond c).
Proof using.
  clear Htab Hrows.
  intros Hv (Hl&l&El&Hr). rewrite Hv in Hr. destruct Hr as (Hr&r&Er&Hty&Hlen). unfold cond_ok, swap_cond. simpl.
  rewrite Hv. split; [done|]. exists r. split; [done|]. split; [done|]. by exists l.
Qed.

Lemma holds_swap b ts c :
  binds b ts → is_rhs_val c = false → cond_ok db ts c → holds b (swap_cond c) = holds b c.
Proof using Hrows Htab.
  intros Hb Hv (Hl&l&El&Hr). rewrite Hv in Hr. destruct Hr as (Hr&r&Er&Hty&Hlen).
  unfold Relational.holds, swap_cond. simpl. rewrite El, Er, Hv, Hty.
  destruct (field_value b ts (lhs_col c) l Hb Hl El) as [_ L1]. destruct (field_value b ts (rhs_col c) r Hb Hr Er) as [_ L2].
  destruct (column_ok _ _ _ El) as (_&_&H4&_). apply compare_values_swap; [lia|]. intros Hs. specialize (H4 Hs). lia.
Qed.

(** Conditions up to order and exchange mean the same, where they are placed. *)
Lemma placed_rhs ts c : "" ∉ ts → cond_ok db ts c → tab_name (rhs_col c) ∈ ts → is_rhs_val c = false.
Proof using.
  clear Htab Hrows. intros Hne (_&l&_&Hr) Ht. destruct (is_rhs_val c); [|done]. destruct Hr as [Hr _]. by rewrite Hr in Ht.
Qed.

Lemma same_conds_ok ts cs cs' :
  "" ∉ ts → Forall (cond_ok db ts) cs → same_conds cs cs' → Forall (λ c, tab_name (lhs_col c) ∈ ts) cs' →
  Forall (cond_ok db ts) cs'.
Proof using.
  clear Htab Hrows. intros Hne Hok (cs1&Hp&Hf). rewrite <- Hp in Hok. clear Hp.
  induction Hf as [|c c' cs1 cs' Hc Hf IH]; intros Hpl; [done|].
  apply Forall_cons in Hok as [Hok Hok1], Hpl as [Hl Hpl]. constructor; [|by apply IH].
  destruct Hc as [->| ->]; [done|]. apply cond_ok_swap; [by eapply placed_rhs|done].
Qed.

Lemma same_conds_hold b ts cs cs' :
  binds b ts → "" ∉ ts → Forall (cond_ok db ts) cs → same_conds cs cs' →
  Forall (λ c, tab_name (lhs_col c) ∈ ts) cs' → all_hold cs b = all_hold cs' b.
Proof using Hrows Htab.
  intros Hb Hne Hok (cs1&Hp&Hf) Hpl.
  assert (all_hold cs b = all_hold cs1 b) as ->.
  { apply eq_true_iff_eq. unfold Relational.all_hold. rewrite !forallb_forall'. by setoid_rewrite Hp. }
  rewrite <- Hp in Hok. clear Hp cs. induction Hf as [|c c' cs1 cs' Hc Hf IH]; [done|].
  apply Forall_cons in Hok as [Hok Hok1], Hpl as [Hl Hpl].
  unfold Relational.all_hold in *. simpl. rewrite IH by done. f_equal. destruct Hc as [->| ->]; [done|].
  symmetry. apply (holds_swap b ts c); [done|by eapply placed_rhs|done].
Qed.

(** ** Rows of a join tree *)

Fixpoint plan_len (p : Plan) : Z :=
  match p with
  | ScanPlan _ t _ _ _ _ _ => table_len db t
  | JoinPlan _ l r _ _ => plan_len l + plan_len r
  | _ => 0
  end.

Fixpoint plan_cols (p : Plan) : list ColMeta :=
  match p with
  | ScanPlan _ t _ _ _ _ _ => table_cols db t
  | JoinPlan _ l r _ _ => plan_cols l ++ (shift_col (plan_len l) <$> plan_cols r)
  | _ => []
  end.

(** The bytes of the row for a binding. *)
Fixpoint row_of (p : Plan) (b : Binding) : row :=
  match p with
  | ScanPlan _ t _ _ _ _ _ => bound b t
  | JoinPlan _ l r _ _ => row_of l b ++ row_of r b
  | _ => []
  end.

Fixpoint plan_bindings (p : Plan) : list Binding :=
  match p with
  | ScanPlan _ t _ _ _ fed _ => filter (λ b, all_hold fed b = true) ((λ x, {[t := x]}) <$> rows_of t)
  | JoinPlan _ l r cs _ =>
      filter (λ b, all_hold cs b = true) (plan_bindings l ≫= λ x, (λ y, x ∪ y) <$> plan_bindings r)
  | _ => []
  end.

(** Trees of scans of different tables with the conditions where they can be evaluated. *)
Definition tree (p : Plan) : Prop :=
  plan_placed p ∧ NoDup (plan_tables p) ∧ Forall (scannable db) (plan_tables p) ∧ plan_len p < 2 ^ 31.

Lemma plan_len_nonneg p : plan_placed p → Forall (scannable db) (plan_tables p) → 0 <= plan_len p.
Proof using Htab.
  clear Hrows.
  induction p as [|tag t cols cs len fed idx|tag l IHl r IHr cs ty| | | | |]; try done; simpl.
  - intros _ [Hs _]%Forall_cons. eapply total_len_nonneg, Forall_forall. intros c Hc.
    by apply (cols_ok_within t _ c (Htab t Hs)).
  - intros (?&?&_) [??]%Forall_app. specialize (IHl ltac:(done) ltac:(done)). specialize (IHr ltac:(done) ltac:(done)). lia.
Qed.

Lemma tree_children tag l r cs ty : tree (JoinPlan tag l r cs ty) → tree l ∧ tree r ∧ Forall (join_placed l r) cs.
Proof using Htab.
  clear Hrows.
  intros ((Hl&Hr&Hcs)&(Hnl&_&Hnr)%NoDup_app&[Hsl Hsr]%Forall_app&Hlen). simpl in Hlen.
  pose proof (plan_len_nonneg l Hl Hsl). pose proof (plan_len_nonneg r Hr Hsr). unfold tree. split_and!; (done || lia).
Qed.

Lemma binds_scan t x : x ∈ rows_of t → binds {[t := x]} [t].
Proof using.
  clear Htab Hrows.
  intros Hx. split; [rewrite dom_singleton_L; set_solver|]. intros t' y [-> ->]%lookup_singleton_Some. done.
Qed.

Lemma binds_union x y ts us : binds x ts → binds y us → binds (x ∪ y) (ts ++ us).
Proof using.
  clear Htab Hrows.
  intros [Hx Hrx] [Hy Hry]. split; [rewrite dom_union_L, Hx, Hy, list_to_set_app_L; done|].
  intros t z [E|[_ E]]%lookup_union_Some_raw; [by apply Hrx|by apply Hry].
Qed.

Lemma plan_binds p b : tree p → b ∈ plan_bindings p → binds b (plan_tables p).
Proof using Htab.
  clear Hrows.
  revert b. induction p as [|tag t cols cs len fed idx|tag l IHl r IHr cs ty| | | | |]; intros b Hp Hb;
    try (by destruct Hp as [[] _]).
  - apply list_elem_of_filter in Hb as [_ (x&->&Hx)%list_elem_of_fmap]. by apply binds_scan.
  - apply tree_children in Hp as (Hl&Hr&_). apply list_elem_of_filter in Hb as [_ (x&(y&->&Hy)%list_elem_of_fmap&Hx)%list_elem_of_bind].
    apply binds_union; auto.
Qed.

(** Rows of a part of a tree depend on its tables only. *)
Lemma row_of_agree p b b' : (∀ t, t ∈ plan_tables p → b !! t = b' !! t) → row_of p b = row_of p b'.
Proof using.
  clear Htab Hrows rows_of.
  induction p as [|tag t cols cs len fed idx|tag l IHl r IHr cs ty| | | | |]; intros H; try done; simpl.
  - unfold bound. by rewrite (H t) by (simpl; left).
  - rewrite IHl, IHr; [done|intros t Ht; apply H; simpl; set_solver..].
Qed.

Lemma binds_lookup_l (x y : Binding) ts us t : binds x ts → binds y us → t ∈ ts → (x ∪ y) !! t = x !! t.
Proof using.
  clear Htab Hrows.
  intros [Hx _] _ Ht. assert (t ∈ dom x) as [z Hz]%elem_of_dom by (rewrite Hx; set_solver).
  by rewrite lookup_union, Hz, union_Some_l.
Qed.
Lemma binds_lookup_r (x y : Binding) ts t : binds x ts → (t ∉ ts) → (x ∪ y) !! t = y !! t.
Proof using.
  clear Htab Hrows.
  intros [Hx _] Ht. apply lookup_union_r. apply not_elem_of_dom. rewrite Hx. set_solver.
Qed.

Lemma row_of_length p b ts :
  tree p → binds b ts → plan_tables p ⊆ ts → Z.of_nat (length (row_of p b)) = plan_len p.
Proof using Hrows Htab.
  intros Hp Hb. induction p as [|tag t cols cs len fed idx|tag l IHl r IHr cs ty| | | | |];
    try (by destruct Hp as [[] _]); simpl; intros Hsub.
  - apply (bound_length b ts); [done|set_solver|]. destruct Hp as (_&_&[Hs _]%Forall_cons&_). done.
  - apply tree_children in Hp as (Hl&Hr&_). rewrite length_app, Nat2Z.inj_add, IHl, IHr; [done|done|set_solver|done|set_solver].
Qed.

Lemma plan_cols_tables p c : tree p → c ∈ plan_cols p → cm_tab_name c ∈ plan_tables p.
Proof using Htab.
  clear Hrows rows_of.
  revert c. induction p as [|tag t cols cs len fed idx|tag l IHl r IHr cs ty| | | | |]; intros c Hp;
    try (by destruct Hp as [[] _]); simpl.
  - destruct Hp as (_&_&[Hs _]%Forall_cons&_). intros Hc. pose proof (ck_table _ _ (Htab t Hs)) as Ht.
    rewrite Forall_forall in Ht. rewrite (Ht c Hc). set_solver.
  - apply tree_children in Hp as (Hl&Hr&_). rewrite elem_of_app, list_elem_of_fmap.
    intros [Hc|(d&->&Hc)]; simpl; [specialize (IHl c Hl Hc)|specialize (IHr d Hr Hc)]; set_solver.
Qed.

(** A column of a table in the rows of the tree. *)
Lemma plan_column p tc c :
  tree p → tab_name tc ∈ plan_tables p → exec_get_col (table_cols db (tab_name tc)) tc = Ret c →
  ∃ c', exec_get_col (plan_cols p) tc = Ret c' ∧ cm_type c' = cm_type c ∧ cm_len c' = cm_len c ∧
    col_within (plan_len p) c' ∧
    ∀ b ts, binds b ts → plan_tables p ⊆ ts → col_bytes c' (row_of p b) = field db b tc.
Proof using Hrows Htab.
  intros Hp. induction p as [|tag t cols cs len fed idx|tag l IHl r IHr cs ty| | | | |];
    try (by destruct Hp as [[] _]); simpl; intros Ht Hc.
  - apply list_elem_of_singleton in Ht. subst t. exists c. destruct (column_ok _ _ _ Hc) as (Hw&_).
    split_and!; [done|done|done|done|]. intros b ts Hb Hsub. symmetry. apply (field_value b ts); [done|set_solver|done].
  - pose proof Hp as (_&Hnd&_&Hlen). simpl in Hlen, Hnd. apply NoDup_app in Hnd as (_&Hdis&_).
    apply tree_children in Hp as (Hl&Hr&_).
    pose proof (plan_len_nonneg l (proj1 Hl) (proj1 (proj2 (proj2 Hl)))).
    pose proof (plan_len_nonneg r (proj1 Hr) (proj1 (proj2 (proj2 Hr)))).
    apply elem_of_app in Ht as [Ht|Ht].
    + destruct (IHl Hl Ht Hc) as (c'&E&Hty&Hln&Hw&Hf). exists c'. split_and!; [by apply exec_get_col_app_l|done|done| |].
      { destruct Hw as (?&?&?). unfold col_within. lia. }
      intros b ts Hb Hsub. rewrite (col_bytes_app_l c' (plan_len l)); [apply (Hf b ts); [done|set_solver]|done|].
      apply (row_of_length l b ts); [done|done|set_solver].
    + destruct (IHr Hr Ht Hc) as (c'&E&Hty&Hln&Hw&Hf). exists (shift_col (plan_len l) c').
      split_and!; [|done|done|by apply shift_col_within|].
      { rewrite exec_get_col_app_r; [by apply exec_get_col_shift|]. intros d Hd%plan_cols_tables Et; [|done].
        rewrite Et in Hd. by apply (Hdis _ Hd). }
      intros b ts Hb Hsub. rewrite (col_bytes_app_r c' (plan_len l) (plan_len r)); [apply (Hf b ts); [done|set_solver]|done|done|].
      apply (row_of_length l b ts); [done|done|set_solver].
Qed.

(** ** The rows of a tree are the answers of its conditions *)

Definition plan_conds (p : Plan) : list Condition := scan_conds p ++ join_conds p.

Lemma placed_tables p c : plan_placed p → c ∈ plan_conds p → ∀ t, t ∈ cond_tables c → t ∈ plan_tables p.
Proof using.
  clear Htab Hrows rows_of. unfold plan_conds, cond_tables.
  induction p as [|tag t cols cs len fed idx|tag l IHl r IHr cs ty| | | | |]; try done; simpl.
  - rewrite app_nil_r. intros [Hcs ->] Hc. rewrite Forall_forall in Hcs. destruct (Hcs c Hc) as [<- Hr].
    intros t' [->|Ht]%elem_of_cons; [by left|]. destruct (is_rhs_val c); [by apply not_elem_of_nil in Ht|].
    apply list_elem_of_singleton in Ht as ->. destruct Hr as [|Hr]; [done|]. rewrite Hr. by left.
  - intros (Hl&Hr&Hcs) Hc t Ht. apply elem_of_app.
    assert (c ∈ scan_conds l ++ join_conds l ∨ c ∈ scan_conds r ++ join_conds r ∨ c ∈ cs) as [H|[H|H]] by set_solver.
    + left. by apply IHl.
    + right. by apply IHr.
    + rewrite Forall_forall in Hcs. destruct (Hcs c H) as (E&?&?). rewrite E in Ht.
      apply elem_of_cons in Ht as [->|Ht]; [by left|]. apply list_elem_of_singleton in Ht as ->. by right.
Qed.

Lemma all_hold_agree cs b b' :
  (∀ c t, c ∈ cs → t ∈ cond_tables c → b !! t = b' !! t) → all_hold cs b = all_hold cs b'.
Proof using. intros H. apply forallb_ext_elem. intros c Hc. apply holds_agree. intros t. by apply H. Qed.

Lemma bindings_app ts us :
  NoDup (ts ++ us) → bindings rows_of (ts ++ us) = bindings rows_of ts ≫= λ x, (λ y, x ∪ y) <$> bindings rows_of us.
Proof using.
  clear Htab Hrows. induction ts as [|t ts IH]; intros Hnd; simpl.
  - rewrite app_nil_r. rewrite <- (list_fmap_id (bindings rows_of us)) at 1. apply list_fmap_ext.
    intros _ b _. simpl. by rewrite (left_id_L ∅ (∪)).
  - apply NoDup_cons in Hnd as [_ Hnd]. rewrite IH, list_bind_assoc by done. apply bind_ext. intros x _. simpl.
    rewrite fmap_bind, bind_fmap. apply bind_ext. intros b _. simpl. rewrite <- list_fmap_compose.
    apply list_fmap_ext. intros _ y _. simpl. by rewrite insert_union_l.
Qed.

Lemma plan_bindings_answers p :
  tree p → plan_bindings p = answers db rows_of (plan_tables p) (plan_conds p).
Proof using Htab.
  clear Hrows. unfold answers, plan_conds. induction p as [|tag t cols cs len fed idx|tag l IHl r IHr cs ty| | | | |];
    intros Hp; try (by destruct Hp as [[] _]).
  - destruct Hp as ([_ ->]&_). simpl. rewrite app_nil_r. f_equal.
  - pose proof Hp as (Hpl&Hnd&_). pose proof Hp as (Hl&Hr&Hcs)%tree_children. simpl in *. rewrite IHl, IHr by done.
    destruct Hpl as (Hpll&Hplr&_). rewrite bindings_app by done.
    rewrite !filter_bind, bind_filter. apply bind_ext. intros x Hx. pose proof Hnd as (Hndl&Hdis&Hndr)%NoDup_app.
    destruct (elem_of_bindings rows_of x _ Hx Hndl) as [Hbx Hrx].
    set (cl := scan_conds l ++ join_conds l) in *. set (cr := scan_conds r ++ join_conds r) in *.
    assert (Hsplit : ∀ y, all_hold ((scan_conds l ++ scan_conds r) ++ join_conds l ++ join_conds r ++ cs) y =
        all_hold cl y && all_hold cr y && all_hold cs y).
    { intros y. unfold cl, cr. rewrite !all_hold_app.
      repeat match goal with |- context [Relational.all_hold ?a ?b ?c] => destruct (Relational.all_hold a b c) end; done. }
    assert (Hleft : ∀ y, y ∈ bindings rows_of (plan_tables r) → all_hold cl (x ∪ y) = all_hold cl x).
    { intros y Hy. apply all_hold_agree. intros c t Hc Ht. destruct (elem_of_bindings rows_of y _ Hy Hndr) as [Hby Hry].
      apply (binds_lookup_l x y (plan_tables l) (plan_tables r)); [by split|by split|]. by apply (placed_tables l c). }
    assert (Hright : ∀ y, all_hold cr (x ∪ y) = all_hold cr y).
    { intros y. apply all_hold_agree. intros c t Hc Ht. apply (binds_lookup_r x y (plan_tables l)); [by split|].
      intros Hin. apply (Hdis t Hin). by apply (placed_tables r c). }
    rewrite !filter_fmap. destruct (all_hold cl x) eqn:El.
    + rewrite decide_True by done. rewrite list_filter_filter. f_equal.
      apply list_filter_iff'. intros y Hy. simpl. rewrite Hsplit, Hleft, Hright by done. simpl.
      rewrite andb_true_iff. tauto.
    + rewrite decide_False by done. symmetry. rewrite (filter_none' _ (bindings rows_of (plan_tables r))); [done|].
      intros y Hy. simpl. rewrite Hsplit, Hleft by done. done.
Qed.

(** ** What the executors evaluate *)

Lemma scan_cond_typed ts t c : scan_placed t c → cond_ok db ts c → cond_typed (table_len db t) (table_cols db t) c.
Proof using Htab.
  clear Hrows. intros [Hl Hr] (_&l&El&H). subst t. destruct (column_ok _ _ _ El) as (Hw&_&H4&_). exists l.
  split_and!; [done|done|done|]. destruct (is_rhs_val c); [by destruct H|]. destruct Hr as [|Hr]; [done|].
  destruct H as (_&r&Er&_&Hlen). rewrite Hr in Er. exists r. destruct (column_ok _ _ _ Er) as (Hwr&_). done.
Qed.

Lemma scan_row_holds t c x : scan_placed t c → row_holds (table_cols db t) c x = holds {[t := x]} c.
Proof using.
  clear Htab Hrows. intros [Hl Hr]. unfold row_holds, Relational.holds, field. rewrite Hl, lookup_singleton_eq. simpl.
  destruct (is_rhs_val c); [done|]. destruct Hr as [|Hr]; [done|]. by rewrite Hr, lookup_singleton_eq.
Qed.

Lemma join_cond_ok tag l r cs ty ts c x y lr rr :
  let p := JoinPlan tag l r cs ty in
  tree p → join_placed l r c → cond_ok db ts c → x ∈ plan_bindings l → y ∈ plan_bindings r →
  rec_data lr = row_of l x → rec_data rr = row_of r y →
  join_eval_cond (plan_len l) (Some lr) (Some rr) c (plan_cols p) = Ret (row_holds (plan_cols p) c (row_of l x ++ row_of r y)) ∧
  row_holds (plan_cols p) c (row_of l x ++ row_of r y) = holds (x ∪ y) c.
Proof using Hrows Htab.
  intros p Hp (Hv&Hl&Hr) (_&cl&El&H) Hx Hy Ex Ey. rewrite Hv in H. destruct H as (_&cr&Er&Hty&Hlen).
  pose proof Hp as (Hpl&Hnd&_&Hsz). simpl in Hsz, Hnd. pose proof Hp as (Htl&Htr&_)%tree_children.
  pose proof (plan_binds l x Htl Hx) as Hbx. pose proof (plan_binds r y Htr Hy) as Hby.
  destruct (plan_column l (lhs_col c) cl Htl Hl El) as (cl'&El'&Hty1&Hlen1&Hw1&Hf1).
  destruct (plan_column r (rhs_col c) cr Htr Hr Er) as (cr'&Er'&Hty2&Hlen2&Hw2&Hf2).
  destruct (column_ok _ _ _ El) as (_&Hpos&H4&_). apply NoDup_app in Hnd as (_&Hdis&_).
  assert (Hother : ∀ d, d ∈ plan_cols l → cm_tab_name d ≠ tab_name (rhs_col c)).
  { intros d Hd%plan_cols_tables E; [|done]. rewrite E in Hd. by apply (Hdis _ Hd). }
  destruct (join_eval_ok (plan_len l) (plan_len r) (plan_cols l) (plan_cols r) c cl' cr' (row_of l x) (row_of r y) lr rr)
    as [E1 E2]; [done|done|done|done|done|lia|done|lia|by rewrite Hlen1, Hty1|done|
                 by apply (row_of_length l x (plan_tables l))|by apply (row_of_length r y (plan_tables r))|done|done|].
  split; [exact E1|]. etrans; [exact E2|]. unfold Relational.holds. rewrite El, Hv, Hty1. do 2 f_equal.
  - rewrite (Hf1 x (plan_tables l)) by done. unfold field.
    by rewrite (binds_lookup_l x y (plan_tables l) (plan_tables r)).
  - rewrite (Hf2 y (plan_tables r)) by done. unfold field.
    rewrite (binds_lookup_r x y (plan_tables l)); [done|done|]. intros Hin. by apply (Hdis _ Hin).
Qed.

(** The rows a nested loop join gives. *)
Lemma join_rows_bindings tag l r cs ty ts :
  let p := JoinPlan tag l r cs ty in
  tree p → Forall (cond_ok db ts) cs →
  join_rows (row_of r <$> plan_bindings r) (λ x y, forallb (λ c, row_holds (plan_cols p) c (x ++ y)) cs)
    (row_of l <$> plan_bindings l) = row_of p <$> plan_bindings p.
Proof using Hrows Htab.
  intros p Hp Hok. pose proof Hp as (Htl&Htr&Hcs)%tree_children. rewrite Forall_forall in Hok, Hcs.
  unfold join_rows, matches. rewrite bind_fmap.
  assert (plan_bindings p = filter (λ b, all_hold cs b = true) (plan_bindings l ≫= λ x, (λ y, x ∪ y) <$> plan_bindings r)) as -> by done.
  rewrite filter_bind, fmap_bind.
  apply bind_ext. intros x Hx. rewrite !filter_fmap, <- !list_fmap_compose.
  rewrite (list_filter_iff' _ (λ y, all_hold cs (x ∪ y) = true) (plan_bindings r)).
  - apply list_fmap_ext. intros i y Hy. simpl.
    assert (y ∈ plan_bindings r) as Hin.
    { eapply list_elem_of_lookup_2 in Hy. by apply list_elem_of_filter in Hy as [_ Hy]. }
    pose proof (plan_binds l x Htl Hx) as Hbx. pose proof (plan_binds r y Htr Hin) as Hby.
    pose proof Hp as (_&(_&Hdis&_)%NoDup_app&_). f_equal; apply row_of_agree; intros t Ht.
    + symmetry. by apply (binds_lookup_l x y (plan_tables l) (plan_tables r)).
    + symmetry. apply (binds_lookup_r x y (plan_tables l)); [done|]. intros Hl. by apply (Hdis t Hl).
  - intros y Hy.
    enough (forallb (λ c, row_holds (plan_cols p) c (row_of l x ++ row_of r y)) cs = all_hold cs (x ∪ y)) as E.
    { change (forallb (λ c, row_holds (plan_cols p) c (row_of l x ++ row_of r y)) cs = true ↔ all_hold cs (x ∪ y) = true).
      by rewrite E. }
    apply forallb_ext_elem. intros c Hc.
    by apply (join_cond_ok tag l r cs ty ts c x y (mkRmRecord (row_of l x) 0 true) (mkRmRecord (row_of r y) 0 true)); auto.
Qed.

Lemma join_sat_ok tag l r cs ty ts lr rr :
  let p := JoinPlan tag l r cs ty in
  tree p → Forall (cond_ok db ts) cs →
  rec_data lr ∈ row_of l <$> plan_bindings l → rec_data rr ∈ row_of r <$> plan_bindings r →
  join_eval_conds (plan_len l) (Some lr) (Some rr) cs (plan_cols p) =
    Ret (forallb (λ c, row_holds (plan_cols p) c (rec_data lr ++ rec_data rr)) cs).
Proof using Hrows Htab.
  intros p Hp Hok (x&Ex&Hx)%list_elem_of_fmap (y&Ey&Hy)%list_elem_of_fmap. pose proof Hp as (Htl&Htr&Hcs)%tree_children.
  rewrite Forall_forall in Hok, Hcs. apply all_of_holds. intros c Hc. rewrite Ex, Ey.
  by apply (join_cond_ok tag l r cs ty ts c x y lr rr); auto.
Qed.
End plans.
