(* ===== verification/Select.v ===== *)
(** * SELECT

    Executor trees over open tables run through the rows of their plan, and [select_from]
    prints them. *)

From S2P Require Import Prelude Errors Config Posix DiskManager Replacer BufferPool BufferPoolSpec BufferPoolProps.
From S2P Require Import Bitmap RecordFile RecordPage RecordSpec RecordStore RecordProps StrMap Values Text Meta Plan.
From S2P Require Import Compare Planner PlannerProps Executor ExecutorProps Index Printer System Dml Txn Ql Tables SeqScan.
From S2P Require Import Columns Relational.
From stdpp Require Import options.

(** Plans of sequential scans in which only scans are run more than once. *)
Fixpoint linear (p : Plan) : Prop :=
  match p with
  | ScanPlan tag _ _ _ _ _ _ => tag = T_SeqScan
  | JoinPlan _ l r _ _ => linear l ∧ linear r ∧ (match r with ScanPlan _ _ _ _ _ _ _ => True | _ => False end)
  | _ => False
  end.

(** ** Values as text *)

Definition cell_text (ty : ColType) (bs : row) : string :=
  match ty with
  | TYPE_INT => to_string (bytes_int bs)
  | TYPE_FLOAT => float_to_string (bytes_uint32 bs)
  | TYPE_STRING => String.string_of_list_byte (c_str bs)
  end.

(** The cells of a projected row. *)
Lemma cells_ok n scols x pre k :
  Forall (col_within n) scols → Forall (λ c, cm_type c ≠ TYPE_STRING → cm_len c = 4) scols →
  Z.of_nat (length x) = n → Z.of_nat (length pre) = k →
  omap_list (col_text (pre ++ proj_row scols x)) (layout_from k scols) =
    Ret ((λ c, cell_text (cm_type c) (col_bytes c x)) <$> scols).
Proof.
  intros Hw H4 Hx. revert pre k. induction scols as [|c scols IH]; intros pre k Hk; [done|].
  apply Forall_cons in Hw as [Hc Hw], H4 as [H4 H4s]. pose proof (length_col_bytes n c x Hc Hx) as Hl.
  pose proof Hc as (?&?&?). cbn [layout_from omap_list fmap list_fmap].
  assert (Hrd : mread (pre ++ proj_row (c :: scols) x) k (cm_len c) = Some (col_bytes c x)).
  { apply mread_Some. change (proj_row (c :: scols) x) with (col_bytes c x ++ proj_row scols x).
    rewrite !length_app. split_and!; [lia..|]. rewrite drop_app_length' by lia. by rewrite take_app_length' by lia. }
  assert (col_text (pre ++ proj_row (c :: scols) x) (set_offset k c) = Ret (cell_text (cm_type c) (col_bytes c x))) as ->.
  { unfold col_text. cbn [set_offset cm_type cm_offset cm_len]. destruct (cm_type c);
      [rewrite H4 in Hrd by done..|]; by rewrite Hrd. }
  cbn [mbind outcome_bind]. change (proj_row (c :: scols) x) with (col_bytes c x ++ proj_row scols x).
  rewrite app_assoc, IH; [done|done|done|]. rewrite length_app. lia.
Qed.

Lemma selects_functional pcols sel s1 s2 : selects pcols sel s1 → selects pcols sel s2 → s1 = s2.
Proof.
  unfold selects. intros H1. revert s2. induction H1 as [|t c sel s1 Hc _ IH]; intros s2 H2.
  - by apply Forall2_nil_inv_l in H2 as ->.
  - apply Forall2_cons_inv_l in H2 as (d&s3&Hd&H2&->). f_equal; [congruence|auto].
Qed.

Lemma proj_layout_Ret pcols sel k :
  Forall (λ t, ∃ c, exec_get_col pcols t = Ret c) sel → ∃ r, proj_layout pcols sel k = Ret r.
Proof.
  intros H. revert k. induction H as [|t sel [c Hc] _ IH]; intros k; [by eexists|]. simpl.
  unfold exec_get_col in Hc. unfold exec_get_col_idx. destruct (list_find _ pcols) as [[i d]|]; [|done]. simpl.
  destruct (IH (Plan.wrap_size_t (k + cm_len d))) as ([[cs is_] len]&->). simpl. by eexists.
Qed.

Section trees.
Context {R : Type} `{!Replacer R, !ReplacerSpec R}.
Context (A : gset PageId) (n : Z) (e : Env) (He : env_ok e) (db : DbMeta).
Context (data : gmap string (RmFileHandle * gmap Rid row)).
Context (fuel : nat) (junk : Z → list byte) (Hjunk : ∀ k, 0 <= k → Z.of_nat (length (junk k)) = k).

Abbreviation here out := (tables_inv (R := R) A n e out db data).

(** The rows of a table in the order of a scan. *)
Definition rows_of (t : string) : list row :=
  match data !! t with Some x => (records x.2).*2 | None => [] end.

(** The catalogue describes the files: every table with columns is open, its columns are laid
    out one after the other over the whole record. *)
Definition described : Prop :=
  ∀ t, scannable db t → ∃ hd m, data !! t = Some (hd, m) ∧ cols_ok t (table_cols db t) ∧
    record_size (file_hdr_ hd) = table_len db t ∧ table_len db t < 2 ^ 31 ∧
    ∀ r v, m !! r = Some v → Z.of_nat (length v) = table_len db t.

Context (Hdesc : described).

Lemma described_cols t : scannable db t → cols_ok t (table_cols db t).
Proof using Hdesc. intros Ht. by destruct (Hdesc t Ht) as (hd&m&_&?&_). Qed.

Lemma described_rows t : scannable db t → Forall (λ x : row, Z.of_nat (length x) = table_len db t) (rows_of t).
Proof using Hdesc.
  intros Ht. destruct (Hdesc t Ht) as (hd&m&Hd&_&_&_&Hl). unfold rows_of. rewrite Hd. simpl.
  apply Forall_fmap, Forall_forall. intros [r v] Hx%elem_of_records. by apply (Hl r).
Qed.

Abbreviation tree := (tree db).
Abbreviation plan_rows p := (row_of p <$> plan_bindings db rows_of p).

(** Enough fuel for every loop over the rows of a part of the plan. *)
Fixpoint enough (p : Plan) : Prop :=
  match p with
  | ScanPlan _ t _ _ _ _ _ => (length (rows_of t) < fuel)%nat
  | JoinPlan _ l r _ _ => enough l ∧ enough r ∧ (length (plan_rows l) < fuel ∧ length (plan_rows r) < fuel)%nat
  | _ => True
  end.

(** An executor that gives the rows of a plan, whatever [output.txt] holds. *)
Definition gives (p : Plan) (sh : Shape) (x : ExecT sh) : Prop :=
  ∃ (fresh : ExecT sh → Prop) (P : ExecT sh → list row → Prop), fresh x ∧
    (∀ out, CursorOk (Cursor0 := shape_cursor (S := SmState R) fuel junk sh) (here out) (plan_len db p) (plan_rows p) fresh P) ∧
    (∀ y rem, P y rem → @cols _ _ (shape_cursor (S := SmState R) fuel junk sh) y = Ret (plan_cols db p)) ∧
    @cols _ _ (shape_cursor (S := SmState R) fuel junk sh) x = Ret (plan_cols db p) ∧
    @tupleLen _ _ (shape_cursor (S := SmState R) fuel junk sh) x = plan_len db p ∧
    (match p with ScanPlan _ _ _ _ _ _ _ => rewindable fresh P | _ => True end).

Context (has_file : string → bool) (Hfile : ∀ t, is_Some (data !! t) → has_file t = true).

Abbreviation convert_plan := (convert_plan_executor (S := SmState R) fuel junk db has_file).

(** A scan as it is made, and what its conditions say of the rows of the table. *)
Lemma seq_scan_made ts t cs hd m :
  scannable db t → data !! t = Some (hd, m) → Forall (scan_placed t) cs → Forall (cond_ok db ts) cs →
  ∃ x, SeqScan_make db (has_file t) t cs = Ret x ∧ seq_over t hd cs (table_cols db t) x ∧
    Executor.ss_cols x = table_cols db t ∧ ss_len x = table_len db t ∧ record_size (file_hdr_ hd) = table_len db t ∧
    (∀ r v k b, m !! r = Some v → scan_eval_conds (Some (mkRmRecord v k b)) cs (table_cols db t) = Ret (all_hold db cs {[t := v]})) ∧
    ∀ r v, m !! r = Some v → Z.of_nat (length v) = record_size (file_hdr_ hd).
Proof using Hdesc Hfile.
  clear dependent n. clear Hjunk junk. intros Hs Hd Hcs Hok. destruct (Hdesc t Hs) as (hd'&m'&Hd'&Hck&Hrs&Hlt&Hlen). assert (hd' = hd ∧ m' = m) as [-> ->] by naive_solver.
  pose proof Hs as (tab&Htab&Hne).
  assert (Hcols : table_cols db t = tm_cols tab) by (unfold table_cols; by rewrite Htab).
  destruct (last (tm_cols tab)) as [back|] eqn:El; [|by apply last_None in El].
  assert (Hback : Plan.wrap_size_t (cm_offset back + cm_len back) = table_len db t).
  { rewrite (layout_from_last 0 (tm_cols tab) back); [|rewrite <- Hcols; apply Hck|done]. unfold table_len in *.
    rewrite <- Hcols. apply Z.mod_small.
    pose proof (plan_len_nonneg db described_cols (ScanPlan T_SeqScan t (tm_cols tab) [] 0 [] [])) as Hnn. simpl in Hnn.
    unfold table_len in Hnn. split; [apply Hnn; [done|by constructor]|]. lia. }
  exists (mkSeqScan t cs (tm_cols tab) (Plan.wrap_size_t (cm_offset back + cm_len back)) cs (mkRid 0 0) None).
  split; [unfold SeqScan_make; rewrite Htab, Hfile by (rewrite Hd; by eexists); simpl; by rewrite El|].
  split_and!; [unfold seq_over; simpl; by rewrite Hback, Hrs, Hcols|by rewrite Hcols|done|done| |by rewrite Hrs].
  intros r v k b Hv. rewrite Forall_forall in Hcs, Hok.
  rewrite (scan_conds_ok (table_len db t)); [|apply Forall_forall; intros c Hc; apply (scan_cond_typed db described_cols ts); auto|by apply (Hlen r)].
  f_equal. apply forallb_ext_elem. intros c Hc. apply scan_row_holds. auto.
Qed.

Lemma scan_gives ts tag t cols cs len fed idx :
  let p := ScanPlan tag t cols cs len fed idx in
  tree p → linear p → enough p → Forall (cond_ok db ts) (scan_conds p) →
  ∃ sh (x : ExecT sh), convert_plan p = Ret (Some (existT sh x)) ∧ gives p sh x.
Proof using He Hdesc Hfile.
  intros p Hp Hlin Hen Hok. destruct Hp as ([Hcs ->]&_&[Hs _]%Forall_cons&_). simpl in Hlin, Hen, Hok. subst tag.
  destruct (Hdesc t Hs) as (hd&m&Hd&_).
  destruct (seq_scan_made ts t cs hd m Hs Hd Hcs Hok) as (x&Ex&Hover&Hcols&Hl&Hrs&Hsat&Hlen).
  set (sat := λ v : row, all_hold db cs {[t := v]}) in *.
  exists ShSeq, x. split; [cbn [convert_plan_executor p]; rewrite decide_True by done; by rewrite Ex|].
  assert (Hrows : plan_rows p = (seq_records m sat).*2).
  { unfold seq_records. simpl. rewrite filter_fmap, <- list_fmap_compose. unfold rows_of. rewrite Hd. simpl.
    rewrite (fmap_filter_agree snd (λ x, sat x.2 = true) (λ v, sat v = true)) by done.
    etrans; [|apply list_fmap_id]. apply list_fmap_ext. intros i v _. simpl. unfold bound. by rewrite lookup_singleton_eq. }
  exists (seq_over t hd cs (table_cols db t)), (seq_before t hd m cs (table_cols db t) sat).
  split_and!; [done| | |by simpl; rewrite Hcols|done|apply seq_rewindable].
  - intros out. rewrite Hrows. cbn [plan_len p]. rewrite <- Hrs. apply (seq_cursor_ok A n e He out db data t hd m Hd); [done| |done].
    unfold rows_of in Hen. rewrite Hd in Hen. simpl in Hen. by rewrite length_fmap, length_records in Hen.
  - intros y rem (recs&((_&Ec&_)&_)&_). simpl. by rewrite Ec.
Qed.

Lemma convert_gives ts p :
  tree p → linear p → enough p → Forall (cond_ok db ts) (plan_conds p) →
  ∃ sh (x : ExecT sh), convert_plan p = Ret (Some (existT sh x)) ∧ gives p sh x.
Proof using He Hdesc Hfile.
  unfold plan_conds. induction p as [|tag t cols cs len fed idx|tag l IHl r IHr cs ty| | | | |];
    intros Hp Hlin Hen Hok; try (by destruct Hp as [[] _]).
  - apply (scan_gives ts); [done|done|done|]. by apply Forall_app in Hok as [? _].
  - pose proof Hp as (Hl&Hr&Hcs)%(tree_children db described_cols).
    destruct Hlin as (Hll&Hlr&Hscan), Hen as (Hel&Her&Hfl&Hfr). simpl in Hok.
    apply Forall_app in Hok as [[Hs1 Hs2]%Forall_app [Hj1 [Hj2 Hc]%Forall_app]%Forall_app].
    destruct (IHl Hl Hll Hel) as (sl&xl&Exl&fl&Pl&Hfreshl&Hcl&Hcolsl&Hcl0&Hlenl&_); [by apply Forall_app|].
    destruct (IHr Hr Hlr Her) as (sr&xr&Exr&fr&Pr&Hfreshr&Hcr&Hcolsr&Hcr0&Hlenr&Hrw); [by apply Forall_app|].
    set (p := JoinPlan tag l r cs ty) in *.
    set (sat := λ x y : row, forallb (λ c, row_holds (plan_cols db p) c (x ++ y)) cs).
    assert (Hrw' : rewindable fr Pr) by (destruct r; try done; exact Hrw).
    assert (Hsat : ∀ lr rr, rec_data lr ∈ plan_rows l → rec_data rr ∈ plan_rows r →
      join_eval_conds (plan_len db l) (Some lr) (Some rr) cs (plan_cols db p) = Ret (sat (rec_data lr) (rec_data rr))).
    { intros lr rr. by apply (join_sat_ok db rows_of described_cols described_rows tag l r cs ty ts). }
    assert (Hrows : join_rows (plan_rows r) sat (plan_rows l) = plan_rows p).
    { by apply (join_rows_bindings db rows_of described_cols described_rows tag l r cs ty ts). }
    assert (Hwrap : Plan.wrap_size_t (plan_len db l + plan_len db r) = plan_len db p).
    { apply Z.mod_small. pose proof Hp as (Hpl&_&Hss&Hlt).
      pose proof (plan_len_nonneg db described_cols p Hpl Hss). simpl in *. lia. }
    eexists (ShJoin sl sr), (mkJoin xl xr (plan_len db p) (plan_cols db p) cs false). split.
    { cbn [convert_plan_executor p]. rewrite Exl. cbn [mbind outcome_bind]. rewrite Exr. cbn [mbind outcome_bind oderef projT1 projT2].
      unfold Join_make. rewrite Hcl0. cbn [mbind outcome_bind]. rewrite Hcr0. cbn [mbind outcome_bind].
      rewrite Hlenl, Hlenr, Hwrap. done. }
    exists (join_fresh (plan_len db l) (plan_len db r) fl fr cs (plan_cols db p)),
      (join_at (plan_len db l) (plan_len db r) (plan_rows l) (plan_rows r) Pl Pr cs (plan_cols db p) sat).
    split_and!; [|intros out|by intros y rem ((_&Ec&_)&_); simpl; rewrite Ec|done|done|done].
    + unfold join_fresh, join_over_nodes. simpl. by split_and!.
    + rewrite <- Hrows. apply (join_cursor_ok (here out) (plan_len db l) (plan_len db r) (plan_rows l) (plan_rows r)
        fl Pl fr Pr (Hcl out) (Hcr out) Hrw' cs (plan_cols db p) sat Hsat fuel). by split.
Qed.

(** ** The projection at the root *)

(** The type of a column and the cells of an answer. *)
Definition field_type (tc : TabCol) : ColType :=
  match exec_get_col (table_cols db (tab_name tc)) tc with Ret c => cm_type c | _ => TYPE_INT end.
Definition answer_cells (sel : list TabCol) (b : Binding) : list string :=
  (λ tc, cell_text (field_type tc) (field db b tc)) <$> sel.

Definition selectable (ts : list string) (tc : TabCol) : Prop :=
  tab_name tc ∈ ts ∧ ∃ c, exec_get_col (table_cols db (tab_name tc)) tc = Ret c.

Definition sel_len (sel : list TabCol) : Z :=
  foldr (λ tc, Z.add (match exec_get_col (table_cols db (tab_name tc)) tc with Ret c => cm_len c | _ => 0 end)) 0 sel.

(** The columns of the plan that are selected, against the columns of the tables. *)
Lemma selects_plan p sel scols :
  tree p → Forall (selectable (plan_tables p)) sel → selects (plan_cols db p) sel scols →
  Forall (col_within (plan_len db p)) scols ∧ Forall (λ c, cm_type c ≠ TYPE_STRING → cm_len c = 4) scols ∧
  total_len scols = sel_len sel ∧
  ∀ b, binds rows_of b (plan_tables p) →
    ((λ c, cell_text (cm_type c) (col_bytes c (row_of p b))) <$> scols) = answer_cells sel b.
Proof using Hdesc.
  intros Hp Hsel Hs. revert Hsel. induction Hs as [|tc c' sel scols Hc _ IH]; intros Hsel; [by repeat split|].
  apply Forall_cons in Hsel as [[Ht [c Ec]] Hsel]. destruct (IH Hsel) as (I1&I2&I3&I4).
  destruct (plan_column db rows_of described_cols described_rows p tc c Hp Ht Ec) as (c2&E2&Hty&Hlen&Hw&Hf).
  assert (c2 = c') as -> by congruence. destruct (column_ok db described_cols _ _ _ Ec) as (_&_&H4&_).
  split_and!; [by constructor|constructor; [by rewrite Hty, Hlen|done]| |].
  - simpl. by rewrite Ec, I3, Hlen.
  - intros b Hb. unfold answer_cells. rewrite !fmap_cons. f_equal; [|by apply I4].
    unfold field_type. rewrite Ec, Hty. f_equal. by apply (Hf b (plan_tables p)).
Qed.

(** The root runs through the answers and shows their cells. *)
Definition root_gives (p : Plan) (sel : list TabCol) (sh : Shape) (x : ExecT sh) : Prop :=
  ∃ (fresh : ExecT sh → Prop) (P : ExecT sh → list row → Prop) cs len (f : Binding → row), fresh x ∧
    (∀ out, CursorOk (Cursor0 := shape_cursor (S := SmState R) fuel junk sh) (here out) len
       (f <$> plan_bindings db rows_of p) fresh P) ∧
    (∀ y rem, P y rem → @cols _ _ (shape_cursor (S := SmState R) fuel junk sh) y = Ret cs) ∧
    ∀ b, b ∈ plan_bindings db rows_of p → omap_list (col_text (f b)) cs = Ret (answer_cells sel b).

Lemma root_gives_ok p sel sh x :
  tree p → gives p sh x → sel ≠ [] → Forall (selectable (plan_tables p)) sel → sel_len sel < 2 ^ 31 →
  ∃ y, Proj_make (Cursor0 := shape_cursor (S := SmState R) fuel junk sh) x sel = Ret y ∧ root_gives p sel (ShProj sh) y.
Proof using Hjunk Hdesc.
  intros Hp (fresh&P&Hfr&Hok&Hcols&Hc0&_&_) Hne Hsel Hlen.
  assert (Hall : Forall (λ t, ∃ c, exec_get_col (plan_cols db p) t = Ret c) sel).
  { eapply Forall_impl; [done|]. intros tc [Ht [c Ec]].
    destruct (plan_column db rows_of described_cols described_rows p tc c Hp Ht Ec) as (c'&E&_). eauto. }
  destruct (proj_layout_Ret _ _ 0 Hall) as ([[cs idxs] len]&Hl).
  assert (Hy : Proj_make (Cursor0 := shape_cursor (S := SmState R) fuel junk sh) x sel = Ret (mkProj x cs len idxs)).
  { unfold Proj_make. rewrite Hc0. cbn [mbind outcome_bind]. by rewrite Hl. }
  eexists. split; [done|].
  assert (Hw : ∀ t c, t ∈ sel → exec_get_col (plan_cols db p) t = Ret c → col_within (plan_len db p) c).
  { intros t c Ht Ec. rewrite Forall_forall in Hsel. destruct (Hsel t Ht) as [Hin [c0 Ec0]].
    destruct (plan_column db rows_of described_cols described_rows p t c0 Hp Hin Ec0) as (c'&E&_&_&?&_). congruence. }
  assert (Htot : ∀ scols, selects (plan_cols db p) sel scols → total_len scols < 2 ^ 31).
  { intros scols Hs. destruct (selects_plan p sel scols Hp Hsel Hs) as (_&_&->&_). done. }
  pose proof (λ out, projection_cursor_ok (here out) (plan_len db p) (plan_rows p) fresh P (Hok out) (plan_cols db p) Hcols
    junk Hjunk x sel _ Hc0 Hy Hne Hw Htot) as Hproj.
  destruct (Hproj None) as (scols&Hs&Hlay&_). simpl in Hlay.
  destruct (selects_plan p sel scols Hp Hsel Hs) as (Hin&H4&Htl&Hcells).
  eexists _, _, (layout_from 0 scols), (total_len scols), (λ b, proj_row scols (row_of p b)).
  split; [|split; [|split]].
  4:{ intros b Hb. pose proof (plan_binds db rows_of described_cols p b Hp Hb) as Hbb.
      rewrite <- (Hcells b Hbb). apply (cells_ok (plan_len db p) scols (row_of p b) [] 0); [done|done| |done].
      by apply (row_of_length db rows_of described_cols described_rows p b (plan_tables p)). }
  2:{ intros out. change (λ b, proj_row scols (row_of p b)) with (proj_row scols ∘ row_of p).
      rewrite list_fmap_compose. destruct (Hproj out) as (scols'&Hs'&_&Hcur).
      rewrite (selects_functional _ _ _ _ Hs' Hs) in Hcur. exact Hcur. }
  - by split_and!.
  - intros y rem (rem0&_&_&E1&_). simpl. by rewrite E1, Hlay.
Qed.
End trees.
