(* ===== verification/Sample.v ===== *)
(** * A small database

    One table [t (id INT, name CHAR(4))] with the row [(7, "abcd")], open in a system with a
    pool of two frames; the theorems about statements are applied to it. *)

From S2P Require Import Prelude Errors Config Posix DiskManager Replacer BufferPool BufferPoolSpec BufferPoolProps.
From S2P Require Import Bitmap RecordFile RecordPage RecordSpec RecordStore RecordProps RecordManager RecordClaims.
From S2P Require Import StrMap Values Text Meta Plan Compare Planner PlannerProps Executor ExecutorProps Index Printer System Dml Txn Ql.
From S2P Require Import Tables SeqScan Columns Relational Select.
From stdpp Require Import options.

Definition one_db : DbMeta :=
  mkDbMeta "d" [("t", mkTabMeta "t" [mkColMeta "t" "id" TYPE_INT 4 0 false; mkColMeta "t" "name" TYPE_STRING 4 4 false] [])].

Definition one_row : list byte := int_bytes 7 ++ [x61; x62; x63; x64].
Definition one_rid : Rid := mkRid 1 0.
Definition one_rm : RmState LRUReplacer := (rm_op (RInsert one_row) (mkRm rec_handle rec_store1)).2.
#[global] Arguments one_rm : simpl never.
Definition one_records : gmap Rid (list byte) := {[ one_rid := one_row ]}.
Definition one_data : gmap string (RmFileHandle * gmap Rid (list byte)) := {[ "t" := (rm_handle one_rm, one_records) ]}.
Definition one_sm : SmState LRUReplacer := mkSm one_db {[ "t" := rm_handle one_rm ]} ∅ (rm_store one_rm).
Definition one_env : Env := env_of (os (disk (rm_store one_rm))).
Definition one_pages : gset PageId := {[ mkPageId 3 1 ]}.

Lemma one_rm_ok :
  ∃ T, rm_inv T (rm_handle one_rm) (rm_store one_rm) one_records ∧ others_kept 3 rec_store1 (rm_store one_rm).
Proof.
  destruct (rm_op_ok ∅ rec_handle rec_store1 ∅ (RInsert one_row) 0)
    as (r&hd'&s'&T'&m'&Hrun&Hsp&Hi&_&Ho&_).
  - apply rec_store1_inv.
  - apply rec_available.
  - vm_compute. discriminate.
  - lia.
  - apply rec_room. lia.
  - exists T'. assert (Hr : r = Some one_rid).
    { assert (Hc : (rm_op (RInsert one_row) (mkRm rec_handle rec_store1)).1 = Ret (Some one_rid)) by (vm_compute; reflexivity).
      rewrite Hrun in Hc. by injection Hc. }
    rewrite Hr in Hsp. destruct Hsp as (rid&v&[= <-]&Hv&_&Hm). 
    assert (mread one_row 0 (record_size (file_hdr_ rec_handle)) = Some one_row) as Hv' by (vm_compute; reflexivity).
    rewrite Hv' in Hv. injection Hv as <-.
    unfold one_rm. rewrite Hrun. cbn [snd rm_handle rm_store]. rewrite Hm in Hi. exact (conj Hi Ho).
Qed.

Lemma one_env_ok : env_ok one_env.
Proof.
  assert (e_fds one_env = {[ 3 := ["t"] ]} ∧ out_path one_env = [OUTPUT_FILE] ∧ meta_path one_env = [DB_META_NAME])
    as (E1&E2&E3) by (split_and!; vm_compute; reflexivity).
  intros fd p. rewrite E1, E2, E3. intros [_ <-]%lookup_singleton_Some. split; discriminate.
Qed.

(** The insertion kept the invariant of the disk manager. *)
Lemma one_disk_inv : disk_inv (disk (rm_store one_rm)).
Proof.
  set (e1 := env_of (os (disk rec_store1))). set (out := os_files (os (disk rec_store1)) !! out_path e1).
  assert (He1 : env_ok e1).
  { intros fd p. assert (e_fds e1 = {[ 3 := ["t"] ]}) as -> by (vm_compute; reflexivity).
    intros [_ <-]%lookup_singleton_Some. split; vm_compute; discriminate. }
  assert (Hk : keeps (rm_env e1 out 2) (rm_op (RInsert one_row))).
  { cbn [rm_op]. apply keeps_bind; [by apply keeps_insert_record|]. intros r s H. done. }
  assert (Hs : rm_env e1 out 2 (mkRm rec_handle rec_store1)).
  { split; [reflexivity|]. split; [done|]. apply rec_store1_ok. }
  specialize (Hk _ Hs). unfold one_rm. destruct (rm_op (RInsert one_row) (mkRm rec_handle rec_store1)) as [r x]. apply Hk.
Qed.

Lemma one_handle : fd_ (rm_handle one_rm) = 3 ∧ num_pages (file_hdr_ (rm_handle one_rm)) = 2 ∧
  record_size (file_hdr_ (rm_handle one_rm)) = 8.
Proof. vm_compute. done. Qed.

Lemma one_data_lookup t x : one_data !! t = Some x → t = "t" ∧ x = (rm_handle one_rm, one_records).
Proof. unfold one_data. intros [<- <-]%lookup_singleton_Some. done. Qed.

Lemma one_sm_ok : tables_inv one_pages 2 one_env None one_db one_data one_sm.
Proof.
  destruct one_rm_ok as (T&Hi&Ho). destruct one_handle as (Hfd&Hnum&_).
  assert (Hfile : ∀ p, in_file (file_hdr_ (rm_handle one_rm)) p → mkPageId 3 p ∈ one_pages).
  { unfold in_file. rewrite Hnum. unfold RM_FIRST_RECORD_PAGE. intros p Hp. assert (p = 1) as -> by lia. by apply elem_of_singleton. }
  split.
  - done.
  - unfold one_sm, one_data. simpl. by rewrite map_fmap_singleton.
  - done.
  - intros t1 t2 x1 x2 [-> _]%one_data_lookup [-> _]%one_data_lookup. done.
  - exists T. split; [apply Hi|]. unfold one_data. by rewrite map_Forall_singleton.
  - intros t x p [-> ->]%one_data_lookup Hp. cbn [fst] in *. rewrite Hfd. by apply Hfile.
  - intros pid Hp. destruct (decide (pid_fd pid = 3)) as [E|E].
    + destruct pid as [fd p]. simpl in E. subst fd. apply Hfile. apply (ri_table _ _ _ _ Hi). rewrite Hfd.
      eapply pinned_resident; [apply Hi|done].
    + destruct Ho as (_&_&_&_&Ho). apply Ho in Hp; [|done]. eapply pinned_resident in Hp as [f Hf]; [|apply rec_store1_inv].
      vm_compute in Hf. discriminate.
  - vm_compute. done.
  - intros t x [-> ->]%one_data_lookup. cbn [fst]. rewrite Hfd. vm_compute. reflexivity.
  - intros pid Hp. exists "t", (rm_handle one_rm, one_records). split; [apply lookup_singleton_eq|]. cbn [fst]. rewrite Hfd.
    destruct (decide (pid_fd pid = 3)) as [E|E]; [done|]. destruct Ho as (_&_&_&Ho&_). apply Ho in Hp as [f Hf]; [|done].
    vm_compute in Hf. discriminate.
  - split; [reflexivity|]. split; [|apply one_disk_inv]. split; [reflexivity|]. vm_compute. done.
Qed.

Lemma one_described : described one_db one_data.
Proof.
  intros t (tab&Htab&_). assert (t = "t") as ->. { unfold get_table in Htab. simpl in Htab. by case_decide. }
  destruct one_handle as (_&_&Hs). exists (rm_handle one_rm), one_records. split_and!.
  - apply lookup_singleton_eq.
  - split; [|done| |done]; repeat constructor.
  - by rewrite Hs.
  - vm_compute. done.
  - unfold one_records. by intros r v [_ <-]%lookup_singleton_Some.
Qed.
