(* ===== verification/Query.v ===== *)
(** * The answer of a query

    From an analyzed query to the reply: [plan_query] makes a plan, [portal_start] turns it
    into executors, [select_from] runs them and prints the rows. *)

From S2P Require Import Prelude Errors Config Posix DiskManager Replacer BufferPool BufferPoolSpec BufferPoolProps.
From S2P Require Import Bitmap RecordFile RecordPage RecordSpec RecordStore RecordProps StrMap Values Text Meta Ast Analyze Plan.
From S2P Require Import Compare Planner PlannerProps Executor ExecutorProps Index Printer PrinterProps System Dml Txn Ql Server.
From S2P Require Import Tables SeqScan Columns Relational Select RecordClaims Sample.
From stdpp Require Import options.

(** ** A tree of any shape meets the contract of its root *)

Section any.
Context {S : Type} `{!TableAccess S} (fuel : nat) (junk : Z → list byte) (sh : Shape).
Context (I : S → Prop) (len : Z) (rows : list row) (fresh : ExecT sh → Prop) (P : ExecT sh → list row → Prop).

Definition any_fresh (a : AnyExec) : Prop := ∃ x, a = existT sh x ∧ fresh x.
Definition any_at (a : AnyExec) (rem : list row) : Prop := ∃ x, a = existT sh x ∧ P x rem.

Lemma any_cursor_ok :
  CursorOk (Cursor0 := shape_cursor fuel junk sh) I len rows fresh P →
  CursorOk (Cursor0 := any_cursor fuel junk) I len rows any_fresh any_at.
Proof.
  intros Hok. split.
  - intros _ w Hw (x&->&Hx). destruct (co_begin _ _ _ _ _ Hok x w Hw Hx) as (y&w'&E&Hw'&Hy).
    exists (existT sh y), w'. cbn [beginTuple any_cursor projT1 projT2]. rewrite (bind_Ret _ _ _ _ _ E).
    split_and!; [done|done|by exists y].
  - intros _ w v rem Hw (x&->&Hx). destruct (co_next _ _ _ _ _ Hok x w v rem Hw Hx) as (y&w'&E&Hw'&Hy).
    exists (existT sh y), w'. cbn [nextTuple any_cursor projT1 projT2]. rewrite (bind_Ret _ _ _ _ _ E).
    split_and!; [done|done|by exists y].
  - intros _ w rem Hw (x&->&Hx). exact (co_end _ _ _ _ _ Hok x w rem Hw Hx).
  - intros _ w v rem Hw (x&->&Hx). exact (co_Next _ _ _ _ _ Hok x w v rem Hw Hx).
  - intros _ rem (x&->&Hx). exact (co_len _ _ _ _ _ Hok x rem Hx).
  - apply Hok.
Qed.

Lemma collect_any (x : ExecT sh) (w : S) :
  collect_rids (Cursor0 := any_cursor fuel junk) fuel (existT sh x : AnyExec) w =
  collect_rids (Cursor0 := shape_cursor fuel junk sh) fuel x w.
Proof.
  assert (Hloop : ∀ k (y : ExecT sh) v, rid_loop (Cursor0 := any_cursor fuel junk) k (existT sh y : AnyExec) v =
    rid_loop (Cursor0 := shape_cursor fuel junk sh) k y v).
  { intros k. induction k as [|k IH]; intros y v; [done|]. cbn [rid_loop is_end nextTuple rid any_cursor projT1 projT2].
    unfold bind. destruct (@is_end _ _ (shape_cursor fuel junk sh) y v) as [[[]| |] v1]; [done| |done..].
    destruct (@nextTuple _ _ (shape_cursor fuel junk sh) y v1) as [[y'| |] v2]; [|done..]. unfold ret. by rewrite IH. }
  unfold collect_rids. cbn [beginTuple any_cursor projT1 projT2]. unfold bind.
  destruct (@beginTuple _ _ (shape_cursor fuel junk sh) x w) as [[y| |] v]; [|done..]. apply Hloop.
Qed.
End any.

(** ** Printing the rows *)

(** [output.txt] after some lines. *)
Definition lines_out (e : Env) (out : option (list byte)) (lines : list (list string)) : option (list byte) :=
  foldl (λ o l, appended e o (out_line l)) out lines.

Section printing.
Context {R : Type} `{!Replacer R, !ReplacerSpec R}.
Context (A : gset PageId) (n : Z) (e : Env) (He : env_ok e) (db : DbMeta).
Context (data : gmap string (RmFileHandle * gmap Rid row)) (fuel : nat).

Abbreviation here out := (tables_inv (R := R) A n e out db data).

Context {X : Type} `{!Cursor (SmState R) X} (fresh : X → Prop) (P : X → list row → Prop).
Context {B : Type} (f : B → row) (cells : B → list string) (bs : list B) (len : Z) (cs : list ColMeta).
Context (Hok : ∀ out, CursorOk (here out) len (f <$> bs) fresh P).
Context (Hcols : ∀ x rem, P x rem → Executor.cols x = Ret cs).
Context (Hcells : ∀ b, b ∈ bs → omap_list (col_text (f b)) cs = Ret (cells b)).

Lemma run_with_sm {A'} (m : M (SmState R) A') (w : World R) r s' :
  m (w_sm w) = (r, s') → with_sm m w = (r, mkWorld s' (w_ctx w)).
Proof using. intros E. unfold with_sm, zoom. by rewrite E. Qed.
Lemma run_with_ctx {A'} (m : M Context A') (w : World R) r c' :
  m (w_ctx w) = (r, c') → with_ctx m w = (r, mkWorld (w_sm w) c').
Proof using. intros E. unfold with_ctx, zoom. by rewrite E. Qed.

Lemma run_output out (w : World R) text :
  here out (w_sm w) →
  ∃ s', output text w = (Ret tt, mkWorld s' (w_ctx w)) ∧ here (appended e out text) s'.
Proof using He.
  intros Hi. destruct (tables_output A n e He out db data (w_sm w) text Hi) as (s'&E&Hi').
  exists s'. split; [by apply run_with_sm|done].
Qed.

Lemma run_prints_cons p o os c c' :
  run_prints p (o :: os) c = (Ret tt, c') → ∃ c1, run_print p o c = (Ret tt, c1) ∧ run_prints p os c1 = (Ret tt, c').
Proof using.
  unfold run_prints. cbn [for_each]. unfold bind. destruct (run_print p o c) as [[[]| |] c1]; [|done..]. eauto.
Qed.

Lemma select_row_ok p out w b r c' :
  here out (w_sm w) → b ∈ bs → rec_data r = f b → print_record p (cells b) (w_ctx w) = (Ret tt, c') →
  ∃ s', select_row p cs (Some r) w = (Ret tt, mkWorld s' c') ∧ here (appended e out (out_line (cells b))) s'.
Proof using He Hcells.
  clear Hok. intros Hi Hb Hr Hp. unfold select_row.
  assert (omap_list (λ col, r ← oderef (Some r); col_text (rec_data r) col) cs = Ret (cells b)) as Ec.
  { rewrite <- (Hcells b Hb), <- Hr. done. }
  unfold bind at 1, lift. rewrite Ec. rewrite (bind_Ret _ _ _ _ _ (run_with_ctx _ w _ _ Hp)).
  by destruct (run_output out (mkWorld (w_sm w) c') (out_line (cells b)) Hi) as (s'&E&Hi'); exists s'.
Qed.

(** The loop prints and writes the remaining rows. *)
Lemma select_loop_ok p k x out w rem c' :
  here out (w_sm w) → P x (f <$> rem) → rem ⊆ bs → (length rem < k)%nat →
  run_prints p ((λ b, PRecord (cells b)) <$> rem) (w_ctx w) = (Ret tt, c') →
  ∃ s', select_loop k p x w = (Ret (Z.of_nat (length rem)), mkWorld s' c') ∧ here (lines_out e out (cells <$> rem)) s'.
Proof using He Hcells Hok Hcols.
  revert x out w rem. induction k as [|k IH]; intros x out [w c] rem Hi Hx Hsub Hk Hp; [lia|]. simpl in Hi, Hp. cbn [select_loop].
  rewrite (bind_Ret _ _ _ _ _ (run_with_sm _ (mkWorld w c) _ _ (co_end _ _ _ _ _ (Hok out) x w _ Hi Hx))).
  destruct rem as [|b rem].
  - rewrite bool_decide_true by done. injection Hp as <-. by exists w.
  - rewrite bool_decide_false by done. simpl in Hx, Hk. apply run_prints_cons in Hp as (c1&Hp1&Hp). simpl in Hp1.
    destruct (co_Next _ _ _ _ _ (Hok out) x w _ _ Hi Hx) as (r&w1&E1&Hi1&Hr).
    rewrite (bind_Ret _ _ _ _ _ (run_with_sm _ (mkWorld w c) _ _ E1)).
    unfold bind at 1, lift. rewrite (Hcols x _ Hx).
    destruct (select_row_ok p out (mkWorld w1 c) b r c1) as (s2&E2&Hi2); [done|apply Hsub; by left|done|done|].
    rewrite (bind_Ret _ _ _ _ _ E2).
    destruct (co_next _ _ _ _ _ (Hok _) x s2 _ _ Hi2 Hx) as (x'&w3&E3&Hi3&Hx3).
    rewrite (bind_Ret _ _ _ _ _ (run_with_sm _ (mkWorld s2 c1) _ _ E3)).
    destruct (IH x' _ (mkWorld w3 c1) rem Hi3 Hx3) as (s4&E4&Hi4); [set_solver|lia|done|].
    rewrite (bind_Ret _ _ _ _ _ E4). exists s4. split; [|done]. unfold ret. do 2 f_equal. simpl. lia.
Qed.

(** The calls of the printer for a table of answers. *)
Definition answer_prints (captions : list string) (rows : list (list string)) : list PrintOp :=
  PSeparator :: PRecord captions :: PSeparator :: (PRecord <$> rows).

Definition sent (c : Context) : list byte := take (Z.to_nat (offset_ c)) (data_send_ c).

(** The reply is followed by a NUL. *)
Definition reply_ends (c : Context) : Prop :=
  length (data_send_ c) = Z.to_nat BUFFER_LENGTH ∧ Forall (.= x00) (drop (Z.to_nat (offset_ c)) (data_send_ c)) ∧
  0 <= offset_ c ∧ offset_ c + 1 <= BUFFER_LENGTH.

Lemma select_from_ok root sel out w :
  here out (w_sm w) → fresh_ctx (w_ctx w) → fresh root → sel ≠ [] →
  (∀ b, b ∈ bs → length (cells b) = length sel) → (length bs < fuel)%nat → Z.of_nat (length bs) < 10 ^ 14 →
  ∃ w', select_from fuel root sel w = (Ret tt, w') ∧
    let rows := cells <$> bs in let captions := col_name <$> sel in
    here (lines_out e out (captions :: rows)) (w_sm w') ∧
    sent (w_ctx w') = str_bytes (reply_text (Z.of_nat (length sel)) (answer_prints captions rows ++ [PSeparator]) (Z.of_nat (length bs))) ∧
    reply_ends (w_ctx w').
Proof using He Hcells Hok Hcols.
  intros Hi Hc Hfr Hne Hlen Hf Hnum. destruct w as [w c]. simpl in Hi, Hc.
  set (k := Z.of_nat (length sel)). set (captions := col_name <$> sel).
  destruct (printed_ok k (answer_prints captions (cells <$> bs)) (Z.of_nat (length bs)) c) as (c'&Hrun&Hl&Ho&Ht&Hz&Hb).
  { done. }
  { unfold answer_prints, captions, k. repeat constructor; [simpl; by rewrite length_fmap|].
    apply Forall_fmap, Forall_fmap, Forall_forall. intros b Hin. simpl. by rewrite Hlen. }
  { lia. }
  (* the prints one by one *)
  unfold bind at 1 in Hrun. destruct (run_prints _ _ c) as [[[]| |] c5] eqn:Hps; [|done..].
  apply run_prints_cons in Hps as (c1&H1&(c2&H2&(c3&H3&H4)%run_prints_cons)%run_prints_cons).
  simpl in H1, H2, H3. rewrite <- list_fmap_compose in H4.
  unfold bind at 1 in Hrun. destruct (print_separator _ c5) as [[[]| |] c6] eqn:H5; [|done..].
  unfold select_from.
  assert (Hmk : RecordPrinter_make k c = (Ret (mkRecordPrinter k), c)).
  { unfold RecordPrinter_make, k. destruct (Z.gtb_spec (Z.of_nat (length sel)) 0); [done|]. destruct sel; [done|simpl in *; lia]. }
  rewrite (bind_Ret _ _ _ _ _ (run_with_ctx _ (mkWorld w c) _ _ Hmk)).
  rewrite (bind_Ret _ _ _ _ _ (run_with_ctx _ (mkWorld w c) _ _ H1)).
  rewrite (bind_Ret _ _ _ _ _ (run_with_ctx _ (mkWorld w c1) _ _ H2)).
  rewrite (bind_Ret _ _ _ _ _ (run_with_ctx _ (mkWorld w c2) _ _ H3)).
  destruct (run_output out (mkWorld w c3) (out_line captions) Hi) as (w1&E1&Hi1). rewrite (bind_Ret _ _ _ _ _ E1).
  destruct (co_begin _ _ _ _ _ (Hok _) root w1 Hi1 Hfr) as (x&w2&E2&Hi2&Hx).
  rewrite (bind_Ret _ _ _ _ _ (run_with_sm _ (mkWorld w1 c3) _ _ E2)).
  destruct (select_loop_ok (mkRecordPrinter k) fuel x _ (mkWorld w2 c3) bs c5 Hi2 Hx) as (w3&E3&Hi3); [done|done|done|].
  rewrite (bind_Ret _ _ _ _ _ E3).
  rewrite (bind_Ret _ _ _ _ _ (run_with_ctx _ (mkWorld w3 c5) _ _ H5)).
  eexists. split; [by apply run_with_ctx|]. simpl. split_and!; [done|exact Ht|]. unfold reply_ends. rewrite Ho. pose proof (str_size_nonneg (reply_text k (answer_prints captions (cells <$> bs) ++ [PSeparator]) (Z.of_nat (length bs)))) as Hn0.
  rewrite <- Ho. split_and!; [done|done|lia|done].
Qed.
End printing.

(** ** Plans over one or two tables *)

Definition is_scan (p : Plan) : Prop := match p with ScanPlan _ _ _ _ _ _ _ => True | _ => False end.

Lemma plan_tables_some p : plan_placed p → (1 <= length (plan_tables p))%nat.
Proof.
  induction p as [|tag t cols cs len fed idx|tag l IHl r IHr cs ty| | | | |]; try done; simpl.
  intros (Hl&_). specialize (IHl Hl). rewrite length_app. lia.
Qed.

Lemma one_table_scan p : plan_placed p → (length (plan_tables p) <= 1)%nat → is_scan p.
Proof.
  destruct p as [|tag t cols cs len fed idx|tag l r cs ty| | | | |]; try done. simpl. intros (Hl&Hr&_).
  apply plan_tables_some in Hl, Hr. rewrite length_app. lia.
Qed.

Lemma two_table_join tag l r cs ty :
  plan_placed (JoinPlan tag l r cs ty) → (length (plan_tables (JoinPlan tag l r cs ty)) <= 2)%nat → is_scan l ∧ is_scan r.
Proof.
  simpl. intros (Hl&Hr&_) Hn. rewrite length_app in Hn. pose proof (plan_tables_some l Hl). pose proof (plan_tables_some r Hr).
  split; apply one_table_scan; (done || lia).
Qed.

Lemma small_linear p :
  plan_placed p → (length (plan_tables p) <= 2)%nat → Forall seq_scan (leaves p) → linear p.
Proof.
  destruct p as [|tag t cols cs len fed idx|tag l r cs ty| | | | |]; intros Hp Hn; try done.
  - by intros [Hs _]%Forall_cons.
  - destruct (two_table_join _ _ _ _ _ Hp Hn) as [Hl Hr]. destruct l, r; try done.
    simpl. by intros [Hs1 [Hs2 _]%Forall_cons]%Forall_cons.
Qed.

Section answer.
Context {R : Type} `{!Replacer R, !ReplacerSpec R}.
Context (A : gset PageId) (n : Z) (e : Env) (He : env_ok e) (db : DbMeta).
Context (data : gmap string (RmFileHandle * gmap Rid row)).
Context (fuel : nat) (junk : Z → list byte) (Hjunk : ∀ k, 0 <= k → Z.of_nat (length (junk k)) = k).
Context (Hdesc : described db data).

Abbreviation here out := (tables_inv (R := R) A n e out db data).
Abbreviation rows_of := (rows_of data).
Abbreviation described_cols := (described_cols db data Hdesc).
Abbreviation described_rows := (described_rows db data Hdesc).

Definition tables_len (ts : list string) : Z := foldr (λ t, Z.add (table_len db t)) 0 ts.

Lemma plan_len_tables p : plan_placed p → plan_len db p = tables_len (plan_tables p).
Proof using.
  unfold tables_len. induction p as [|tag t cols cs len fed idx|tag l IHl r IHr cs ty| | | | |]; try done; simpl; [lia|].
  intros (Hl&Hr&_). rewrite IHl, IHr by done. generalize (plan_tables l). intros ts. induction ts as [|t ts IH]; simpl; lia.
Qed.

Lemma tables_len_perm ts us : ts ≡ₚ us → tables_len ts = tables_len us.
Proof using. induction 1; simpl; lia. Qed.

(** What the theorems about a query over stored tables suppose of it: the planner places its conditions
    rightly ([plannable]: in particular a comparison of two columns of one table is about the first
    table, see [first_scan_takes] for the others), there are at most two tables, none with an index,
    a comparison is of columns of one type and width or with a literal, and the sizes are within bounds. *)
Record query_ok (q : Query) : Prop := {
  qo_plannable : plannable db q;
  qo_some : tables q ≠ [];
  qo_two : (length (tables q) <= 2)%nat;
  qo_noindex : Forall (no_index db) (tables q);
  qo_conds : Forall (cond_ok db (tables q)) (conds q);
  qo_cols : Analyze.cols q ≠ [];
  qo_selectable : Forall (selectable db (tables q)) (Analyze.cols q);
  qo_sel_len : sel_len db (Analyze.cols q) < 2 ^ 31;
  qo_len : tables_len (tables q) < 2 ^ 31;
  qo_rows : ∀ t, t ∈ tables q → (length (rows_of t) < fuel)%nat;
  qo_answers : (length (bindings rows_of (tables q)) < fuel)%nat;
  qo_count : Z.of_nat (length (bindings rows_of (tables q))) < 10 ^ 14;
}.

Lemma scan_rows_length p :
  is_scan p → plan_placed p → (∀ t, t ∈ plan_tables p → (length (rows_of t) < fuel)%nat) →
  (length (row_of p <$> plan_bindings db rows_of p) < fuel)%nat.
Proof using.
  destruct p as [|tag t cols cs len fed idx|tag l r cs ty| | | | |]; try done. intros _ _ H.
  rewrite length_fmap. simpl. specialize (H t ltac:(simpl; by left)).
  eapply Nat.le_lt_trans; [apply length_filter|]. by rewrite length_fmap.
Qed.

Lemma small_enough p :
  plan_placed p → (length (plan_tables p) <= 2)%nat → (∀ t, t ∈ plan_tables p → (length (rows_of t) < fuel)%nat) →
  enough db data fuel p.
Proof using.
  destruct p as [|tag t cols cs len fed idx|tag l r cs ty| | | | |]; intros Hp Hn Hr; try done.
  - apply Hr. simpl. by left.
  - destruct (two_table_join _ _ _ _ _ Hp Hn) as [Hl Hr']. pose proof Hp as (Hpl&Hpr&_).
    assert (∀ t, t ∈ plan_tables l ∨ t ∈ plan_tables r → (length (rows_of t) < fuel)%nat) as Hr2.
    { intros t Ht. apply Hr. simpl. by apply elem_of_app. }
    assert (Hs : ∀ q, is_scan q → (∀ t, t ∈ plan_tables q → (length (rows_of t) < fuel)%nat) → enough db data fuel q).
    { intros q Hq Hrq. destruct q; try done. apply Hrq. simpl. by left. }
    simpl. split_and!; [apply Hs; auto|apply Hs; auto|apply scan_rows_length; auto|apply scan_rows_length; auto].
Qed.

(** The plan of a query gives its answers. *)
Lemma plan_answers q :
  query_ok q →
  ∃ p, make_one_rel db q = Ret p ∧ tree db p ∧ linear p ∧ enough db data fuel p ∧
    Forall (cond_ok db (tables q)) (plan_conds p) ∧ plan_tables p ≡ₚ tables q ∧
    plan_bindings db rows_of p ≡ₚ answers db rows_of (tables q) (conds q).
Proof using Hdesc.
  intros Hq. destruct (make_one_rel_ok db q (qo_some _ Hq) (qo_plannable _ Hq)) as (p&ps&rest&E&Hp&Ht&Hcs&Hscans&Hl).
  destruct (qo_plannable _ Hq) as (Hnd&Hne&Hscan&_).
  assert (Hlen : (length (plan_tables p) <= 2)%nat) by (rewrite (Permutation_length Ht); apply Hq).
  assert (Htree : tree db p).
  { split_and!; [done|by rewrite Ht|by rewrite Ht|]. rewrite plan_len_tables, (tables_len_perm _ _ Ht) by done. apply Hq. }
  assert (Hplaced : Forall (λ c, tab_name (lhs_col c) ∈ tables q) (plan_conds p)).
  { apply Forall_forall. intros c Hc. rewrite <- Ht. apply (placed_tables p c); [done|done|]. unfold cond_tables. by left. }
  exists p. split_and!; [done|done| | | |done|].
  - apply small_linear; [done|done|]. rewrite Hl. eapply make_scans_seq; [apply Hq|done].
  - apply small_enough; [done|done|]. intros t. rewrite Ht. apply Hq.
  - by apply (same_conds_ok db (tables q) (conds q)); [|apply Hq| |].
  - rewrite plan_bindings_answers by (apply described_cols || done). unfold answers.
    rewrite (bindings_perm rows_of _ _ Ht) by by rewrite Ht. apply reflexive_eq, list_filter_iff'. intros b Hb.
    rewrite (same_conds_hold db rows_of described_cols described_rows b (tables q) (conds q) (plan_conds p)); [done| |done|apply Hq|done|done].
    by apply elem_of_bindings.
Qed.

(** ** From the plan to the reply *)

Context (self_thread : Z).

(** A projection over the plan starts a query. *)
Lemma portal_start_ok q p out w :
  query_ok q → tree db p → linear p → enough db data fuel p → Forall (cond_ok db (tables q)) (plan_conds p) →
  plan_tables p ≡ₚ tables q → here out w →
  let plan := DMLPlan T_select (ProjectionPlan T_Projection p (Analyze.cols q)) "" [] [] [] in
  ∃ sh x, portal_start fuel junk plan w =
      (Ret (mkPortalStmt PORTAL_ONE_SELECT (Analyze.cols q) (TreeRoot (existT sh x)) plan), w) ∧
    root_gives A n e db data fuel junk p (Analyze.cols q) sh x.
Proof using He Hjunk Hdesc.
  intros Hq Hp Hl Hen Hok Ht Hi plan.
  set (hf := λ t : string, bool_decide (is_Some (fhs_ w !! t))).
  assert (Hfile : ∀ t, is_Some (data !! t) → hf t = true).
  { intros t [[hd m] Hd]. unfold hf. rewrite (tables_handle _ _ _ _ _ _ _ _ _ _ Hi Hd). by apply bool_decide_true. }
  destruct (convert_gives A n e He db data fuel junk Hdesc hf Hfile (tables q) p Hp Hl Hen Hok) as (sh&x&Ex&Hg).
  destruct (root_gives_ok A n e db data fuel junk Hjunk Hdesc p (Analyze.cols q) sh x Hp Hg) as (y&Ey&Hy).
  { apply Hq. }
  { eapply Forall_impl; [apply Hq|]. intros tc [Hin Hc]. split; [by rewrite Ht|done]. }
  { apply Hq. }
  exists (ShProj sh), y. split; [|done]. cbn [portal_start plan].
  assert (Hconv : convert fuel junk (ProjectionPlan T_Projection p (Analyze.cols q)) w = (Ret (Some (existT (ShProj sh) y)), w)).
  { unfold convert, bind, gets, lift. rewrite (ti_db _ _ _ _ _ _ _ Hi). fold hf. cbn [convert_plan_executor].
    rewrite Ex. cbn [mbind outcome_bind oderef projT1 projT2]. by rewrite Ey. }
  by rewrite (bind_Ret _ _ _ _ _ Hconv).
Qed.

Definition query_reply (q : Query) (bs : list Binding) : string :=
  reply_text (Z.of_nat (length (Analyze.cols q)))
    (answer_prints (col_name <$> Analyze.cols q) (answer_cells db (Analyze.cols q) <$> bs) ++ [PSeparator]) (Z.of_nat (length bs)).

Definition query_lines (q : Query) (bs : list Binding) : list (list string) :=
  (col_name <$> Analyze.cols q) :: (answer_cells db (Analyze.cols q) <$> bs).

Lemma run_select (s : Session R) out t q x txn :
  here out (w_sm (se_world s)) → fresh_ctx (w_ctx (se_world s)) →
  do_analyze db t = Ret q → parse q = ast.SelectStmt x → ast.has_sort x = false → query_ok q →
  ∃ s' bs, run_statement fuel junk self_thread t txn s = (Ret tt, s') ∧
    bs ≡ₚ answers db rows_of (tables q) (conds q) ∧
    here (lines_out e out (query_lines q bs)) (w_sm (se_world s')) ∧
    sent (w_ctx (se_world s')) = str_bytes (query_reply q bs) ∧ reply_ends (w_ctx (se_world s')).
Proof using He Hjunk Hdesc.
  destruct s as [[w c] tm tx]. simpl. intros Hi Hc Ha Hparse Hsort Hq.
  destruct (plan_answers q Hq) as (p&Ep&Hp&Hl&Hen&Hok&Ht&Hperm).
  destruct (portal_start_ok q p out w Hq Hp Hl Hen Hok Ht Hi) as (sh&y&Estart&fresh&P&cs&len&f&Hfr&Hcur&Hcols&Hcells).
  set (plan := DMLPlan T_select (ProjectionPlan T_Projection p (Analyze.cols q)) "" [] [] []) in *.
  assert (Hplan : plan_query db q = Ret plan).
  { unfold plan_query. rewrite Hparse. unfold do_planner. rewrite Hparse. unfold generate_select_plan, logical_optimization, physical_optimization.
    rewrite Ep. cbn [mbind outcome_bind]. unfold generate_sort_plan. by rewrite Hsort. }
  set (bs := plan_bindings db rows_of p) in *.
  assert (Hlen : (length bs <= length (bindings rows_of (tables q)))%nat).
  { rewrite (Permutation_length Hperm). apply length_filter. }
  destruct (select_from_ok A n e He db data fuel (any_fresh sh fresh) (any_at sh P) f (answer_cells db (Analyze.cols q)) bs len cs
    (λ out, any_cursor_ok fuel junk sh _ _ _ _ _ (Hcur out)) ltac:(intros _ rem (z&->&Hz); by apply (Hcols z rem)) Hcells
    (existT sh y) (Analyze.cols q) out (mkWorld w c) Hi Hc) as (w'&Erun&Hi'&Hsent&Hends).
  { by exists y. }
  { apply Hq. }
  { intros b _. apply length_fmap. }
  { pose proof (qo_answers _ Hq). lia. }
  { pose proof (qo_count _ Hq). lia. }
  exists (mkSession w' tm tx), bs. split; [|by split_and!].
  unfold run_statement. unfold bind at 1, gets. simpl. rewrite (ti_db _ _ _ _ _ _ _ Hi).
  unfold bind at 1, lift. rewrite Ha. unfold bind at 1. rewrite Hplan.
  unfold bind at 1, on_world, zoom. cbn [se_world]. rewrite (run_with_sm _ (mkWorld w c) _ _ Estart).
  unfold portal_run, on_world, zoom. cbn [ps_tag ps_root ps_sel_cols se_world se_tm se_txn w_ctx].
  match goal with |- context [select_from fuel ?a ?b ?c] => assert (select_from fuel a b c = (Ret tt, w')) as -> by exact Erun end.
  done.
Qed.
Lemma reply_bytes c : reply_ends c → mread (data_send_ c) 0 (offset_ c + 1) = Some (sent c ++ [x00]).
Proof using.
  intros (Hl&Hz&H0&H1). unfold sent. apply mread_Some.
  assert (Ho : (Z.to_nat (offset_ c) < length (data_send_ c))%nat) by (rewrite Hl; lia).
  destruct (drop (Z.to_nat (offset_ c)) (data_send_ c)) as [|b rest] eqn:E.
  { apply (f_equal length) in E. rewrite length_drop in E. simpl in E. lia. }
  apply Forall_cons in Hz as [-> _]. split_and!; [lia|lia|rewrite Hl; unfold BUFFER_LENGTH in *; lia|].
  change (Z.to_nat 0) with 0%nat. rewrite drop_0, Z2Nat.inj_add by lia. rewrite <- take_take_drop, E. done.
Qed.

(** ** From the text to the reply *)

Context (yyparse : string → option (option ast.TreeNode)).

(** The session a request starts with. *)
Definition fresh_session (s : Session R) : Session R :=
  mkSession (mkWorld (w_sm (se_world s)) (mkContext (zeros BUFFER_LENGTH) 0 false)) (se_tm s) None.

Lemma request_run (s s' : Session R) text t txn bytes :
  text ≠ "exit" → text ≠ "crash" → yyparse text = Some (Some t) →
  run_statement fuel junk self_thread t txn (fresh_session s) = (Ret tt, s') →
  mread (data_send_ (w_ctx (se_world s'))) 0 (offset_ (w_ctx (se_world s')) + 1) = Some bytes →
  handle_request fuel junk self_thread yyparse text txn s = (Ret (Reply bytes), s').
Proof using.
  intros Hexit Hcrash Hparse Hrun Hbytes. unfold handle_request. rewrite !decide_False by done.
  unfold bind at 1, new_context, modify. fold (fresh_session s). rewrite Hparse.
  assert (Hc : catch (run_statement fuel junk self_thread t txn) (λ e, on_world (error_reply e)) (fresh_session s) = (Ret tt, s')).
  { unfold catch. by rewrite Hrun. }
  rewrite (bind_Ret _ _ _ _ _ Hc). unfold bind at 1, gets. by rewrite Hbytes.
Qed.

Lemma select_request_ok (s : Session R) out text t q x txn :
  here out (w_sm (se_world s)) → text ≠ "exit" → text ≠ "crash" → yyparse text = Some (Some t) →
  do_analyze db t = Ret q → parse q = ast.SelectStmt x → ast.has_sort x = false → query_ok q →
  ∃ s' bs, handle_request fuel junk self_thread yyparse text txn s =
      (Ret (Reply (str_bytes (query_reply q bs) ++ [x00])), s') ∧
    bs ≡ₚ answers db rows_of (tables q) (conds q) ∧
    here (lines_out e out (query_lines q bs)) (w_sm (se_world s')).
Proof using He Hjunk Hdesc.
  intros Hi Hexit Hcrash Hparse Ha Hq Hsort Hok.
  destruct (run_select (fresh_session s) out t q x txn Hi) as (s'&bs&Hrun&Hperm&Hi'&Hsent&Hends); [done..|].
  exists s', bs. split; [|done]. eapply request_run; [done..|]. by rewrite reply_bytes, Hsent.
Qed.

(** C3: A SELECT gives the answer of its query, if the query is one the planner and the executors
    handle rightly: it is over one or two different open tables without indexes; it has no ORDER BY (with
    one the server crashes); its conditions compare a column of these tables with a literal,
    with a column of the other table, or, in the first table of the FROM list only, with a column
    of the same table (such a comparison on the second table is put on the scan of the first one, see
    [first_scan_takes], and this theorem says nothing of it); two columns that are compared have one
    type and one width; the sizes are within the bounds of [query_ok].  A request whose text the
    parser turns into such a query is answered with exactly one row for every combination of rows of the
    tables that satisfies all conditions: the reply is the printed table of these answers,
    in some order, with their number, as far as the buffer has room, then a NUL; the same
    rows are appended to [output.txt]; the tables are left as they were. *)
Theorem select_request (s : Session R) out text t q x txn :
  here out (w_sm (se_world s)) → text ≠ "exit" → text ≠ "crash" → yyparse text = Some (Some t) →
  do_analyze db t = Ret q → parse q = ast.SelectStmt x → ast.has_sort x = false → query_ok q →
  ∃ s' bs, handle_request fuel junk self_thread yyparse text txn s =
      (Ret (Reply (str_bytes (query_reply q bs) ++ [x00])), s') ∧
    bs ≡ₚ answers db rows_of (tables q) (conds q) ∧
    here (lines_out e out (query_lines q bs)) (w_sm (se_world s')).
Proof using He Hjunk Hdesc. apply select_request_ok. Qed.
End answer.

(** ** [SELECT name FROM t WHERE id = 7;] on the small database *)

Definition one_select (tabs : list string) : ast.SelectNode :=
  ast.SelectNode_make [ast.mkCol "t" "name"] tabs
    [ast.mkBinaryExpr (ast.mkCol "t" "id") ast.SV_OP_EQ (ast.EValue (ast.IntLit 7))] None.

Definition one_parser (text : string) : option (option ast.TreeNode) :=
  if decide (text = "SELECT name FROM t WHERE id = 7;") then Some (Some (ast.SelectStmt (one_select ["t"]))) else None.

Definition one_session : Session LRUReplacer :=
  mkSession (mkWorld one_sm (mkContext (zeros BUFFER_LENGTH) 0 false)) (mkTM ∅ TWO_PHASE_LOCKING 0 0) None.

(** The analyzer moves the table names out of the tree. *)
Definition one_query : Query :=
  mkQuery (ast.SelectStmt (one_select []))
    [mkCondition (mkTabCol "t" "id") OP_EQ true (mkTabCol "" "") (mkValue TYPE_INT 7 "" (Some (mkRmRecord (int_bytes 7) 4 true)))]
    [mkTabCol "t" "name"] ["t"] [] [].

Lemma one_query_fits data : (length (rows_of data "t") <= 1)%nat → query_ok one_db data 10 one_query.
Proof.
  intros Hr. assert (Hs : scannable one_db "t") by (eexists; split; [reflexivity|done]).
  assert (Hb : (length (bindings (rows_of data) ["t"]) <= 1)%nat).
  { simpl. destruct (rows_of data "t") as [|x [|y l]]; simpl in *; lia. }
  split.
  - unfold plannable. split_and!; [|set_solver|by constructor| |].
    + apply NoDup_singleton.
    + constructor; [|done]. split; [by left|done].
    + constructor; [done|done].
  - done.
  - simpl. lia.
  - constructor; [|done]. intros tab Ht. vm_compute in Ht. by injection Ht as <-.
  - constructor; [|done]. split; [by left|]. eexists. split; [reflexivity|]. simpl. split; [done|]. by eexists.
  - done.
  - constructor; [|done]. split; [by left|]. by eexists.
  - vm_compute. done.
  - vm_compute. done.
  - intros t ->%list_elem_of_singleton. lia.
  - change (tables one_query) with ["t"]. lia.
  - change (tables one_query) with ["t"]. lia.
Qed.

Lemma one_query_ok : query_ok one_db one_data 10 one_query.
Proof. apply one_query_fits. vm_compute. lia. Qed.

Lemma select_request_witness :
  ∃ s' bs, handle_request 10 zeros 0 one_parser "SELECT name FROM t WHERE id = 7;" 0 one_session =
      (Ret (Reply (str_bytes (query_reply one_db one_query bs) ++ [x00])), s') ∧
    bs ≡ₚ answers one_db (rows_of one_data) ["t"] (conds one_query) ∧ length bs = 1%nat.
Proof.
  destruct (select_request one_pages 2 one_env one_env_ok one_db one_data 10 zeros
    ltac:(intros; rewrite length_zeros; lia) one_described 0 one_parser one_session None
    "SELECT name FROM t WHERE id = 7;" (ast.SelectStmt (one_select ["t"])) one_query
    (one_select []) 0) as (s'&bs&Hrun&Hperm&_).
  - apply one_sm_ok.
  - done.
  - done.
  - done.
  - vm_compute. reflexivity.
  - reflexivity.
  - reflexivity.
  - apply one_query_ok.
  - exists s', bs. split; [exact Hrun|]. split; [exact Hperm|]. rewrite (Permutation_length Hperm). vm_compute. reflexivity.
Defined.
