(* ===== verification/Statements.v ===== *)
(** * INSERT, DELETE and UPDATE

    What a data manipulation statement does to the rows of its table, from the request to the
    stored bytes. *)

From S2P Require Import Prelude Errors Config Posix DiskManager Replacer BufferPool BufferPoolSpec BufferPoolProps.
From S2P Require Import Bitmap RecordFile RecordPage RecordSpec RecordStore RecordProps StrMap Values Text Meta Ast Analyze Plan.
From S2P Require Import Compare Planner PlannerProps Executor ExecutorProps Index Printer PrinterProps System Dml Txn Ql Server.
From S2P Require Import Tables SeqScan Columns Relational Select RecordClaims Sample Query.
From stdpp Require Import options.

(** ** Operations on one table *)

Section table_ops.
Context {R : Type} `{!Replacer R, !ReplacerSpec R}.
Context (A : gset PageId) (n : Z) (e : Env) (He : env_ok e) (out : option (list byte)) (db : DbMeta).

Abbreviation here := (tables_inv (R := R) A n e out db).

(** The table [t] keeps its descriptor, its record size and its pages. *)
Definition same_file (hd hd' : RmFileHandle) : Prop :=
  fd_ hd' = fd_ hd ∧ record_size (file_hdr_ hd') = record_size (file_hdr_ hd) ∧
  num_pages (file_hdr_ hd') = num_pages (file_hdr_ hd).

#[global] Instance same_file_trans : Transitive same_file.
Proof using. intros a b c (?&?&?) (?&?&?). unfold same_file. split_and!; congruence. Qed.

Lemma tables_access data w t hd m r :
  here data w → data !! t = Some (hd, m) → is_Some (m !! r) →
  ∃ T, rm_inv T hd (sm_store w) m ∧ can_access hd (sm_store w) r ∧ fhs_ w !! t = Some hd.
Proof using.
  intros Hi Ht Hr. destruct (ti_files _ _ _ _ _ _ _ Hi) as (T&_&Hf). pose proof (Hf t _ Ht) as Hrm. simpl in Hrm.
  destruct (record_in_file _ _ _ _ _ Hrm Hr) as [Hin Hk]. exists T.
  split_and!; [done|split_and!; [done|lia|lia|right; by eapply tables_available]|by eapply tables_handle].
Qed.

Lemma tables_same data w t hd hd' m m' s' T' :
  here data w → data !! t = Some (hd, m) → rm_inv T' hd' s' m' → same_file hd hd' →
  others_kept (fd_ hd) (sm_store w) s' → store_env e out n s' →
  here (<[t := (hd', m')]> data) (mkSm (db_ w) (<[t := hd']> (fhs_ w)) (ihs_ w) s').
Proof using.
  intros Hi Ht Hi' (Hfd&_&Hnp) Ho He'. eapply tables_step; [done..|]. intros p Hp.
  apply (ti_pages _ _ _ _ _ _ _ Hi t (hd, m) p Ht). unfold in_file in *. simpl. by rewrite <- Hnp.
Qed.

Lemma tables_delete data w t hd m r :
  here data w → data !! t = Some (hd, m) → is_Some (m !! r) →
  ∃ hd' w', with_table t (delete_record r) w = (Ret tt, w') ∧ same_file hd hd' ∧
    here (<[t := (hd', delete r m)]> data) w'.
Proof using He.
  intros Hi Ht Hr. destruct (tables_access data w t hd m r Hi Ht Hr) as (T&Hrm&Hacc&Hh). destruct Hr as [old Hr].
  destruct (delete_ok_rec T hd (sm_store w) m r old Hrm Hacc Hr) as (hd'&s'&T'&Hrun&Hi'&Hfd&Ho&_&[Hrs _]&Hnp).
  assert (same_file hd hd') as Hsame by by split_and!.
  eexists hd', _. split_and!; [by eapply with_table_run|done|]. eapply tables_same; [done..|].
  eapply (keeps_run (rm_env e out n) _ (mkRm hd (sm_store w)) _ (mkRm hd' s')); [by apply keeps_delete_record|apply Hi|done].
Qed.

Lemma tables_update data w t hd m r buf v :
  here data w → data !! t = Some (hd, m) → is_Some (m !! r) → mread buf 0 (record_size (file_hdr_ hd)) = Some v →
  ∃ w', with_table t (update_record r buf) w = (Ret tt, w') ∧ here (<[t := (hd, <[r := v]> m)]> data) w'.
Proof using He.
  intros Hi Ht Hr Hv. destruct (tables_access data w t hd m r Hi Ht Hr) as (T&Hrm&Hacc&Hh). destruct Hr as [old Hr].
  destruct (update_ok T hd (sm_store w) m r buf v old Hrm Hacc Hr Hv) as (s'&T'&Hrun&Hi'&Ho&_).
  eexists. split; [by eapply with_table_run|]. eapply tables_same; [done..| |done|].
  - by split_and!.
  - eapply (keeps_run (rm_env e out n) _ (mkRm hd (sm_store w)) _ (mkRm hd s')); [by apply keeps_update_record|apply Hi|done].
Qed.

(** There is a place for one more record: on a page with room, or on a new page that the file
    and the pool can take. *)
Definition insertable (hd : RmFileHandle) : Prop :=
  first_free_page_no (file_hdr_ hd) = RM_NO_PAGE →
  num_pages (file_hdr_ hd) < INT_MAX ∧ mkPageId (fd_ hd) (num_pages (file_hdr_ hd)) ∈ A ∧
  (num_pages (file_hdr_ hd) + 1) * PAGE_SIZE <= e_limit e.

Lemma insertable_can_insert data w t hd m :
  here data w → data !! t = Some (hd, m) → insertable hd → can_insert hd (sm_store w).
Proof using.
  clear He.
  intros Hi Ht Hin. destruct (ti_files _ _ _ _ _ _ _ Hi) as (T&_&Hf). pose proof (Hf t _ Ht) as Hrm. simpl in Hrm.
  pose proof (tables_available _ _ _ _ _ _ _ Hi) as Hav. unfold can_insert.
  destruct (Z.eqb_spec (first_free_page_no (file_hdr_ hd)) RM_NO_PAGE) as [E|E]; [|by right].
  destruct (Hin E) as (Hmax&_&Hlim). destruct (ti_env _ _ _ _ _ _ _ Hi) as [_ Henv]. split_and!; [done|done|].
  pose proof (fo_num _ _ _ (ri_file _ _ _ _ Hrm)). split_and!; simpl.
  - eapply env_content; [done|]. pose proof (ti_open _ _ _ _ _ _ _ Hi t _ Ht) as Ho. simpl in Ho. by rewrite Ho.
  - lia.
  - destruct Henv as [[<- _] _]. done.
Qed.

Lemma tables_insert data w t hd m buf v :
  here data w → data !! t = Some (hd, m) → insertable hd → mread buf 0 (record_size (file_hdr_ hd)) = Some v →
  ∃ r hd' w', with_table t (insert_record buf) w = (Ret r, w') ∧ m !! r = None ∧
    record_size (file_hdr_ hd') = record_size (file_hdr_ hd) ∧ here (<[t := (hd', <[r := v]> m)]> data) w'.
Proof using He.
  intros Hi Ht Hin Hv. destruct (ti_files _ _ _ _ _ _ _ Hi) as (T&_&Hf). pose proof (Hf t _ Ht) as Hrm. simpl in Hrm.
  pose proof (insertable_can_insert data w t hd m Hi Ht Hin) as Hc.
  destruct (insert_ok T hd (sm_store w) m buf v Hrm Hc Hv) as (r&hd'&s'&T'&Hrun&Hi'&Hno&Hfd&Ho&_&Hrs&Hnp&Hgrow).
  eexists r, hd', _. split_and!; [eapply with_table_run; [by eapply tables_handle|done]|done|done|].
  eapply tables_step; [done..| |].
  - eapply (keeps_run (rm_env e out n) _ (mkRm hd (sm_store w)) _ (mkRm hd' s')); [by apply keeps_insert_record|apply Hi|done].
  - intros p Hp. destruct (decide (p < num_pages (file_hdr_ hd))) as [Hlt|Hge].
    + apply (ti_pages _ _ _ _ _ _ _ Hi t (hd, m) p Ht). unfold in_file in *. simpl in *. lia.
    + assert (p = num_pages (file_hdr_ hd)) as -> by (unfold in_file in Hp; lia). apply Hin. apply Hgrow. unfold in_file in Hp. lia.
Qed.
End table_ops.

(** ** Assignments *)

(** The bytes of a row with the column [col] replaced. *)
Definition put (col : ColMeta) (bs v : list byte) : list byte := default v (mwrite v (cm_offset col) bs).

Definition assign_one (tab : TabMeta) (c : SetClause) (v : list byte) : list byte :=
  match get_col tab (col_name (lhs c)) with Ret col => put col (value_bytes (rhs c) (cm_len col)) v | _ => v end.

(** The row after all assignments, from left to right. *)
Definition assign (tab : TabMeta) (sets : list SetClause) (v : list byte) : list byte :=
  foldl (λ v c, assign_one tab c v) v sets.

(** The column is there, has the type of the value, and the value fits. *)
Definition set_ok (tab : TabMeta) (c : SetClause) : Prop :=
  ∃ col, get_col tab (col_name (lhs c)) = Ret col ∧ cm_type col = type (rhs c) ∧ value_fits (rhs c) (cm_len col).

Lemma mwrite_inside v off bs :
  0 <= off → off + Z.of_nat (length bs) <= Z.of_nat (length v) →
  mwrite v off bs = Some (take (Z.to_nat off) v ++ bs ++ drop (Z.to_nat off + length bs) v).
Proof. intros. unfold mwrite. by rewrite decide_True by done. Qed.

Lemma update_field_ok tab c col v k b :
  get_col tab (col_name (lhs c)) = Ret col → cm_type col = type (rhs c) → value_fits (rhs c) (cm_len col) →
  col_within (Z.of_nat (length v)) col →
  update_field tab c (Some (mkRmRecord v k b)) = Ret (Some (mkRmRecord (assign_one tab c v) k b)) ∧
  length (assign_one tab c v) = length v.
Proof.
  intros Hc Hty Hf (H0&H1&H2). unfold update_field, assign_one. rewrite Hc. cbn [mbind outcome_bind].
  rewrite decide_True by done. pose proof (length_value_bytes _ _ Hf) as Hl.
  assert (Hr : init_raw (cm_len col) (reset_raw (rhs c)) =
    Ret (with_raw (reset_raw (rhs c)) (Some (mkRmRecord (value_bytes (rhs c) (cm_len col)) (cm_len col) true)))) by exact (init_raw_ok _ (reset_raw (rhs c)) eq_refl Hf).
  rewrite Hr. cbn [mbind outcome_bind raw with_raw rec_data]. unfold put.
  pose proof (mread_all (value_bytes (rhs c) (cm_len col))) as Hm. rewrite Hl in Hm.
  change (value_bytes (reset_raw (rhs c))) with (value_bytes (rhs c)). rewrite Hm. cbn [oaccess mbind outcome_bind].
  rewrite (mwrite_inside v) by lia. simpl. split; [done|].
  rewrite !length_app, length_take, length_drop. lia.
Qed.

Lemma update_fields_ok tab sets v k b :
  Forall (set_ok tab) sets → Forall (col_within (Z.of_nat (length v))) (tm_cols tab) →
  update_fields tab sets (Some (mkRmRecord v k b)) = Ret (Some (mkRmRecord (assign tab sets v) k b)) ∧
  length (assign tab sets v) = length v.
Proof.
  intros Hs. revert v. induction Hs as [|c sets (col&Hc&Hty&Hf) _ IH]; intros v Hw; [done|]. simpl.
  assert (col_within (Z.of_nat (length v)) col) as Hcol.
  { rewrite Forall_forall in Hw. apply Hw. apply get_col_Ret in Hc as (i&Hi&_). by eapply list_elem_of_lookup_2. }
  destruct (update_field_ok tab c col v k b Hc Hty Hf Hcol) as [-> Hl]. cbn [mbind outcome_bind].
  destruct (IH (assign_one tab c v)) as [E1 E2]; [by rewrite Hl|]. rewrite E1, E2. by split.
Qed.

(** Columns of one table do not overlap. *)
Lemma cols_disjoint k cs c d :
  layout_from k cs = cs → Forall col_ok cs → c ∈ cs → d ∈ cs → c ≠ d →
  cm_offset c + cm_len c <= cm_offset d ∨ cm_offset d + cm_len d <= cm_offset c.
Proof.
  revert k. induction cs as [|x cs IH]; intros k Hl Hok Hc Hd Hne; [by apply not_elem_of_nil in Hc|].
  simpl in Hl. injection Hl as Hx Hl. apply set_offset_id in Hx. apply Forall_cons in Hok as [_ Hok].
  apply elem_of_cons in Hc as [->|Hc], Hd as [->|Hd]; [done|left|right|by eapply IH].
  - destruct (layout_from_within _ cs d Hl Hok Hd). lia.
  - destruct (layout_from_within _ cs c Hl Hok Hc). lia.
Qed.

Lemma put_same n col bs v :
  col_within n col → Z.of_nat (length v) = n → Z.of_nat (length bs) = cm_len col → col_bytes col (put col bs v) = bs.
Proof.
  intros (H0&H1&H2) Hv Hb. unfold put, col_bytes. rewrite mwrite_inside by lia. simpl.
  rewrite drop_app_length' by (rewrite length_take; lia). by rewrite take_app_length' by lia.
Qed.

Lemma put_other n c d bs v :
  col_within n c → col_within n d → Z.of_nat (length v) = n → Z.of_nat (length bs) = cm_len d →
  cm_offset c + cm_len c <= cm_offset d ∨ cm_offset d + cm_len d <= cm_offset c →
  col_bytes c (put d bs v) = col_bytes c v.
Proof.
  intros (H0&H1&H2) (D0&D1&D2) Hv Hb Hdis. unfold put, col_bytes. rewrite mwrite_inside by lia. simpl. destruct Hdis as [Hd|Hd].
  - rewrite drop_app_le by (rewrite length_take; lia). rewrite take_app_le by (rewrite length_drop, length_take; lia).
    rewrite skipn_firstn_comm, take_take. f_equal. lia.
  - rewrite drop_app_ge by (rewrite length_take; lia). rewrite drop_app_ge by (rewrite length_take; lia).
    rewrite drop_drop, length_take. do 2 f_equal. lia.
Qed.

(** The last assignment to a column. *)
Definition assigned (sets : list SetClause) (c : string) : option SetClause := last (filter (λ s, col_name (lhs s) = c) sets).

Lemma assigned_snoc sets s c :
  assigned (sets ++ [s]) c = if decide (col_name (lhs s) = c) then Some s else assigned sets c.
Proof.
  unfold assigned. rewrite filter_app, filter_cons, filter_nil. case_decide; [apply last_snoc|by rewrite app_nil_r].
Qed.

Lemma assign_columns_ok t tab sets v col :
  cols_ok t (tm_cols tab) → Forall (set_ok tab) sets → Z.of_nat (length v) = total_len (tm_cols tab) →
  get_col tab (cm_name col) = Ret col →
  length (assign tab sets v) = length v ∧
  col_bytes col (assign tab sets v) =
    match assigned sets (cm_name col) with Some c => value_bytes (rhs c) (cm_len col) | None => col_bytes col v end.
Proof.
  intros Hok Hs Hv Hcol.
  assert (Hwithin : ∀ c d, get_col tab c = Ret d → d ∈ tm_cols tab ∧ cm_name d = c ∧ col_within (total_len (tm_cols tab)) d).
  { intros c d (i&Hi&Hn&_)%get_col_Ret. apply list_elem_of_lookup_2 in Hi. split_and!; [done|done|]. by eapply cols_ok_within. }
  destruct (Hwithin _ _ Hcol) as (Hin&_&Hw).
  induction sets as [|c sets IH] using rev_ind; [done|]. apply Forall_app in Hs as [Hs Hc].
  apply Forall_singleton in Hc as (d&Hd&_&Hfit). destruct (IH Hs) as [Hl Hb]. pose proof (length_value_bytes _ _ Hfit) as Hvl.
  destruct (Hwithin _ _ Hd) as (Hdin&Hdn&Hdw).
  assert (assign tab (sets ++ [c]) v = put d (value_bytes (rhs c) (cm_len d)) (assign tab sets v)) as ->.
  { unfold assign. rewrite foldl_app. simpl. unfold assign_one at 1. by rewrite Hd. }
  rewrite assigned_snoc. split.
  - unfold put. pose proof Hdw as (?&?&?). rewrite mwrite_inside by lia. simpl. rewrite !length_app, length_take, length_drop. lia.
  - case_decide as Hcd.
    + rewrite Hcd in Hd. assert (d = col) as -> by congruence. by apply (put_same (total_len (tm_cols tab))); [|lia|].
    + rewrite <- Hb. apply (put_other (total_len (tm_cols tab))); [done|done|lia|done|].
      eapply cols_disjoint; [apply Hok|apply Hok|done|done|]. intros ->. congruence.
Qed.

(** ** The rows a WHERE clause chooses *)

Section chosen.
Context {R : Type} `{!Replacer R, !ReplacerSpec R}.
Context (A : gset PageId) (n : Z) (e : Env) (He : env_ok e) (out : option (list byte)) (db : DbMeta).
Context (fuel : nat) (junk : Z → list byte).

Abbreviation here := (tables_inv (R := R) A n e out db).

(** The clause holds of a row of [t]. *)
Definition chosen (t : string) (cs : list Condition) (v : row) : bool := all_hold db cs {[t := v]}.

(** The table is open, has columns and no index; the clause is about its columns. *)
Record where_ok (data : gmap string (RmFileHandle * gmap Rid row)) (t : string) (cs : list Condition) : Prop := {
  wo_table : scannable db t;
  wo_noindex : no_index db t;
  wo_conds : Forall (cond_ok db [t]) cs;
  wo_fuel : ∀ x, data !! t = Some x → (size x.2 < fuel)%nat;
}.

(** UPDATE and DELETE collect the positions of the chosen rows first. *)
Lemma collect_chosen data w t cs hd m :
  described db data → here data w → where_ok data t cs → data !! t = Some (hd, m) →
  ∃ p a w', make_scan db t cs = Ret p ∧ convert fuel junk p w = (Ret (Some a), w) ∧
    collect_rids (Cursor0 := any_cursor fuel junk) fuel a w = (Ret (seq_records m (chosen t cs)).*1, w') ∧ here data w'.
Proof using He.
  intros Hdesc Hi Hw Ht. pose proof (wo_table _ _ _ Hw) as Hs.
  destruct (make_scan_ok db t cs Hs) as (p&Hp&tag&tab&len&idx&Htab&->).
  pose proof (make_scan_seq db t cs _ (wo_noindex _ _ _ Hw) Hp) as Htag. simpl in Htag. subst tag.
  set (hf := λ t : string, bool_decide (is_Some (fhs_ w !! t))).
  assert (Hfile : ∀ t, is_Some (data !! t) → hf t = true).
  { intros t' [[hd' m'] Hd]. unfold hf. rewrite (tables_handle _ _ _ _ _ _ _ _ _ _ Hi Hd). by apply bool_decide_true. }
  assert (Hpl : Forall (scan_placed t) cs).
  { eapply Forall_impl; [apply Hw|]. intros c (Hl&l&_&Hr). apply list_elem_of_singleton in Hl. split; [done|].
    destruct (is_rhs_val c); [by left|]. destruct Hr as [Hr _]. right. by apply list_elem_of_singleton in Hr. }
  destruct (seq_scan_made db data Hdesc hf Hfile [t] t cs hd m Hs Ht Hpl (wo_conds _ _ _ Hw)) as (x&Ex&Hover&_&_&_&Hsat&_).
  destruct (collect_rids_ok A n e He out db data t hd m Ht cs (table_cols db t) (chosen t cs) Hsat fuel
    (wo_fuel _ _ _ Hw _ Ht) x w Hi Hover) as (w'&Erun&Hi').
  eexists _, (existT ShSeq x), w'. split_and!; [done| |by rewrite (collect_any fuel junk ShSeq x w)|done].
  unfold convert, bind, gets, lift. rewrite (ti_db _ _ _ _ _ _ _ Hi). fold hf. cbn [convert_plan_executor].
  rewrite decide_True by done. by rewrite Ex.
Qed.
(** Statements keep the catalogue's description of the files. *)
Lemma described_step data t hd m hd' m' :
  described db data → data !! t = Some (hd, m) → record_size (file_hdr_ hd') = record_size (file_hdr_ hd) →
  map_Forall (λ _ v, Z.of_nat (length v) = record_size (file_hdr_ hd)) m' → described db (<[t := (hd', m')]> data).
Proof using.
  intros Hdesc Ht Hrs Hm t' Hs. destruct (Hdesc t' Hs) as (hd1&m1&Hd&Hck&Hrs1&Hlt&Hlen). destruct (decide (t' = t)) as [->|Hne].
  - assert (hd1 = hd) as -> by congruence. exists hd', m'. rewrite lookup_insert_eq.
    split_and!; [done|done|congruence|done|]. intros r v Hv. rewrite <- Hrs1. by apply (Hm r).
  - exists hd1, m1. by rewrite lookup_insert_ne by done.
Qed.

Lemma described_lengths data t hd m tab :
  described db data → data !! t = Some (hd, m) → get_table db t = Ret tab → tm_cols tab ≠ [] →
  map_Forall (λ _ v, Z.of_nat (length v) = record_size (file_hdr_ hd)) m ∧ cols_ok t (tm_cols tab) ∧
  record_size (file_hdr_ hd) = total_len (tm_cols tab) ∧ Forall (col_within (record_size (file_hdr_ hd))) (tm_cols tab).
Proof using.
  intros Hdesc Ht Htab Hne. destruct (Hdesc t) as (hd1&m1&Hd&Hck&Hrs&Hlt&Hlen); [by exists tab|].
  rewrite Ht in Hd. injection Hd as <- <-. unfold table_len, table_cols in *. rewrite Htab in *.
  split_and!; [|done|done|].
  - intros r v Hv. rewrite Hrs. by apply (Hlen r).
  - rewrite Hrs. apply Forall_forall. intros c Hc. by eapply cols_ok_within.
Qed.

(** ** DELETE *)

Lemma data_insert_same (data : gmap string (RmFileHandle * gmap Rid row)) t x y :
  <[t := x]> (<[t := y]> data) = <[t := x]> data.
Proof using. apply insert_insert_eq. Qed.

Lemma delete_all_ok rids data w t hd m :
  here data w → data !! t = Some (hd, m) → NoDup rids → (∀ r, r ∈ rids → is_Some (m !! r)) →
  ∃ hd' m' w', for_each (λ r, with_table t (delete_record r)) rids w = (Ret tt, w') ∧ same_file hd hd' ∧
    here (<[t := (hd', m')]> data) w' ∧ ∀ r, m' !! r = if decide (r ∈ rids) then None else m !! r.
Proof using He.
  clear junk. revert data w hd m. induction rids as [|r rids IH]; intros data w hd m Hi Ht Hnd Hin.
  - exists hd, m, w. split_and!; [done|done|by rewrite insert_id|]. intros r.
    by rewrite decide_False by apply not_elem_of_nil.
  - apply NoDup_cons in Hnd as [Hr Hnd].
    destruct (tables_delete A n e He out db data w t hd m r Hi Ht) as (hd1&w1&E1&Hs1&Hi1); [apply Hin; by left|].
    destruct (IH _ w1 hd1 (delete r m) Hi1) as (hd2&m2&w2&E2&Hs2&Hi2&Hm2).
    { by rewrite lookup_insert_eq. }
    { done. }
    { intros q Hq. rewrite lookup_delete_ne by (intros ->; done). apply Hin. by right. }
    rewrite data_insert_same in Hi2. exists hd2, m2, w2. split_and!; [|by etrans|done|].
    + cbn [for_each]. by rewrite (bind_Ret _ _ _ _ _ E1).
    + intros q. rewrite Hm2. destruct (decide (q = r)) as [->|Hne].
      * rewrite decide_False, decide_True by (done || by left). apply lookup_delete_eq.
      * rewrite lookup_delete_ne by done. apply decide_ext. rewrite elem_of_cons. tauto.
Qed.

Context (self_thread : Z).

(** The statement ran: what is left of the session. *)
Definition ran (data' : gmap string (RmFileHandle * gmap Rid row)) (s s' : Session R) : Prop :=
  here data' (w_sm (se_world s')) ∧ w_ctx (se_world s') = w_ctx (se_world s) ∧ se_tm s' = se_tm s ∧ se_txn s' = se_txn s.

Lemma run_dml_ok data' (s : Session R) q plan root txn w1 w2 :
  plan_query db q = Ret plan →
  portal_start fuel junk plan (w_sm (se_world s)) = (Ret (mkPortalStmt PORTAL_DML_WITHOUT_SELECT [] root plan), w1) →
  run_dml fuel junk root w1 = (Ret tt, w2) → here data' w2 → db_ (w_sm (se_world s)) = db →
  ∀ t, do_analyze db t = Ret q → ∃ s', run_statement fuel junk self_thread t txn s = (Ret tt, s') ∧ ran data' s s'.
Proof using.
  destruct s as [[w c] tm tx]. simpl. intros Hplan Hstart Hrun Hi Hdb t Ha.
  exists (mkSession (mkWorld w2 c) tm tx). split; [|by split_and!].
  unfold run_statement. unfold bind at 1, gets. simpl. rewrite Hdb.
  unfold bind at 1, lift. rewrite Ha. unfold bind at 1. rewrite Hplan.
  unfold bind at 1, on_world, zoom. cbn [se_world]. rewrite (run_with_sm _ (mkWorld w c) _ _ Hstart).
  unfold portal_run, on_world, zoom. cbn [ps_tag ps_root se_world se_tm se_txn w_ctx].
  by rewrite (run_with_sm _ (mkWorld w1 c) _ _ Hrun).
Qed.

Lemma run_delete data (s : Session R) t bs q txn hd m :
  described db data → here data (w_sm (se_world s)) → do_analyze db (ast.DeleteStmt t bs) = Ret q →
  where_ok data t (conds q) → data !! t = Some (hd, m) →
  ∃ s' hd', run_statement fuel junk self_thread (ast.DeleteStmt t bs) txn s = (Ret tt, s') ∧ same_file hd hd' ∧
    let data' := <[t := (hd', filter (λ x, chosen t (conds q) x.2 = false) m)]> data in
    ran data' s s' ∧ described db data'.
Proof using He.
  intros Hdesc Hi Ha Hw Ht. assert (parse q = ast.DeleteStmt t bs) as Hparse.
  { simpl in Ha. by apply obind_Ret in Ha as (ws&_&(ws'&_&[= <-])%obind_Ret). }
  destruct (collect_chosen data _ t (conds q) hd m Hdesc Hi Hw Ht) as (p&a&w1&Hp&Hc&Hr&Hi1).
  set (rids := (seq_records m (chosen t (conds q))).*1) in *.
  destruct (delete_all_ok rids data w1 t hd m Hi1 Ht) as (hd'&m'&w2&Hrun&Hsame&Hi2&Hm).
  { apply seq_records_NoDup. }
  { intros r (v&Hv&_)%seq_records_rids. by eexists. }
  assert (m' = filter (λ x, chosen t (conds q) x.2 = false) m) as Hm'.
  { apply map_eq. intros r. rewrite Hm. apply option_eq. intros v. rewrite map_lookup_filter_Some. simpl. case_decide as Hin.
    - apply seq_records_rids in Hin as (v'&Hv'&Hs). split; [done|]. intros [Hv ?]. rewrite Hv' in Hv. injection Hv as ->. congruence.
    - split; [|tauto]. intros Hv. split; [done|]. destruct (chosen t (conds q) v) eqn:Es; [|done]. exfalso. apply Hin.
      apply seq_records_rids. by exists v. }
  destruct (wo_table _ _ _ Hw) as (tab&Htab&Hne).
  destruct (run_dml_ok (<[t := (hd', m')]> data) s q (DMLPlan T_Delete p t [] (conds q) [])
    (DeleteRoot (mkDelete tab (conds q) rids t)) txn w1 w2) with (t := ast.DeleteStmt t bs) as (s'&Erun&Hran).
  - unfold plan_query, do_planner. rewrite Hparse. by rewrite Hp.
  - cbn [portal_start]. rewrite (bind_Ret _ _ _ _ _ Hc). unfold deref, ret, bind at 1. rewrite (bind_Ret _ _ _ _ _ Hr).
    unfold Delete_make, the_tab, require_file, the_table_hdr, access, bind, gets, lift.
    rewrite (ti_db _ _ _ _ _ _ _ Hi1), Htab, (tables_handle _ _ _ _ _ _ _ _ _ _ Hi1 Ht). done.
  - exact Hrun.
  - done.
  - apply Hi.
  - done.
  - exists s', hd'. rewrite <- Hm'. split; [done|]. split; [done|]. split; [done|].
    destruct (described_lengths data t hd m tab Hdesc Ht Htab) as (Hlen&_); [done|].
    eapply described_step; [done|done|apply Hsame|]. intros r v Hv. apply (Hlen r). rewrite Hm in Hv. by case_decide.
Qed.
(** ** UPDATE *)

Lemma update_one_ok data w t hd m tab sets cs rids r v :
  here data w → data !! t = Some (hd, m) → m !! r = Some v →
  Z.of_nat (length v) = record_size (file_hdr_ hd) → Forall (set_ok tab) sets →
  Forall (col_within (record_size (file_hdr_ hd))) (tm_cols tab) →
  ∃ w', update_one (mkUpdate tab cs rids t sets) r w = (Ret tt, w') ∧
    here (<[t := (hd, <[r := assign tab sets v]> m)]> data) w' ∧ length (assign tab sets v) = length v.
Proof using He.
  intros Hi Ht Hr Hv Hs Hcols. unfold update_one. cbn [up_tab_name up_set_clauses up_tab].
  destruct (tables_get A n e He out db data w t hd m r Hi Ht (mk_is_Some _ _ Hr)) as (w1&E1&Hi1). rewrite Hr in E1. simpl in E1.
  rewrite (bind_Ret _ _ _ _ _ E1). unfold bind at 1, lift. rewrite <- Hv in Hcols.
  destruct (update_fields_ok tab sets v (record_size (file_hdr_ hd)) true Hs Hcols) as [-> Hl].
  unfold deref, ret, bind at 1. cbn [rec_data].
  destruct (tables_update A n e He out db data w1 t hd m r (assign tab sets v) (assign tab sets v) Hi1 Ht) as (w2&E2&Hi2).
  - by eexists.
  - rewrite <- Hv, <- Hl. apply mread_all.
  - by exists w2.
Qed.

Lemma update_all_ok rids' data w t hd m tab sets cs rids :
  here data w → data !! t = Some (hd, m) → NoDup rids → (∀ r, r ∈ rids → is_Some (m !! r)) →
  map_Forall (λ _ v, Z.of_nat (length v) = record_size (file_hdr_ hd)) m → Forall (set_ok tab) sets →
  Forall (col_within (record_size (file_hdr_ hd))) (tm_cols tab) →
  ∃ m' w', for_each (update_one (mkUpdate tab cs rids' t sets)) rids w = (Ret tt, w') ∧
    here (<[t := (hd, m')]> data) w' ∧ map_Forall (λ _ v, Z.of_nat (length v) = record_size (file_hdr_ hd)) m' ∧
    ∀ r, m' !! r = if decide (r ∈ rids) then assign tab sets <$> m !! r else m !! r.
Proof using He.
  clear junk. intros Hi Ht Hnd Hin Hlen Hs Hcols. revert data w m Hi Ht Hin Hlen.
  induction Hnd as [|r rids Hr Hnd IH]; intros data w m Hi Ht Hin Hlen.
  - exists m, w. split_and!; [done|by rewrite insert_id|done|]. intros r. by rewrite decide_False by apply not_elem_of_nil.
  - destruct (Hin r) as [v Hv]; [by left|].
    destruct (update_one_ok data w t hd m tab sets cs rids' r v Hi Ht Hv (Hlen r v Hv) Hs Hcols) as (w1&E1&Hi1&Hl).
    destruct (IH _ w1 (<[r := assign tab sets v]> m) Hi1) as (m2&w2&E2&Hi2&Hl2&Hm2).
    { by rewrite lookup_insert_eq. }
    { intros q Hq. rewrite lookup_insert_ne by (intros ->; done). apply Hin. by right. }
    { apply map_Forall_insert_2; [|done]. rewrite Hl. by apply (Hlen r). }
    rewrite data_insert_same in Hi2. exists m2, w2. split_and!; [|done|done|].
    + cbn [for_each]. by rewrite (bind_Ret _ _ _ _ _ E1).
    + intros q. rewrite Hm2. destruct (decide (q = r)) as [->|Hne].
      * rewrite decide_False, decide_True by (done || by left). by rewrite lookup_insert_eq, Hv.
      * rewrite lookup_insert_ne by done. apply decide_ext. rewrite elem_of_cons. tauto.
Qed.

Lemma run_update data (s : Session R) t sets bs q txn hd m tab :
  described db data → here data (w_sm (se_world s)) → do_analyze db (ast.UpdateStmt t sets bs) = Ret q →
  where_ok data t (conds q) → data !! t = Some (hd, m) → get_table db t = Ret tab → Forall (set_ok tab) (set_clauses q) →
  ∃ s', run_statement fuel junk self_thread (ast.UpdateStmt t sets bs) txn s = (Ret tt, s') ∧
    let data' := <[t := (hd, (λ v, if chosen t (conds q) v then assign tab (set_clauses q) v else v) <$> m)]> data in
    ran data' s s' ∧ described db data'.
Proof using He.
  intros Hdesc Hi Ha Hw Ht Htab Hs. assert (parse q = ast.UpdateStmt t sets bs) as Hparse.
  { simpl in Ha. by apply obind_Ret in Ha as (?&_&(?&_&(?&_&(?&_&(?&_&[= <-])%obind_Ret)%obind_Ret)%obind_Ret)%obind_Ret). }
  destruct (collect_chosen data _ t (conds q) hd m Hdesc Hi Hw Ht) as (p&a&w1&Hp&Hc&Hr&Hi1).
  set (rids := (seq_records m (chosen t (conds q))).*1) in *.
  destruct (wo_table _ _ _ Hw) as (tab'&Htab'&Hne). assert (tab' = tab) as -> by congruence.
  destruct (described_lengths data t hd m tab Hdesc Ht Htab Hne) as (Hlen&_&_&Hcols).
  destruct (update_all_ok rids data w1 t hd m tab (set_clauses q) (conds q) rids Hi1 Ht) as (m'&w2&Hrun&Hi2&Hlen'&Hm).
  { apply seq_records_NoDup. }
  { intros r (v&Hv&_)%seq_records_rids. by eexists. }
  { done. } { done. } { done. }
  assert (m' = (λ v, if chosen t (conds q) v then assign tab (set_clauses q) v else v) <$> m) as <-.
  { apply map_eq. intros r. rewrite Hm, lookup_fmap. destruct (m !! r) as [v|] eqn:Hv; [|by case_decide]. simpl.
    case_decide as Hin.
    - apply seq_records_rids in Hin as (v'&Hv'&Hs'). rewrite Hv in Hv'. injection Hv' as <-. by rewrite Hs'.
    - destruct (chosen t (conds q) v) eqn:Es; [|done]. exfalso. apply Hin. apply seq_records_rids. by exists v. }
  destruct (run_dml_ok (<[t := (hd, m')]> data) s q (DMLPlan T_Update p t [] (conds q) (set_clauses q))
    (UpdateRoot (mkUpdate tab (conds q) rids t (set_clauses q))) txn w1 w2) with (t := ast.UpdateStmt t sets bs) as (s'&Erun&Hran).
  - unfold plan_query, do_planner. rewrite Hparse. by rewrite Hp.
  - cbn [portal_start]. rewrite (bind_Ret _ _ _ _ _ Hc). unfold deref, ret, bind at 1. rewrite (bind_Ret _ _ _ _ _ Hr).
    unfold Update_make, the_tab, require_file, the_table_hdr, access, bind, gets, lift.
    rewrite (ti_db _ _ _ _ _ _ _ Hi1), Htab, (tables_handle _ _ _ _ _ _ _ _ _ _ Hi1 Ht). done.
  - exact Hrun.
  - done.
  - apply Hi.
  - done.
  - exists s'. split; [done|]. split; [done|]. by eapply described_step.
Qed.
(** ** INSERT *)

Context (Hjunk : ∀ k, 0 <= k → Z.of_nat (length (junk k)) = k).

(** The column takes the value. *)
Definition value_ok (col : ColMeta) (v : Values.Value) : Prop :=
  cm_type col = type v ∧ value_fits v (cm_len col) ∧ raw v = None.

(** The values one after the other. *)
Definition values_row (cols : list ColMeta) (vals : list Values.Value) : list byte :=
  concat (zip_with (λ c v, value_bytes v (cm_len c)) cols vals).

Lemma insert_field_ok col val pre mid post :
  value_ok col val → Z.of_nat (length pre) = cm_offset col → Z.of_nat (length mid) = cm_len col →
  insert_field col val (pre ++ mid ++ post) = Ret (pre ++ value_bytes val (cm_len col) ++ post).
Proof using.
  clear Hjunk junk self_thread. intros (Hty&Hf&Hraw) Hpre Hmid. unfold insert_field. rewrite decide_True by done.
  rewrite (init_raw_ok _ _ Hraw Hf). cbn [mbind outcome_bind raw with_raw rec_data].
  pose proof (length_value_bytes _ _ Hf) as Hl. pose proof (mread_all (value_bytes val (cm_len col))) as Hm. rewrite Hl in Hm.
  rewrite Hm. cbn [oaccess mbind outcome_bind]. rewrite mwrite_inside by (rewrite ?length_app; lia). simpl. f_equal.
  rewrite take_app_length' by lia. f_equal. f_equal. rewrite app_assoc. apply drop_app_length'. rewrite length_app. lia.
Qed.

Lemma insert_fields_ok cols vals pre mid :
  layout_from (Z.of_nat (length pre)) cols = cols → Forall col_ok cols → Forall2 value_ok cols vals →
  Z.of_nat (length mid) = total_len cols →
  insert_fields cols vals (pre ++ mid) = Ret (pre ++ values_row cols vals).
Proof using.
  clear Hjunk junk self_thread. intros Hl Hok Hv. revert pre mid Hl Hok. induction Hv as [|col val cols vals Hcv _ IH]; intros pre mid Hl Hok Hm.
  - simpl in *. assert (mid = []) as -> by (apply length_zero_iff_nil; lia). done.
  - simpl in Hl, Hm. injection Hl as Hd Hl. apply set_offset_id in Hd. apply Forall_cons in Hok as [[Hpos _] Hok].
    assert (Hnn : 0 <= total_len cols) by (clear -Hok; induction Hok as [|x l [??] _ IH]; simpl; lia).
    rewrite <- (take_drop (Z.to_nat (cm_len col)) mid).
    cbn [insert_fields]. rewrite insert_field_ok; [|done|done|rewrite length_take; lia]. cbn [mbind outcome_bind].
    pose proof (length_value_bytes _ _ (proj1 (proj2 Hcv))) as Hvl. rewrite app_assoc, IH.
    + unfold values_row. simpl. by rewrite <- app_assoc.
    + rewrite length_app, Nat2Z.inj_add, Hvl. done.
    + done.
    + rewrite length_drop. lia.
Qed.

Lemma values_row_length cols vals :
  Forall2 value_ok cols vals → Z.of_nat (length (values_row cols vals)) = total_len cols.
Proof using.
  clear Hjunk junk self_thread. unfold values_row. induction 1 as [|c v cols vals (_&Hf&_) _ IH]; [done|]. simpl.
  rewrite length_app, Nat2Z.inj_add, (length_value_bytes _ _ Hf), IH. done.
Qed.

Lemma run_insert data (s : Session R) t vs q txn hd m tab :
  described db data → here data (w_sm (se_world s)) → do_analyze db (ast.InsertStmt t vs) = Ret q →
  data !! t = Some (hd, m) → get_table db t = Ret tab → tm_cols tab ≠ [] → tm_indexes tab = [] →
  Forall2 value_ok (tm_cols tab) (values q) → insertable A e hd →
  ∃ s' r hd', run_statement fuel junk self_thread (ast.InsertStmt t vs) txn s = (Ret tt, s') ∧ m !! r = None ∧
    let data' := <[t := (hd', <[r := values_row (tm_cols tab) (values q)]> m)]> data in
    ran data' s s' ∧ described db data'.
Proof using He Hjunk.
  intros Hdesc Hi Ha Ht Htab Hne Hidx Hvals Hin. assert (parse q = ast.InsertStmt t vs) as Hparse.
  { simpl in Ha. by apply obind_Ret in Ha as (?&_&[= <-]). }
  destruct (described_lengths data t hd m tab Hdesc Ht Htab Hne) as (Hlen&Hck&Hrs&_).
  set (w := w_sm (se_world s)) in *. set (row := values_row (tm_cols tab) (values q)).
  pose proof (values_row_length _ _ Hvals) as Hrl. fold row in Hrl.
  destruct (tables_insert A n e He out db data w t hd m row row Hi Ht Hin) as (r&hd'&w2&Hrun&Hno&Hrs'&Hi2).
  { rewrite Hrs, <- Hrl. apply mread_all. }
  assert (Hnn : 0 <= record_size (file_hdr_ hd)) by lia.
  assert (Hrow : insert_fields (tm_cols tab) (values q) (junk (record_size (file_hdr_ hd))) = Ret row).
  { apply (insert_fields_ok (tm_cols tab) (values q) []); [apply Hck|apply Hck|done|]. by rewrite Hjunk. }
  pose proof (tables_handle _ _ _ _ _ _ _ _ _ _ Hi Ht) as Hh.
  edestruct (run_dml_ok (<[t := (hd', <[r := row]> m)]> data) s q (DMLPlan T_Insert NullPlan t (values q) [] [])
    (InsertRoot (mkInsert tab (values q) t)) txn w w2) with (t := ast.InsertStmt t vs) as (s'&Erun&Hran).
  - unfold plan_query, do_planner. by rewrite Hparse.
  - cbn [portal_start]. fold w. unfold Insert_make, the_tab, require_file, the_table_hdr, access, bind, gets, lift.
    rewrite (ti_db _ _ _ _ _ _ _ Hi), Htab, <- (Forall2_length _ _ _ Hvals), Nat.eqb_refl. simpl. by rewrite Hh.
  - assert (Hhdr : the_table_hdr t w = (Ret (file_hdr_ hd), w)).
    { unfold the_table_hdr, bind, gets. by rewrite Hh. }
    assert (Hnext : insert_Next junk (mkInsert tab (values q) t) w = (Ret r, w2)).
    { unfold insert_Next. cbn [in_tab_name in_tab in_values]. rewrite (bind_Ret _ _ _ _ _ Hhdr).
      unfold bind at 1, lift. rewrite Hrow, (bind_Ret _ _ _ _ _ Hrun), Hidx. done. }
    unfold run_dml. by rewrite (bind_Ret _ _ _ _ _ Hnext).
  - done.
  - apply Hi.
  - done.
  - exists s', r, hd'. split; [done|]. split; [done|]. split; [done|]. eapply described_step; [done|done|done|].
    apply map_Forall_insert_2; [by rewrite Hrl|done].
Qed.
End chosen.
