(* ===== verification/Requests.v ===== *)
(** * Requests

    The theorems about one request of a client: what INSERT, DELETE and UPDATE do to the stored
    rows, and what becomes of a statement that fails. *)

From S2P Require Import Prelude Errors Config Posix DiskManager Replacer BufferPool BufferPoolSpec BufferPoolProps.
From S2P Require Import Bitmap RecordFile RecordPage RecordSpec RecordStore RecordProps StrMap Values Text Meta Ast Analyze Plan.
From S2P Require Import Compare Planner PlannerProps Executor ExecutorProps Index Printer PrinterProps System Dml Txn Ql Server.
From S2P Require Import Tables SeqScan Columns Relational Select RecordClaims Sample Query Statements.
From stdpp Require Import options.

(** ** The reply buffer keeps its size *)

Section full.
Context {R : Type} `{!Replacer R}.

Definition ctx_full (c : Context) : Prop := Z.of_nat (length (data_send_ c)) = BUFFER_LENGTH.
Definition world_full (w : World R) : Prop := ctx_full (w_ctx w).
Definition session_full (s : Session R) : Prop := world_full (se_world s).

Lemma keeps_append str : keeps ctx_full (ctx_append str).
Proof.
  intros c Hc. unfold ctx_append, mwrite. case_decide; [|done]. unfold ctx_full in *. simpl.
  rewrite !length_app, length_take, length_drop. lia.
Qed.

Lemma keeps_full_modify (f : Context → Context) : (∀ c, data_send_ (f c) = data_send_ c) → keeps ctx_full (modify f).
Proof. intros Hf. apply keeps_modify. intros c. unfold ctx_full. by rewrite Hf. Qed.

Lemma keeps_sm {A} (m : M (SmState R) A) : keeps world_full (with_sm m).
Proof. intros w Hw. unfold with_sm, zoom. by destruct (m (w_sm w)). Qed.

Lemma keeps_ctx {A} (m : M Context A) : keeps ctx_full m → keeps world_full (with_ctx m).
Proof. intros Hm w Hw. specialize (Hm _ Hw). unfold with_ctx, zoom. by destruct (m (w_ctx w)). Qed.

Lemma keeps_lift {S A} (P : S → Prop) (o : outcome A) : keeps P (lift o).
Proof. by intros s. Qed.

Lemma keeps_world {A} (m : M (World R) A) : keeps world_full m → keeps session_full (on_world m).
Proof. intros Hm s Hs. specialize (Hm _ Hs). unfold on_world, zoom. by destruct (m (se_world s)). Qed.

Lemma keeps_txns {A} (m : M TransactionManager A) : keeps session_full (on_txns m).
Proof. intros s Hs. unfold on_txns, zoom. by destruct (m (se_tm s)). Qed.

Lemma keeps_set_txn t : keeps session_full (set_txn t).
Proof. by apply keeps_modify. Qed.

Lemma keeps_deref' {S A} (P : S → Prop) (o : option A) : keeps P (deref o).
Proof. intros s Hs. by destruct o. Qed.

Hint Resolve keeps_append keeps_sm keeps_ctx keeps_lift keeps_world keeps_txns keeps_set_txn keeps_deref' : rmdb.
Hint Extern 1 (keeps ctx_full (modify _)) => apply keeps_full_modify; done : rmdb.

Lemma keeps_emit str : keeps ctx_full (emit str).
Proof. unfold emit, set_ellipsis. keeps_tac. Qed.
Lemma keeps_emit_end str : keeps ctx_full (emit_end str).
Proof. unfold emit_end. keeps_tac. Qed.
Hint Resolve keeps_emit keeps_emit_end : rmdb.

Lemma keeps_separator p : keeps ctx_full (print_separator p).
Proof. unfold print_separator. keeps_tac. Qed.
Lemma keeps_record p r : keeps ctx_full (print_record p r).
Proof. unfold print_record. keeps_tac. Qed.
Lemma keeps_count k : keeps ctx_full (print_record_count k).
Proof. unfold print_record_count. keeps_tac. Qed.
Lemma keeps_make k : keeps ctx_full (RecordPrinter_make k).
Proof. unfold RecordPrinter_make. keeps_tac. Qed.
Lemma keeps_output text : keeps world_full (output text).
Proof. unfold output. keeps_tac. Qed.
Hint Resolve keeps_separator keeps_record keeps_count keeps_make keeps_output : rmdb.

Lemma keeps_show_tables : keeps world_full show_tables.
Proof. unfold show_tables. keeps_tac. Qed.
Lemma keeps_desc_table t : keeps world_full (desc_table t).
Proof. unfold desc_table. keeps_tac. Qed.
Lemma keeps_send_help : keeps ctx_full send_help.
Proof. unfold send_help. keeps_tac. Qed.
Hint Resolve keeps_show_tables keeps_desc_table keeps_send_help : rmdb.

Lemma keeps_select_row p cs r : keeps world_full (select_row p cs r).
Proof. unfold select_row. keeps_tac. Qed.
Hint Resolve keeps_select_row : rmdb.

Lemma keeps_select_loop {E} `{!Cursor (SmState R) E} k p x : keeps world_full (select_loop k p x).
Proof. revert x. induction k as [|k IH]; intros x; cbn [select_loop]; keeps_tac. Qed.
Hint Resolve @keeps_select_loop : rmdb.

Lemma keeps_select_from {E} `{!Cursor (SmState R) E} fuel x cs : keeps world_full (select_from fuel x cs).
Proof. unfold select_from. keeps_tac. Qed.
Hint Resolve @keeps_select_from : rmdb.

Lemma keeps_ddl junk p : keeps world_full (run_mutli_query junk p).
Proof. unfold run_mutli_query. keeps_tac. Qed.
Lemma keeps_utility th p id : keeps session_full (run_cmd_utility (R := R) th p id).
Proof. unfold run_cmd_utility. keeps_tac. Qed.
Hint Resolve keeps_ddl keeps_utility : rmdb.

Lemma keeps_statement fuel junk th t id : keeps session_full (run_statement (R := R) fuel junk th t id).
Proof. unfold run_statement, portal_run. keeps_tac. Qed.
End full.

(** ** A request that fails *)

Section requests.
Context {R : Type} `{!Replacer R}.
Context (fuel : nat) (junk : Z → list byte) (self_thread : Z).
Context (yyparse : string → option (option ast.TreeNode)).

Lemma mwrite_prefix d bs : (length bs <= length d)%nat → mwrite d 0 bs = Some (bs ++ drop (length bs) d).
Proof. intros H. unfold mwrite. by rewrite decide_True by lia. Qed.

(** What the handler of an error leaves in the buffer. *)
Lemma error_reply_ok err (w : SmState R) c :
  ctx_full c → str_size (what err) + 2 <= BUFFER_LENGTH →
  ∃ c', error_reply err (mkWorld w c) =
      (Ret tt, mkWorld (sm_os (append_stream OUTPUT_FILE ("failure" +:+ nl)) w).2 c') ∧
    mread (data_send_ c') 0 (offset_ c' + 1) = Some (str_bytes (what err +:+ nl) ++ [x00]).
Proof using.
  unfold ctx_full. intros Hfull Hlen. pose proof (str_size_nonneg (what err)) as H0.
  pose proof (length_str_bytes (what err)) as Hl. pose proof (length_str_bytes nl) as Hn. change (str_size nl) with 1 in Hn.
  set (msg := str_bytes (what err)) in *. set (tail := str_bytes nl ++ [x00]) in *.
  assert (Ht : Z.of_nat (length tail) = 2) by (unfold tail; rewrite length_app; simpl; lia).
  set (rest := drop (length msg) (data_send_ c)).
  assert (Hrest : (2 <= length rest)%nat) by (unfold rest; rewrite length_drop; lia).
  set (d := msg ++ tail ++ drop 2 rest).
  assert (Hd : mwrite (msg ++ rest) (get_msg_len err) tail = Some d).
  { change (get_msg_len err) with (str_size (what err)). rewrite mwrite_inside by (rewrite ?length_app; lia). f_equal. unfold d.
    rewrite take_app_length' by lia. do 2 f_equal. rewrite drop_app_ge by lia. f_equal. lia. }
  exists (mkContext d (get_msg_len err + 1) (ellipsis_ c)). split.
  - unfold error_reply, bind at 1, with_ctx at 1, zoom. cbn [w_ctx w_sm].
    fold msg tail. rewrite mwrite_prefix by lia. fold rest. rewrite Hd. unfold output. by apply run_with_sm.
  - cbn [data_send_ offset_]. change (get_msg_len err) with (str_size (what err)). apply mread_Some.
    rewrite str_bytes_app. fold msg. unfold d. rewrite !length_app. split_and!; [lia|lia|lia|]. change (Z.to_nat 0) with 0%nat.
    rewrite drop_0, (app_assoc msg tail), <- app_assoc. fold tail. symmetry. apply take_app_length'. rewrite length_app. lia.
Qed.

Lemma failed_request_ok (s s1 : Session R) text t txn err :
  text ≠ "exit" → text ≠ "crash" → yyparse text = Some (Some t) →
  run_statement fuel junk self_thread t txn (fresh_session s) = (Throw err, s1) →
  str_size (what err) + 2 <= BUFFER_LENGTH →
  ∃ s', handle_request fuel junk self_thread yyparse text txn s =
      (Ret (Reply (str_bytes (what err +:+ nl) ++ [x00])), s') ∧
    w_sm (se_world s') = (sm_os (append_stream OUTPUT_FILE ("failure" +:+ nl)) (w_sm (se_world s1))).2 ∧
    se_tm s' = se_tm s1 ∧ se_txn s' = se_txn s1.
Proof.
  intros Hexit Hcrash Hparse Hrun Hlen.
  assert (Hfull : session_full s1).
  { pose proof (keeps_statement fuel junk self_thread t txn (fresh_session s)) as H. rewrite Hrun in H. by apply H. }
  destruct s1 as [[w c] tm tx]. destruct (error_reply_ok err w c Hfull Hlen) as (c'&Herr&Hbytes).
  eexists (mkSession (mkWorld _ c') tm tx). split; [|done].
  unfold handle_request. rewrite !decide_False by done. unfold bind at 1, new_context, modify. fold (fresh_session s). rewrite Hparse.
  eassert (catch (run_statement fuel junk self_thread t txn) (λ e, on_world (error_reply e)) (fresh_session s) =
    (Ret tt, mkSession (mkWorld _ c') tm tx)) as Hc.
  { unfold catch. rewrite Hrun. unfold on_world, zoom. cbn [se_world]. by rewrite Herr. }
  rewrite (bind_Ret _ _ _ _ _ Hc). unfold bind at 1, gets. cbn [se_world w_ctx]. by rewrite Hbytes.
Qed.

(** C16: A statement that fails is answered with its message.  When the statement of a request
    throws an error whose message fits the buffer, [client_handler] catches it: whatever has
    been printed before, the client gets exactly the message, a newline and a NUL; a line
    "failure" is appended to [output.txt]; the tables are as the statement left them, and
    nothing is thrown any further, so the next request is served. *)
Theorem failed_request (s s1 : Session R) text t txn err :
  text ≠ "exit" → text ≠ "crash" → yyparse text = Some (Some t) →
  run_statement fuel junk self_thread t txn (fresh_session s) = (Throw err, s1) →
  str_size (what err) + 2 <= BUFFER_LENGTH →
  ∃ s', handle_request fuel junk self_thread yyparse text txn s =
      (Ret (Reply (str_bytes (what err +:+ nl) ++ [x00])), s') ∧
    w_sm (se_world s') = (sm_os (append_stream OUTPUT_FILE ("failure" +:+ nl)) (w_sm (se_world s1))).2 ∧
    se_tm s' = se_tm s1 ∧ se_txn s' = se_txn s1.
Proof. apply failed_request_ok. Qed.
End requests.

(** ** INSERT, DELETE and UPDATE *)

Section dml_requests.
Context {R : Type} `{!Replacer R, !ReplacerSpec R}.
Context (A : gset PageId) (n : Z) (e : Env) (He : env_ok e) (out : option (list byte)) (db : DbMeta).
Context (data : gmap string (RmFileHandle * gmap Rid row)) (Hdesc : described db data).
Context (fuel : nat) (junk : Z → list byte) (Hjunk : ∀ k, 0 <= k → Z.of_nat (length (junk k)) = k).
Context (self_thread : Z) (yyparse : string → option (option ast.TreeNode)).
Context (s : Session R) (text : string) (txn : Z) (q : Query).

Abbreviation here := (tables_inv (R := R) A n e out db).

(** The request is read, parsed and analyzed. *)
Record requested (tree : ast.TreeNode) : Prop := {
  rq_here : here data (w_sm (se_world s));
  rq_exit : text ≠ "exit";
  rq_crash : text ≠ "crash";
  rq_parse : yyparse text = Some (Some tree);
  rq_analyze : do_analyze db tree = Ret q;
}.

Lemma dml_request tree data' s' :
  requested tree → run_statement fuel junk self_thread tree txn (fresh_session s) = (Ret tt, s') →
  ran A n e out db data' (fresh_session s) s' →
  handle_request fuel junk self_thread yyparse text txn s = (Ret (Reply [x00]), s') ∧ here data' (w_sm (se_world s')).
Proof using.
  clear Hjunk. intros Hq Hrun (Hi&Hc&_). split; [|done].
  apply (request_run fuel junk self_thread yyparse s s' text tree txn); [apply Hq..|done|]. by rewrite Hc.
Qed.

Lemma insert_request_ok t vs hd m tab :
  requested (ast.InsertStmt t vs) → data !! t = Some (hd, m) → get_table db t = Ret tab →
  tm_cols tab ≠ [] → tm_indexes tab = [] → Forall2 value_ok (tm_cols tab) (values q) →
  insertable A e hd →
  ∃ s' r hd', handle_request fuel junk self_thread yyparse text txn s = (Ret (Reply [x00]), s') ∧ m !! r = None ∧
    let data' := <[t := (hd', <[r := values_row (tm_cols tab) (values q)]> m)]> data in
    here data' (w_sm (se_world s')) ∧ described db data'.
Proof using He Hdesc Hjunk.
  intros Hq Ht Htab Hne Hidx Hv Hin.
  destruct (run_insert A n e He out db fuel junk self_thread Hjunk data (fresh_session s) t vs q txn hd m tab)
    as (s'&r&hd'&Hrun&Hno&Hran&Hd); [done|apply (rq_here _ Hq)|apply (rq_analyze _ Hq)|done..|].
  destruct (dml_request _ _ s' Hq Hrun Hran) as [H1 H2]. by exists s', r, hd'.
Qed.

(** C9: An INSERT that is accepted stores the row and nothing else.  With as many values as
    the table has columns, each of the type and within the width of its column, into a table
    without indexes with a place for one more record: the reply is empty, the record is the
    values laid out one after the other (numbers in four bytes, strings padded with zeros) at
    a position that was free, and every other record and table is as it was. *)
Theorem insert_request t vs hd m tab :
  requested (ast.InsertStmt t vs) → data !! t = Some (hd, m) → get_table db t = Ret tab →
  tm_cols tab ≠ [] → tm_indexes tab = [] → Forall2 value_ok (tm_cols tab) (values q) →
  insertable A e hd →
  ∃ s' r hd', handle_request fuel junk self_thread yyparse text txn s = (Ret (Reply [x00]), s') ∧ m !! r = None ∧
    let data' := <[t := (hd', <[r := values_row (tm_cols tab) (values q)]> m)]> data in
    here data' (w_sm (se_world s')) ∧ described db data'.
Proof using He Hdesc Hjunk. apply insert_request_ok. Qed.

Lemma delete_request_ok t bs hd m :
  requested (ast.DeleteStmt t bs) → where_ok db fuel data t (conds q) → data !! t = Some (hd, m) →
  ∃ s' hd', handle_request fuel junk self_thread yyparse text txn s = (Ret (Reply [x00]), s') ∧
    let data' := <[t := (hd', filter (λ x, chosen db t (conds q) x.2 = false) m)]> data in
    here data' (w_sm (se_world s')) ∧ described db data'.
Proof using He Hdesc.
  clear Hjunk. intros Hq Hw Ht.
  destruct (run_delete A n e He out db fuel junk self_thread data (fresh_session s) t bs q txn hd m)
    as (s'&hd'&Hrun&_&Hran&Hd); [done|apply (rq_here _ Hq)|apply (rq_analyze _ Hq)|done..|].
  destruct (dml_request _ _ s' Hq Hrun Hran) as [H1 H2]. by exists s', hd'.
Qed.

(** C8: A DELETE removes exactly the rows its WHERE clause chooses: on a table without
    indexes, with a clause over its columns, the reply is empty, the records of the rows of
    which the clause holds are gone, and all other records and tables are as they were. *)
Theorem delete_request t bs hd m :
  requested (ast.DeleteStmt t bs) → where_ok db fuel data t (conds q) → data !! t = Some (hd, m) →
  ∃ s' hd', handle_request fuel junk self_thread yyparse text txn s = (Ret (Reply [x00]), s') ∧
    let data' := <[t := (hd', filter (λ x, chosen db t (conds q) x.2 = false) m)]> data in
    here data' (w_sm (se_world s')) ∧ described db data'.
Proof using He Hdesc. apply delete_request_ok. Qed.

Lemma update_request_ok t sets bs hd m tab :
  requested (ast.UpdateStmt t sets bs) → where_ok db fuel data t (conds q) → data !! t = Some (hd, m) →
  get_table db t = Ret tab → Forall (set_ok tab) (set_clauses q) →
  ∃ s', handle_request fuel junk self_thread yyparse text txn s = (Ret (Reply [x00]), s') ∧
    let f v := if chosen db t (conds q) v then assign tab (set_clauses q) v else v in
    let data' := <[t := (hd, f <$> m)]> data in
    here data' (w_sm (se_world s')) ∧ described db data' ∧
    ∀ r v col, m !! r = Some v → get_col tab (cm_name col) = Ret col →
      length (assign tab (set_clauses q) v) = length v ∧
      col_bytes col (assign tab (set_clauses q) v) =
        match assigned (set_clauses q) (cm_name col) with
        | Some c => value_bytes (rhs c) (cm_len col)
        | None => col_bytes col v
        end.
Proof using He Hdesc.
  clear Hjunk. intros Hq Hw Ht Htab Hs. destruct (wo_table _ _ _ _ _ Hw) as (tab'&Htab'&Hne).
  assert (tab' = tab) as -> by congruence.
  destruct (run_update A n e He out db fuel junk self_thread data (fresh_session s) t sets bs q txn hd m tab)
    as (s'&Hrun&Hran&Hd); [done|apply (rq_here _ Hq)|apply (rq_analyze _ Hq)|done..|].
  destruct (dml_request _ _ s' Hq Hrun Hran) as [H1 H2]. exists s'. split; [done|]. split; [done|]. split; [done|].
  intros r v col Hv Hcol. destruct (described_lengths db data t hd m tab Hdesc Ht Htab Hne) as (Hlen&Hck&Hrs&_).
  apply (assign_columns_ok t); [done|done| |done]. rewrite <- Hrs. by apply (Hlen r).
Qed.

(** C7: An UPDATE changes exactly the rows its WHERE clause chooses, and of these exactly the
    assigned columns: on a table without indexes, with values that fit their columns, the
    reply is empty, and every record of a chosen row is the record with the assignments
    carried out from left to right: a column reads as the last value assigned to it, a column
    that is not assigned as before.  All other records and tables are as they were. *)
Theorem update_request t sets bs hd m tab :
  requested (ast.UpdateStmt t sets bs) → where_ok db fuel data t (conds q) → data !! t = Some (hd, m) →
  get_table db t = Ret tab → Forall (set_ok tab) (set_clauses q) →
  ∃ s', handle_request fuel junk self_thread yyparse text txn s = (Ret (Reply [x00]), s') ∧
    let f v := if chosen db t (conds q) v then assign tab (set_clauses q) v else v in
    let data' := <[t := (hd, f <$> m)]> data in
    here data' (w_sm (se_world s')) ∧ described db data' ∧
    ∀ r v col, m !! r = Some v → get_col tab (cm_name col) = Ret col →
      length (assign tab (set_clauses q) v) = length v ∧
      col_bytes col (assign tab (set_clauses q) v) =
        match assigned (set_clauses q) (cm_name col) with
        | Some c => value_bytes (rhs c) (cm_len col)
        | None => col_bytes col v
        end.
Proof using He Hdesc. apply update_request_ok. Qed.
End dml_requests.

(** ** INSERTs that are refused *)

Section rejected.
Context {R : Type} `{!Replacer R}.
Context (fuel : nat) (junk : Z → list byte) (Hjunk : ∀ k, 0 <= k → Z.of_nat (length (junk k)) = k) (self_thread : Z).

Lemma insert_fields_prefix cs1 vs1 cs2 vs2 rec :
  Forall2 value_ok cs1 vs1 → Forall (col_within (Z.of_nat (length rec))) cs1 →
  ∃ rec', insert_fields (cs1 ++ cs2) (vs1 ++ vs2) rec = insert_fields cs2 vs2 rec'.
Proof using.
  clear Hjunk. intros Hv. revert rec. induction Hv as [|c v cs1 vs1 Hcv _ IH]; intros rec Hw; [by exists rec|].
  apply Forall_cons in Hw as [(H0&H1&H2) Hw].
  set (off := Z.to_nat (cm_offset c)). set (len := Z.to_nat (cm_len c)).
  assert (rec = take off rec ++ take len (drop off rec) ++ drop (off + len) rec) as Hrec.
  { rewrite <- drop_drop, take_drop. by rewrite take_drop. }
  pose proof (length_value_bytes _ _ (proj1 (proj2 Hcv))) as Hl.
  assert (Hf : insert_field c v rec = Ret (take off rec ++ value_bytes v (cm_len c) ++ drop (off + len) rec)).
  { rewrite Hrec at 1. apply insert_field_ok; [done|rewrite length_take; lia|rewrite length_take, length_drop; lia]. }
  cbn [app insert_fields]. rewrite Hf. cbn [mbind outcome_bind]. apply IH. rewrite !length_app, length_take, length_drop.
  replace (Z.of_nat _) with (Z.of_nat (length rec)) by lia. done.
Qed.

(** What a value that is not taken is answered with. *)
Definition refusal (col : ColMeta) (v : Values.Value) : option RMDBError :=
  if decide (cm_type col = type v) then
    if decide (type v = TYPE_STRING ∧ cm_len col < str_size (str_val v)) then Some StringOverflowError else None
  else Some (IncompatibleTypeError (coltype2str (cm_type col)) (coltype2str (type v))).

Lemma insert_field_refused col v rec err :
  raw v = None → refusal col v = Some err → insert_field col v rec = Throw err.
Proof using.
  intros Hr. unfold refusal, insert_field. destruct (decide (cm_type col = type v)) as [|Hne]; [|by intros [= <-]].
  case_decide as H; [|done]. destruct H as [Ht Hlen]. intros [= <-]. unfold init_raw. rewrite Hr, Ht. simpl.
  by rewrite (proj2 (Z.ltb_lt _ _) Hlen).
Qed.

(** A statement whose execution throws without a change. *)
Lemma run_throws (w : SmState R) c tm tx q plan t txn err :
  do_analyze (db_ w) t = Ret q → plan_query (db_ w) q = Ret plan →
  (∃ root, portal_start fuel junk plan w = (Ret (mkPortalStmt PORTAL_DML_WITHOUT_SELECT [] root plan), w) ∧
     run_dml fuel junk root w = (Throw err, w)) ∨ portal_start fuel junk plan w = (Throw err, w) →
  run_statement fuel junk self_thread t txn (mkSession (mkWorld w c) tm tx) = (Throw err, mkSession (mkWorld w c) tm tx).
Proof using.
  intros Ha Hplan H. unfold run_statement. unfold bind at 1, gets. cbn [se_world w_sm].
  unfold bind at 1, lift. rewrite Ha. unfold bind at 1. rewrite Hplan.
  unfold bind at 1, on_world, zoom. cbn [se_world]. destruct H as [(root&Hs&Hr)|Hs].
  - rewrite (run_with_sm _ (mkWorld w c) _ _ Hs). unfold portal_run, on_world, zoom. cbn [ps_tag ps_root se_world se_tm se_txn w_ctx].
    by rewrite (run_with_sm _ (mkWorld w c) _ _ Hr).
  - by rewrite (run_with_sm _ (mkWorld w c) _ _ Hs).
Qed.

Lemma insert_rejected_ok (s : Session R) t vs q txn hd tab :
  let db := db_ (w_sm (se_world s)) in
  do_analyze db (ast.InsertStmt t vs) = Ret q → get_table db t = Ret tab →
  fhs_ (w_sm (se_world s)) !! t = Some hd → 0 <= record_size (file_hdr_ hd) →
  Forall (col_within (record_size (file_hdr_ hd))) (tm_cols tab) →
  (length (values q) ≠ length (tm_cols tab) →
     run_statement fuel junk self_thread (ast.InsertStmt t vs) txn s = (Throw InvalidValueCountError, s)) ∧
  (∀ cs1 col cs2 vs1 v vs2 err, tm_cols tab = cs1 ++ col :: cs2 → values q = vs1 ++ v :: vs2 → length cs2 = length vs2 →
     Forall2 value_ok cs1 vs1 → raw v = None → refusal col v = Some err →
     run_statement fuel junk self_thread (ast.InsertStmt t vs) txn s = (Throw err, s)).
Proof using Hjunk.
  intros db Ha Htab Hh Hrs Hw. destruct s as [[w c] tm tx]. cbn [se_world w_sm] in *.
  assert (parse q = ast.InsertStmt t vs) as Hparse.
  { simpl in Ha. by apply obind_Ret in Ha as (?&_&[= <-]). }
  assert (Hplan : plan_query db q = Ret (DMLPlan T_Insert NullPlan t (values q) [] [])).
  { unfold plan_query, do_planner. by rewrite Hparse. }
  assert (Hdb : the_tab t w = (Ret tab, w)).
  { unfold the_tab, bind, gets, lift. fold db. by rewrite Htab. }
  assert (Hhdr : the_table_hdr t w = (Ret (file_hdr_ hd), w)).
  { unfold the_table_hdr, bind, gets. by rewrite Hh. }
  assert (Hmake : Insert_make t (values q) w =
    if Nat.eqb (length (values q)) (length (tm_cols tab)) then (Ret (mkInsert tab (values q) t), w) else (Throw InvalidValueCountError, w)).
  { unfold Insert_make. rewrite (bind_Ret _ _ _ _ _ Hdb). destruct (Nat.eqb _ _); [|done]. simpl.
    unfold require_file. unfold bind at 1. by rewrite (bind_Ret _ _ _ _ _ Hhdr). }
  split.
  - intros Hne. eapply run_throws; [done|done|]. right. cbn [portal_start]. unfold bind. rewrite Hmake.
    by rewrite (proj2 (Nat.eqb_neq _ _) Hne).
  - intros cs1 col cs2 vs1 v vs2 err Ec Ev Hl Hok Hraw Href. eapply run_throws; [done|done|]. left. exists (InsertRoot (mkInsert tab (values q) t)).
    assert (Hlen : length (values q) = length (tm_cols tab)).
    { rewrite Ec, Ev, !length_app. simpl. apply Forall2_length in Hok. lia. }
    split; [cbn [portal_start]; unfold bind; by rewrite Hmake, Hlen, Nat.eqb_refl|].
    destruct (insert_fields_prefix cs1 vs1 (col :: cs2) (v :: vs2) (junk (record_size (file_hdr_ hd))) Hok) as [rec' Hrec].
    { rewrite Hjunk by done. rewrite Ec in Hw. by apply Forall_app in Hw as [? _]. }
    assert (Hnext : insert_Next junk (mkInsert tab (values q) t) w = (Throw err, w)).
    { unfold insert_Next. cbn [in_tab_name in_tab in_values]. rewrite (bind_Ret _ _ _ _ _ Hhdr).
      unfold bind at 1, lift. rewrite Ec, Ev, Hrec. cbn [insert_fields]. by rewrite (insert_field_refused col v rec' err Hraw Href). }
    unfold run_dml, bind. by rewrite Hnext.
Qed.

(** C24: An INSERT that does not fit its table is refused and changes nothing.  A wrong number
    of values is an [InvalidValueCountError]; with the right number, the first value that does
    not fit its column decides: an [IncompatibleTypeError] when the types differ, a
    [StringOverflowError] when a string is longer than the column.  The session is exactly as
    before: no page has been touched. *)
Theorem insert_rejected (s : Session R) t vs q txn hd tab :
  let db := db_ (w_sm (se_world s)) in
  do_analyze db (ast.InsertStmt t vs) = Ret q → get_table db t = Ret tab →
  fhs_ (w_sm (se_world s)) !! t = Some hd → 0 <= record_size (file_hdr_ hd) →
  Forall (col_within (record_size (file_hdr_ hd))) (tm_cols tab) →
  (length (values q) ≠ length (tm_cols tab) →
     run_statement fuel junk self_thread (ast.InsertStmt t vs) txn s = (Throw InvalidValueCountError, s)) ∧
  (∀ cs1 col cs2 vs1 v vs2 err, tm_cols tab = cs1 ++ col :: cs2 → values q = vs1 ++ v :: vs2 → length cs2 = length vs2 →
     Forall2 value_ok cs1 vs1 → raw v = None → refusal col v = Some err →
     run_statement fuel junk self_thread (ast.InsertStmt t vs) txn s = (Throw err, s)).
Proof using Hjunk. apply insert_rejected_ok. Qed.
End rejected.

(** ** Requests to the small database *)

Definition name_val (s : string) : ast.Value := ast.StringLit s.
Definition id_is_7 : ast.BinaryExpr := ast.mkBinaryExpr (ast.mkCol "t" "id") ast.SV_OP_EQ (ast.EValue (ast.IntLit 7)).

Definition one_insert : ast.TreeNode := ast.InsertStmt "t" [ast.IntLit 8; name_val "xy"].
Definition one_delete : ast.TreeNode := ast.DeleteStmt "t" [id_is_7].
Definition one_update : ast.TreeNode := ast.UpdateStmt "t" [ast.mkSetClause "name" (name_val "xy")] [id_is_7].

Definition requests_parser (text : string) : option (option ast.TreeNode) :=
  if decide (text = "insert") then Some (Some one_insert)
  else if decide (text = "delete") then Some (Some one_delete)
  else if decide (text = "update") then Some (Some one_update)
  else if decide (text = "wrong") then Some (Some (ast.InsertStmt "t" [ast.IntLit 8])) else None.

Definition one_tab : TabMeta :=
  mkTabMeta "t" [mkColMeta "t" "id" TYPE_INT 4 0 false; mkColMeta "t" "name" TYPE_STRING 4 4 false] [].
Definition val_int (z : Z) : Values.Value := mkValue TYPE_INT z "" None.
Definition val_str (x : string) : Values.Value := mkValue TYPE_STRING 0 x None.

Definition insert_query (vals : list Values.Value) (tree : ast.TreeNode) : Query := mkQuery tree [] [] [] [] vals.
Definition where_conds : list Condition := conds one_query.
Definition delete_query : Query := mkQuery one_delete where_conds [] [] [] [].
Definition update_query : Query :=
  mkQuery one_update where_conds [] []
    [mkSetClause (mkTabCol "" "name") (mkValue TYPE_STRING 0 "xy" (Some (mkRmRecord [x78; x79; x00; x00] 4 true)))] [].

Lemma one_where : where_ok one_db 10 one_data "t" where_conds.
Proof.
  split.
  - by exists one_tab.
  - intros tab Ht. vm_compute in Ht. by injection Ht as <-.
  - apply (qo_conds _ _ _ _ one_query_ok).
  - intros x [_ ->]%one_data_lookup. simpl. vm_compute. lia.
Qed.

Lemma one_requested text tree q :
  text ≠ "exit" → text ≠ "crash" → requests_parser text = Some (Some tree) → do_analyze one_db tree = Ret q →
  requested one_pages 2 one_env None one_db one_data requests_parser one_session text q tree.
Proof. intros. split; [apply one_sm_ok|done..]. Qed.

Lemma zeros_junk k : 0 <= k → Z.of_nat (length (zeros k)) = k.
Proof. intros Hk. rewrite length_zeros. lia. Qed.

Lemma one_lookup : one_data !! "t" = Some (rm_handle one_rm, one_records).
Proof. apply lookup_singleton_eq. Qed.

(** The row is stored as [8] in four bytes and the two characters padded with zeros. *)
Lemma insert_request_witness :
  ∃ s' r hd', handle_request 10 zeros 0 requests_parser "insert" 0 one_session = (Ret (Reply [x00]), s') ∧
    one_records !! r = None ∧
    tables_inv one_pages 2 one_env None one_db
      (<["t" := (hd', <[r := [x08; x00; x00; x00; x78; x79; x00; x00]]> one_records)]> one_data) (w_sm (se_world s')).
Proof.
  destruct (insert_request one_pages 2 one_env one_env_ok None one_db one_data one_described 10 zeros zeros_junk 0 requests_parser
    one_session "insert" 0 (insert_query [val_int 8; val_str "xy"] one_insert) "t" [ast.IntLit 8; name_val "xy"]
    (rm_handle one_rm) one_records one_tab) as (s'&r&hd'&Hrun&Hno&Hi&_).
  - apply one_requested; [done|done|reflexivity|vm_compute; reflexivity].
  - apply one_lookup.
  - reflexivity.
  - done.
  - done.
  - repeat (constructor; [split_and!; [reflexivity|vm_compute; done|reflexivity]|]). constructor.
  - intros H. vm_compute in H. discriminate H.
  - exists s', r, hd'. split; [exact Hrun|]. split; [exact Hno|exact Hi].
Defined.

(** The only row is chosen. *)
Lemma delete_request_witness :
  ∃ s' hd', handle_request 10 zeros 0 requests_parser "delete" 0 one_session = (Ret (Reply [x00]), s') ∧
    chosen one_db "t" where_conds one_row = true ∧
    tables_inv one_pages 2 one_env None one_db
      (<["t" := (hd', filter (λ x, chosen one_db "t" where_conds x.2 = false) one_records)]> one_data) (w_sm (se_world s')).
Proof.
  destruct (delete_request one_pages 2 one_env one_env_ok None one_db one_data one_described 10 zeros 0 requests_parser
    one_session "delete" 0 delete_query "t" [id_is_7] (rm_handle one_rm) one_records) as (s'&hd'&Hrun&Hi&_).
  - apply one_requested; [done|done|reflexivity|vm_compute; reflexivity].
  - apply one_where.
  - apply one_lookup.
  - exists s', hd'. split; [exact Hrun|]. split; [vm_compute; reflexivity|exact Hi].
Defined.

Lemma update_request_witness :
  ∃ s', handle_request 10 zeros 0 requests_parser "update" 0 one_session = (Ret (Reply [x00]), s') ∧
    assign one_tab (set_clauses update_query) one_row = [x07; x00; x00; x00; x78; x79; x00; x00] ∧
    tables_inv one_pages 2 one_env None one_db
      (<["t" := (rm_handle one_rm, (λ v, if chosen one_db "t" where_conds v
                                        then assign one_tab (set_clauses update_query) v else v) <$> one_records)]> one_data)
      (w_sm (se_world s')).
Proof.
  destruct (update_request one_pages 2 one_env one_env_ok None one_db one_data one_described 10 zeros 0 requests_parser
    one_session "update" 0 update_query "t" [ast.mkSetClause "name" (name_val "xy")] [id_is_7] (rm_handle one_rm) one_records one_tab)
    as (s'&Hrun&Hi&_).
  - apply one_requested; [done|done|reflexivity|vm_compute; reflexivity].
  - apply one_where.
  - apply one_lookup.
  - reflexivity.
  - constructor; [|constructor]. eexists. split; [reflexivity|]. split; [reflexivity|vm_compute; discriminate].
  - exists s'. split; [exact Hrun|]. split; [vm_compute; reflexivity|exact Hi].
Defined.

Lemma insert_rejected_witness :
  run_statement 10 zeros 0 (ast.InsertStmt "t" [ast.IntLit 8]) 0 one_session = (Throw InvalidValueCountError, one_session) ∧
  run_statement 10 zeros 0 (ast.InsertStmt "t" [ast.IntLit 8; name_val "abcde"]) 0 one_session =
    (Throw StringOverflowError, one_session).
Proof.
  assert (Hw : Forall (col_within (record_size (file_hdr_ (rm_handle one_rm)))) (tm_cols one_tab)).
  { destruct one_handle as (_&_&->). repeat (constructor; [vm_compute; split_and!; discriminate|]). constructor. }
  assert (Hrs : 0 <= record_size (file_hdr_ (rm_handle one_rm))) by (destruct one_handle as (_&_&->); lia).
  split.
  - destruct (insert_rejected 10 zeros zeros_junk 0 one_session "t" [ast.IntLit 8]
      (insert_query [val_int 8] (ast.InsertStmt "t" [ast.IntLit 8])) 0 (rm_handle one_rm) one_tab) as [H _];
      [vm_compute; reflexivity|reflexivity|apply lookup_singleton_eq|exact Hrs|exact Hw|]. apply H. simpl. lia.
  - destruct (insert_rejected 10 zeros zeros_junk 0 one_session "t" [ast.IntLit 8; name_val "abcde"]
      (insert_query [val_int 8; val_str "abcde"] (ast.InsertStmt "t" [ast.IntLit 8; name_val "abcde"])) 0 (rm_handle one_rm) one_tab) as [_ H];
      [vm_compute; reflexivity|reflexivity|apply lookup_singleton_eq|exact Hrs|exact Hw|].
    apply (H [mkColMeta "t" "id" TYPE_INT 4 0 false] (mkColMeta "t" "name" TYPE_STRING 4 4 false) [] [val_int 8] (val_str "abcde") []);
      try reflexivity. constructor; [split_and!; reflexivity|constructor].
Defined.

(** One value for two columns: the client is told. *)
Lemma failed_request_witness :
  ∃ s', handle_request 10 zeros 0 requests_parser "wrong" 0 one_session =
    (Ret (Reply (str_bytes (what InvalidValueCountError +:+ nl) ++ [x00])), s').
Proof.
  destruct (failed_request 10 zeros 0 requests_parser one_session (fresh_session one_session) "wrong"
    (ast.InsertStmt "t" [ast.IntLit 8]) 0 InvalidValueCountError) as (s'&Hrun&_).
  - done.
  - done.
  - reflexivity.
  - vm_compute. reflexivity.
  - vm_compute. discriminate.
  - exists s'. exact Hrun.
Defined.
