(* ===== verification/CreateTable.v ===== *)
(** * CREATE TABLE

    The table that [SmManager::create_table] makes is well-formed: its columns are laid out
    one after the other over a record of the right size, and its file is open and empty. *)

From S2P Require Import Prelude Errors Config Posix DiskManager Replacer BufferPool BufferPoolSpec BufferPoolProps.
From S2P Require Import Bitmap RecordFile RecordPage RecordSpec RecordStore RecordProps RecordManager RecordClaims StrMap Values Text Meta Ast Plan.
From S2P Require Import Compare Planner Executor ExecutorProps Index Printer System Dml Txn Ql Tables SeqScan Columns.
From stdpp Require Import options.

(** A column definition with a positive width; numbers have four bytes. *)
Definition def_ok (d : ColDef) : Prop := 0 < def_len d ∧ (def_type d ≠ TYPE_STRING → def_len d = 4).

Definition defs_len (ds : list ColDef) : Z := foldr (λ d, Z.add (def_len d)) 0 ds.

(** The column made from a definition. *)
Definition def_col (t : string) (d : ColDef) (c : ColMeta) : Prop :=
  cm_tab_name c = t ∧ cm_name c = def_name d ∧ cm_type c = def_type d ∧ cm_len c = def_len d.

Lemma defs_len_nonneg ds : Forall def_ok ds → 0 <= defs_len ds.
Proof. induction 1 as [|d ds [??] _ IH]; simpl; lia. Qed.

Lemma layout_cols_ok t ds k :
  Forall def_ok ds → 0 <= k → k + defs_len ds < 2 ^ 31 →
  (layout_cols t ds k).2 = k + defs_len ds ∧
  layout_from k (layout_cols t ds k).1 = (layout_cols t ds k).1 ∧
  total_len (layout_cols t ds k).1 = defs_len ds ∧
  Forall2 (def_col t) ds (layout_cols t ds k).1.
Proof.
  intros Hds. revert k. induction Hds as [|d ds [Hpos _] Hds IH]; intros k Hk Hlt; simpl in *; [by rewrite Z.add_0_r|].
  pose proof (defs_len_nonneg ds Hds). rewrite wrap32_id by (unfold is_int32, INT_MIN, INT_MAX; lia).
  destruct (IH (k + def_len d)) as (I1&I2&I3&I4); [lia|lia|].
  destruct (layout_cols t ds (k + def_len d)) as [cs size]. simpl in *. split_and!; [lia| |lia|].
  - unfold set_offset. simpl. by rewrite I2.
  - constructor; [done|done].
Qed.

Lemma layout_cols_typed t ds :
  ds ≠ [] → Forall def_ok ds → defs_len ds < 2 ^ 31 → cols_ok t (layout_cols t ds 0).1.
Proof.
  intros Hne Hds Hlt. destruct (layout_cols_ok t ds 0 Hds) as (_&Hl&_&Hf); [lia|lia|].
  split; [| done| |].
  - clear -Hf. induction Hf as [|d c ds cs (?&_) _ IH]; by constructor.
  - clear -Hf Hds. induction Hf as [|d c ds cs (_&_&Ht&Hl) _ IH]; [done|].
    apply Forall_cons in Hds as [[H1 H2] Hds]. constructor; [|by apply IH]. unfold col_ok. by rewrite Ht, Hl.
  - intros E. rewrite E in Hf. by apply Forall2_nil_inv_r in Hf.
Qed.

Section create.
Context {R : Type} `{!Replacer R, !ReplacerSpec R}.

(** The name is free, and the system can take one more file. *)
Record creatable (T : gset frame_id_t) (t : string) (w : SmState R) : Prop := {
  cr_name : is_table (db_ w) t = false;
  cr_handle : fhs_ w !! t = None;
  cr_pool : bp_inv ∅ T (sm_store w);
  cr_disk : disk_inv (disk (sm_store w));
  cr_file : os_files (os (disk (sm_store w))) !! resolve (os (disk (sm_store w))) t = None;
  cr_dir : resolve (os (disk (sm_store w))) t ∉ os_dirs (os (disk (sm_store w)));
  cr_meta : t ≠ DB_META_NAME ∧ no_fd (resolve (os (disk (sm_store w))) DB_META_NAME) (sm_store w);
  cr_nofile : new_fd (os (disk (sm_store w))) < os_nofile (os (disk (sm_store w)));
  cr_max_fd : new_fd (os (disk (sm_store w))) < MAX_FD;
  cr_limit : PAGE_SIZE <= os_limit (os (disk (sm_store w)));
  cr_pages : ∀ q, page_table_ (bpm (sm_store w)) !! mkPageId (new_fd (os (disk (sm_store w)))) q = None;
}.

(** [db.meta] may have been written. *)
Definition meta_flushed (s s' : Store R) : Prop :=
  s' = s ∨ ∃ c, s' = file_written (resolve (os (disk s)) DB_META_NAME) c s.

(** [flush_meta] writes a file no table is in. *)
Lemma flush_meta_ok T hd (w : SmState R) m :
  no_fd (resolve (os (disk (sm_store w))) DB_META_NAME) (sm_store w) → rm_inv T hd (sm_store w) m →
  ∃ s', flush_meta w = (Ret tt, mkSm (db_ w) (fhs_ w) (ihs_ w) s') ∧ rm_inv T hd s' m ∧ meta_flushed (sm_store w) s'.
Proof.
  destruct w as [db fhs ihs s]. simpl. intros Hno Hi.
  unfold flush_meta, bind, gets, sm_os, sm_with_disk, sm_with_store, with_disk, zoom, on_os, modify, write_stream.
  cbn [db_ sm_store]. destruct (stream_opens (os (disk s)) DB_META_NAME).
  - eexists. split; [done|]. cbn [sm_store]. split; [by apply rm_inv_file_written|]. right. by eexists.
  - eexists. split; [done|]. destruct s as [? []]. split; [done|by left].
Qed.

(** Opening [t] puts no descriptor on [db.meta]. *)
Lemma no_fd_opened (s s' : Store R) fd0 t :
  t ≠ DB_META_NAME → no_fd (resolve (os (disk s)) DB_META_NAME) s → file_opened fd0 t s s' →
  no_fd (resolve (os (disk s')) DB_META_NAME) s'.
Proof.
  intros Ht Hno (_&_&c&off0&Hos) fd q off Hq E. rewrite Hos in Hq, E. unfold resolve in *. cbn in Hq, E.
  apply lookup_insert_Some in Hq as [[_ Hq]|[_ Hq]].
  - injection Hq as <- _. by apply app_inj_tail in E as [_ E].
  - by apply (Hno fd q off Hq).
Qed.

(** The table and the handle that [create_table] makes. *)
Definition new_table (t : string) (ds : list ColDef) : TabMeta := mkTabMeta t (layout_cols t ds 0).1 [].
Definition new_handle (fd : Z) (ds : list ColDef) : RmFileHandle := mkRmFileHandle fd (rm_initial_hdr (defs_len ds)).

Lemma create_table_ok T t ds (w : SmState R) :
  creatable T t w → ds ≠ [] → Forall def_ok ds → defs_len ds <= RM_MAX_RECORD_SIZE →
  let s := sm_store w in let hd := new_handle (new_fd (os (disk s))) ds in
  ∃ s1 s2, create_table t ds w =
      (Ret tt, mkSm (SetTabMeta t (new_table t ds) (db_ w)) (<[t := hd]> (fhs_ w)) (ihs_ w) s2) ∧
    rm_inv T hd s2 ∅ ∧ disk_inv (disk s1) ∧ file_opened (new_fd (os (disk s))) t s s1 ∧ meta_flushed s1 s2.
Proof.
  intros Hc Hne Hds Hmax s hd. unfold RM_MAX_RECORD_SIZE in Hmax.
  destruct (layout_cols_ok t ds 0 Hds) as (Hsize&_); [lia|lia|]. rewrite Z.add_0_l in Hsize.
  assert (Hpos : 1 <= defs_len ds).
  { destruct Hds as [|d ds [??] Hds]; [done|]. pose proof (defs_len_nonneg ds Hds). simpl. lia. }
  destruct (create_open_ok T s t (defs_len ds)) as [_ Hco].
  destruct Hco as (d'&s'&Hcreate&Hopen&Hi&Hdi&Hfo); [unfold fresh_hdr, RM_MAX_RECORD_SIZE; lia|apply Hc..|].
  fold (new_handle (new_fd (os (disk s))) ds) in Hopen, Hi. fold hd in Hopen, Hi.
  set (db' := SetTabMeta t (new_table t ds) (db_ w)). set (w2 := mkSm db' (<[t := hd]> (fhs_ w)) (ihs_ w) s').
  destruct (flush_meta_ok T hd w2 ∅) as (s2&Hflush&Hi2&Hm); [|done|].
  { destruct (cr_meta _ _ _ Hc). by eapply no_fd_opened. }
  exists s', s2. split; [|done].
  unfold create_table. unfold bind at 1, gets. rewrite (cr_name _ _ _ Hc).
  rewrite (surjective_pairing (layout_cols t ds 0)), Hsize. fold (new_table t ds).
  assert (E1 : sm_with_disk (rm_create_file t (defs_len ds)) w = (Ret tt, mkSm (db_ w) (fhs_ w) (ihs_ w) (BufferPool.set_disk d' s))).
  { unfold sm_with_disk, sm_with_store, with_disk, zoom. fold s. by rewrite Hcreate. }
  rewrite (bind_Ret _ _ _ _ _ E1). unfold bind at 1, modify at 1, set_db. cbn [db_ fhs_ ihs_ sm_store]. fold db'.
  assert (E2 : open_table t (mkSm db' (fhs_ w) (ihs_ w) (BufferPool.set_disk d' s)) = (Ret tt, w2)).
  { unfold open_table.
    assert (E3 : sm_with_disk (rm_open_file t) (mkSm db' (fhs_ w) (ihs_ w) (BufferPool.set_disk d' s)) =
      (Ret hd, mkSm db' (fhs_ w) (ihs_ w) s')).
    { unfold sm_with_disk, sm_with_store. unfold zoom at 1. cbn [sm_store db_ fhs_ ihs_]. by rewrite Hopen. }
    rewrite (bind_Ret _ _ _ _ _ E3). unfold modify, set_fhs, emplace. cbn [db_ fhs_ ihs_ sm_store]. by rewrite (cr_handle _ _ _ Hc). }
  rewrite (bind_Ret _ _ _ _ _ E2). exact Hflush.
Qed.

(** What the catalogue holds afterwards. *)
Lemma new_table_typed t ds : ds ≠ [] → Forall def_ok ds → defs_len ds <= RM_MAX_RECORD_SIZE →
  cols_ok t (tm_cols (new_table t ds)) ∧ Forall2 (def_col t) ds (tm_cols (new_table t ds)) ∧
  total_len (tm_cols (new_table t ds)) = defs_len ds.
Proof.
  intros Hne Hds Hmax. unfold RM_MAX_RECORD_SIZE in Hmax.
  destruct (layout_cols_ok t ds 0 Hds) as (_&_&Htot&Hf); [lia|lia|].
  split_and!; [apply layout_cols_typed; [done|done|lia]|done|done].
Qed.

Lemma get_table_new t tab db : get_table (SetTabMeta t tab db) t = Ret tab.
Proof. unfold get_table, SetTabMeta. cbn [tabs_]. by rewrite sm_find_insert. Qed.

Lemma get_table_other t t' tab db : t' ≠ t → get_table (SetTabMeta t tab db) t' = get_table db t'.
Proof. intros H. unfold get_table, SetTabMeta. cbn [tabs_]. by rewrite sm_find_insert_ne. Qed.

(** C14: CREATE TABLE makes a well-typed table.  For a free name and definitions with positive
    widths (four bytes for numbers) that fit a record of at most 512 bytes, [create_table]
    succeeds: the catalogue has the table with one column per definition, in that order, with
    its type and width, laid out without gaps from offset 0; its record file is open, holds no
    records, and its records are exactly as long as the columns; the entries and handles of
    all other tables are as before. *)
Theorem create_table_typed T t ds (w : SmState R) :
  creatable T t w → ds ≠ [] → Forall def_ok ds → defs_len ds <= RM_MAX_RECORD_SIZE →
  ∃ w' hd cs, create_table t ds w = (Ret tt, w') ∧
    get_table (db_ w') t = Ret (mkTabMeta t cs []) ∧ Forall2 (def_col t) ds cs ∧ cols_ok t cs ∧
    fhs_ w' !! t = Some hd ∧ record_size (file_hdr_ hd) = total_len cs ∧ rm_inv T hd (sm_store w') ∅ ∧
    ∀ t', t' ≠ t → get_table (db_ w') t' = get_table (db_ w) t' ∧ fhs_ w' !! t' = fhs_ w !! t'.
Proof.
  intros Hc Hne Hds Hmax. destruct (create_table_ok T t ds w Hc Hne Hds Hmax) as (s1&s2&Hrun&Hi&_).
  destruct (new_table_typed t ds Hne Hds Hmax) as (Hck&Hf&Htot).
  eexists _, _, (tm_cols (new_table t ds)). split_and!; [done|apply get_table_new|done|done|apply lookup_insert_eq| |done|].
  - symmetry. exact Htot.
  - intros t' Hne'. split; [by apply get_table_other|by apply lookup_insert_ne].
Qed.
End create.

(** ** [CREATE TABLE t (id INT, name CHAR(4));] in an empty database *)

Definition empty_sm : SmState LRUReplacer := mkSm (mkDbMeta "d" []) ∅ ∅ rec_store0.
Definition two_defs : list ColDef := [mkColDef "id" TYPE_INT 4; mkColDef "name" TYPE_STRING 4].

Lemma create_table_typed_witness :
  ∃ w' hd cs, create_table "t" two_defs empty_sm = (Ret tt, w') ∧
    get_table (db_ w') "t" = Ret (mkTabMeta "t" cs []) ∧ Forall2 (def_col "t") two_defs cs ∧ cols_ok "t" cs ∧
    rm_inv ∅ hd (sm_store w') ∅.
Proof.
  destruct (create_table_typed ∅ "t" two_defs empty_sm) as (w'&hd&cs&H1&H2&H3&H4&_&_&H5&_).
  - split.
    + reflexivity.
    + reflexivity.
    + apply rec_store0_inv.
    + apply disk_inv_init. reflexivity.
    + reflexivity.
    + intros H. by apply not_elem_of_empty in H.
    + split; [discriminate|]. intros fd q off H. vm_compute in H. discriminate H.
    + reflexivity.
    + reflexivity.
    + vm_compute. discriminate.
    + intros q. apply lookup_empty.
  - discriminate.
  - constructor; [split; [reflexivity|reflexivity]|]. constructor; [split; [reflexivity|]|constructor]. intros H. by destruct H.
  - vm_compute. discriminate.
  - exists w', hd, cs. split; [exact H1|]. split; [exact H2|]. split; [exact H3|]. split; [exact H4|exact H5].
Defined.
