(* ===== verification/Utility.v ===== *)
(** * Statements that report or do nothing

    HELP, SHOW TABLES and DESC, the statements whose bodies are still empty in the code (COMMIT,
    ABORT, ROLLBACK, CREATE INDEX, DROP INDEX), and statements the analyzer refuses: what they
    answer, and that the stored tables stay as they are. *)

From S2P Require Import Prelude Errors Config Posix DiskManager Replacer BufferPool BufferPoolSpec BufferPoolProps.
From S2P Require Import Bitmap RecordFile RecordPage RecordSpec RecordStore RecordProps StrMap Values Text Meta Ast Analyze Plan.
From S2P Require Import Compare Planner PlannerProps Executor ExecutorProps Index Printer PrinterProps System Dml Txn Ql Server.
From S2P Require Import Tables SeqScan Columns Relational Select RecordManager RecordClaims Sample Query Statements Requests.
From stdpp Require Import options.

(** ** What is printed *)

(** The text of a report in a fresh buffer: as much of its pieces as fits. *)
Definition report (n : Z) (os : list PrintOp) : string := fitting 0 (all_pieces n os).

Definition tables_report (db : DbMeta) : list PrintOp :=
  [PSeparator; PRecord ["Tables"]; PSeparator] ++ ((λ x, PRecord [tm_name x.2]) <$> tabs_ db) ++ [PSeparator].

Definition tables_lines (db : DbMeta) : list (list string) := ["Tables"] :: ((λ x, [tm_name x.2]) <$> tabs_ db).

Definition desc_report (tab : TabMeta) : list PrintOp :=
  [PSeparator; PRecord ["Field"; "Type"; "Index"]; PSeparator] ++ ((λ c, PRecord (desc_row c)) <$> tm_cols tab) ++ [PSeparator].

Lemma all_pieces_app n l k : all_pieces n (l ++ k) = all_pieces n l ++ all_pieces n k.
Proof. apply bind_app. Qed.

Lemma all_pieces_cons n o l : all_pieces n (o :: l) = pieces n o ++ all_pieces n l.
Proof. done. Qed.

Lemma out_line_one s : out_line [s] = "| " +:+ s +:+ " |" +:+ nl.
Proof.
  unfold out_line. cbn [foldr]. change ("| " +:+ s +:+ " |" +:+ nl) with ("|" +:+ (" " +:+ s +:+ " |" +:+ nl)).
  rewrite !string_app_assoc. reflexivity.
Qed.

Lemma printed_sent c ps : printed c ps → sent c = str_bytes (fitting 0 ps) ∧ reply_ends c.
Proof.
  intros [H1 H2 H3 Hz H4 _]. split; [exact H3|]. pose proof (str_size_nonneg (fitting 0 ps)).
  unfold reply_ends, RECORD_COUNT_LENGTH in *. split_and!; [lia|done|lia|lia].
Qed.

Section utility.
Context {R : Type} `{!Replacer R, !ReplacerSpec R}.
Context (A : gset PageId) (n : Z) (e : Env) (He : env_ok e) (db : DbMeta).
Context (data : gmap string (RmFileHandle * gmap Rid row)).
Context (fuel : nat) (junk : Z → list byte) (self_thread : Z).

Abbreviation here out := (tables_inv (R := R) A n e out db data).

(** One call of the printer. *)
Lemma print_step p o ps (w : World R) : printed (w_ctx w) ps → op_ok p o →
  ∃ c', with_ctx (run_print (mkRecordPrinter p) o) w = (Ret tt, mkWorld (w_sm w) c') ∧ printed c' (ps ++ pieces p o).
Proof.
  intros Hc Ho. destruct (run_print_ok p o _ ps Hc Ho) as (c'&E&H). exists c'. split; [|done]. by apply run_with_ctx.
Qed.

(** A loop that prints one record for every element, and writes [line] to [output.txt]. *)
Lemma show_loop {B} (f : B → string) l ps out (w : World R) : here out (w_sm w) → printed (w_ctx w) ps →
  ∃ w', for_each (λ x, with_ctx (print_record (mkRecordPrinter 1) [f x]) ;; output ("| " +:+ f x +:+ " |" +:+ nl)) l w = (Ret tt, w') ∧
    here (lines_out e out ((λ x, [f x]) <$> l)) (w_sm w') ∧ printed (w_ctx w') (ps ++ all_pieces 1 ((λ x, PRecord [f x]) <$> l)).
Proof using He.
  revert ps out w. induction l as [|x l IH]; intros ps out w Hi Hc.
  { exists w. simpl. by rewrite app_nil_r. }
  destruct (print_step 1 (PRecord [f x]) ps w Hc eq_refl) as (c1&E1&H1). simpl in E1.
  destruct (run_output A n e He db data out (mkWorld (w_sm w) c1) ("| " +:+ f x +:+ " |" +:+ nl) Hi) as (s2&E2&Hi2).
  destruct (IH (ps ++ pieces 1 (PRecord [f x])) _ (mkWorld s2 c1) Hi2 H1) as (w'&E3&Hi3&H3).
  rewrite <- out_line_one in Hi3. exists w'. rewrite !fmap_cons, all_pieces_cons, (assoc_L (++)). split_and!; [|exact Hi3|exact H3].
  cbn [for_each]. unfold bind at 1. rewrite (bind_Ret _ _ _ _ _ E1), E2. exact E3.
Qed.

Lemma show_tables_ok out (w : World R) : here out (w_sm w) → fresh_ctx (w_ctx w) →
  ∃ w', show_tables w = (Ret tt, w') ∧ here (lines_out e out (tables_lines db)) (w_sm w') ∧
    sent (w_ctx w') = str_bytes (report 1 (tables_report db)) ∧ reply_ends (w_ctx w').
Proof using He.
  intros Hi Hc. unfold show_tables.
  destruct (run_output A n e He db data out w ("| Tables |" +:+ nl) Hi) as (s1&E1&Hi1). rewrite (bind_Ret _ _ _ _ _ E1).
  unfold bind at 1. change (with_ctx (RecordPrinter_make 1) (mkWorld s1 (w_ctx w))) with
    (Ret (mkRecordPrinter 1), mkWorld (R := R) s1 (w_ctx w)). cbv iota beta.
  destruct (print_step 1 PSeparator [] (mkWorld s1 (w_ctx w)) (fresh_printed _ Hc) I) as (c2&E2&H2). rewrite (bind_Ret _ _ _ _ _ E2).
  destruct (print_step 1 (PRecord ["Tables"]) _ (mkWorld s1 c2) H2 eq_refl) as (c3&E3&H3). rewrite (bind_Ret _ _ _ _ _ E3).
  destruct (print_step 1 PSeparator _ (mkWorld s1 c3) H3 I) as (c4&E4&H4). rewrite (bind_Ret _ _ _ _ _ E4).
  unfold bind at 1, gets. cbn [w_sm]. rewrite (ti_db _ _ _ _ _ _ _ Hi1).
  destruct (show_loop (λ x : string * TabMeta, tm_name x.2) (tabs_ db) _ _ (mkWorld s1 c4) Hi1 H4) as ([s5 c5]&E5&Hi5&H5).
  rewrite (bind_Ret _ _ _ _ _ E5).
  destruct (print_step 1 PSeparator _ (mkWorld s5 c5) H5 I) as (c6&E6&H6).
  eexists. split_and!; [exact E6|exact Hi5|..]; apply printed_sent in H6 as [Hs Hr]; [|done].
  simpl w_ctx. rewrite Hs. unfold report, tables_report. do 2 apply f_equal.
  rewrite all_pieces_app, all_pieces_app. by rewrite <- !(assoc_L (++)).
Qed.

Lemma desc_loop l ps (w : World R) : printed (w_ctx w) ps →
  ∃ c', for_each (λ c, with_ctx (print_record (mkRecordPrinter 3) (desc_row c))) l w = (Ret tt, mkWorld (w_sm w) c') ∧
    printed c' (ps ++ all_pieces 3 ((λ c, PRecord (desc_row c)) <$> l)).
Proof.
  revert ps w. induction l as [|x l IH]; intros ps [s c] Hc; [exists c; simpl; by rewrite app_nil_r|].
  destruct (print_step 3 (PRecord (desc_row x)) ps (mkWorld s c) Hc eq_refl) as (c1&E1&H1).
  destruct (IH _ (mkWorld s c1) H1) as (c'&E2&H2). exists c'. rewrite fmap_cons, all_pieces_cons, (assoc_L (++)).
  split; [|exact H2]. cbn [for_each]. by rewrite (bind_Ret _ _ _ _ _ E1).
Qed.

Lemma desc_table_ok t tab out (w : World R) : here out (w_sm w) → fresh_ctx (w_ctx w) → get_table db t = Ret tab →
  ∃ c', desc_table t w = (Ret tt, mkWorld (w_sm w) c') ∧ sent c' = str_bytes (report 3 (desc_report tab)) ∧ reply_ends c'.
Proof.
  intros Hi Hc Ht. destruct w as [s c]. unfold desc_table.
  pose proof (ti_db _ _ _ _ _ _ _ Hi) as Hdb. simpl in Hdb.
  unfold bind at 1, gets. cbn [w_sm]. rewrite Hdb. unfold bind at 1, lift. rewrite Ht.
  unfold bind at 1. change (with_ctx (RecordPrinter_make (Z.of_nat (length ["Field"; "Type"; "Index"]))) (mkWorld s c)) with
    (Ret (mkRecordPrinter 3), mkWorld (R := R) s c). cbv iota beta.
  destruct (print_step 3 PSeparator [] (mkWorld s c) (fresh_printed _ Hc) I) as (c2&E2&H2). rewrite (bind_Ret _ _ _ _ _ E2).
  destruct (print_step 3 (PRecord ["Field"; "Type"; "Index"]) _ (mkWorld s c2) H2 eq_refl) as (c3&E3&H3). rewrite (bind_Ret _ _ _ _ _ E3).
  destruct (print_step 3 PSeparator _ (mkWorld s c3) H3 I) as (c4&E4&H4). rewrite (bind_Ret _ _ _ _ _ E4).
  destruct (desc_loop (tm_cols tab) _ (mkWorld s c4) H4) as (c5&E5&H5). rewrite (bind_Ret _ _ _ _ _ E5).
  destruct (print_step 3 PSeparator _ (mkWorld s c5) H5 I) as (c6&E6&H6).
  exists c6. split; [exact E6|]. apply printed_sent in H6 as [Hs Hr]. split; [|done]. rewrite Hs. unfold report, desc_report.
  do 2 apply f_equal. rewrite all_pieces_app, all_pieces_app. by rewrite <- !(assoc_L (++)).
Qed.

Lemma send_help_ok c : fresh_ctx c → ∃ c', send_help c = (Ret tt, c') ∧ sent c' = str_bytes help_info ∧ reply_ends c'.
Proof.
  intros (Hd&Ho&He'). destruct c as [d o el]. simpl in Hd, Ho, He'. subst d o el.
  assert (Hlen : str_size help_info + 1 <= BUFFER_LENGTH) by (vm_compute; discriminate).
  pose proof (str_size_nonneg help_info) as H0.
  destruct (ctx_append_run help_info (mkContext (zeros BUFFER_LENGTH) 0 false)) as (d&Hr&Hl&Ht&Hd);
    [done|cbn [offset_ data_send_]; rewrite length_zeros; lia|].
  unfold send_help. rewrite (bind_Ret _ _ _ _ _ Hr). eexists. split; [reflexivity|].
  unfold sent, reply_ends. cbn [data_send_ offset_] in *. rewrite !Z.add_0_l in *. rewrite take_0 in Ht. split_and!.
  - exact Ht.
  - rewrite Hl. unfold zeros. by rewrite length_replicate.
  - rewrite Hd. apply Forall_drop, Forall_replicate. done.
  - done.
  - done.
Qed.

(** ** The requests *)

Context (yyparse : string → option (option ast.TreeNode)) (txn : Z).

(** A text the server runs, and the session it starts from. *)
Record served (out : option (list byte)) (s : Session R) (text : string) (t : ast.TreeNode) (q : Query) : Prop := {
  sv_here : here out (w_sm (se_world s));
  sv_exit : text ≠ "exit";
  sv_crash : text ≠ "crash";
  sv_parse : yyparse text = Some (Some t);
  sv_analyze : do_analyze db t = Ret q;
}.

Abbreviation request text := (handle_request fuel junk self_thread yyparse text txn).

Lemma run_other t q tag tab (s : Session R) :
  do_analyze (db_ (w_sm (se_world s))) t = Ret q → plan_query (db_ (w_sm (se_world s))) q = Ret (OtherPlan tag tab) →
  run_statement fuel junk self_thread t txn s = run_cmd_utility self_thread (OtherPlan tag tab) txn s.
Proof.
  intros Ha Hp. destruct s as [[w c] tm tx]. unfold run_statement. unfold bind at 1, gets. cbn [se_world w_sm] in *.
  unfold bind at 1, lift. rewrite Ha. unfold bind at 1. by rewrite Hp.
Qed.

Lemma run_ddl t q tag tab names cols (s : Session R) :
  do_analyze (db_ (w_sm (se_world s))) t = Ret q → plan_query (db_ (w_sm (se_world s))) q = Ret (DDLPlan tag tab names cols) →
  run_statement fuel junk self_thread t txn s = on_world (run_mutli_query junk (DDLPlan tag tab names cols)) s.
Proof.
  intros Ha Hp. destruct s as [[w c] tm tx]. unfold run_statement. unfold bind at 1, gets. cbn [se_world w_sm] in *.
  unfold bind at 1, lift. rewrite Ha. unfold bind at 1. by rewrite Hp.
Qed.

(** A statement that ends well is answered with what it printed. *)
Lemma served_run out s text t q s' txt : served out s text t q →
  run_statement fuel junk self_thread t txn (fresh_session s) = (Ret tt, s') →
  sent (w_ctx (se_world s')) = str_bytes txt → reply_ends (w_ctx (se_world s')) →
  request text s = (Ret (Reply (str_bytes txt ++ [x00])), s').
Proof using.
  intros H Hrun Hs Hr. apply (request_run fuel junk self_thread yyparse s s' text t txn); [apply H..|done|].
  rewrite <- Hs. by apply reply_bytes.
Qed.

Lemma fresh_sent : sent (mkContext (zeros BUFFER_LENGTH) 0 false) = str_bytes "" ∧
  reply_ends (mkContext (zeros BUFFER_LENGTH) 0 false).
Proof using. destruct (printed_sent _ _ (fresh_printed (mkContext (zeros BUFFER_LENGTH) 0 false) ltac:(done))) as [-> H]. done. Qed.

Lemma help_request out s text q : served out s text ast.Help q →
  ∃ s', request text s = (Ret (Reply (str_bytes help_info ++ [x00])), s') ∧ here out (w_sm (se_world s')).
Proof using.
  intros H. pose proof (sv_analyze _ _ _ _ _ H) as Ha. injection Ha as <-.
  destruct (send_help_ok (w_ctx (se_world (fresh_session s))) ltac:(done)) as (c'&Hrun&Hs&Hr).
  exists (mkSession (mkWorld (w_sm (se_world s)) c') (se_tm s) None). split; [|apply H].
  eapply served_run; [exact H| |done|done].
  erewrite run_other; [|reflexivity..]. cbn [run_cmd_utility]. unfold on_world, zoom. cbn [se_world fresh_session].
  unfold with_ctx, zoom. cbn [w_ctx]. cbn [fresh_session se_world w_ctx] in Hrun. by rewrite Hrun.
Qed.

Lemma show_tables_request out s text q : served out s text ast.ShowTables q →
  ∃ s', request text s = (Ret (Reply (str_bytes (report 1 (tables_report db)) ++ [x00])), s') ∧
    here (lines_out e out (tables_lines db)) (w_sm (se_world s')).
Proof using He.
  intros H. pose proof (sv_analyze _ _ _ _ _ H) as Ha. injection Ha as <-.
  destruct (show_tables_ok out (se_world (fresh_session s)) (sv_here _ _ _ _ _ H) ltac:(done)) as (w'&Hrun&Hi&Hs&Hr).
  exists (mkSession w' (se_tm s) None). split; [|exact Hi].
  eapply served_run; [exact H| |exact Hs|exact Hr].
  erewrite run_other; [|reflexivity..]. cbn [run_cmd_utility]. unfold on_world, zoom. by rewrite Hrun.
Qed.

Lemma desc_request out s text q t tab : served out s text (ast.DescTable t) q → get_table db t = Ret tab →
  ∃ s', request text s = (Ret (Reply (str_bytes (report 3 (desc_report tab)) ++ [x00])), s') ∧ here out (w_sm (se_world s')).
Proof using.
  intros H Ht. pose proof (sv_analyze _ _ _ _ _ H) as Ha. injection Ha as <-.
  destruct (desc_table_ok t tab out (se_world (fresh_session s)) (sv_here _ _ _ _ _ H) ltac:(done) Ht) as (c'&Hrun&Hs&Hr).
  exists (mkSession (mkWorld (w_sm (se_world s)) c') (se_tm s) None). split; [|apply H].
  eapply served_run; [exact H| |exact Hs|exact Hr].
  erewrite run_other; [|reflexivity..]. cbn [run_cmd_utility]. unfold on_world, zoom. by rewrite Hrun.
Qed.

(** The statements whose bodies are empty. *)
Definition idle (t : ast.TreeNode) : Prop :=
  match t with
  | ast.TxnCommit | ast.TxnAbort | ast.TxnRollback => txn = INVALID_TXN_ID
  | ast.CreateIndex _ _ | ast.DropIndex _ _ => True
  | _ => False
  end.

Lemma idle_request out s text t q : served out s text t q → idle t →
  ∃ s', request text s = (Ret (Reply [x00]), s') ∧ here out (w_sm (se_world s')).
Proof using.
  clear He. intros H Hidle. exists (fresh_session s). split; [|apply H]. destruct fresh_sent as [Hs Hr].
  change [x00] with (str_bytes "" ++ [x00]). eapply served_run; [exact H| |exact Hs|exact Hr].
  pose proof (sv_analyze _ _ _ _ _ H) as Ha.
  assert (Hcmd : ∀ tag, tag ∈ [T_Transaction_commit; T_Transaction_abort; T_Transaction_rollback] → txn = INVALID_TXN_ID →
      run_cmd_utility self_thread (OtherPlan tag "") txn (fresh_session s) = (Ret tt, fresh_session s)).
  { intros tag Htag ->. repeat (apply elem_of_cons in Htag as [->|Htag]; [reflexivity|]). by apply elem_of_nil in Htag. }
  destruct t as [| | | | | | | | |x l|x l| | | |]; try (exfalso; exact Hidle); injection Ha as <-.
  - rewrite (run_other ast.TxnCommit _ T_Transaction_commit "" (fresh_session s) eq_refl eq_refl). apply Hcmd; [set_solver|done].
  - rewrite (run_other ast.TxnAbort _ T_Transaction_abort "" (fresh_session s) eq_refl eq_refl). apply Hcmd; [set_solver|done].
  - rewrite (run_other ast.TxnRollback _ T_Transaction_rollback "" (fresh_session s) eq_refl eq_refl). apply Hcmd; [set_solver|done].
  - exact (run_ddl (ast.CreateIndex x l) _ T_CreateIndex x l [] (fresh_session s) eq_refl eq_refl).
  - exact (run_ddl (ast.DropIndex x l) _ T_DropIndex x l [] (fresh_session s) eq_refl eq_refl).
Qed.
End utility.

(** ** Statements that fail before they are run *)

(** The column definitions of a CREATE TABLE, as the planner makes them. *)
Definition col_defs (fields : list ast.ColDef) : list ColDef :=
  (λ d, mkColDef (ast.cd_col_name d) (interp_sv_type (ast.tl_type (ast.cd_type_len d))) (ast.tl_len (ast.cd_type_len d))) <$> fields.

Section refused.
Context {R : Type} `{!Replacer R, !ReplacerSpec R}.
Context (A : gset PageId) (n : Z) (e : Env) (He : env_ok e) (db : DbMeta).
Context (data : gmap string (RmFileHandle * gmap Rid row)).
Context (fuel : nat) (junk : Z → list byte) (self_thread : Z).
Context (yyparse : string → option (option ast.TreeNode)) (txn : Z).

Abbreviation here out := (tables_inv (R := R) A n e out db data).
Abbreviation request text := (handle_request fuel junk self_thread yyparse text txn).

(** What is refused before anything is done: what the analyzer does not accept, tables that are not there,
    a table that is there already or whose records would be too short or too long. *)
Inductive refused : ast.TreeNode → RMDBError → Prop :=
  | refused_analysis t err : do_analyze db t = Throw err → refused t err
  | refused_desc t err : get_table db t = Throw err → refused (ast.DescTable t) err
  | refused_drop t : is_table db t = false → refused (ast.DropTable t) (TableNotFoundError t)
  | refused_insert_into t vs q err : do_analyze db (ast.InsertStmt t vs) = Ret q → get_table db t = Throw err →
      refused (ast.InsertStmt t vs) err
  | refused_create t fields : is_table db t = true → refused (ast.CreateTable t fields) (TableExistsError t)
  | refused_size t fields : let size := (layout_cols t (col_defs fields) 0).2 in
      is_table db t = false → ¬ fresh_hdr size → refused (ast.CreateTable t fields) (InvalidRecordSizeError size).

Lemma refused_run out (s : Session R) t err :
  here out (w_sm (se_world s)) → refused t err → run_statement fuel junk self_thread t txn s = (Throw err, s).
Proof using.
  clear He. intros Hi Href. pose proof (ti_db _ _ _ _ _ _ _ Hi) as Hdb. destruct s as [[w c] tm tx]. cbn [se_world w_sm] in *.
  destruct Href as [t err Ha|t err Ht|t Ht|t vs q err Ha Ht|t fields Ht|t fields size Ht Hsize].
  - unfold run_statement. unfold bind at 1, gets. cbn [se_world w_sm]. rewrite Hdb. unfold bind at 1, lift. by rewrite Ha.
  - erewrite run_other by reflexivity. cbn [run_cmd_utility]. unfold on_world, zoom, desc_table. cbn [se_world].
    unfold bind at 1, gets. cbn [w_sm]. rewrite Hdb. unfold bind at 1, lift. by rewrite Ht.
  - erewrite run_ddl by reflexivity. unfold on_world, with_sm, zoom. cbn [se_world run_mutli_query w_sm].
    unfold with_sm, zoom, drop_table. cbn [w_sm]. unfold bind at 1, gets. by rewrite Hdb, Ht.
  - assert (parse q = ast.InsertStmt t vs) as Hp. { simpl in Ha. by apply obind_Ret in Ha as (?&_&[= <-]). }
    eapply run_throws; [by rewrite <- Ha; f_equal|unfold plan_query, do_planner; by rewrite Hp|]. right.
    cbn [portal_start]. unfold Insert_make, the_tab, bind, gets, lift. by rewrite Hdb, Ht.
  - erewrite run_ddl by reflexivity. unfold on_world, zoom. cbn [se_world run_mutli_query].
    unfold with_sm, zoom, create_table. cbn [w_sm]. unfold bind at 1, gets. by rewrite Hdb, Ht.
  - erewrite run_ddl by reflexivity. unfold on_world, zoom. cbn [se_world run_mutli_query].
    unfold with_sm, zoom, create_table. cbn [w_sm]. unfold bind at 1, gets. rewrite Hdb, Ht. fold (col_defs fields).
    rewrite (surjective_pairing (layout_cols t (col_defs fields) 0)). fold size.
    destruct (create_open_ok ∅ (sm_store w) t size) as [Hno _].
    unfold bind at 1, sm_with_disk, sm_with_store, with_disk, zoom. rewrite (Hno Hsize). by destruct w as [? ? ? []].
Qed.

Lemma refused_request out (s : Session R) text t err :
  here out (w_sm (se_world s)) → text ≠ "exit" → text ≠ "crash" → yyparse text = Some (Some t) →
  refused t err → str_size (what err) + 2 <= BUFFER_LENGTH →
  ∃ s', request text s = (Ret (Reply (str_bytes (what err +:+ nl) ++ [x00])), s') ∧
    here (appended e out ("failure" +:+ nl)) (w_sm (se_world s')).
Proof using He.
  intros Hi Hexit Hcrash Hparse Href Hlen.
  pose proof (refused_run out (fresh_session s) t err Hi Href) as Hrun.
  destruct (failed_request_ok fuel junk self_thread yyparse s (fresh_session s) text t txn err Hexit Hcrash Hparse Hrun Hlen)
    as (s'&Hreq&Hs'&_).
  destruct (tables_output A n e He out db data (w_sm (se_world s)) ("failure" +:+ nl) Hi) as (w'&E&Hi').
  exists s'. split; [done|]. rewrite Hs'. change (w_sm (se_world (fresh_session s))) with (w_sm (se_world s)). by rewrite E.
Qed.
End refused.
