(* ===== verification/Schema.v ===== *)
(** * CREATE TABLE as a request

    What a CREATE TABLE does to the open tables: the new table is empty, all others keep their
    records, and the process has one more open file. *)

From S2P Require Import Prelude Errors Config Posix DiskManager Replacer BufferPool BufferPoolSpec BufferPoolProps.
From S2P Require Import Bitmap RecordFile RecordPage RecordSpec RecordStore RecordProps RecordManager RecordClaims StrMap Values Text Meta Ast Analyze Plan.
From S2P Require Import Compare Planner PlannerProps Executor ExecutorProps Index Printer PrinterProps System Dml Txn Ql Server.
From S2P Require Import Tables SeqScan Columns Relational Select Sample Query Statements Requests CreateTable Utility.
From stdpp Require Import options.

(** ** One more open file *)

(** The lowest free descriptor, and the environment after a file is opened under it. *)
Definition free_fd (e : Env) : Z := lowest_free ((λ p, (p, 0)) <$> e_fds e) (size (e_fds e)) 3.

Definition env_opened (t : string) (e : Env) : Env :=
  mkEnv (e_cwd e) (e_dirs e) (e_limit e) (e_nofile e) (<[free_fd e := e_cwd e ++ [t]]> (e_fds e)).

Lemma free_fd_of o : free_fd (env_of o) = new_fd o.
Proof.
  unfold free_fd, new_fd, env_of. simpl. rewrite map_size_fmap. apply lowest_free_dom. intros k.
  rewrite !lookup_fmap. by destruct (os_fds o !! k).
Qed.

Lemma free_fd_fresh e : e_fds e !! free_fd e = None.
Proof.
  pose proof (lowest_free_fresh ((λ p, (p, 0)) <$> e_fds e) 3) as H. rewrite map_size_fmap in H.
  fold (free_fd e) in H. rewrite lookup_fmap in H. by destruct (e_fds e !! free_fd e).
Qed.

Lemma env_opened_ok t e : env_ok e → t ≠ OUTPUT_FILE → t ≠ DB_META_NAME → env_ok (env_opened t e).
Proof.
  intros He H1 H2 fd p. unfold out_path, meta_path. simpl. rewrite lookup_insert. case_decide; [|apply He].
  intros [= <-]. by split; intros [_ [= E]]%app_inj_tail.
Qed.

Lemma fd_content_ext (o o' : OS) fd q off off' :
  os_fds o !! fd = Some (q, off) → os_fds o' !! fd = Some (q, off') → os_files o' !! q = os_files o !! q →
  fd_content o' fd = fd_content o fd.
Proof. intros H1 H2 H3. unfold fd_content. by rewrite H1, H2. Qed.

Section opened.
Context {R : Type} `{!Replacer R, !ReplacerSpec R}.
Implicit Types (s : Store R) (w : SmState R).

(** The contents behind the other descriptors stay. *)
Lemma file_opened_content t s s1 fd :
  disk_inv (disk s) → os_files (os (disk s)) !! resolve (os (disk s)) t = None →
  file_opened (new_fd (os (disk s))) t s s1 → fd ≠ new_fd (os (disk s)) →
  fd_content (os (disk s1)) fd = fd_content (os (disk s)) fd.
Proof.
  intros Hd Hfile (_&_&c&off&Hos) Hne. destruct (os_fds (os (disk s)) !! fd) as [[q k]|] eqn:E.
  - eapply fd_content_ext; [done|rewrite Hos; simpl; by rewrite lookup_insert_ne|]. rewrite Hos. simpl.
    apply lookup_insert_ne. intros <-. destruct (di_fds _ Hd _ _ _ E) as (p&Hp&Hr).
    apply (di_open _ Hd) in Hp as [_ [x Hx]]. congruence.
  - unfold fd_content. rewrite Hos. simpl. by rewrite lookup_insert_ne, E.
Qed.

Lemma file_opened_others t s s1 :
  disk_inv (disk s) → os_files (os (disk s)) !! resolve (os (disk s)) t = None →
  file_opened (new_fd (os (disk s))) t s s1 → others_kept (new_fd (os (disk s))) s s1.
Proof.
  intros Hd Hfile Hop. pose proof (λ fd, file_opened_content t s s1 fd Hd Hfile Hop) as Hc.
  destruct Hop as (Hb&Hn&c&off&Hos). split_and!.
  - intros pid x Hne. unfold view, disk_page. by rewrite Hb, Hc.
  - exact Hn.
  - intros pid [Hsome Hrest]. destruct (decide (pid_fd pid = new_fd (os (disk s)))) as [E|E].
    { unfold fd_content in Hsome. rewrite E, new_fd_fresh in Hsome. by destruct Hsome. }
    split; [by rewrite Hc|]. rewrite Hos. exact Hrest.
  - intros pid _. by rewrite Hb.
  - intros pid _. unfold pinned. by rewrite Hb.
Qed.

Lemma meta_flushed_others fd s s' :
  no_fd (resolve (os (disk s)) DB_META_NAME) s → meta_flushed s s' → others_kept fd s s'.
Proof.
  intros Hno [->|[c ->]]; [reflexivity|]. split_and!; [|done| |done|done].
  - intros pid x _. unfold view. simpl. by rewrite <- (file_written_page _ c s pid Hno).
  - intros pid [Hsome Hrest]. split; [|done]. by rewrite file_written_content.
Qed.

Lemma meta_flushed_env e out n s s' : OUTPUT_FILE ≠ DB_META_NAME →
  meta_flushed s s' → store_env e out n s → store_env e out n s'.
Proof.
  intros Hne [->|[c ->]]; [done|]. intros (Hn&[He Ho]&Hd). split; [done|]. split; [|by apply disk_inv_file_written].
  split; [done|]. rewrite <- Ho, <- He. simpl. apply lookup_insert_ne. intros [_ [= E]]%app_inj_tail.
Qed.

Lemma file_opened_env e out n t s s1 : t ≠ OUTPUT_FILE → disk_inv (disk s1) →
  file_opened (new_fd (os (disk s))) t s s1 → store_env e out n s → store_env (env_opened t e) out n s1.
Proof.
  intros Hne Hd1 (Hb&_&c&off&Hos) (Hn&[He Ho]&Hd). split; [by rewrite Hb|]. split; [|done]. rewrite Hos. split.
  - unfold env_of, env_opened. subst e. rewrite free_fd_of. simpl. f_equal. by rewrite fmap_insert.
  - rewrite <- Ho, <- He. simpl. apply lookup_insert_ne. intros [_ [= E]]%app_inj_tail. by destruct Hne.
Qed.
End opened.

(** ** The new table *)

(** A table that can be made: its columns, its name, and room for one more open file. *)
Record addable (e : Env) (db : DbMeta) (t : string) (ds : list ColDef) : Prop := {
  ad_some : ds ≠ [];
  ad_defs : Forall def_ok ds;
  ad_len : defs_len ds <= RM_MAX_RECORD_SIZE;
  ad_name : is_table db t = false;
  ad_reserved : t ≠ OUTPUT_FILE ∧ t ≠ DB_META_NAME;
  ad_dir : e_cwd e ++ [t] ∉ e_dirs e;
  ad_nofile : free_fd e < e_nofile e;
  ad_max_fd : free_fd e < MAX_FD;
  ad_limit : PAGE_SIZE <= e_limit e;
}.

Section create.
Context {R : Type} `{!Replacer R, !ReplacerSpec R}.
Context (A : gset PageId) (n : Z) (e : Env) (He : env_ok e) (out : option (list byte)) (db : DbMeta).
Context (data : gmap string (RmFileHandle * gmap Rid row)) (Hdesc : described db data).

Abbreviation here := (tables_inv (R := R) A n e out db data).

(** No file of the name is in the directory of the database. *)
Definition free_name (t : string) (w : SmState R) : Prop := os_files (os (disk (sm_store w))) !! (e_cwd e ++ [t]) = None.

Lemma tables_fd w : here w → new_fd (os (disk (sm_store w))) = free_fd e.
Proof using. clear He Hdesc. intros Hi. destruct (ti_env _ _ _ _ _ _ _ Hi) as (_&[<- _]&_). by rewrite free_fd_of. Qed.

Lemma tables_resolve w t : here w → resolve (os (disk (sm_store w))) t = e_cwd e ++ [t].
Proof using. clear He Hdesc. intros Hi. destruct (ti_env _ _ _ _ _ _ _ Hi) as (_&[<- _]&_). done. Qed.

(** A table that is open has a file. *)
Lemma tables_named w t : here w → free_name t w → data !! t = None.
Proof using.
  clear He Hdesc. intros Hi Hfree. destruct (data !! t) as [x|] eqn:Ht; [|done]. exfalso.
  destruct (ti_env _ _ _ _ _ _ _ Hi) as (_&Henv). pose proof (ti_open _ _ _ _ _ _ _ Hi t x Ht) as Hop.
  destruct (env_content e out _ (fd_ x.1) Henv ltac:(by rewrite Hop)) as [c Hc]. unfold fd_content in Hc.
  destruct Henv as [[Hee _] _]. rewrite <- Hee in Hop. simpl in Hop. rewrite lookup_fmap in Hop.
  destruct (os_fds (os (disk (sm_store w))) !! fd_ x.1) as [[q off]|]; [|done]. simpl in Hop. injection Hop as ->.
  unfold free_name in Hfree. rewrite <- Hee in Hfree. simpl in Hfree. congruence.
Qed.

Lemma tables_creatable w t ds T : here w → bp_inv ∅ T (sm_store w) → addable e db t ds → free_name t w → creatable T t w.
Proof using He.
  clear Hdesc. intros Hi Hbp Had Hfree. pose proof (tables_named w t Hi Hfree) as Hnone. pose proof (tables_fd w Hi) as Hfd.
  destruct (ti_env _ _ _ _ _ _ _ Hi) as (_&[Hee Ho]&Hd). split; rewrite ?Hfd.
  - rewrite (ti_db _ _ _ _ _ _ _ Hi). apply Had.
  - by rewrite (ti_handles _ _ _ _ _ _ _ Hi), lookup_fmap, Hnone.
  - done.
  - done.
  - by rewrite (tables_resolve w t Hi).
  - rewrite (tables_resolve w t Hi). pose proof (ad_dir _ _ _ _ Had) as H. rewrite <- Hee in H. by rewrite <- Hee.
  - split; [apply Had|]. rewrite (tables_resolve w _ Hi). intros fd q off Hq. apply (He fd q). by eapply env_fd.
  - pose proof (ad_nofile _ _ _ _ Had) as H. by rewrite <- Hee in H at 2.
  - apply Had.
  - pose proof (ad_limit _ _ _ _ Had) as H. by rewrite <- Hee in H.
  - intros q. destruct (page_table_ _ !! _) as [f|] eqn:E; [|done]. exfalso.
    destruct (ti_cached _ _ _ _ _ _ _ Hi (mkPageId (free_fd e) q)) as (t'&x&Hx&Hf); [by eexists|]. simpl in Hf.
    pose proof (ti_open _ _ _ _ _ _ _ Hi t' x Hx) as Hop. by rewrite Hf, free_fd_fresh in Hop.
Qed.

(** One more table, whose file has been opened under the lowest free descriptor. *)
Lemma tables_add w t hd m s' T db' : here w → data !! t = None → fd_ hd = free_fd e → rm_inv T hd s' m →
  others_kept (free_fd e) (sm_store w) s' → store_env (env_opened t e) out n s' →
  (∀ p, in_file (file_hdr_ hd) p → mkPageId (free_fd e) p ∈ A) →
  tables_inv A n (env_opened t e) out db' (<[t := (hd, m)]> data) (mkSm db' (<[t := hd]> (fhs_ w)) (ihs_ w) s').
Proof using.
  clear He Hdesc. intros Hi Hnone Hfd Hrm Ho Henv HA. destruct (ti_files _ _ _ _ _ _ _ Hi) as (T0&Hbp&Hf).
  assert (Hne : ∀ t2 x, data !! t2 = Some x → fd_ x.1 ≠ free_fd e).
  { intros t2 x Hx E. pose proof (ti_open _ _ _ _ _ _ _ Hi t2 x Hx) as H. by rewrite E, free_fd_fresh in H. }
  pose proof Ho as (_&_&_&Hca&Hpin). split; cbn [db_ fhs_ ihs_ sm_store].
  - done.
  - by rewrite fmap_insert, (ti_handles _ _ _ _ _ _ _ Hi).
  - apply Hi.
  - intros t1 t2 x1 x2. rewrite !lookup_insert. repeat case_decide; subst; try done.
    + intros [= <-] Hx2 E. destruct (Hne _ _ Hx2). by rewrite <- E.
    + intros Hx1 [= <-] E. destruct (Hne _ _ Hx1). by rewrite E.
    + apply (ti_apart _ _ _ _ _ _ _ Hi).
  - exists T. split; [apply Hrm|]. intros t2 x. rewrite lookup_insert. case_decide; [by intros [= <-]|].
    intros Hx. eapply rm_inv_others; [by apply (Hf t2)|done|rewrite Hfd; by eapply Hne|by rewrite Hfd].
  - intros t2 x p. rewrite lookup_insert. case_decide; [|by apply (ti_pages _ _ _ _ _ _ _ Hi)].
    intros [= <-]. simpl. rewrite Hfd. apply HA.
  - intros pid Hp. destruct (decide (pid_fd pid = free_fd e)) as [E|E]; [|by apply (ti_pins _ _ _ _ _ _ _ Hi), Hpin].
    destruct pid as [fd p]. simpl in E. subst fd. apply HA. apply (ri_table _ _ _ _ Hrm). rewrite Hfd.
    eapply pinned_resident; [apply Hrm|done].
  - apply (ti_room _ _ _ _ _ _ _ Hi).
  - intros t2 x. cbn [env_opened e_fds e_cwd]. rewrite !lookup_insert. case_decide as Hk.
    + intros [= <-]. subst t2. simpl. by rewrite decide_True.
    + intros Hx. rewrite decide_False; [|intros E; by eapply Hne]. by apply (ti_open _ _ _ _ _ _ _ Hi).
  - intros pid Hp. destruct (decide (pid_fd pid = free_fd e)) as [E|E].
    + exists t, (hd, m). by rewrite lookup_insert_eq, E.
    + destruct (ti_cached _ _ _ _ _ _ _ Hi pid) as (t2&x&Hx&Hfx); [by apply Hca|]. exists t2, x. split; [|done].
      rewrite lookup_insert_ne; [done|]. intros <-. congruence.
  - done.
Qed.

Lemma tables_create w t ds : here w → addable e db t ds → free_name t w →
  let hd := new_handle (free_fd e) ds in
  ∃ w', create_table t ds w = (Ret tt, w') ∧
    tables_inv A n (env_opened t e) out (SetTabMeta t (new_table t ds) db) (<[t := (hd, ∅)]> data) w'.
Proof using He.
  clear Hdesc. intros Hi Had Hfree hd. destruct (ti_files _ _ _ _ _ _ _ Hi) as (T&Hbp&_).
  destruct (create_table_ok T t ds w) as (s1&s2&Hrun&Hrm&Hd1&Hop&Hm); [by eapply tables_creatable|apply Had..|].
  pose proof (tables_fd w Hi) as Hfd. rewrite Hfd in Hrun, Hrm. fold hd in Hrun, Hrm.
  pose proof (ad_reserved _ _ _ _ Had) as [Hr1 Hr2].
  pose proof (ti_env _ _ _ _ _ _ _ Hi) as Henv. pose proof Henv as (_&_&Hd).
  assert (Henv1 : store_env (env_opened t e) out n s1) by (by eapply file_opened_env).
  assert (Hno : no_fd (resolve (os (disk s1)) DB_META_NAME) s1).
  { destruct Henv1 as (_&Hin&_). intros fd q off Hq. pose proof (env_fd _ _ _ _ _ _ Hin Hq) as Hq'.
    apply (env_opened_ok t e He Hr1 Hr2) in Hq' as [_ Hq']. destruct Hin as [Hin _]. unfold meta_path in Hq'. by rewrite <- Hin in Hq'. }
  eexists. split; [exact Hrun|]. rewrite (ti_db _ _ _ _ _ _ _ Hi). eapply tables_add; [done|by eapply tables_named|done|exact Hrm| | |].
  - etransitivity; [|by apply (meta_flushed_others _ s1)]. rewrite <- Hfd. apply (file_opened_others t); [done| |done].
    by rewrite (tables_resolve w t Hi).
  - by apply (meta_flushed_env _ _ _ s1).
  - intros p. unfold in_file, RM_FIRST_RECORD_PAGE, hd, new_handle, rm_initial_hdr. simpl. lia.
Qed.

(** The catalogue describes the new table as well. *)
Lemma described_create t ds fd : addable e db t ds → data !! t = None →
  described (SetTabMeta t (new_table t ds) db) (<[t := (new_handle fd ds, ∅)]> data).
Proof using Hdesc.
  clear He. intros Had Hnone t' (tab&Htab&Hne).
  destruct (new_table_typed t ds) as (Hck&_&Htot); [apply Had..|].
  destruct (decide (t' = t)) as [->|Hd].
  - exists (new_handle fd ds), ∅. rewrite lookup_insert_eq. unfold table_len, table_cols. rewrite get_table_new.
    split_and!; [done|done|symmetry; exact Htot| |done].
    rewrite Htot. pose proof (ad_len _ _ _ _ Had). unfold RM_MAX_RECORD_SIZE in *. lia.
  - rewrite get_table_other in Htab by done. destruct (Hdesc t') as (hd&m&Hm&Hrest); [by exists tab|].
    exists hd, m. rewrite lookup_insert_ne by done. unfold table_len, table_cols in *. by rewrite get_table_other.
Qed.
End create.

(** ** The request *)

Section request.
Context {R : Type} `{!Replacer R, !ReplacerSpec R}.
Context (A : gset PageId) (n : Z) (e : Env) (He : env_ok e) (out : option (list byte)) (db : DbMeta).
Context (data : gmap string (RmFileHandle * gmap Rid row)) (Hdesc : described db data).
Context (fuel : nat) (junk : Z → list byte) (self_thread : Z).
Context (yyparse : string → option (option ast.TreeNode)) (txn : Z).

Lemma create_request (s : Session R) text t fields q :
  served A n e db data yyparse out s text (ast.CreateTable t fields) q →
  addable e db t (col_defs fields) → free_name e t (w_sm (se_world s)) →
  let data' := <[t := (new_handle (free_fd e) (col_defs fields), ∅)]> data in
  let db' := SetTabMeta t (new_table t (col_defs fields)) db in
  ∃ s', handle_request fuel junk self_thread yyparse text txn s = (Ret (Reply [x00]), s') ∧
    tables_inv A n (env_opened t e) out db' data' (w_sm (se_world s')) ∧ described db' data'.
Proof using He Hdesc.
  intros H Had Hfree. pose proof (sv_here _ _ _ _ _ _ _ _ _ _ _ H) as Hi.
  destruct (tables_create A n e He out db data _ t (col_defs fields) Hi Had Hfree) as (w'&Hrun&Hi').
  exists (mkSession (mkWorld w' (mkContext (zeros BUFFER_LENGTH) 0 false)) (se_tm s) None).
  split_and!; [|done|eapply described_create; [done|done|by apply (tables_named A n e out db data (w_sm (se_world s)))]].
  pose proof (sv_analyze _ _ _ _ _ _ _ _ _ _ _ H) as Ha. destruct fresh_sent as [Hs Hr].
  change [x00] with (str_bytes "" ++ [x00]). eapply served_run; [exact H| |exact Hs|exact Hr].
  injection Ha as <-. erewrite run_ddl by reflexivity. fold (col_defs fields).
  unfold on_world, with_sm, zoom. cbn [se_world run_mutli_query w_sm fresh_session].
  unfold with_sm, zoom. cbn [w_sm]. by rewrite Hrun.
Qed.
End request.
