(* ===== verification/Closing.v ===== *)
(** * Closing files one after the other

    [close_db] closes the files of all tables, and the pages of a closed file stay in the pool, whose
    invariant then no longer holds.  What the remaining calls do does not depend on that: they
    touch the descriptor of their own file only, so they do the same as in a system in which the
    files closed before are still open.  [detach] is the state with some descriptors closed;
    [local] is this frame property of an operation. *)

From S2P Require Import Prelude Errors Config Posix DiskManager Replacer BufferPool BufferPoolSpec BufferPoolProps.
From S2P Require Import Bitmap RecordFile RecordPage RecordSpec RecordStore RecordProps RecordManager RecordClaims StrMap Values Text Meta Plan.
From S2P Require Import Compare Planner Executor ExecutorProps Index Printer System Dml Txn Ql Tables CreateTable Schema.
From stdpp Require Import options.

(** ** Operations that do not notice the closed files *)

Definition detach_os (C : gset Z) (o : OS) : OS := set_fds (filter (λ x, x.1 ∉ C) (os_fds o)) o.
Definition detach_dm (C : gset Z) (m : DiskManager) : DiskManager :=
  mkDM (filter (λ x, x.2 ∉ C) (path2fd_ m)) (filter (λ x, x.1 ∉ C) (fd2path_ m)) (log_fd_ m) (fd2pageno_ m).
Definition detach_disk (C : gset Z) (d : Disk) : Disk := mkDisk (detach_os C (os d)) (detach_dm C (dm d)).
Definition detach {R} (C : gset Z) (s : Store R) : Store R := BufferPool.set_disk (detach_disk C (disk s)) s.

Definition local {S A} (f : S → S) (m : M S A) : Prop := ∀ s, m (f s) = ((m s).1, f (m s).2).

Section local.
Context {S : Type} (f : S → S).

Lemma local_bind {A B} (m : M S A) (k : A → M S B) : local f m → (∀ a, local f (k a)) → local f (bind m k).
Proof. intros Hm Hk s. unfold bind. rewrite Hm. destruct (m s) as [[a|e|c] s']; [apply Hk|done|done]. Qed.

Lemma local_ret {A} (a : A) : local f (ret a).
Proof. done. Qed.
Lemma local_throw {A} e : local f (throw (A := A) e).
Proof. done. Qed.
Lemma local_access {A} (o : option A) : local f (access o).
Proof. intros s. by destruct o. Qed.
Lemma local_gets {A} (g : S → A) : (∀ s, g (f s) = g s) → local f (gets g).
Proof. intros H s. unfold gets. by rewrite H. Qed.
Lemma local_modify g : (∀ s, g (f s) = f (g s)) → local f (modify g).
Proof. intros H s. unfold modify. by rewrite H. Qed.
Lemma local_for_each {A} (g : A → M S unit) l : (∀ x, local f (g x)) → local f (for_each g l).
Proof. intros H. induction l as [|x l IH]; [apply local_ret|]. by apply local_bind. Qed.

(** What is returned carries over. *)
Lemma local_run {A} (m : M S A) s r s' : local f m → m s = (r, s') → m (f s) = (r, f s').
Proof. intros Hm E. by rewrite Hm, E. Qed.
End local.

Section files.
Context (C : gset Z) (fd : Z) (Hfd : fd ∉ C).

Lemma detach_lookup o : os_fds (detach_os C o) !! fd = os_fds o !! fd.
Proof using Hfd.
  simpl. destruct (os_fds o !! fd) as [x|] eqn:E.
  - by apply map_lookup_filter_Some_2.
  - apply map_lookup_filter_None_2. by left.
Qed.

Lemma detach_insert o x : set_fds (<[fd := x]> (os_fds (detach_os C o))) (detach_os C o) = detach_os C (set_fds (<[fd := x]> (os_fds o)) o).
Proof using Hfd. unfold detach_os, set_fds. simpl. f_equal. by rewrite map_filter_insert_True. Qed.

Lemma local_syscall {A} (f : OS → A * OS) :
  (∀ o, f (detach_os C o) = ((f o).1, detach_os C (f o).2)) → local (detach_disk C) (syscall f).
Proof using. clear Hfd. intros Hf [o m]. unfold syscall, detach_disk. cbn [os]. rewrite Hf. by destruct (f o). Qed.

Lemma local_lseek off : local (detach_disk C) (syscall (sys_lseek fd off)).
Proof using Hfd.
  apply local_syscall. intros o. unfold sys_lseek. rewrite detach_lookup. destruct (os_fds o !! fd) as [[p k]|]; [|done].
  case_decide; [done|]. cbn [fst snd]. by rewrite detach_insert.
Qed.

Lemma local_write bs : local (detach_disk C) (syscall (sys_write fd bs)).
Proof using Hfd.
  apply local_syscall. intros o. unfold sys_write. rewrite detach_lookup. destruct (os_fds o !! fd) as [[p k]|]; [|done].
  change (os_files (detach_os C o)) with (os_files o). destruct (os_files o !! p) as [c|]; [|done].
  change (os_limit (detach_os C o)) with (os_limit o). case_decide; [done|]. case_decide; [done|]. cbn [fst snd]. f_equal.
  exact (detach_insert (set_files _ o) _).
Qed.

Lemma local_write_page no b n : local (detach_disk C) (write_page fd no b n).
Proof using Hfd.
  unfold write_page. apply local_bind; [apply local_lseek|]. intros [?|?]; [|apply local_throw].
  apply local_bind; [apply local_access|]. intros bs. apply local_bind; [apply local_write|].
  intros [k|?]; [|apply local_throw]. destruct (k =? n); [apply local_ret|apply local_throw].
Qed.

Context {R : Type} `{!Replacer R}.

Lemma local_with_disk {A} (m : M Disk A) : local (detach_disk C) m → local (detach (R := R) C) (with_disk m).
Proof using.
  clear Hfd. intros Hm s. unfold with_disk, zoom, detach. cbn [disk BufferPool.set_disk]. rewrite Hm. by destruct (m (disk s)).
Qed.

Lemma local_frame f : local (detach (R := R) C) (frame f).
Proof using. intros s. unfold frame. simpl. by destruct (pages_ (bpm s) !! f). Qed.

Lemma local_flush : local (detach (R := R) C) (flush_all_pages fd).
Proof using Hfd.
  unfold flush_all_pages. apply local_bind; [by apply local_gets|]. intros k. apply local_for_each. intros i.
  unfold flush_frame. apply local_bind; [apply local_frame|]. intros pg.
  destruct (bool_decide_reflect (pid_fd (id_ pg) = fd)) as [->|]; [|apply local_ret].
  destruct (negb _); [|apply local_ret]. apply local_bind; [by apply local_with_disk, local_write_page|]. intros _.
  unfold modify_frame. apply local_bind; [apply local_frame|]. intros. by apply local_modify.
Qed.
End files.

(** Closing one more. *)
Lemma close_detached C fd p d : fd ∉ C → disk_inv d → fd2path_ (dm d) !! fd = Some p →
  close_file fd (detach_disk C d) = (Ret tt, detach_disk ({[fd]} ∪ C) d).
Proof.
  intros HC [Hm Hf Ho] Hp. destruct (Ho _ _ Hp) as [[x Hx] _].
  assert (Hp' : fd2path_ (dm (detach_disk C d)) !! fd = Some p) by by apply map_lookup_filter_Some_2.
  unfold close_file, gets, bind at 1. rewrite Hp'. unfold bind, syscall, sys_close. cbn [os detach_disk].
  rewrite detach_lookup, Hx by done. unfold modify, set_dm, set_os, set_fds, record_close, detach_disk, detach_os, detach_dm. cbn.
  unfold set_fds. cbn. do 2 f_equal.
  - f_equal. apply map_eq. intros k. apply option_eq. intros y. rewrite lookup_delete_Some, !map_lookup_filter_Some. simpl.
    rewrite not_elem_of_union, not_elem_of_singleton. naive_solver.
  - f_equal.
    + apply map_eq. intros k. apply option_eq. intros y. rewrite lookup_delete_Some, !map_lookup_filter_Some. simpl.
      rewrite not_elem_of_union, not_elem_of_singleton. split; [|].
      * intros (Hk&Hy&HyC). split_and!; [done| |done]. intros ->. apply Hm in Hy. congruence.
      * intros (Hy&Hne&HyC). split_and!; [|done|done]. intros <-. apply Hm in Hp. congruence.
    + apply map_eq. intros k. apply option_eq. intros y. rewrite lookup_delete_Some, !map_lookup_filter_Some. simpl.
      rewrite not_elem_of_union, not_elem_of_singleton. naive_solver.
Qed.

(** What writing pages of the file and cleaning frames preserves, [flush_all_pages] preserves. *)
Lemma keeps_flush {R} (P : Store R → Prop) fd :
  (∀ no b, keeps P (with_disk (write_page fd no b PAGE_SIZE))) → (∀ f g, keeps P (modify_frame f g)) → keeps P (flush_all_pages fd).
Proof.
  intros Hw Hm. unfold flush_all_pages. apply keeps_bind; [by apply keeps_gets|]. intros k. apply keeps_for_each. intros i.
  unfold flush_frame. apply keeps_bind; [intros s Hs; unfold frame; by case_match|]. intros pg.
  destruct (bool_decide_reflect (pid_fd (id_ pg) = fd)) as [->|]; [|apply keeps_ret].
  destruct (negb _); [|apply keeps_ret]. apply keeps_bind; [apply Hw|]. intros _. apply Hm.
Qed.

(** Frames are changed in the pool only. *)
Lemma keeps_modify_pages {R} (P : Store R → Prop) f g :
  (∀ h s, P s → P (upd_pages h s)) → keeps P (modify_frame f g).
Proof. intros HP. apply keeps_bind; [intros s Hs; unfold frame; by case_match|]. intros pg. apply keeps_modify. intros s. apply HP. Qed.

(** ** Other files stay as they are *)

Section others.
Context (fd : Z) (p q : path) (c : option (list byte)) (Hpq : p ≠ q).

Definition file_kept (d : Disk) : Prop := fst <$> os_fds (os d) !! fd = Some p ∧ os_files (os d) !! q = c.

Lemma keeps_kept_write no b n : keeps file_kept (write_page fd no b n).
Proof using Hpq.
  unfold write_page. apply keeps_bind.
  { intros d [H1 H2]. unfold syscall, sys_lseek. destruct (os_fds (os d) !! fd) as [[x k]|] eqn:E; [|done].
    case_decide; [by split; [simpl; rewrite E|]|]. split; [|done]. simpl in *. by rewrite lookup_insert_eq. }
  intros [?|?]; [|apply keeps_throw]. apply keeps_bind; [apply keeps_access|]. intros bs. apply keeps_bind.
  - intros d [H1 H2]. unfold syscall, sys_write. destruct (os_fds (os d) !! fd) as [[x k]|] eqn:E; [|done]. simpl in H1. injection H1 as ->.
    destruct (os_files (os d) !! p) eqn:E'; [|by split; [simpl; rewrite E|]]. case_decide; [by split; [simpl; rewrite E|]|]. case_decide; [by split; [simpl; rewrite E|]|].
    split; simpl; [by rewrite lookup_insert_eq|by rewrite lookup_insert_ne].
  - intros [k|?]; [|apply keeps_throw]. destruct (k =? n); [apply keeps_ret|apply keeps_throw].
Qed.

Context {R : Type} `{!Replacer R}.
Lemma keeps_kept_flush : keeps (λ s : Store R, file_kept (disk s)) (flush_all_pages fd).
Proof using Hpq.
  apply keeps_flush; [|intros; by apply keeps_modify_pages]. intros no b s Hs. pose proof (keeps_kept_write no b PAGE_SIZE (disk s) Hs) as H.
  unfold with_disk, zoom. by destruct (write_page _ _ _ _ (disk s)).
Qed.
End others.

(** ** Closing the tables *)

Section tables.
Context {R : Type} `{!Replacer R, !ReplacerSpec R}.
Context (n : Z) (e : Env) (He : env_ok e) (out : option (list byte)).
Context (data : gmap string (RmFileHandle * gmap Rid (list byte))).
Context (Hopen : ∀ t x, data !! t = Some x → e_fds e !! fd_ x.1 = Some (e_cwd e ++ [t])).
Context (Hlim : sizeof_RmFileHdr <= e_limit e).

Lemma keeps_env_flush fd : keeps (store_env (R := R) e out n) (flush_all_pages fd).
Proof using He.
  apply keeps_flush; [intros; by apply keeps_with_disk, keeps_write_page|intros; by apply keeps_modify_frame].
Qed.

(** Writing the header of a file and flushing it stay in the environment. *)
Lemma env_flushed (s : Store R) fd no b k d1 s2 : store_env e out n s → write_page fd no b k (disk s) = (Ret tt, d1) →
  flush_all_pages fd (BufferPool.set_disk d1 s) = (Ret tt, s2) → store_env e out n s2.
Proof using He.
  intros [Hn Hd] Hw Hfl. assert (H1 : store_env e out n (BufferPool.set_disk d1 s)).
  { split; [done|]. eapply (keeps_run (disk_env e out) _ (disk s) _ d1); [by apply (keeps_write_page e He out)|done|exact Hw]. }
  eapply (keeps_run (store_env e out n)); [apply keeps_env_flush|exact H1|exact Hfl].
Qed.

Lemma data_path_inj t1 t2 x1 x2 : data !! t1 = Some x1 → data !! t2 = Some x2 → fd_ x1.1 = fd_ x2.1 → t1 = t2.
Proof using Hopen.
  clear He Hlim. intros H1%Hopen H2%Hopen E. rewrite E, H2 in H1. injection H1 as H1. by apply app_inj_tail in H1 as [_ ->].
Qed.

(** The system in which the files of [C] are still open: they have been saved. *)
Record closing (C : gset Z) (meta : option (list byte)) (s : Store R) : Prop := {
  cl_files : ∃ T, bp_inv ∅ T s ∧ map_Forall (λ _ x, rm_inv T x.1 s x.2) data;
  cl_env : store_env e out n s;
  cl_meta : os_files (os (disk s)) !! meta_path e = meta;
  cl_saved : ∀ t x, data !! t = Some x → fd_ x.1 ∈ C →
    ∃ c, os_files (os (disk s)) !! (e_cwd e ++ [t]) = Some c ∧ file_image (file_hdr_ x.1) c x.2;
}.

Lemma env_open (s : Store R) t x : store_env e out n s → data !! t = Some x →
  fst <$> os_fds (os (disk s)) !! fd_ x.1 = Some (e_cwd e ++ [t]).
Proof using Hopen. clear He Hlim. intros (_&[He' _]&_) Hx%Hopen. rewrite <- He' in Hx at 1. simpl in Hx. by rewrite lookup_fmap in Hx. Qed.

Lemma close_one C meta s t hd m : closing C meta s → data !! t = Some (hd, m) → fd_ hd ∉ C →
  ∃ s', rm_close_file hd (detach C s) = (Ret tt, detach ({[fd_ hd]} ∪ C) s') ∧ closing ({[fd_ hd]} ∪ C) meta s'.
Proof using He Hopen Hlim.
  intros [(T&Hbp&Hf) Henv Hmeta Hsaved] Ht HC. pose proof (Hf t _ Ht) as Hrm. simpl in Hrm.
  pose proof (env_open s t _ Henv Ht) as Hfd. simpl in Hfd. pose proof Henv as (_&Hde&Hdi).
  assert (Hcont : is_Some (fd_content (os (disk s)) (fd_ hd))).
  { apply (env_content e out); [by split|]. pose proof (Hopen t _ Ht) as H. simpl in H. by rewrite H. }
  destruct (rm_flush_ok T hd s m Hrm Hcont) as (d1&s2&c&Hw&Hfl&Hrm2&Ho&Hsf&Hc&Himg).
  { destruct Hde as [<- _]. exact Hlim. }
  pose proof (env_flushed _ _ _ _ _ _ _ Henv Hw Hfl) as Henv2.
  assert (Hkeep : ∀ q, q ≠ e_cwd e ++ [t] → os_files (os (disk s2)) !! q = os_files (os (disk s)) !! q).
  { intros q Hq. set (P := file_kept (fd_ hd) (e_cwd e ++ [t]) q (os_files (os (disk s)) !! q)).
    assert (H1 : P d1) by (eapply (keeps_run P _ (disk s)); [by apply keeps_kept_write|by split|exact Hw]).
    eapply (keeps_run (λ x : Store R, P (disk x)) _ (BufferPool.set_disk d1 s)); [by apply keeps_kept_flush|exact H1|exact Hfl]. }
  destruct Henv2 as (Hn2&Hde2&Hdi2).
  destruct (os_fds (os (disk s2)) !! fd_ hd) as [[q off]|] eqn:Eq;
    [|unfold fd_content in Hc; by rewrite Eq in Hc].
  destruct (di_fds _ Hdi2 _ _ _ Eq) as (p&Hp&_).
  exists s2. split.
  - unfold rm_close_file. pose proof (local_run (detach C) _ s _ _ (local_with_disk C _ (local_write_page C (fd_ hd) HC _ _ _))
      (with_disk_run _ s _ _ Hw)) as E1. rewrite (bind_Ret _ _ _ _ _ E1).
    rewrite (bind_Ret _ _ _ _ _ (local_run (detach C) _ _ _ _ (local_flush C (fd_ hd) HC) Hfl)).
    unfold with_disk, zoom. cbn [disk detach BufferPool.set_disk]. by rewrite (close_detached C (fd_ hd) p (disk s2)).
  - split.
    + exists T. split; [apply Hrm2|]. intros t' x Hx. destruct (decide (t' = t)) as [->|Hne].
      * rewrite Ht in Hx. injection Hx as <-. exact Hrm2.
      * eapply rm_inv_others; [by apply (Hf t')|exact Hrm2| |exact Ho]. intros E. apply Hne. by apply (data_path_inj t' t x (hd, m)).
    + by split.
    + rewrite Hkeep; [done|]. intros E. pose proof (Hopen t _ Ht) as Ho'. apply He in Ho' as [_ Ho']. by rewrite E in Ho'.
    + intros t' x Hx Hin. destruct (decide (t' = t)) as [->|Hne].
      * rewrite Ht in Hx. injection Hx as <-. exists c. split; [|done]. rewrite <- Hc. unfold fd_content.
        pose proof (env_open s2 t _ (conj Hn2 (conj Hde2 Hdi2)) Ht) as Hp2. simpl in Hp2. rewrite Eq in *. by injection Hp2 as ->.
      * rewrite Hkeep; [|intros [_ [= E]]%app_inj_tail; by apply Hne]. apply Hsaved; [done|]. apply elem_of_union in Hin as [E%elem_of_singleton|]; [|done].
        destruct Hne. by apply (data_path_inj t' t x (hd, m)).
Qed.

Lemma close_all l C meta s : closing C meta s → Forall (λ x, ∃ m, data !! x.1 = Some (x.2, m) ∧ fd_ x.2 ∉ C) l → NoDup l.*1 →
  ∃ s' C', for_each (λ x : string * RmFileHandle, rm_close_file x.2) l (detach C s) = (Ret tt, detach C' s') ∧ closing C' meta s' ∧
    C ⊆ C' ∧ ∀ x, x ∈ l → fd_ x.2 ∈ C'.
Proof using He Hopen Hlim.
  revert C s. induction l as [|[t hd] l IH]; intros C s Hc Hl Hnd.
  { exists s, C. split_and!; [done|done|done|]. intros x Hx. by apply elem_of_nil in Hx. }
  apply Forall_cons in Hl as [(m&Ht&HC) Hl]. simpl in Ht, HC. apply NoDup_cons in Hnd as [Hn Hnd].
  destruct (close_one C meta s t hd m Hc Ht HC) as (s1&Hrun&Hc1).
  destruct (IH ({[fd_ hd]} ∪ C) s1 Hc1) as (s2&C2&Hrun2&Hc2&Hsub&Hin); [|done|].
  - apply Forall_forall. intros x Hx. rewrite Forall_forall in Hl. destruct (Hl x Hx) as (m'&Hx'&HxC). exists m'. split; [done|].
    rewrite not_elem_of_union, not_elem_of_singleton. split; [|done]. intros E. apply Hn.
    pose proof (data_path_inj x.1 t _ _ Hx' Ht E) as E'. apply list_elem_of_fmap. by exists x.
  - exists s2, C2. split_and!; [|done|set_solver|].
    + cbn [for_each]. by rewrite (bind_Ret _ _ _ _ _ Hrun).
    + intros x [->|Hx]%elem_of_cons; [apply Hsub; set_solver|by apply Hin].
Qed.
End tables.

Lemma detach_none {R} (s : Store R) : detach ∅ s = s.
Proof.
  assert (Hf : ∀ A B `{Countable A} (m : gmap A B) (P : A * B → Prop) `{∀ x, Decision (P x)}, (∀ x, P x) → filter P m = m).
  { intros A B ? ? m P ? HP. apply map_eq. intros i. apply option_eq. intros x. rewrite map_lookup_filter_Some. naive_solver. }
  destruct s as [b [[] []]]. unfold detach, detach_disk, detach_os, detach_dm, BufferPool.set_disk, set_fds. cbn.
  rewrite !Hf by (intros; apply not_elem_of_empty). done.
Qed.

(** ** [close_db] *)

(** What is on the disk of a database that has been closed. *)
Record saved (e : Env) (out : option (list byte)) (db : DbMeta)
    (data : gmap string (RmFileHandle * gmap Rid (list byte))) (o : OS) : Prop := {
  sd_dirs : os_dirs o = e_dirs e;
  sd_limit : os_limit o = e_limit e;
  sd_nofile : os_nofile o = e_nofile e;
  sd_out : os_files o !! out_path e = out;
  sd_meta : os_files o !! meta_path e = Some (str_bytes (write_DbMeta db));
  sd_tables : ∀ t x, data !! t = Some x →
    ∃ c, os_files o !! (e_cwd e ++ [t]) = Some c ∧ file_image (file_hdr_ x.1) c x.2;
}.

(** [db.meta] can be written. *)
Record writable (e : Env) (db : DbMeta) : Prop := {
  wr_nofile : free_fd e < e_nofile e;
  wr_dir : meta_path e ∉ e_dirs e;
  wr_fits : str_size (write_DbMeta db) <= e_limit e;
  wr_header : sizeof_RmFileHdr <= e_limit e;
}.

Section shutdown.
Context {R : Type} `{!Replacer R, !ReplacerSpec R}.
Context (iter : ∀ A : Type, gmap string A → list (string * A)) (Hiter : ∀ A m, iter A m ≡ₚ map_to_list m).
Context (junk : Z → list byte).
Context (A : gset PageId) (n : Z) (e : Env) (He : env_ok e) (out : option (list byte)) (db : DbMeta).
Context (data : gmap string (RmFileHandle * gmap Rid (list byte))).

Abbreviation here := (tables_inv (R := R) A n e out db data).

Lemma for_each_store {B} (f : B → M (Store R) unit) l (w : SmState R) :
  for_each (λ x, sm_with_store (f x)) l w = sm_with_store (for_each f l) w.
Proof using.
  clear Hiter He. revert w. induction l as [|x l IH]; intros [d fh ih s]; [done|]. cbn [for_each].
  unfold bind at 1. unfold sm_with_store at 1. unfold zoom at 1. cbn [sm_store]. unfold sm_with_store at 2, zoom. cbn [sm_store].
  unfold bind at 1. destruct (f x s) as [[[]|?|?] s']; [|done|done]. rewrite IH. done.
Qed.

(** [db.meta] is no table. *)
Lemma tables_meta_written w c : here w →
  here (mkSm (db_ w) (fhs_ w) (ihs_ w) (file_written (resolve (os (disk (sm_store w))) DB_META_NAME) c (sm_store w))).
Proof using He.
  clear Hiter. intros Hi. pose proof (tables_resolve A n e out db data w DB_META_NAME Hi) as Hres. fold (meta_path e) in Hres.
  assert (Hnofd : no_fd (resolve (os (disk (sm_store w))) DB_META_NAME) (sm_store w)).
  { pose proof (ti_env _ _ _ _ _ _ _ Hi) as (_&Hio&_). rewrite Hres. intros fd q off Hq. apply (He fd q). by eapply env_fd. }
  destruct Hi as [Hdb Hh Hix Hap (T&Hbp&Hf) Hpg Hpin Hroom Hopn Hca Henv]. split; try done.
  - exists T. split; [by apply bp_inv_file_written|]. intros t x Hx. apply rm_inv_file_written; [done|]. by apply (Hf t).
  - apply (meta_flushed_env e out n (sm_store w)); [done|right; by eexists|done].
Qed.

Lemma tables_flush_meta w : here w → ∃ w', flush_meta w = (Ret tt, w') ∧ here w'.
Proof using He.
  clear Hiter. intros Hi. unfold flush_meta, bind, gets, sm_os, sm_with_disk, sm_with_store, with_disk, zoom, on_os, modify, write_stream.
  destruct (stream_opens _ _); (eexists; split; [done|]); [by apply tables_meta_written|].
  destruct w as [? ? ? [? []]]. exact Hi.
Qed.

Lemma flush_meta_saves w : here w → writable e db →
  ∃ w', flush_meta w = (Ret tt, w') ∧ here w' ∧ os_files (os (disk (sm_store w'))) !! meta_path e = Some (str_bytes (write_DbMeta db)).
Proof using He.
  clear Hiter. intros Hi [Hno Hdir Hfit _]. pose proof (ti_env _ _ _ _ _ _ _ Hi) as (_&[Hee Ho]&Hd).
  pose proof (tables_resolve A n e out db data w DB_META_NAME Hi) as Hres. fold (meta_path e) in Hres.
  assert (Hop : stream_opens (os (disk (sm_store w))) DB_META_NAME = true).
  { unfold stream_opens. rewrite Hres, (tables_fd A n e out db data w Hi). apply bool_decide_eq_true. rewrite <- Hee in Hno at 2.
    rewrite <- Hee in Hdir at 2. by split. }
  eexists. split; [unfold flush_meta, bind, gets, sm_os, sm_with_disk, sm_with_store, with_disk, zoom, on_os, modify, write_stream;
    rewrite Hop; reflexivity|]. split; [by apply tables_meta_written|]. cbn [sm_store disk os db_ fhs_ ihs_].
  rewrite Hres, (ti_db _ _ _ _ _ _ _ Hi). simpl. rewrite lookup_insert_eq. f_equal.
  apply firstn_all2. rewrite <- Hee in Hfit. simpl in Hfit. pose proof (length_str_bytes (write_DbMeta db)). lia.
Qed.

Lemma close_db_ok w : here w → writable e db →
  ∃ w', close_db iter junk w = (Ret tt, w') ∧ saved e out db data (os (disk (sm_store w'))).
Proof using He Hiter.
  intros Hi Hwr. destruct (flush_meta_saves w Hi Hwr) as (w1&Hfl&Hi1&Hmeta).
  pose proof (ti_handles _ _ _ _ _ _ _ Hi1) as Hh. pose proof (ti_indexes _ _ _ _ _ _ _ Hi1) as Hix.
  destruct (close_all n e He out data (ti_open _ _ _ _ _ _ _ Hi1) (wr_header _ _ Hwr) (iter _ (fhs_ w1)) ∅
    (Some (str_bytes (write_DbMeta db))) (sm_store w1)) as (s2&C&Hrun&Hc&_&Hall).
  - split; [apply Hi1|apply Hi1|done|]. intros t x _ H. by apply not_elem_of_empty in H.
  - apply Forall_forall. intros [t hd]. rewrite Hiter, elem_of_map_to_list, Hh, lookup_fmap. simpl. intros Ht.
    destruct (data !! t) as [[hd' m]|]; [|done]. injection Ht as ->. exists m. split; [done|apply not_elem_of_empty].
  - rewrite Hiter. apply NoDup_fst_map_to_list.
  - exists (mkSm (db_ w1) ∅ ∅ (detach C s2)). split.
    + unfold close_db. rewrite (bind_Ret _ _ _ _ _ Hfl). unfold bind at 1, gets at 1. rewrite Hix.
      assert (iter _ (∅ : gmap string IxIndexHandle) = []) as ->.
      { apply Permutation_nil. by rewrite Hiter, map_to_list_empty. }
      cbn [for_each]. unfold bind at 1, ret at 1. unfold bind at 1, modify at 1. unfold bind at 1, gets at 1.
      cbn [fhs_ set_ihs]. unfold bind at 1. rewrite for_each_store. unfold sm_with_store, zoom. cbn [sm_store set_ihs].
      rewrite detach_none in Hrun. rewrite Hrun. reflexivity.
    + destruct Hc as [_ (_&[Hee Ho]&_) Hm Hsv]. cbn [sm_store]. subst e. split; try done.
      intros t x Hx. apply Hsv; [done|]. apply (Hall (t, x.1)). rewrite Hiter, elem_of_map_to_list, Hh, lookup_fmap, Hx. done.
Qed.
End shutdown.
