(* ===== verification/Drop.v ===== *)
(** * DROP TABLE as a request

    [drop_table] closes the file of the table, removes it and takes the table out of the
    catalogue.  When no page of the file is in the pool, nothing of the table is left, all other
    tables keep their records, and the descriptor is free again.  (With pages in the pool they
    stay there: [dropped_rows_return].) *)

From S2P Require Import Prelude Errors Config Posix DiskManager Replacer BufferPool BufferPoolSpec BufferPoolProps.
From S2P Require Import Bitmap RecordFile RecordPage RecordSpec RecordStore RecordProps RecordManager RecordClaims StrMap Values Text Meta Ast Analyze Plan.
From S2P Require Import Compare Planner PlannerProps Executor ExecutorProps Index Printer PrinterProps System Dml Txn Ql Server.
From S2P Require Import Tables SeqScan Columns Relational Select Sample Query Statements Requests CreateTable Utility Schema Closing.
From stdpp Require Import options.

(** ** A file that is closed and removed *)

(** The environment after the file of [t] is closed. *)
Definition env_closed (t : string) (e : Env) : Env :=
  mkEnv (e_cwd e) (e_dirs e) (e_limit e) (e_nofile e) (filter (λ x, x.2 ≠ e_cwd e ++ [t]) (e_fds e)).

Lemma env_closed_ok t e : env_ok e → env_ok (env_closed t e).
Proof. intros He fd p. simpl. rewrite map_lookup_filter_Some. intros [Hp _]. by apply (He fd). Qed.

(** The disk without the file. *)
Definition file_removed (fd : Z) (t : string) (d d' : Disk) : Prop :=
  os d' = set_files (delete (resolve (os d) t) (os_files (os d))) (set_fds (delete fd (os_fds (os d))) (os d)) ∧
  dm d' = record_close t fd (dm d).

Section removed.
Context {R : Type} `{!Replacer R, !ReplacerSpec R}.
Implicit Types (s : Store R).

(** Nothing of the file is in the pool. *)
Definition uncached (fd : Z) s : Prop := ∀ p, page_table_ (bpm s) !! mkPageId fd p = None.

Lemma removed_run fd t d : disk_inv d → fd2path_ (dm d) !! fd = Some t →
  ∃ d1 d2, close_file fd d = (Ret tt, d1) ∧ destroy_file t d1 = (Ret tt, d2) ∧ file_removed fd t d d2 ∧ disk_inv d2.
Proof.
  intros Hd Ht. destruct (di_open _ Hd _ _ Ht) as [[[q off] Hq] [c Hc]].
  set (d1 := mkDisk (set_fds (delete fd (os_fds (os d))) (os d)) (record_close t fd (dm d))).
  assert (Hclose : close_file fd d = (Ret tt, d1)).
  { unfold close_file, gets, bind at 1. rewrite Ht. unfold bind, syscall, sys_close. by rewrite Hq. }
  set (d2 := mkDisk (set_files (delete (resolve (os d) t) (os_files (os d))) (os d1)) (dm d1)).
  assert (Hdestroy : destroy_file t d1 = (Ret tt, d2)).
  { unfold destroy_file, is_file, path_is_open, gets, stat_reg. unfold bind at 1.
    rewrite bool_decide_eq_true_2 by (by exists c). cbn [negb]. unfold bind at 1.
    rewrite bool_decide_eq_false_2 by (simpl; rewrite lookup_delete_eq; by intros [? ?]). unfold bind, syscall, sys_unlink.
    change (os_files (os d1) !! resolve (os d1) t) with (os_files (os d) !! resolve (os d) t). by rewrite Hc. }
  exists d1, d2. split_and!; [done|done|done|].
  pose proof (keeps_close_file fd d Hd) as H1. rewrite Hclose in H1. cbn [snd] in H1.
  pose proof (keeps_destroy_file t d1 H1) as H2. by rewrite Hdestroy in H2.
Qed.

Context (fd : Z) (t : string) (d' : Disk).

Lemma removed_content s fd' : disk_inv (disk s) → fd2path_ (dm (disk s)) !! fd = Some t → file_removed fd t (disk s) d' → fd' ≠ fd →
  os_fds (os d') !! fd' = os_fds (os (disk s)) !! fd' ∧ fd_content (os d') fd' = fd_content (os (disk s)) fd'.
Proof using.
  intros Hd Ht [Hos _] Hne. rewrite Hos. unfold fd_content. simpl. rewrite lookup_delete_ne by done. split; [done|].
  destruct (os_fds (os (disk s)) !! fd') as [[q off]|] eqn:E; [|done]. rewrite lookup_delete_ne; [done|]. intros <-.
  destruct (di_fds _ Hd _ _ _ E) as (p&Hp&Hq). unfold resolve in Hq. apply app_inj_tail in Hq as [_ <-].
  apply (di_maps _ Hd) in Hp, Ht. congruence.
Qed.

Lemma removed_page s pid : disk_inv (disk s) → fd2path_ (dm (disk s)) !! fd = Some t → file_removed fd t (disk s) d' → pid_fd pid ≠ fd →
  disk_page d' pid = disk_page (disk s) pid ∧ (page_writable (disk s) pid → page_writable d' pid).
Proof using.
  intros Hd Ht Hr Hne. destruct (removed_content s _ Hd Ht Hr Hne) as [_ Hc]. split.
  - unfold disk_page. by rewrite Hc.
  - intros [Hs Hrest]. split; [by rewrite Hc|]. destruct Hr as [-> _]. exact Hrest.
Qed.

Lemma removed_bp T s : bp_inv ∅ T s → uncached fd s → disk_inv (disk s) → fd2path_ (dm (disk s)) !! fd = Some t →
  file_removed fd t (disk s) d' → disk_inv d' → bp_inv ∅ T (BufferPool.set_disk d' s).
Proof using.
  intros Hbp Hun Hd Ht Hr Hd'.
  apply bp_inv_change_disk; [done|by apply disk_inv_distinct|]. intros pid [f Hf].
  assert (Hne : pid_fd pid ≠ fd) by (intros <-; specialize (Hun (pid_no pid)); destruct pid; by simplify_eq/=).
  destruct (removed_page s pid Hd Ht Hr Hne) as [Hp Hw]. split; [done|]. by rewrite Hp.
Qed.

Lemma removed_rm T hd s m : rm_inv T hd s m → fd_ hd ≠ fd → uncached fd s → disk_inv (disk s) → fd2path_ (dm (disk s)) !! fd = Some t →
  file_removed fd t (disk s) d' → disk_inv d' → rm_inv T hd (BufferPool.set_disk d' s) m.
Proof using.
  intros Hi Hne Hun Hd Ht Hr Hd'. split.
  - apply removed_bp; [apply Hi|done..].
  - eapply file_ok_ext; [|apply Hi]. intros p Hp. unfold file_view, view. cbn [bpm disk BufferPool.set_disk].
    destruct (page_table_ (bpm s) !! _); [done|]. by apply removed_page.
  - apply Hi.
  - cbn [disk BufferPool.set_disk]. destruct Hr as [_ Hdm]. unfold next_page. rewrite Hdm. apply Hi.
  - apply Hi.
  - intros p Hp. eapply (removed_page s); [done..|]. by apply (ri_writable _ _ _ _ Hi).
Qed.
End removed.

(** ** The table *)

(** A table that can be dropped: it has no index, none of its pages is in the pool, and its header can be written. *)
Record droppable {R} (e : Env) (db : DbMeta) (t : string) (hd : RmFileHandle) (s : Store R) : Prop := {
  dr_indexes : ∃ tab, get_table db t = Ret tab ∧ tm_indexes tab = [];
  dr_uncached : uncached (fd_ hd) s;
  dr_header : sizeof_RmFileHdr <= e_limit e;
}.

Definition removed_table (t : string) (db : DbMeta) : DbMeta := mkDbMeta (db_name db) (sm_erase t (tabs_ db)).

Section drop.
Context {R : Type} `{!Replacer R, !ReplacerSpec R} (junk : Z → list byte).
Context (A : gset PageId) (n : Z) (e : Env) (He : env_ok e) (out : option (list byte)) (db : DbMeta).
Context (data : gmap string (RmFileHandle * gmap Rid row)).

Abbreviation here := (tables_inv (R := R) A n e out db data).

Lemma keeps_table_flush fd pt : keeps (λ s : Store R, page_table_ (bpm s) = pt) (flush_all_pages fd).
Proof using.
  clear He. apply keeps_flush; [|intros; by apply keeps_modify_pages].
  intros no b s Hs. unfold with_disk, zoom. by destruct (write_page _ _ _ _ (disk s)).
Qed.

(** Closing the file of a table: everything is flushed, and the descriptor is free. *)
Lemma tables_close w t hd m : here w → data !! t = Some (hd, m) → sizeof_RmFileHdr <= e_limit e → uncached (fd_ hd) (sm_store w) →
  ∃ d1 s2, write_page (fd_ hd) RM_FILE_HDR_PAGE (RmFileHdr_bytes (file_hdr_ hd)) sizeof_RmFileHdr (disk (sm_store w)) = (Ret tt, d1) ∧
    flush_all_pages (fd_ hd) (BufferPool.set_disk d1 (sm_store w)) = (Ret tt, s2) ∧
    here (mkSm (db_ w) (fhs_ w) (ihs_ w) s2) ∧ uncached (fd_ hd) s2.
Proof using He.
  intros Hi Ht Hlim Hun. destruct (ti_files _ _ _ _ _ _ _ Hi) as (T&_&Hf). pose proof (Hf t _ Ht) as Hrm. simpl in Hrm.
  pose proof (ti_env _ _ _ _ _ _ _ Hi) as Henv. pose proof Henv as (_&[Hee _]&_).
  assert (Hc : is_Some (fd_content (os (disk (sm_store w))) (fd_ hd))).
  { apply (env_content e out); [apply Henv|]. pose proof (ti_open _ _ _ _ _ _ _ Hi t _ Ht) as H. simpl in H. by rewrite H. }
  destruct (rm_flush_ok T hd (sm_store w) m Hrm Hc) as (d1&s2&c&Hw&Hfl&Hrm2&Ho&_); [by rewrite <- Hee in Hlim|].
  pose proof (keeps_table_flush (fd_ hd) (page_table_ (bpm (sm_store w))) (BufferPool.set_disk d1 (sm_store w)) eq_refl) as Hpt.
  rewrite Hfl in Hpt. cbn [snd] in Hpt.
  exists d1, s2. split_and!; [done|done| |by intros p; rewrite Hpt].
  assert (E : <[t := (hd, m)]> data = data) by by apply insert_id.
  assert (Ef : <[t := hd]> (fhs_ w) = fhs_ w) by by apply insert_id; eapply tables_handle.
  pose proof (tables_step A n e out db data w t hd m hd m s2 T Hi Ht Hrm2 eq_refl Ho) as Hstep. rewrite E, Ef in Hstep. apply Hstep.
  - by eapply env_flushed.
  - intros p. by apply (ti_pages _ _ _ _ _ _ _ Hi t (hd, m)).
Qed.

(** The file behind an open descriptor, on the disk and in the table of the manager. *)
Lemma env_file o fd t : in_env e out (os o) → disk_inv o → e_fds e !! fd = Some (e_cwd e ++ [t]) →
  (∃ off, os_fds (os o) !! fd = Some (os_cwd (os o) ++ [t], off)) ∧ fd2path_ (dm o) !! fd = Some t.
Proof using.
  clear He. intros [<- _] Hd. simpl. rewrite lookup_fmap. destruct (os_fds (os o) !! fd) as [[q off]|] eqn:E; [|done].
  simpl. intros [= ->]. split; [by exists off|]. destruct (di_fds _ Hd _ _ _ E) as (p&Hp&Hq). unfold resolve in Hq.
  by apply app_inj_tail in Hq as [_ <-].
Qed.

Lemma removed_env fd t d' (s : Store R) : store_env e out n s → e_fds e !! fd = Some (e_cwd e ++ [t]) →
  file_removed fd t (disk s) d' → disk_inv d' → t ≠ OUTPUT_FILE → store_env (env_closed t e) out n (BufferPool.set_disk d' s).
Proof using.
  clear He. intros (Hn&Hin&Hd) Hopen [Hos _] Hd' Hout. destruct (env_file _ _ _ Hin Hd Hopen) as [[off Hfd] _].
  destruct Hin as [Hee Ho]. split; [done|]. split; [|done]. cbn [disk BufferPool.set_disk]. rewrite Hos. split.
  - unfold env_of, env_closed. rewrite <- Hee. cbn. f_equal. apply map_eq. intros k. apply option_eq. intros q.
    rewrite lookup_fmap, map_lookup_filter_Some, lookup_fmap. simpl. split.
    + intros ([q' off']&[Hk Hq]%lookup_delete_Some&->)%fmap_Some. split; [by rewrite Hq|]. simpl. intros ->. apply Hk.
      by apply (disk_inv_distinct _ Hd fd k _ _ _ Hfd Hq).
    + intros [([q' off']&Hq&->)%fmap_Some Hnq]. rewrite lookup_delete_ne; [by rewrite Hq|]. intros <-. apply Hnq.
      rewrite Hfd in Hq. by injection Hq as <-.
  - rewrite <- Ho, <- Hee. cbn. apply lookup_delete_ne. unfold resolve, out_path. simpl. by intros [_ [= E]]%app_inj_tail.
Qed.

(** What is left when the file is gone. *)
Lemma tables_remove w t hd m d' : here w → data !! t = Some (hd, m) → uncached (fd_ hd) (sm_store w) →
  file_removed (fd_ hd) t (disk (sm_store w)) d' → disk_inv d' → t ≠ OUTPUT_FILE →
  tables_inv A n (env_closed t e) out (removed_table t db) (delete t data)
    (mkSm (removed_table t db) (delete t (fhs_ w)) (ihs_ w) (BufferPool.set_disk d' (sm_store w))).
Proof using.
  clear He. intros Hi Ht Hun Hr Hd' Hout. pose proof (ti_env _ _ _ _ _ _ _ Hi) as Henv. pose proof Henv as (_&Hin&Hd).
  pose proof (ti_open _ _ _ _ _ _ _ Hi t _ Ht) as Hopen. simpl in Hopen. destruct (env_file _ _ _ Hin Hd Hopen) as [_ Hp].
  destruct (ti_files _ _ _ _ _ _ _ Hi) as (T&Hbp&Hf).
  assert (Hne : ∀ t' x, delete t data !! t' = Some x → fd_ x.1 ≠ fd_ hd ∧ data !! t' = Some x ∧ t' ≠ t).
  { intros t' x [Hne Hx]%lookup_delete_Some. split_and!; [|done|done]. intros E. apply Hne. symmetry.
    by apply (ti_apart _ _ _ _ _ _ _ Hi t' t x (hd, m)). }
  split; cbn [db_ fhs_ ihs_ sm_store].
  - done.
  - by rewrite fmap_delete, (ti_handles _ _ _ _ _ _ _ Hi).
  - apply Hi.
  - intros t1 t2 x1 x2 (_&H1&_)%Hne (_&H2&_)%Hne. by apply (ti_apart _ _ _ _ _ _ _ Hi).
  - exists T. split; [by apply (removed_bp (fd_ hd) t)|].
    intros t' x (Hx&Hx'&_)%Hne. eapply (removed_rm (fd_ hd) t); [by apply (Hf t')|done..].
  - intros t' x p (_&Hx&_)%Hne. by apply (ti_pages _ _ _ _ _ _ _ Hi t' x).
  - apply Hi.
  - apply Hi.
  - intros t' x (_&Hx&Hnt)%Hne. simpl. apply map_lookup_filter_Some_2; [by apply (ti_open _ _ _ _ _ _ _ Hi)|].
    simpl. by intros [_ [= ->]]%app_inj_tail.
  - intros [fd p] Hres. destruct (ti_cached _ _ _ _ _ _ _ Hi _ Hres) as (t'&x&Hx&Hfd). exists t', x. split; [|done].
    apply lookup_delete_Some. split; [|done]. intros <-. rewrite Ht in Hx. injection Hx as <-. simpl in Hfd. subst fd.
    destruct Hres as [f Hf']. by rewrite Hun in Hf'.
  - by eapply removed_env.
Qed.
End drop.

Section request.
Context {R : Type} `{!Replacer R, !ReplacerSpec R} (junk : Z → list byte).
Context (A : gset PageId) (n : Z) (e : Env) (He : env_ok e) (out : option (list byte)) (db : DbMeta).
Context (data : gmap string (RmFileHandle * gmap Rid row)).

Abbreviation here := (tables_inv (R := R) A n e out db data).

Lemma tables_drop w t hd m : here w → data !! t = Some (hd, m) → droppable e db t hd (sm_store w) →
  ∃ w', drop_table junk t w = (Ret tt, w') ∧
    tables_inv A n (env_closed t e) out (removed_table t db) (delete t data) w'.
Proof using He.
  intros Hi Ht [(tab&Htab&Hidx) Hun Hlim].
  destruct (tables_close A n e He out db data w t hd m Hi Ht Hlim Hun) as (d1&s2&Hw&Hfl&Hi2&Hun2).
  pose proof (ti_env _ _ _ _ _ _ _ Hi2) as (_&Hin2&Hd2). cbn [sm_store] in Hin2, Hd2.
  pose proof (ti_open _ _ _ _ _ _ _ Hi2 t _ Ht) as Hopen. simpl in Hopen.
  destruct (env_file e out _ _ _ Hin2 Hd2 Hopen) as [_ Hp].
  assert (Hout : t ≠ OUTPUT_FILE). { intros ->. by destruct (He (fd_ hd) _ Hopen). }
  destruct (removed_run (fd_ hd) t (disk s2) Hd2 Hp) as (d2&d3&Hclose&Hdestroy&Hr&Hd3).
  pose proof (tables_remove A n e out db data (mkSm (db_ w) (fhs_ w) (ihs_ w) s2) t hd m d3 Hi2 Ht Hun2 Hr Hd3 Hout) as Hi3. cbn [sm_store fhs_ ihs_] in Hi3.
  destruct (tables_flush_meta A n (env_closed t e) (env_closed_ok t e He) out _ _ _ Hi3) as (w4&Hfm&Hi4).
  exists w4. split; [|done]. unfold drop_table. unfold bind at 1, gets at 1. rewrite (ti_db _ _ _ _ _ _ _ Hi).
  rewrite (proj2 (is_table_true db t)) by by exists tab. cbn [negb]. unfold bind at 1, lift. rewrite Htab, Hidx. cbn [for_each].
  unfold bind at 1, ret at 1. unfold bind at 1, gets at 1. rewrite (tables_handle _ _ _ _ _ _ _ _ _ _ Hi Ht).
  set (w1 := mkSm (db_ w) (fhs_ w) (ihs_ w) (BufferPool.set_disk d2 s2)).
  assert (E1 : sm_with_store (rm_close_file hd) w = (Ret tt, w1)).
  { unfold sm_with_store, zoom, rm_close_file. rewrite (bind_Ret _ _ _ _ _ (with_disk_run _ _ _ _ Hw)), (bind_Ret _ _ _ _ _ Hfl).
    by rewrite (with_disk_run _ _ _ _ Hclose). }
  unfold bind at 1. rewrite (bind_Ret _ _ _ _ _ E1). unfold modify at 1. unfold bind at 1.
  unfold sm_with_disk, rm_destroy_file, sm_with_store, zoom. cbn [sm_store set_fhs w1].
  rewrite (with_disk_run _ (BufferPool.set_disk d2 s2) _ _ Hdestroy). unfold bind, modify, set_db. cbn [db_ fhs_ ihs_ sm_store set_fhs w1].
  rewrite (ti_db _ _ _ _ _ _ _ Hi). exact Hfm.
Qed.

(** The catalogue without the table describes the others. *)
Lemma described_drop t : sm_wf (tabs_ db) → described db data → described (removed_table t db) (delete t data).
Proof using.
  clear He. intros Hwf Hdesc t' (tab&Htab&Hne). unfold get_table in Htab. simpl in Htab.
  destruct (decide (t' = t)) as [->|Hd]; [by rewrite sm_find_erase in Htab|]. rewrite sm_find_erase_ne in Htab by done.
  destruct (Hdesc t') as (hd&m&Hm&Hrest); [by exists tab|]. exists hd, m. rewrite lookup_delete_ne by done.
  unfold table_len, table_cols, get_table in *. simpl. rewrite sm_find_erase_ne by done. by split.
Qed.

Lemma drop_request fuel self_thread yyparse txn (s : Session R) text t hd m q :
  served A n e db data yyparse out s text (ast.DropTable t) q →
  data !! t = Some (hd, m) → droppable e db t hd (sm_store (w_sm (se_world s))) →
  ∃ s', handle_request fuel junk self_thread yyparse text txn s = (Ret (Reply [x00]), s') ∧
    tables_inv A n (env_closed t e) out (removed_table t db) (delete t data) (w_sm (se_world s')).
Proof using He.
  intros H Ht Hdr. pose proof (sv_here _ _ _ _ _ _ _ _ _ _ _ H) as Hi.
  destruct (tables_drop (w_sm (se_world s)) t hd m Hi Ht Hdr) as (w'&Hrun&Hi').
  exists (mkSession (mkWorld w' (mkContext (zeros BUFFER_LENGTH) 0 false)) (se_tm s) None). split; [|done].
  pose proof (sv_analyze _ _ _ _ _ _ _ _ _ _ _ H) as Ha. destruct fresh_sent as [Hs Hr].
  change [x00] with (str_bytes "" ++ [x00]). eapply served_run; [exact H| |exact Hs|exact Hr].
  injection Ha as <-. erewrite run_ddl by reflexivity.
  unfold on_world, with_sm, zoom. cbn [se_world run_mutli_query w_sm fresh_session].
  unfold with_sm, zoom. cbn [w_sm]. by rewrite Hrun.
Qed.
End request.
