(* ===== verification/Reopening.v ===== *)
(** * Opening a database again

    [start_db] in a new process, on a disk that [close_db] has left: the catalogue is read back,
    and every table is open with the records it had, in the order of the catalogue, under the
    lowest free descriptors. *)

From S2P Require Import Prelude Errors Config Posix DiskManager Replacer BufferPool BufferPoolSpec BufferPoolProps.
From S2P Require Import Bitmap RecordFile RecordPage RecordSpec RecordStore RecordProps RecordManager RecordClaims StrMap Values Text Meta Plan.
From S2P Require Import Compare Planner Executor ExecutorProps Index Printer System Dml Txn Ql Server Tables CreateTable Schema Closing.
From stdpp Require Import options.

Abbreviation Data := (gmap string (RmFileHandle * gmap Rid (list byte))).

(** ** The tables of the new process *)

(** The environment after the tables of a catalogue are opened, and the tables with their new handles. *)
Fixpoint reopened_env (l : list (string * TabMeta)) (e : Env) : Env :=
  match l with
  | [] => e
  | x :: l => reopened_env l (env_opened x.1 e)
  end.

Fixpoint reopened (l : list (string * TabMeta)) (e : Env) (data acc : Data) : Data :=
  match l with
  | [] => acc
  | x :: l =>
      reopened l (env_opened x.1 e) data
        (match data !! x.1 with
         | Some (hd, m) => <[x.1 := (mkRmFileHandle (free_fd e) (file_hdr_ hd), m)]> acc
         | None => acc
         end)
  end.

(** There is a descriptor for every table. *)
Fixpoint fd_room (l : list (string * TabMeta)) (e : Env) : Prop :=
  match l with
  | [] => True
  | x :: l => free_fd e < e_nofile e ∧ free_fd e < MAX_FD ∧ fd_room l (env_opened x.1 e)
  end.

Lemma reopened_kept l e data acc t : t ∉ l.*1 → reopened l e data acc !! t = acc !! t.
Proof.
  revert e acc. induction l as [|x l IH]; intros e acc Ht; [done|]. apply not_elem_of_cons in Ht as [Hne Ht]. simpl. rewrite IH by done.
  destruct (data !! x.1) as [[hd m]|]; [|done]. by apply lookup_insert_ne.
Qed.

(** The same records, and the same header behind another descriptor. *)
Lemma reopened_in l e data acc t : t ∈ l.*1 → NoDup l.*1 → (∀ t, t ∈ l.*1 → is_Some (data !! t)) →
  ∃ fd x, data !! t = Some x ∧ reopened l e data acc !! t = Some (mkRmFileHandle fd (file_hdr_ x.1), x.2).
Proof.
  revert e acc. induction l as [|x l IH]; intros e acc Ht Hnd Hall; [by apply elem_of_nil in Ht|]. apply NoDup_cons in Hnd as [Hn Hnd].
  destruct (decide (t = x.1)) as [->|Hne].
  - destruct (Hall x.1) as [[hd m] Hx]; [by left|]. exists (free_fd e), (hd, m). split; [done|]. simpl. rewrite Hx, reopened_kept by done.
    apply lookup_insert_eq.
  - apply elem_of_cons in Ht as [Ht|Ht]; [done|]. simpl. apply IH; [done|done|]. intros t' Ht'. apply Hall. by right.
Qed.

Lemma reopened_tables l e data : NoDup l.*1 → (∀ t, is_Some (data !! t) ↔ t ∈ l.*1) → snd <$> reopened l e data ∅ = snd <$> data.
Proof.
  intros Hnd Hall. apply map_eq. intros t. rewrite !lookup_fmap. destruct (decide (t ∈ l.*1)) as [Ht|Ht].
  - destruct (reopened_in l e data ∅ t Ht Hnd) as (fd&x&Hx&->); [by intros t' Ht'%Hall|]. by rewrite Hx.
  - rewrite reopened_kept, lookup_empty by done. destruct (data !! t) as [x|] eqn:E; [|done]. destruct Ht. apply Hall. by eexists.
Qed.

Section reopening.
Context {R : Type} `{!Replacer R, !ReplacerSpec R}.
Context (A : gset PageId) (n : Z) (out : option (list byte)) (db : DbMeta) (data : Data).

(** Opening leaves everything but the new descriptor alone. *)
Lemma opened_others (s : Store R) d' fd q off :
  os_fds (os (disk s)) !! fd = None → os d' = set_fds (<[fd := (q, off)]> (os_fds (os (disk s)))) (os (disk s)) →
  (∀ fd', fd' ≠ fd → next_page d' fd' = next_page (disk s) fd') → others_kept fd s (BufferPool.set_disk d' s).
Proof using.
  intros Hfree Hos Hn. assert (Hc : ∀ fd', fd' ≠ fd → fd_content (os d') fd' = fd_content (os (disk s)) fd').
  { intros fd' Hne. unfold fd_content. rewrite Hos. simpl. by rewrite lookup_insert_ne. }
  split_and!; [|exact Hn| |done|done].
  - intros pid x Hne. unfold view, disk_page. simpl. by rewrite Hc.
  - intros pid [Hsome Hrest]. destruct (decide (pid_fd pid = fd)) as [E|E].
    { unfold fd_content in Hsome. rewrite E, Hfree in Hsome. by destruct Hsome. }
    split; [by rewrite Hc|]. simpl. rewrite Hos. exact Hrest.
Qed.

(** The descriptors that are open are those of the tables. *)
Definition only_tables (e : Env) (acc : Data) : Prop :=
  ∀ fd p, e_fds e !! fd = Some p → ∃ t, is_Some (acc !! t) ∧ p = e_cwd e ++ [t].

(** A saved table. *)
Definition stored (e : Env) (o : OS) (t : string) : Prop :=
  ∃ hd m c, data !! t = Some (hd, m) ∧ os_files o !! (e_cwd e ++ [t]) = Some c ∧ file_image (file_hdr_ hd) c m ∧
    num_pages (file_hdr_ hd) * PAGE_SIZE <= e_limit e.

Lemma open_table_ok e acc (w : SmState R) t hd m c :
  tables_inv A n e out db acc w → env_ok e → only_tables e acc → acc !! t = None → t ≠ OUTPUT_FILE → t ≠ DB_META_NAME →
  free_fd e < e_nofile e → free_fd e < MAX_FD →
  os_files (os (disk (sm_store w))) !! (e_cwd e ++ [t]) = Some c → file_image (file_hdr_ hd) c m → num_pages (file_hdr_ hd) * PAGE_SIZE <= e_limit e →
  let hd' := mkRmFileHandle (free_fd e) (file_hdr_ hd) in
  (∀ p, in_file (file_hdr_ hd) p → mkPageId (free_fd e) p ∈ A) →
  ∃ w', open_table t w = (Ret tt, w') ∧ tables_inv A n (env_opened t e) out db (<[t := (hd', m)]> acc) w' ∧
    os_files (os (disk (sm_store w'))) = os_files (os (disk (sm_store w))).
Proof using.
  intros Hi He Honly Hacc Hr1 Hr2 Hno Hmax Hfile Himg Hlim hd' HA.
  pose proof (tables_fd A n e out db acc w Hi) as Hfd. pose proof (tables_resolve A n e out db acc w t Hi) as Hres.
  pose proof (ti_env _ _ _ _ _ _ _ Hi) as Henv. pose proof Henv as (Hn&[Hee Ho]&Hd). destruct (ti_files _ _ _ _ _ _ _ Hi) as (T&Hbp&_).
  destruct (rm_open_ok T (sm_store w) t c (file_hdr_ hd) m Hbp Hd) as (d'&Hrun&Hrm&Hd'&_&(off&Hos)&Hnext); rewrite ?Hfd, ?Hres; try done.
  - destruct (path2fd_ (dm (disk (sm_store w))) !! t) as [fd|] eqn:E; [|done]. exfalso. apply (di_maps _ Hd) in E.
    destruct (di_open _ Hd _ _ E) as [[[q off] Hq] _]. destruct (di_fds _ Hd _ _ _ Hq) as (p&Hp&Hqp).
    rewrite E in Hp. injection Hp as <-. rewrite Hres in Hqp. subst q.
    destruct (Honly fd (e_cwd e ++ [t])) as (t'&[x Hx]&[_ [= E']]%app_inj_tail); [by eapply env_fd; [split|]|]. congruence.
  - by rewrite <- Hee in Hno at 2.
  - intros q. destruct (page_table_ _ !! _) as [f|] eqn:E; [|done]. exfalso.
    destruct (ti_cached _ _ _ _ _ _ _ Hi (mkPageId (free_fd e) q)) as (t'&x&Hx&Hf); [by eexists|]. simpl in Hf.
    pose proof (ti_open _ _ _ _ _ _ _ Hi t' x Hx) as Hop. by rewrite Hf, free_fd_fresh in Hop.
  - by rewrite <- Hee in Hlim.
  - rewrite Hfd in Hrm, Hos, Hnext, Hrun. rewrite Hres in Hos.
    exists (mkSm (db_ w) (<[t := hd']> (fhs_ w)) (ihs_ w) (BufferPool.set_disk d' (sm_store w))). split_and!.
    + unfold open_table. assert (E1 : sm_with_disk (rm_open_file t) w = (Ret hd', mkSm (db_ w) (fhs_ w) (ihs_ w) (BufferPool.set_disk d' (sm_store w)))).
      { unfold sm_with_disk, sm_with_store. unfold zoom at 1. by rewrite Hrun. }
      rewrite (bind_Ret _ _ _ _ _ E1). unfold modify, set_fhs, emplace. cbn [db_ fhs_ ihs_ sm_store].
      by rewrite (ti_handles _ _ _ _ _ _ _ Hi), lookup_fmap, Hacc.
    + rewrite (ti_db _ _ _ _ _ _ _ Hi). eapply tables_add; [done|done|done|exact Hrm| | |done].
      * eapply opened_others; [rewrite <- Hfd; apply new_fd_fresh|done|done].
      * split; [done|]. split; [|done]. simpl. rewrite Hos. split; [|by rewrite <- Ho, <- Hee].
        unfold env_of, env_opened. rewrite <- Hee. simpl. f_equal. by rewrite fmap_insert.
    + simpl. by rewrite Hos.
Qed.
Lemma opened_only e acc t x : only_tables e acc → only_tables (env_opened t e) (<[t := x]> acc).
Proof using.
  intros H fd p. simpl. rewrite lookup_insert. case_decide as Hk.
  - intros [= <-]. exists t. split; [|done]. rewrite lookup_insert_eq. by eexists.
  - intros Hp. destruct (H fd p Hp) as (t'&Ht'&->). exists t'. split; [|done]. rewrite lookup_insert. case_decide; [by eexists|done].
Qed.

(** The loop of [open_db]. *)
Lemma open_tables_ok junk_hdr l e acc (w : SmState R) :
  tables_inv A n e out db acc w → env_ok e → only_tables e acc → NoDup l.*1 →
  Forall (λ x, acc !! x.1 = None ∧ x.1 ≠ OUTPUT_FILE ∧ x.1 ≠ DB_META_NAME ∧ tm_indexes x.2 = [] ∧ stored e (os (disk (sm_store w))) x.1) l →
  fd_room l e →
  (∀ t x p, reopened l e data acc !! t = Some x → in_file (file_hdr_ x.1) p → mkPageId (fd_ x.1) p ∈ A) →
  ∃ w', for_each (λ x, open_table x.1 ;; for_each (open_one_index junk_hdr x.1) (tm_indexes x.2)) l w = (Ret tt, w') ∧
    tables_inv A n (reopened_env l e) out db (reopened l e data acc) w' ∧ env_ok (reopened_env l e).
Proof using.
  revert e acc w. induction l as [|[t tab] l IH]; intros e acc w Hi He Honly Hnd Hl Hroom HA.
  { exists w. by split_and!. }
  simpl in Hnd. apply NoDup_cons in Hnd as [Hn Hnd]. destruct Hroom as (Hr1&Hr2&Hroom).
  apply Forall_cons in Hl as [(Hacc&Hne1&Hne2&Hidx&(hd&m&c&Hd&Hfile&Himg&Hlim)) Hl]. simpl in Hacc, Hne1, Hne2, Hidx, Hd, Hfile.
  simpl in HA. rewrite Hd in HA. set (hd' := mkRmFileHandle (free_fd e) (file_hdr_ hd)) in *.
  destruct (open_table_ok e acc w t hd m c) as (w1&Hrun&Hi1&Hfiles); try done.
  { intros p Hp. apply (HA t (hd', m) p); [|done]. rewrite reopened_kept by done. apply lookup_insert_eq. }
  destruct (IH (env_opened t e) (<[t := (hd', m)]> acc) w1 Hi1) as (w2&Hrun2&Hi2&He2); try done.
  - by apply env_opened_ok.
  - by apply opened_only.
  - rewrite Forall_forall in Hl |- *. intros x Hx. destruct (Hl x Hx) as (H1&H2&H3&H4&H5). split_and!; try done.
    + rewrite lookup_insert_ne; [done|]. intros ->. apply Hn. by apply list_elem_of_fmap_2.
    + unfold stored in *. by rewrite Hfiles.
  - exists w2. split_and!; [|by simpl; rewrite Hd|done].
    cbn [for_each tm_indexes fst snd]. rewrite Hidx. cbn [for_each].
    assert (E : bind (open_table t) (λ _, ret tt) w = (Ret tt, w1)) by by rewrite (bind_Ret _ _ _ _ _ Hrun).
    by rewrite (bind_Ret _ _ _ _ _ E).
Qed.
End reopening.

(** ** [start_db] *)

(** The globals of [rmdb.cpp] before [main], on a machine [o] in whose root the process is started. *)
Definition new_process {R} (r : R) (n : Z) (o : OS) : SmState R :=
  mkSm DbMeta_init ∅ ∅ (mkStore (BufferPoolManager_init n r) (mkDisk (set_fds ∅ (set_cwd [] o)) DiskManager_init)).

(** The environment of a new process in the directory of the database, before tables are opened. *)
Definition start_env (name : string) (e : Env) : Env := mkEnv [name] (e_dirs e) (e_limit e) (e_nofile e) ∅.

(** A database that can be opened again: its directory, its catalogue, and room for its tables. *)
Record restartable (name : string) (e : Env) (db : DbMeta) (data : Data) : Prop := {
  rs_cwd : e_cwd e = [name];
  rs_name : name ≠ "..";
  rs_dir : [name] ∈ e_dirs e;
  rs_catalog : DbMeta_ok db;
  rs_noindex : Forall (λ x, tm_indexes x.2 = []) (tabs_ db);
  rs_reserved : ∀ t, is_Some (data !! t) → t ≠ OUTPUT_FILE ∧ t ≠ DB_META_NAME;
  rs_pages : ∀ t x, data !! t = Some x → num_pages (file_hdr_ x.1) * PAGE_SIZE <= e_limit e;
  rs_nofile : 3 < e_nofile e;
  rs_room : fd_room (tabs_ db) (start_env name e);
}.

Lemma catalog_names db : DbMeta_ok db → NoDup (tabs_ db).*1.
Proof.
  intros (_&Hwf&_). unfold sm_wf in Hwf. induction Hwf as [|k l _ IH Hf]; constructor; [|done].
  intros Hin. rewrite Forall_forall in Hf. by eapply string_lt_irrefl, Hf.
Qed.

Lemma is_table_in db t : is_table db t = true ↔ t ∈ (tabs_ db).*1.
Proof.
  unfold is_table. pose proof (sm_find_None t (tabs_ db)) as H. destruct (sm_find t (tabs_ db)) as [tab|] eqn:E.
  - split; [|done]. intros _. apply list_elem_of_fmap. exists (t, tab). split; [done|]. by apply sm_find_elem.
  - split; [done|]. intros Hin. by apply H in Hin.
Qed.

Section start.
Context {R : Type} `{!Replacer R, !ReplacerSpec R}.
Context (A : gset PageId) (n : Z) (r : R) (Hr : rep_inv r) (Hev : evictable r = ∅) (Hcap : capacity r = n).
Context (junk_hdr : IxFileHdr).

(** A new process knows no tables. *)
Lemma new_process_ok e out db o : os_fds o = ∅ → env_of o = e → os_files o !! out_path e = out → e_fds e = ∅ → Z.of_nat (size A) < n →
  tables_inv A n e out db ∅ (mkSm db ∅ ∅ (mkStore (BufferPoolManager_init n r) (mkDisk o DiskManager_init))).
Proof using Hr Hev Hcap.
  intros Hfds He Ho Hef Hsize.
  assert (Hbp : bp_inv ∅ ∅ (mkStore (BufferPoolManager_init n r) (mkDisk o DiskManager_init))).
  { apply bp_inv_init; [done|done|done|]. by apply disk_inv_distinct, disk_inv_init. }
  split; try done.
  - by exists ∅.
  - intros pid Hp. eapply pinned_resident in Hp as [f Hf]; [|exact Hbp]. simpl in Hf. by rewrite lookup_empty in Hf.
  - intros pid [f Hf]. simpl in Hf. by rewrite lookup_empty in Hf.
  - split; [done|]. split; [by split|]. by apply disk_inv_init.
Qed.

Lemma chdir_run name o d : name ≠ ".." → resolve o name ∈ os_dirs o →
  checked (sys_chdir name) (mkDisk o d) = (Ret tt, mkDisk (set_cwd (resolve o name) o) d).
Proof using.
  intros Hn Hd. unfold checked, bind, syscall, sys_chdir. cbn [os]. rewrite (decide_False (P := name = "..")) by done.
  by rewrite decide_True by by right.
Qed.

(** [start_db] on a saved database: what is left is the loop of [open_db]. *)
Lemma start_db_run name e out db data o :
  restartable name e db data → saved e out db data o →
  start_db junk_hdr name (new_process r n o) =
  for_each (λ x, open_table x.1 ;; for_each (open_one_index junk_hdr x.1) (tm_indexes x.2)) (tabs_ db)
    (mkSm db ∅ ∅ (mkStore (BufferPoolManager_init n r) (mkDisk (set_cwd [name] (set_fds ∅ (set_cwd [] o))) DiskManager_init))).
Proof using.
  intros [Hcwd Hname Hdir Hcat _ _ _ Hno _] [Hd _ Hn _ Hmeta _].
  set (o1 := set_cwd [name] (set_fds ∅ (set_cwd [] o))).
  set (w0 := mkSm DbMeta_init ∅ ∅ (mkStore (BufferPoolManager_init n r) (mkDisk o1 DiskManager_init)) : SmState R).
  destruct (db_meta_read db Hcat) as (ws&_&Hread).
  assert (Hdir' : stat_dir (set_fds ∅ (set_cwd [] o)) name = true).
  { unfold stat_dir. apply bool_decide_eq_true. simpl. unfold resolve. simpl. by rewrite Hd. }
  assert (Hstream : read_stream DB_META_NAME o1 = Some (write_DbMeta db)).
  { assert (Hpath : resolve o1 DB_META_NAME = meta_path e) by by unfold meta_path; rewrite Hcwd.
    unfold read_stream. rewrite Hpath, decide_True by (unfold new_fd; simpl; rewrite Hn; exact Hno).
    change (os_files o1) with (os_files o). rewrite Hmeta. simpl. f_equal. apply String.string_of_list_byte_of_string. }
  assert (Hisdir : sm_with_disk (is_dir name) (new_process r n o) = (Ret true, new_process r n o)).
  { unfold sm_with_disk, sm_with_store, with_disk, zoom, is_dir, gets, new_process. cbn [sm_store disk os]. by rewrite Hdir'. }
  assert (Hchdir : checked (sys_chdir name) (mkDisk (set_fds ∅ (set_cwd [] o)) DiskManager_init) = (Ret tt, mkDisk o1 DiskManager_init)).
  { apply chdir_run; [done|]. unfold resolve. simpl. by rewrite Hd. }
  assert (Hcd : sm_with_disk (checked (sys_chdir name)) (new_process r n o) = (Ret tt, w0)).
  { unfold sm_with_disk, sm_with_store, with_disk, zoom, new_process. cbn [sm_store disk]. by rewrite Hchdir. }
  unfold start_db, open_db. rewrite (bind_Ret _ _ _ _ _ Hisdir). cbn [negb]. unfold bind at 1, ret at 1. unfold bind at 1.
  rewrite (bind_Ret _ _ _ _ _ Hisdir). cbn [negb]. rewrite (bind_Ret _ _ _ _ _ Hcd).
  unfold bind at 1, gets at 1. cbn [w0 sm_store disk os]. rewrite Hstream. unfold bind at 1, gets at 1. cbn [w0 db_].
  unfold bind at 1, access. rewrite Hread. unfold ret at 1. unfold bind at 1, modify at 1. cbn [fst].
  change (mkSm db _ _ _) with (set_db db w0). by destruct (for_each _ _ _) as [[[]|?|?] ?].
Qed.

Lemma start_db_ok name e out db data o :
  restartable name e db data → (∀ t, is_Some (data !! t) ↔ is_table db t = true) → saved e out db data o →
  let e0 := start_env name e in
  (∀ t x p, reopened (tabs_ db) e0 data ∅ !! t = Some x → in_file (file_hdr_ x.1) p → mkPageId (fd_ x.1) p ∈ A) →
  Z.of_nat (size A) < n →
  ∃ w, start_db junk_hdr name (new_process r n o) = (Ret tt, w) ∧
    tables_inv A n (reopened_env (tabs_ db) e0) out db (reopened (tabs_ db) e0 data ∅) w ∧ env_ok (reopened_env (tabs_ db) e0).
Proof using Hr Hev Hcap.
  intros Hrs Htabs Hsv e0 HA Hsize. rewrite (start_db_run name e out db data o Hrs Hsv).
  destruct Hrs as [Hcwd _ _ Hcat%catalog_names Hidx Hres Hpages _ Hroom], Hsv as [Hd Hl Hn Hout _ Hsaved].
  apply (open_tables_ok A n out db data junk_hdr (tabs_ db) e0 ∅); try done.
  - apply new_process_ok; try done.
    + unfold env_of, e0, start_env. simpl. by rewrite Hd, Hl, Hn, fmap_empty.
    + simpl. rewrite <- Hout. unfold out_path. by rewrite Hcwd.
  - apply Forall_forall. intros x Hx. rewrite Forall_forall in Hidx.
    destruct (proj2 (Htabs x.1)) as [[hd m] Ht]; [by apply is_table_in, list_elem_of_fmap_2|].
    destruct (Hres x.1 ltac:(by rewrite Ht)) as [H1 H2]. split_and!; [apply lookup_empty|done|done|by apply Hidx|].
    destruct (Hsaved _ _ Ht) as (c&Hc&Himg). exists hd, m, c. rewrite Hcwd in Hc. split_and!; [done|exact Hc|done|by apply (Hpages _ _ Ht)].
Qed.
End start.

(** ** A new database *)

(** What [create_db] leaves: a directory with an empty catalogue and an empty log. *)
Definition made (name : string) (o : OS) : OS :=
  set_files (<[[name; LOG_FILE_NAME] := []]>
      (<[[name; DB_META_NAME] := str_bytes (write_DbMeta (mkDbMeta name []))]> (os_files o)))
    (set_dirs ({[[name]]} ∪ os_dirs o) o).

(** A machine on which the database can be created. *)
Record creatable (name : string) (o : OS) : Prop := {
  cr_name : name ≠ "..";
  cr_word : is_word name;
  cr_new : (([name] : path) ∉ os_dirs o) ∧ os_files o !! [name] = None;
  cr_empty : os_files o !! ([name; LOG_FILE_NAME] : path) = None ∧ (([name; LOG_FILE_NAME] : path) ∉ os_dirs o) ∧
    ([name; DB_META_NAME] : path) ∉ os_dirs o;
  cr_nofile : 3 < os_nofile o;
  cr_fits : str_size (write_DbMeta (mkDbMeta name [])) <= os_limit o;
}.

Lemma create_db_made name o d : creatable name o → os_fds o = ∅ → os_cwd o = [] →
  create_db name (mkDisk o d) = (Ret tt, mkDisk (made name o) d).
Proof.
  intros [Hn _ [Hd Hf] (Hl&Hl1&Hl2) Hno Hfit] Hfds Hcwd. destruct o as [files dirs cwd fds limit nofile]. simpl in *. subst fds cwd.
  unfold create_db, is_dir, stat_dir, gets. unfold bind at 1. cbn [os resolve os_cwd os_dirs].
  rewrite bool_decide_eq_false_2 by done. unfold bind at 1, bind at 1, syscall at 1, system_mkdir. cbn [os resolve os_cwd os_dirs os_files].
  rewrite decide_False by (unfold resolve; simpl; rewrite Hf; intros [|[? H]]; done). cbn.
  erewrite bind_Ret; [|apply chdir_run; [done|unfold resolve; simpl; set_solver]].
  unfold bind at 1, on_os, modify, write_stream, stream_opens. cbn [os].
  rewrite bool_decide_eq_true_2 by (split; [exact Hno|unfold resolve; simpl; set_solver]).
  rewrite firstn_all2 by (pose proof (length_str_bytes (write_DbMeta (mkDbMeta name []))); simpl; lia).
  erewrite bind_Ret; [|unfold set_os; cbn [os dm]; apply create_file_run; cbn [os]].
  - unfold bind, checked, syscall, sys_chdir. simpl. reflexivity.
  - simpl. by rewrite lookup_insert_ne.
  - unfold resolve. simpl. set_solver.
  - exact Hno.
Qed.

(** Starting where there is no database is starting on the database that was just made. *)
Lemma start_db_creates {R} `{!Replacer R} junk_hdr (r : R) n name o : creatable name o →
  start_db junk_hdr name (new_process r n o) = start_db junk_hdr name (new_process r n (made name o)).
Proof.
  intros Hc. pose proof Hc as [_ _ [Hd _] _ _ _]. set (o' := set_fds ∅ (set_cwd [] o)).
  assert (Hc' : creatable name o') by by destruct Hc.
  assert (E : ∀ b d, bool_decide ([name] ∈ os_dirs d) = b →
    sm_with_disk (is_dir name) (new_process r n d) = (Ret b, new_process r n d)).
  { intros b d <-. done. }
  unfold start_db. rewrite (bind_Ret _ _ _ _ _ (E false o ltac:(by apply bool_decide_eq_false_2))).
  erewrite (bind_Ret (sm_with_disk (is_dir name)) _ (new_process r n (made name o)));
    [|apply (E true); apply bool_decide_eq_true_2; simpl; set_solver].
  cbn [negb]. unfold bind at 1.
  assert (E1 : sm_with_disk (create_db name) (new_process r n o) = (Ret tt, new_process r n (made name o))).
  { unfold sm_with_disk, sm_with_store, with_disk, zoom, new_process. cbn [sm_store disk].
    fold o'. rewrite (create_db_made name o' DiskManager_init Hc') by done. done. }
  by rewrite E1.
Qed.

(** The empty database on the disk. *)
Lemma made_saved name o fds : creatable name o →
  let e := mkEnv [name] (os_dirs (made name o)) (os_limit o) (os_nofile o) fds in
  saved e (os_files o !! ([name; OUTPUT_FILE] : path)) (mkDbMeta name []) ∅ (made name o) ∧ restartable name e (mkDbMeta name []) ∅.
Proof.
  intros [Hn Hw Hnew _ Hno Hfit] e. split; split; try done.
  - simpl. by rewrite !lookup_insert_ne.
  - simpl. rewrite lookup_insert_ne by done. apply lookup_insert_eq.
  - simpl. set_solver.
  - split_and!; [done|constructor|done|constructor].
  - intros t [? H]. done.
Qed.

(** Starting reads files, no pages: the pool stays as it is. *)
Section pool.
Context {R : Type} `{!Replacer R} (b : BufferPoolManager R) (junk_hdr : IxFileHdr).

Abbreviation pool := (λ w : SmState R, bpm (sm_store w) = b).

Lemma keeps_pool_disk {B} (m : M Disk B) : keeps pool (sm_with_disk m).
Proof using. intros w Hw. unfold sm_with_disk, sm_with_store, with_disk, zoom. by destruct (m (disk (sm_store w))). Qed.

Lemma start_db_pool name : keeps pool (start_db junk_hdr name).
Proof using.
  unfold start_db, open_db. apply keeps_bind; [apply keeps_pool_disk|]. intros d.
  apply keeps_bind; [destruct (negb d); [apply keeps_pool_disk|apply keeps_ret]|]. intros _.
  apply keeps_bind; [|intros _; apply keeps_ret]. apply keeps_bind; [apply keeps_pool_disk|]. intros d'.
  destruct (negb d'); [apply keeps_throw|]. apply keeps_bind; [apply keeps_pool_disk|]. intros _.
  apply keeps_bind; [apply keeps_gets|]. intros [text|]; [|apply keeps_throw]. apply keeps_bind; [apply keeps_gets|]. intros db.
  apply keeps_bind; [apply keeps_access|]. intros x. apply keeps_bind; [by apply keeps_modify|]. intros _.
  apply keeps_for_each. intros y. apply keeps_bind.
  - apply keeps_bind; [apply keeps_pool_disk|]. intros h. by apply keeps_modify.
  - intros _. apply keeps_for_each. intros i. apply keeps_bind; [apply keeps_pool_disk|]. intros h. by apply keeps_modify.
Qed.
End pool.
