(* ===== verification/History.v ===== *)
(** * The server as a relational database

    A history of requests, one after the other.  The abstract database is a catalogue and a
    finite map from tables to records; the server answers every request of an acceptable history
    as the abstract database does, and its stored data stay those of the abstract database. *)

From S2P Require Import Prelude Errors Config Posix DiskManager Replacer BufferPool BufferPoolSpec BufferPoolProps.
From S2P Require Import Bitmap RecordFile RecordPage RecordSpec RecordStore RecordProps StrMap Values Text Meta Ast Analyze Plan.
From S2P Require Import Compare Planner PlannerProps Executor ExecutorProps Index Printer PrinterProps System Dml Txn Ql Server.
From S2P Require Import Tables SeqScan Columns Relational Select RecordClaims Sample Query Statements Requests CreateTable Utility Schema Drop.
From stdpp Require Import options.

(** ** The abstract database *)

(** The catalogue, the records of every table, what has been written to [output.txt], and the
    environment of the process. *)
Record AbsDb := mkAbs {
  abs_db : DbMeta;
  abs_tables : gmap string (gmap Rid (list byte));
  abs_out : option (list byte);
  abs_env : Env;
}.

Definition abs_rows (a : AbsDb) (t : string) : list (list byte) :=
  match abs_tables a !! t with Some m => (records m).*2 | None => [] end.

Definition set_table (t : string) (m : gmap Rid (list byte)) (a : AbsDb) : AbsDb :=
  mkAbs (abs_db a) (<[t := m]> (abs_tables a)) (abs_out a) (abs_env a).

Definition set_out (out : option (list byte)) (a : AbsDb) : AbsDb := mkAbs (abs_db a) (abs_tables a) out (abs_env a).

(** Lines are printed to [output.txt]; an error leaves the line "failure" there. *)
Definition printed_lines (l : list (list string)) (a : AbsDb) : AbsDb := set_out (lines_out (abs_env a) (abs_out a) l) a.
Definition failed (a : AbsDb) : AbsDb := set_out (appended (abs_env a) (abs_out a) ("failure" +:+ nl)) a.

(** A new table without records; the process has its file open. *)
Definition add_table (t : string) (fields : list ast.ColDef) (a : AbsDb) : AbsDb :=
  mkAbs (SetTabMeta t (new_table t (col_defs fields)) (abs_db a)) (<[t := ∅]> (abs_tables a)) (abs_out a)
    (env_opened t (abs_env a)).

(** A table and its file are gone. *)
Definition remove_table (t : string) (a : AbsDb) : AbsDb :=
  mkAbs (removed_table t (abs_db a)) (delete t (abs_tables a)) (abs_out a) (env_closed t (abs_env a)).

(** The bytes of a reply. *)
Definition text_reply (text : string) : list byte := str_bytes text ++ [x00].
Definition error_text (err : RMDBError) : list byte := text_reply (what err +:+ nl).

(** An INSERT whose values do not fit the table, with the error of the first that does not. *)
Definition refused_insert (tab : TabMeta) (q : Query) (err : RMDBError) : Prop :=
  (length (values q) ≠ length (tm_cols tab) ∧ err = InvalidValueCountError) ∨
  ∃ cs1 col cs2 vs1 v vs2, tm_cols tab = cs1 ++ col :: cs2 ∧ values q = vs1 ++ v :: vs2 ∧ length cs2 = length vs2 ∧
    Forall2 value_ok cs1 vs1 ∧ raw v = None ∧ refusal col v = Some err.

(** What an analyzed SELECT, INSERT, DELETE or UPDATE does, and the bytes of its reply. *)
Inductive abs_query (a : AbsDb) (q : Query) : list byte → AbsDb → Prop :=
  | abs_select x bs :
      parse q = ast.SelectStmt x → bs ≡ₚ answers (abs_db a) (abs_rows a) (tables q) (conds q) →
      abs_query a q (text_reply (query_reply (abs_db a) q bs)) (printed_lines (query_lines (abs_db a) q bs) a)
  | abs_insert t vs tab m r :
      parse q = ast.InsertStmt t vs → get_table (abs_db a) t = Ret tab → abs_tables a !! t = Some m → m !! r = None →
      Forall2 value_ok (tm_cols tab) (values q) →
      abs_query a q [x00] (set_table t (<[r := values_row (tm_cols tab) (values q)]> m) a)
  | abs_delete t bs m :
      parse q = ast.DeleteStmt t bs → abs_tables a !! t = Some m →
      abs_query a q [x00] (set_table t (filter (λ x, chosen (abs_db a) t (conds q) x.2 = false) m) a)
  | abs_update t sets bs tab m :
      parse q = ast.UpdateStmt t sets bs → get_table (abs_db a) t = Ret tab → abs_tables a !! t = Some m →
      abs_query a q [x00]
        (set_table t ((λ v, if chosen (abs_db a) t (conds q) v then assign tab (set_clauses q) v else v) <$> m) a)
  | abs_refused t vs tab err :
      parse q = ast.InsertStmt t vs → get_table (abs_db a) t = Ret tab → refused_insert tab q err →
      abs_query a q (error_text err) (failed a).

(** What a statement does. *)
Inductive abs_step (txn : Z) (a : AbsDb) : ast.TreeNode → list byte → AbsDb → Prop :=
  | step_query t q bytes a' : do_analyze (abs_db a) t = Ret q → abs_query a q bytes a' → abs_step txn a t bytes a'
  | step_create t fields :
      is_table (abs_db a) t = false → abs_step txn a (ast.CreateTable t fields) [x00] (add_table t fields a)
  | step_help : abs_step txn a ast.Help (text_reply help_info) a
  | step_tables :
      abs_step txn a ast.ShowTables (text_reply (report 1 (tables_report (abs_db a)))) (printed_lines (tables_lines (abs_db a)) a)
  | step_desc t tab :
      get_table (abs_db a) t = Ret tab → abs_step txn a (ast.DescTable t) (text_reply (report 3 (desc_report tab))) a
  | step_idle t : idle txn t → abs_step txn a t [x00] a
  | step_refused t err : refused (abs_db a) t err → abs_step txn a t (error_text err) (failed a)
  | step_drop t : is_table (abs_db a) t = true → abs_step txn a (ast.DropTable t) [x00] (remove_table t a).

(** ** The server *)

Section server.
Context {R : Type} `{!Replacer R, !ReplacerSpec R}.
Context (A : gset PageId) (n : Z).
Context (fuel : nat) (junk : Z → list byte) (Hjunk : ∀ k, 0 <= k → Z.of_nat (length (junk k)) = k).
Context (self_thread : Z) (yyparse : string → option (option ast.TreeNode)) (txn : Z).

(** The requests of one client, until it leaves. *)
Fixpoint serve (texts : list string) : M (Session R) (list (list byte)) :=
  match texts with
  | [] => ret []
  | text :: texts' =>
      let! r := handle_request fuel junk self_thread yyparse text txn in
      match r with
      | Reply bytes => let! l := serve texts' in ret (bytes :: l)
      | _ => ret []
      end
  end.

Abbreviation Data := (gmap string (RmFileHandle * gmap Rid (list byte))).

(** The session stands for the abstract database. *)
Record stands_for (a : AbsDb) (data : Data) (s : Session R) : Prop := {
  sf_here : tables_inv A n (abs_env a) (abs_out a) (abs_db a) data (w_sm (se_world s));
  sf_env : env_ok (abs_env a);
  sf_described : described (abs_db a) data;
  sf_tables : abs_tables a = snd <$> data;
  sf_names : ∀ t, is_Some (data !! t) ↔ is_table (abs_db a) t = true;
  sf_sorted : sm_wf (tabs_ (abs_db a));
}.

(** The statements the theorem is about, in the state they are run in. *)
Definition query_acceptable (a : AbsDb) (q : Query) (data : Data) : Prop :=
  match parse q with
  | ast.SelectStmt x => ast.has_sort x = false ∧ query_ok (abs_db a) data fuel q
  | ast.InsertStmt t _ => ∃ hd m tab, data !! t = Some (hd, m) ∧ get_table (abs_db a) t = Ret tab ∧ tm_cols tab ≠ [] ∧
      ((Forall2 value_ok (tm_cols tab) (values q) ∧ tm_indexes tab = [] ∧ insertable A (abs_env a) hd) ∨
       ∃ err, refused_insert tab q err ∧ str_size (what err) + 2 <= BUFFER_LENGTH)
  | ast.DeleteStmt t _ => where_ok (abs_db a) fuel data t (conds q)
  | ast.UpdateStmt t _ _ => where_ok (abs_db a) fuel data t (conds q) ∧
      ∃ tab, get_table (abs_db a) t = Ret tab ∧ Forall (set_ok tab) (set_clauses q)
  | _ => False
  end.

Inductive acceptable (a : AbsDb) (data : Data) (w : SmState R) : ast.TreeNode → Prop :=
  | ok_query t q : do_analyze (abs_db a) t = Ret q → query_acceptable a q data → acceptable a data w t
  | ok_create t fields :
      addable (abs_env a) (abs_db a) t (col_defs fields) → free_name (abs_env a) t w →
      acceptable a data w (ast.CreateTable t fields)
  | ok_help : acceptable a data w ast.Help
  | ok_tables : acceptable a data w ast.ShowTables
  | ok_desc t tab : get_table (abs_db a) t = Ret tab → acceptable a data w (ast.DescTable t)
  | ok_idle t : idle txn t → acceptable a data w t
  | ok_refused t err :
      refused (abs_db a) t err → str_size (what err) + 2 <= BUFFER_LENGTH → acceptable a data w t
  | ok_drop t hd m :
      data !! t = Some (hd, m) → droppable (abs_env a) (abs_db a) t hd (sm_store w) →
      acceptable a data w (ast.DropTable t).

Lemma parse_root db t q : do_analyze db t = Ret q →
  match parse q with ast.SelectStmt _ => ∃ x, t = ast.SelectStmt x | p => p = t end.
Proof using.
  clear Hjunk. destruct t; simpl; intros H; repeat (apply obind_Ret in H as (?&_&H)); injection H as <-; simpl; eauto.
Qed.

Lemma abs_rows_of a data s t : stands_for a data s → abs_rows a t = rows_of data t.
Proof using. clear Hjunk. intros [_ _ _ Ha _ _]. unfold abs_rows, rows_of. rewrite Ha, lookup_fmap. by destruct (data !! t). Qed.

Lemma answers_ext db rows rows' ts cs : (∀ t, rows t = rows' t) → answers db rows ts cs = answers db rows' ts cs.
Proof using.
  clear Hjunk. intros H. unfold answers. f_equal. induction ts as [|t ts IH]; [done|]. simpl. by rewrite IH, H.
Qed.

Lemma stands_table a data s t hd m : stands_for a data s → data !! t = Some (hd, m) → abs_tables a !! t = Some m.
Proof using. clear Hjunk. intros [_ _ _ -> _ _] Ht. by rewrite lookup_fmap, Ht. Qed.

Lemma stands_set a data (s s' : Session R) t x hd' m' :
  stands_for a data s → data !! t = Some x → tables_inv A n (abs_env a) (abs_out a) (abs_db a) (<[t := (hd', m')]> data) (w_sm (se_world s')) →
  described (abs_db a) (<[t := (hd', m')]> data) → stands_for (set_table t m' a) (<[t := (hd', m')]> data) s'.
Proof using.
  clear Hjunk. intros [_ He _ Ha Hn Hw] Ht Hi Hd. split; [done|done|done| | |done].
  - simpl. by rewrite Ha, fmap_insert.
  - intros t'. rewrite <- (Hn t'), lookup_insert. case_decide; [|done]. subst t'. rewrite Ht. by split; eexists.
Qed.

Lemma stands_out a data (s s' : Session R) out :
  stands_for a data s → tables_inv A n (abs_env a) out (abs_db a) data (w_sm (se_world s')) → stands_for (set_out out a) data s'.
Proof using. clear Hjunk. intros [_ He Hd Ha Hn Hw] Hi. by split. Qed.

Lemma stands_same a data (s s' : Session R) :
  stands_for a data s → tables_inv A n (abs_env a) (abs_out a) (abs_db a) data (w_sm (se_world s')) → stands_for a data s'.
Proof using. clear Hjunk. intros [_ He Hd Ha Hn Hw] Hi. by split. Qed.

(** A refused INSERT. *)
Lemma serve_refused a data (s : Session R) text q u vs hd m tab err :
  stands_for a data s → text ≠ "exit" → text ≠ "crash" → yyparse text = Some (Some (ast.InsertStmt u vs)) →
  do_analyze (abs_db a) (ast.InsertStmt u vs) = Ret q → data !! u = Some (hd, m) →
  get_table (abs_db a) u = Ret tab → tm_cols tab ≠ [] → refused_insert tab q err → str_size (what err) + 2 <= BUFFER_LENGTH →
  ∃ s', handle_request fuel junk self_thread yyparse text txn s = (Ret (Reply (error_text err)), s') ∧
    stands_for (failed a) data s'.
Proof using Hjunk.
  intros Hs Hexit Hcrash Hparse Ha Ht Htab Hne Href Hlen. pose proof Hs as [Hi He Hdesc Hat Hnames Hsorted].
  destruct (described_lengths (abs_db a) data u hd m tab Hdesc Ht Htab Hne) as (_&Hck&Hrs&Hw).
  assert (Hpos : 0 <= record_size (file_hdr_ hd)).
  { rewrite Hrs. clear -Hck. pose proof (ck_cols _ _ Hck) as Hc. revert Hc. generalize (tm_cols tab). intros l Hc. induction Hc as [|c l [??] _ IH]; simpl; lia. }
  destruct (insert_rejected_ok fuel junk Hjunk self_thread (fresh_session s) u vs q txn hd tab) as [R1 R2];
    [by rewrite <- Ha; f_equal; apply Hi|by rewrite <- Htab; f_equal; apply Hi|by eapply tables_handle|done|done|].
  assert (Hrun : run_statement fuel junk self_thread (ast.InsertStmt u vs) txn (fresh_session s) = (Throw err, fresh_session s)).
  { destruct Href as [[Hn ->]|(cs1&col&cs2&vs1&v&vs2&Ec&Ev&Hl&Hok&Hraw&Hr)]; [by apply R1|by eapply R2]. }
  destruct (failed_request_ok fuel junk self_thread yyparse s (fresh_session s) text _ txn err Hexit Hcrash Hparse Hrun Hlen)
    as (s'&Hreq&Hs'&_).
  exists s'. split; [done|].
  destruct (tables_output A n (abs_env a) He (abs_out a) (abs_db a) data (w_sm (se_world s)) ("failure" +:+ nl) Hi) as (w'&E&Hi').
  eapply stands_out; [done|]. rewrite Hs'. change (w_sm (se_world (fresh_session s))) with (w_sm (se_world s)). by rewrite E.
Qed.

(** The text of one request, and its tree. *)
Definition request_of (text : string) (t : ast.TreeNode) : Prop :=
  text ≠ "exit" ∧ text ≠ "crash" ∧ yyparse text = Some (Some t).

(** The request is answered, and the state after it stands for what the abstract database has become. *)
Definition answered (a : AbsDb) (s : Session R) (text : string) (t : ast.TreeNode) : Prop :=
  ∃ bytes a' data' s', handle_request fuel junk self_thread yyparse text txn s = (Ret (Reply bytes), s') ∧
    abs_step txn a t bytes a' ∧ stands_for a' data' s'.

Lemma serve_query a data (s : Session R) text t q :
  stands_for a data s → request_of text t → do_analyze (abs_db a) t = Ret q → query_acceptable a q data → answered a s text t.
Proof using Hjunk.
  intros Hs (Hexit&Hcrash&Hparse) Ha Hacc. pose proof Hs as [Hi He Hdesc Hat Hnames Hsorted].
  set (e := abs_env a) in *. set (out := abs_out a) in *. set (db := abs_db a) in *.
  assert (Hreq : requested A n e out db data yyparse s text q t) by by split.
  pose proof (parse_root db t q Ha) as Hroot. unfold query_acceptable in Hacc.
  enough (∃ bytes a' data' s', handle_request fuel junk self_thread yyparse text txn s = (Ret (Reply bytes), s') ∧
    abs_query a q bytes a' ∧ stands_for a' data' s') as (bytes&a'&data'&s'&H1&H2&H3).
  { exists bytes, a', data', s'. split_and!; [done|by eapply step_query|done]. }
  destruct (parse q) as [| | | | | | | | | | |u vs|u bs|u sets bs|x] eqn:Hp; try done.
  - destruct Hacc as (hd&m&tab&Ht&Htab&Hne&[(Hv&Hidx&Hin)|(err&Href&Hlen)]); subst t.
    + destruct (insert_request_ok A n e He out db data Hdesc fuel junk Hjunk self_thread yyparse s text txn q u vs hd m tab)
        as (s'&r&hd'&Hrun&Hno&Hi'&Hd'); [done..|].
      eexists [x00], _, _, s'. split_and!; [done| |by eapply (stands_set a data s)].
      eapply abs_insert; [done|done|by eapply stands_table|done|done].
    + destruct (serve_refused a data s text q u vs hd m tab err) as (s'&Hrun&Hs'); [done..|].
      eexists _, _, data, s'. split_and!; [done| |done]. by eapply abs_refused.
  - subst t. destruct (Hdesc u (wo_table _ _ _ _ _ Hacc)) as (hd&m&Ht&_).
    destruct (delete_request_ok A n e He out db data Hdesc fuel junk self_thread yyparse s text txn q u bs hd m)
      as (s'&hd'&Hrun&Hi'&Hd'); [done..|].
    eexists [x00], _, _, s'. split_and!; [done| |by eapply (stands_set a data s)].
    eapply abs_delete; [done|by eapply stands_table].
  - subst t. destruct Hacc as [Hw (tab&Htab&Hsets)]. destruct (Hdesc u (wo_table _ _ _ _ _ Hw)) as (hd&m&Ht&_).
    destruct (update_request_ok A n e He out db data Hdesc fuel junk self_thread yyparse s text txn q u sets bs hd m tab)
      as (s'&Hrun&Hi'&Hd'&_); [done..|].
    eexists [x00], _, _, s'. split_and!; [done| |by eapply (stands_set a data s)].
    eapply abs_update; [done|done|by eapply stands_table].
  - destruct Hroot as [y ->], Hacc as [Hsort Hq].
    destruct (select_request_ok A n e He db data fuel junk Hjunk Hdesc self_thread yyparse s out text (ast.SelectStmt y) q x txn)
      as (s'&bs&Hrun&Hperm&Hi'); [done..|].
    eexists _, _, data, s'. split_and!; [exact Hrun| |by eapply stands_out].
    eapply abs_select; [done|]. rewrite Hperm. apply reflexive_eq, answers_ext. intros t. symmetry. by eapply abs_rows_of.
Qed.

(** One acceptable request. *)
Lemma serve_one a data (s : Session R) text t :
  stands_for a data s → request_of text t → acceptable a data (w_sm (se_world s)) t → answered a s text t.
Proof using Hjunk.
  intros Hs Hx Hacc. pose proof Hs as [Hi He Hdesc Hat Hnames Hsorted]. pose proof Hx as (Hexit&Hcrash&Hparse).
  assert (Hsv : ∀ q, do_analyze (abs_db a) t = Ret q → served A n (abs_env a) (abs_db a) data yyparse (abs_out a) s text t q) by by split.
  destruct Hacc as [t q Ha Hq|t fields Had Hfree| | |t tab Ht|t Hidle|t err Href Hlen|t hd m Ht Hdr].
  - by eapply serve_query.
  - destruct (create_request A n (abs_env a) He (abs_out a) (abs_db a) data Hdesc fuel junk self_thread yyparse txn s text t fields _
      (Hsv _ eq_refl) Had Hfree) as (s'&Hrun&Hi'&Hd').
    eexists _, _, _, s'. split_and!; [done|apply step_create, Had|]. split; [exact Hi'| |exact Hd'| | |by apply sm_insert_wf].
    + apply env_opened_ok; [done|apply Had..].
    + simpl. by rewrite Hat, fmap_insert.
    + intros t'. simpl. rewrite lookup_insert. unfold is_table, SetTabMeta. cbn [tabs_]. case_decide as Ht.
      * subst t'. rewrite sm_find_insert. split; [done|by eexists].
      * rewrite sm_find_insert_ne by done. apply Hnames.
  - destruct (help_request A n (abs_env a) (abs_db a) data fuel junk self_thread yyparse txn (abs_out a) s text _ (Hsv _ eq_refl)) as (s'&Hrun&Hi').
    eexists _, _, data, s'. split_and!; [done|constructor|by eapply stands_same].
  - destruct (show_tables_request A n (abs_env a) He (abs_db a) data fuel junk self_thread yyparse txn (abs_out a) s text _ (Hsv _ eq_refl)) as (s'&Hrun&Hi').
    eexists _, _, data, s'. split_and!; [done|constructor|by eapply stands_out].
  - destruct (desc_request A n (abs_env a) (abs_db a) data fuel junk self_thread yyparse txn (abs_out a) s text _ t tab (Hsv _ eq_refl) Ht) as (s'&Hrun&Hi').
    eexists _, _, data, s'. split_and!; [done|by constructor|by eapply stands_same].
  - assert (∃ q, do_analyze (abs_db a) t = Ret q) as [q Ha] by (destruct t; try done; by eexists).
    destruct (idle_request A n (abs_env a) (abs_db a) data fuel junk self_thread yyparse txn (abs_out a) s text t q (Hsv _ Ha) Hidle) as (s'&Hrun&Hi').
    eexists _, _, data, s'. split_and!; [done|by apply step_idle|by eapply stands_same].
  - destruct (refused_request A n (abs_env a) He (abs_db a) data fuel junk self_thread yyparse txn (abs_out a) s text t err) as (s'&Hrun&Hi'); [done..|].
    eexists _, _, data, s'. split_and!; [done|by apply step_refused|by eapply stands_out].
  - destruct (drop_request junk A n (abs_env a) He (abs_out a) (abs_db a) data fuel self_thread yyparse txn s text t hd m _ (Hsv _ eq_refl) Ht Hdr)
      as (s'&Hrun&Hi').
    eexists _, _, _, s'. split_and!; [done|apply step_drop, Hnames; by eexists|]. split; [exact Hi'| |by apply described_drop| | |by apply sm_erase_wf].
    + by apply env_closed_ok.
    + simpl. by rewrite Hat, fmap_delete.
    + intros t'. simpl. unfold is_table, removed_table. cbn [tabs_]. destruct (decide (t' = t)) as [->|Hne].
      * rewrite lookup_delete_eq, sm_find_erase by done. split; [by intros []|done].
      * rewrite lookup_delete_ne, sm_find_erase_ne by done. apply Hnames.
Qed.

(** ** Histories *)

(** Every request is acceptable in the state the requests before it lead to. *)
Inductive acceptable_all : AbsDb → Data → Session R → list string → Prop :=
  | acc_nil a data s : acceptable_all a data s []
  | acc_cons a data s text texts t :
      request_of text t → acceptable a data (w_sm (se_world s)) t →
      (∀ bytes a' data' s', handle_request fuel junk self_thread yyparse text txn s = (Ret (Reply bytes), s') →
         abs_step txn a t bytes a' → stands_for a' data' s' → acceptable_all a' data' s' texts) →
      acceptable_all a data s (text :: texts).

(** The abstract database answers the same texts. *)
Inductive abs_serve : AbsDb → list string → list (list byte) → AbsDb → Prop :=
  | as_nil a : abs_serve a [] [] a
  | as_cons a a1 a2 text texts t bytes replies :
      request_of text t → abs_step txn a t bytes a1 → abs_serve a1 texts replies a2 →
      abs_serve a (text :: texts) (bytes :: replies) a2.

(** The server is a relational database.  For every history of requests, each acceptable in the
    state it arrives in, the server answers every one, with the bytes with which the abstract
    database may answer the same history, and in the end its catalogue, its stored files and
    [output.txt] are those of the abstract database. *)
Theorem server_refines_database a data (s : Session R) texts :
  stands_for a data s → acceptable_all a data s texts →
  ∃ replies a' data' s', serve texts s = (Ret replies, s') ∧ abs_serve a texts replies a' ∧ stands_for a' data' s'.
Proof using Hjunk.
  revert a data s. induction texts as [|text texts IH]; intros a data s Hs Hacc.
  - exists [], a, data, s. split_and!; [done|constructor|done].
  - inversion Hacc as [|? ? ? ? ? t Hx Hq Hrest]; subst.
    destruct (serve_one a data s text t) as (bytes&a1&data1&s1&Hrun&Hstep&Hs1); [done..|].
    destruct (IH a1 data1 s1 Hs1) as (replies&a2&data2&s2&Hrun2&Habs&Hs2); [by eapply Hrest|].
    exists (bytes :: replies), a2, data2, s2. split_and!; [|by econstructor|done].
    cbn [serve]. rewrite (bind_Ret _ _ _ _ _ Hrun). by rewrite (bind_Ret _ _ _ _ _ Hrun2).
Qed.
End server.

(** ** A refused INSERT and a DELETE on the small database *)

Definition one_abs : AbsDb := mkAbs one_db {[ "t" := one_records ]} None one_env.

Lemma one_stands : stands_for one_pages 2 one_abs one_data one_session.
Proof.
  split; [apply one_sm_ok|apply one_env_ok|apply one_described| | |repeat constructor].
  - simpl. unfold one_data. by rewrite map_fmap_singleton.
  - intros t. unfold one_data, is_table. rewrite lookup_singleton. simpl. case_decide; subst; by repeat case_decide.
Qed.

Definition wrong_insert : ast.TreeNode := ast.InsertStmt "t" [ast.IntLit 8].
Definition wrong_query : Query := insert_query [val_int 8] wrong_insert.

Lemma analyzed_once db t q q' : do_analyze db t = Ret q → do_analyze db t = Ret q' → q = q'.
Proof. congruence. Qed.

(** An INSERT of one value is refused by the small table, so it leaves the tables as they are. *)
Lemma wrong_acceptable data w : data !! "t" = Some (rm_handle one_rm, one_records) →
  acceptable (R := LRUReplacer) one_pages 10 0 one_abs data w wrong_insert.
Proof.
  intros Ht. apply (ok_query _ _ _ _ _ _ _ wrong_query); [vm_compute; reflexivity|].
  exists (rm_handle one_rm), one_records, one_tab. split_and!; [done|reflexivity|done|].
  right. exists InvalidValueCountError. split; [left; split; [simpl; lia|done]|vm_compute; discriminate].
Qed.

Lemma wrong_step bytes a' : abs_step 0 one_abs wrong_insert bytes a' →
  abs_db a' = one_db ∧ abs_tables a' = abs_tables one_abs.
Proof.
  intros H. inversion H as [t q ? ? Ha Hq| | | | |t Hidle|t err Href|]; subst; [|by destruct Hidle|done].
  apply (analyzed_once _ _ wrong_query) in Ha; [|vm_compute; reflexivity]. subst q.
  destruct Hq as [x bs Hp|t vs tab m r Hp Ht _ _ Hv|t bs m Hp|t sets bs tab m Hp|]; try discriminate; [|done].
  simpl in Hp. injection Hp as <- <-. vm_compute in Ht. injection Ht as <-. by apply Forall2_length in Hv.
Qed.

Lemma delete_acceptable a data (s : Session LRUReplacer) :
  stands_for one_pages 2 a data s → abs_db a = one_db → abs_tables a = abs_tables one_abs →
  acceptable one_pages 10 0 a data (w_sm (se_world s)) one_delete.
Proof.
  intros Hs Hdb Htab. apply (ok_query _ _ _ _ _ _ _ delete_query); [rewrite Hdb; vm_compute; reflexivity|].
  unfold query_acceptable. rewrite Hdb. split; [apply one_where|apply one_where|apply one_where|].
  intros [hd m] Ht. pose proof (stands_table _ _ _ _ _ _ _ _ Hs Ht) as Hm. rewrite Htab in Hm. simpl in Hm.
  apply lookup_singleton_Some in Hm as [_ <-]. vm_compute. lia.
Qed.

Lemma one_history_acceptable :
  acceptable_all one_pages 2 10 zeros 0 requests_parser 0 one_abs one_data one_session ["wrong"; "delete"].
Proof.
  apply (acc_cons _ _ _ _ _ _ _ _ _ _ _ _ wrong_insert); [done|apply wrong_acceptable, one_lookup|].
  intros bytes a data s _ Hstep Hs. apply wrong_step in Hstep as [Hdb Htab].
  apply (acc_cons _ _ _ _ _ _ _ _ _ _ _ _ one_delete); [done|by apply delete_acceptable|constructor].
Qed.

Lemma server_refines_database_witness :
  ∃ replies a' data' s', serve 10 zeros 0 requests_parser 0 ["wrong"; "delete"] one_session = (Ret replies, s') ∧
    abs_serve requests_parser 0 one_abs ["wrong"; "delete"] replies a' ∧ stands_for one_pages 2 a' data' s'.
Proof.
  apply (server_refines_database one_pages 2 10 zeros zeros_junk 0 requests_parser 0 one_abs one_data one_session).
  - apply one_stands.
  - apply one_history_acceptable.
Defined.
