(* ===== verification/SemVal.v ===== *)
(** * Semantic values

    [SemValue] of [parser/ast.h]: what the scanner and the parser attach to a symbol.  It is a
    structure, not a union: a slot keeps every member it was given until that member is
    assigned again.  A [shared_ptr] is an option; the vectors hold pointers the actions have
    just made, so their elements are the nodes themselves. *)

From S2P Require Import Prelude Ast.
From stdpp Require Import options.

Module sem.
Import ast.

Record SemValue := mkSem {
  sv_int : Z;
  sv_float : Z;
  sv_str : string;
  sv_orderby_dir : OrderByDir;
  sv_strs : list string;
  sv_node : option TreeNode;
  sv_comp_op : SvCompOp;
  sv_type_len : option TypeLen;
  sv_field : option ColDef;
  sv_fields : list ColDef;
  sv_expr : option Expr;
  sv_val : option Value;
  sv_vals : list Value;
  sv_col : option Col;
  sv_cols : list Col;
  sv_set_clause : option SetClause;
  sv_set_clauses : list SetClause;
  sv_cond : option BinaryExpr;
  sv_conds : list BinaryExpr;
  sv_orderby : option OrderBy;
}.

(** A default-constructed slot: the members of class type are empty or null, the others have
    no particular value. *)
Definition SemValue_make (i f : Z) (d : OrderByDir) (op : SvCompOp) : SemValue :=
  mkSem i f "" d [] None op None None [] None None [] None [] None [] None [] None.

(** Assignments to one member. *)
Definition set_sv_int (x : Z) (v : SemValue) : SemValue :=
  mkSem x (sv_float v) (sv_str v) (sv_orderby_dir v) (sv_strs v) (sv_node v) (sv_comp_op v)
    (sv_type_len v) (sv_field v) (sv_fields v) (sv_expr v) (sv_val v) (sv_vals v)
    (sv_col v) (sv_cols v) (sv_set_clause v) (sv_set_clauses v) (sv_cond v) (sv_conds v)
    (sv_orderby v).
Definition set_sv_float (x : Z) (v : SemValue) : SemValue :=
  mkSem (sv_int v) x (sv_str v) (sv_orderby_dir v) (sv_strs v) (sv_node v) (sv_comp_op v)
    (sv_type_len v) (sv_field v) (sv_fields v) (sv_expr v) (sv_val v) (sv_vals v)
    (sv_col v) (sv_cols v) (sv_set_clause v) (sv_set_clauses v) (sv_cond v) (sv_conds v)
    (sv_orderby v).
Definition set_sv_str (x : string) (v : SemValue) : SemValue :=
  mkSem (sv_int v) (sv_float v) x (sv_orderby_dir v) (sv_strs v) (sv_node v) (sv_comp_op v)
    (sv_type_len v) (sv_field v) (sv_fields v) (sv_expr v) (sv_val v) (sv_vals v)
    (sv_col v) (sv_cols v) (sv_set_clause v) (sv_set_clauses v) (sv_cond v) (sv_conds v)
    (sv_orderby v).
Definition set_sv_orderby_dir (x : OrderByDir) (v : SemValue) : SemValue :=
  mkSem (sv_int v) (sv_float v) (sv_str v) x (sv_strs v) (sv_node v) (sv_comp_op v)
    (sv_type_len v) (sv_field v) (sv_fields v) (sv_expr v) (sv_val v) (sv_vals v)
    (sv_col v) (sv_cols v) (sv_set_clause v) (sv_set_clauses v) (sv_cond v) (sv_conds v)
    (sv_orderby v).
Definition set_sv_strs (x : list string) (v : SemValue) : SemValue :=
  mkSem (sv_int v) (sv_float v) (sv_str v) (sv_orderby_dir v) x (sv_node v) (sv_comp_op v)
    (sv_type_len v) (sv_field v) (sv_fields v) (sv_expr v) (sv_val v) (sv_vals v)
    (sv_col v) (sv_cols v) (sv_set_clause v) (sv_set_clauses v) (sv_cond v) (sv_conds v)
    (sv_orderby v).
Definition set_sv_node (x : option TreeNode) (v : SemValue) : SemValue :=
  mkSem (sv_int v) (sv_float v) (sv_str v) (sv_orderby_dir v) (sv_strs v) x (sv_comp_op v)
    (sv_type_len v) (sv_field v) (sv_fields v) (sv_expr v) (sv_val v) (sv_vals v)
    (sv_col v) (sv_cols v) (sv_set_clause v) (sv_set_clauses v) (sv_cond v) (sv_conds v)
    (sv_orderby v).
Definition set_sv_comp_op (x : SvCompOp) (v : SemValue) : SemValue :=
  mkSem (sv_int v) (sv_float v) (sv_str v) (sv_orderby_dir v) (sv_strs v) (sv_node v) x
    (sv_type_len v) (sv_field v) (sv_fields v) (sv_expr v) (sv_val v) (sv_vals v)
    (sv_col v) (sv_cols v) (sv_set_clause v) (sv_set_clauses v) (sv_cond v) (sv_conds v)
    (sv_orderby v).
Definition set_sv_type_len (x : option TypeLen) (v : SemValue) : SemValue :=
  mkSem (sv_int v) (sv_float v) (sv_str v) (sv_orderby_dir v) (sv_strs v) (sv_node v)
    (sv_comp_op v) x (sv_field v) (sv_fields v) (sv_expr v) (sv_val v) (sv_vals v)
    (sv_col v) (sv_cols v) (sv_set_clause v) (sv_set_clauses v) (sv_cond v) (sv_conds v)
    (sv_orderby v).
Definition set_sv_field (x : option ColDef) (v : SemValue) : SemValue :=
  mkSem (sv_int v) (sv_float v) (sv_str v) (sv_orderby_dir v) (sv_strs v) (sv_node v)
    (sv_comp_op v) (sv_type_len v) x (sv_fields v) (sv_expr v) (sv_val v) (sv_vals v)
    (sv_col v) (sv_cols v) (sv_set_clause v) (sv_set_clauses v) (sv_cond v) (sv_conds v)
    (sv_orderby v).
Definition set_sv_fields (x : list ColDef) (v : SemValue) : SemValue :=
  mkSem (sv_int v) (sv_float v) (sv_str v) (sv_orderby_dir v) (sv_strs v) (sv_node v)
    (sv_comp_op v) (sv_type_len v) (sv_field v) x (sv_expr v) (sv_val v) (sv_vals v)
    (sv_col v) (sv_cols v) (sv_set_clause v) (sv_set_clauses v) (sv_cond v) (sv_conds v)
    (sv_orderby v).
Definition set_sv_expr (x : option Expr) (v : SemValue) : SemValue :=
  mkSem (sv_int v) (sv_float v) (sv_str v) (sv_orderby_dir v) (sv_strs v) (sv_node v)
    (sv_comp_op v) (sv_type_len v) (sv_field v) (sv_fields v) x (sv_val v) (sv_vals v)
    (sv_col v) (sv_cols v) (sv_set_clause v) (sv_set_clauses v) (sv_cond v) (sv_conds v)
    (sv_orderby v).
Definition set_sv_val (x : option Value) (v : SemValue) : SemValue :=
  mkSem (sv_int v) (sv_float v) (sv_str v) (sv_orderby_dir v) (sv_strs v) (sv_node v)
    (sv_comp_op v) (sv_type_len v) (sv_field v) (sv_fields v) (sv_expr v) x (sv_vals v)
    (sv_col v) (sv_cols v) (sv_set_clause v) (sv_set_clauses v) (sv_cond v) (sv_conds v)
    (sv_orderby v).
Definition set_sv_vals (x : list Value) (v : SemValue) : SemValue :=
  mkSem (sv_int v) (sv_float v) (sv_str v) (sv_orderby_dir v) (sv_strs v) (sv_node v)
    (sv_comp_op v) (sv_type_len v) (sv_field v) (sv_fields v) (sv_expr v) (sv_val v) x
    (sv_col v) (sv_cols v) (sv_set_clause v) (sv_set_clauses v) (sv_cond v) (sv_conds v)
    (sv_orderby v).
Definition set_sv_col (x : option Col) (v : SemValue) : SemValue :=
  mkSem (sv_int v) (sv_float v) (sv_str v) (sv_orderby_dir v) (sv_strs v) (sv_node v)
    (sv_comp_op v) (sv_type_len v) (sv_field v) (sv_fields v) (sv_expr v) (sv_val v)
    (sv_vals v) x (sv_cols v) (sv_set_clause v) (sv_set_clauses v) (sv_cond v)
    (sv_conds v) (sv_orderby v).
Definition set_sv_cols (x : list Col) (v : SemValue) : SemValue :=
  mkSem (sv_int v) (sv_float v) (sv_str v) (sv_orderby_dir v) (sv_strs v) (sv_node v)
    (sv_comp_op v) (sv_type_len v) (sv_field v) (sv_fields v) (sv_expr v) (sv_val v)
    (sv_vals v) (sv_col v) x (sv_set_clause v) (sv_set_clauses v) (sv_cond v)
    (sv_conds v) (sv_orderby v).
Definition set_sv_set_clause (x : option SetClause) (v : SemValue) : SemValue :=
  mkSem (sv_int v) (sv_float v) (sv_str v) (sv_orderby_dir v) (sv_strs v) (sv_node v)
    (sv_comp_op v) (sv_type_len v) (sv_field v) (sv_fields v) (sv_expr v) (sv_val v)
    (sv_vals v) (sv_col v) (sv_cols v) x (sv_set_clauses v) (sv_cond v) (sv_conds v)
    (sv_orderby v).
Definition set_sv_set_clauses (x : list SetClause) (v : SemValue) : SemValue :=
  mkSem (sv_int v) (sv_float v) (sv_str v) (sv_orderby_dir v) (sv_strs v) (sv_node v)
    (sv_comp_op v) (sv_type_len v) (sv_field v) (sv_fields v) (sv_expr v) (sv_val v)
    (sv_vals v) (sv_col v) (sv_cols v) (sv_set_clause v) x (sv_cond v) (sv_conds v)
    (sv_orderby v).
Definition set_sv_cond (x : option BinaryExpr) (v : SemValue) : SemValue :=
  mkSem (sv_int v) (sv_float v) (sv_str v) (sv_orderby_dir v) (sv_strs v) (sv_node v)
    (sv_comp_op v) (sv_type_len v) (sv_field v) (sv_fields v) (sv_expr v) (sv_val v)
    (sv_vals v) (sv_col v) (sv_cols v) (sv_set_clause v) (sv_set_clauses v) x
    (sv_conds v) (sv_orderby v).
Definition set_sv_conds (x : list BinaryExpr) (v : SemValue) : SemValue :=
  mkSem (sv_int v) (sv_float v) (sv_str v) (sv_orderby_dir v) (sv_strs v) (sv_node v)
    (sv_comp_op v) (sv_type_len v) (sv_field v) (sv_fields v) (sv_expr v) (sv_val v)
    (sv_vals v) (sv_col v) (sv_cols v) (sv_set_clause v) (sv_set_clauses v) (sv_cond v)
    x (sv_orderby v).
Definition set_sv_orderby (x : option OrderBy) (v : SemValue) : SemValue :=
  mkSem (sv_int v) (sv_float v) (sv_str v) (sv_orderby_dir v) (sv_strs v) (sv_node v)
    (sv_comp_op v) (sv_type_len v) (sv_field v) (sv_fields v) (sv_expr v) (sv_val v)
    (sv_vals v) (sv_col v) (sv_cols v) (sv_set_clause v) (sv_set_clauses v) (sv_cond v)
    (sv_conds v) x.

End sem.
