(* ===== verification/ParserTables.v ===== *)
(** * Tables of the scanner and the parser

    The arrays of the committed [parser/lex.yy.cpp] and [parser/yacc.tab.cpp], in the order of
    the files. *)

From S2P Require Import Prelude.
From stdpp Require Import options.

(** An array read out of bounds is [None]. *)
Definition at_ (t : list Z) (i : Z) : option Z := if 0 <=? i then t !! Z.to_nat i else None.

(** ** The scanner *)

Definition yy_accept : list Z := [
  0; 0; 0; 0; 0; 48; 46; 6; 7; 7; 46; 41; 46; 46; 46; 43; 41; 41; 42; 42; 42; 42; 42; 42;
  42; 42; 42; 42; 42; 42; 42; 42; 42; 42; 42; 3; 4; 6; 7; 0; 45; 43; 5; 1; 44; 39; 40; 38;
  42; 42; 42; 42; 42; 36; 42; 42; 42; 42; 42; 42; 42; 42; 42; 42; 42; 42; 42; 42; 42; 42; 42; 42;
  42; 2; 5; 44; 42; 31; 37; 42; 42; 42; 42; 42; 42; 42; 42; 42; 42; 42; 42; 42; 27; 42; 42; 42;
  42; 25; 42; 42; 42; 42; 42; 42; 42; 28; 42; 42; 42; 17; 16; 33; 42; 22; 34; 42; 42; 19; 32; 42;
  42; 42; 8; 42; 42; 42; 42; 11; 9; 42; 42; 42; 29; 30; 42; 35; 42; 42; 15; 42; 42; 23; 10; 14;
  21; 18; 42; 26; 13; 24; 20; 42; 12; 0
].

Definition yy_ec : list Z := [
  0; 1; 1; 1; 1; 1; 1; 1; 1; 2; 3; 1; 1; 4; 1; 1; 1; 1; 1; 1; 1; 1; 1; 1;
  1; 1; 1; 1; 1; 1; 1; 1; 2; 1; 1; 1; 1; 1; 1; 5; 6; 7; 8; 9; 10; 11; 12; 13;
  14; 14; 14; 14; 14; 14; 14; 14; 14; 14; 1; 15; 16; 17; 18; 1; 1; 19; 20; 21; 22; 23; 24; 25;
  26; 27; 28; 29; 30; 31; 32; 33; 34; 35; 36; 37; 38; 39; 40; 41; 42; 43; 35; 1; 1; 1; 1; 44;
  1; 45; 46; 47; 48; 49; 50; 51; 52; 53; 54; 55; 56; 57; 58; 59; 60; 35; 61; 62; 63; 64; 65; 66;
  67; 68; 35; 1; 1; 1; 1; 1; 1; 1; 1; 1; 1; 1; 1; 1; 1; 1; 1; 1; 1; 1; 1; 1;
  1; 1; 1; 1; 1; 1; 1; 1; 1; 1; 1; 1; 1; 1; 1; 1; 1; 1; 1; 1; 1; 1; 1; 1;
  1; 1; 1; 1; 1; 1; 1; 1; 1; 1; 1; 1; 1; 1; 1; 1; 1; 1; 1; 1; 1; 1; 1; 1;
  1; 1; 1; 1; 1; 1; 1; 1; 1; 1; 1; 1; 1; 1; 1; 1; 1; 1; 1; 1; 1; 1; 1; 1;
  1; 1; 1; 1; 1; 1; 1; 1; 1; 1; 1; 1; 1; 1; 1; 1; 1; 1; 1; 1; 1; 1; 1; 1;
  1; 1; 1; 1; 1; 1; 1; 1; 1; 1; 1; 1; 1; 1; 1; 1
].

Definition yy_meta : list Z := [
  0; 1; 1; 2; 1; 1; 1; 1; 1; 1; 1; 1; 1; 1; 3; 1; 1; 1; 1; 3; 3; 3; 3; 3;
  3; 3; 3; 3; 3; 3; 3; 3; 3; 3; 3; 3; 3; 3; 3; 3; 3; 3; 3; 3; 3; 3; 3; 3;
  3; 3; 3; 3; 3; 3; 3; 3; 3; 3; 3; 3; 3; 3; 3; 3; 3; 3; 3; 3; 3
].

Definition yy_base : list Z := [
  0; 0; 0; 281; 280; 287; 306; 284; 306; 279; 274; 306; 261; 58; 265; 59; 57; 238; 50; 54; 50; 55; 38; 54;
  0; 58; 56; 59; 58; 62; 75; 80; 66; 87; 87; 306; 176; 139; 306; 88; 306; 116; 0; 306; 75; 306; 306; 306;
  0; 84; 98; 102; 104; 0; 112; 102; 111; 105; 103; 110; 105; 107; 114; 131; 118; 125; 118; 120; 118; 132; 132; 126;
  142; 306; 0; 71; 136; 0; 0; 148; 145; 153; 166; 163; 166; 154; 152; 173; 164; 162; 175; 176; 167; 170; 180; 174;
  182; 0; 166; 178; 190; 177; 181; 181; 188; 0; 196; 189; 195; 0; 0; 0; 198; 0; 0; 195; 202; 0; 0; 203;
  220; 222; 0; 222; 209; 225; 227; 0; 0; 215; 228; 231; 0; 0; 218; 0; 238; 221; 223; 242; 230; 0; 0; 0;
  0; 0; 247; 0; 0; 0; 0; 241; 0; 306; 296; 299; 76; 302
].

Definition yy_def : list Z := [
  0; 153; 1; 154; 154; 153; 153; 153; 153; 153; 155; 153; 153; 153; 153; 153; 153; 153; 156; 156; 156; 156; 156; 156;
  156; 156; 156; 156; 156; 156; 156; 156; 156; 156; 156; 153; 153; 153; 153; 155; 153; 153; 157; 153; 153; 153; 153; 153;
  156; 156; 156; 156; 156; 156; 156; 156; 156; 156; 156; 156; 156; 156; 156; 156; 156; 156; 156; 156; 156; 156; 156; 156;
  156; 153; 157; 153; 156; 156; 156; 156; 156; 156; 156; 156; 156; 156; 156; 156; 156; 156; 156; 156; 156; 156; 156; 156;
  156; 156; 156; 156; 156; 156; 156; 156; 156; 156; 156; 156; 156; 156; 156; 156; 156; 156; 156; 156; 156; 156; 156; 156;
  156; 156; 156; 156; 156; 156; 156; 156; 156; 156; 156; 156; 156; 156; 156; 156; 156; 156; 156; 156; 156; 156; 156; 156;
  156; 156; 156; 156; 156; 156; 156; 156; 156; 0; 153; 153; 153; 153
].

Definition yy_nxt : list Z := [
  0; 6; 7; 8; 9; 10; 11; 11; 11; 12; 11; 13; 11; 14; 15; 11; 16; 11; 17; 18; 19; 20; 21; 22;
  23; 24; 25; 26; 27; 24; 24; 24; 24; 28; 24; 24; 29; 30; 31; 32; 33; 34; 24; 24; 6; 18; 19; 20;
  21; 22; 23; 24; 25; 26; 27; 24; 24; 24; 24; 28; 24; 29; 30; 31; 32; 33; 34; 24; 24; 42; 49; 44;
  41; 41; 45; 46; 54; 52; 57; 48; 59; 62; 50; 55; 60; 75; 56; 51; 63; 75; 61; 58; 64; 40; 65; 66;
  49; 53; 67; 69; 70; 68; 54; 52; 57; 59; 71; 62; 50; 55; 60; 56; 51; 72; 63; 61; 58; 76; 64; 65;
  77; 66; 53; 78; 67; 69; 70; 68; 44; 79; 41; 80; 71; 81; 82; 83; 85; 86; 87; 72; 88; 37; 84; 76;
  89; 93; 77; 94; 95; 78; 96; 98; 99; 90; 100; 79; 101; 80; 97; 81; 82; 83; 85; 86; 87; 102; 88; 84;
  91; 92; 89; 93; 103; 94; 95; 104; 96; 98; 99; 90; 100; 105; 101; 97; 106; 107; 108; 109; 110; 73; 111; 102;
  112; 91; 92; 113; 114; 103; 115; 116; 117; 104; 118; 119; 120; 121; 105; 122; 123; 124; 106; 107; 108; 109; 110; 111;
  125; 126; 112; 127; 128; 113; 114; 129; 115; 116; 117; 130; 118; 119; 120; 121; 122; 131; 123; 124; 132; 133; 134; 135;
  136; 125; 126; 137; 127; 138; 128; 139; 140; 129; 141; 143; 130; 142; 144; 47; 145; 146; 131; 147; 148; 132; 133; 134;
  135; 149; 136; 150; 151; 137; 152; 138; 139; 43; 140; 41; 141; 143; 142; 40; 144; 145; 38; 146; 147; 148; 37; 153;
  36; 36; 153; 149; 150; 153; 151; 153; 152; 35; 35; 35; 39; 39; 39; 74; 153; 74; 5; 153; 153; 153; 153; 153;
  153; 153; 153; 153; 153; 153; 153; 153; 153; 153; 153; 153; 153; 153; 153; 153; 153; 153; 153; 153; 153; 153; 153; 153;
  153; 153; 153; 153; 153; 153; 153; 153; 153; 153; 153; 153; 153; 153; 153; 153; 153; 153; 153; 153; 153; 153; 153; 153;
  153; 153; 153; 153; 153; 153; 153; 153; 153; 153; 153; 153; 153; 153; 153
].

Definition yy_chk : list Z := [
  0; 1; 1; 1; 1; 1; 1; 1; 1; 1; 1; 1; 1; 1; 1; 1; 1; 1; 1; 1; 1; 1; 1; 1;
  1; 1; 1; 1; 1; 1; 1; 1; 1; 1; 1; 1; 1; 1; 1; 1; 1; 1; 1; 1; 1; 1; 1; 1;
  1; 1; 1; 1; 1; 1; 1; 1; 1; 1; 1; 1; 1; 1; 1; 1; 1; 1; 1; 1; 1; 13; 18; 15;
  13; 15; 16; 16; 20; 19; 21; 156; 22; 25; 18; 20; 23; 75; 20; 18; 26; 44; 23; 21; 27; 39; 28; 29;
  18; 19; 30; 31; 32; 30; 20; 19; 21; 22; 33; 25; 18; 20; 23; 20; 18; 34; 26; 23; 21; 49; 27; 28;
  50; 29; 19; 51; 30; 31; 32; 30; 41; 52; 41; 54; 33; 55; 56; 57; 58; 59; 60; 34; 61; 37; 57; 49;
  62; 64; 50; 65; 66; 51; 67; 68; 69; 63; 70; 52; 71; 54; 67; 55; 56; 57; 58; 59; 60; 72; 61; 57;
  63; 63; 62; 64; 76; 65; 66; 79; 67; 68; 69; 63; 70; 80; 71; 67; 81; 82; 83; 84; 85; 36; 86; 72;
  87; 63; 63; 88; 89; 76; 90; 91; 92; 79; 93; 94; 95; 96; 80; 98; 99; 100; 81; 82; 83; 84; 85; 86;
  101; 102; 87; 103; 104; 88; 89; 106; 90; 91; 92; 107; 93; 94; 95; 96; 98; 108; 99; 100; 112; 115; 116; 119;
  120; 101; 102; 121; 103; 123; 104; 124; 125; 106; 126; 130; 107; 129; 131; 17; 134; 136; 108; 137; 138; 112; 115; 116;
  119; 139; 120; 140; 146; 121; 151; 123; 124; 14; 125; 12; 126; 130; 129; 10; 131; 134; 9; 136; 137; 138; 7; 5;
  4; 3; 0; 139; 140; 0; 146; 0; 151; 154; 154; 154; 155; 155; 155; 157; 0; 157; 153; 153; 153; 153; 153; 153;
  153; 153; 153; 153; 153; 153; 153; 153; 153; 153; 153; 153; 153; 153; 153; 153; 153; 153; 153; 153; 153; 153; 153; 153;
  153; 153; 153; 153; 153; 153; 153; 153; 153; 153; 153; 153; 153; 153; 153; 153; 153; 153; 153; 153; 153; 153; 153; 153;
  153; 153; 153; 153; 153; 153; 153; 153; 153; 153; 153; 153; 153; 153; 153
].

(** ** The parser *)

Definition yytranslate : list Z := [
  0; 2; 2; 2; 2; 2; 2; 2; 2; 2; 2; 2; 2; 2; 2; 2; 2; 2; 2; 2; 2; 2; 2; 2;
  2; 2; 2; 2; 2; 2; 2; 2; 2; 2; 2; 2; 2; 2; 2; 2; 43; 44; 50; 2; 45; 2; 46; 2;
  2; 2; 2; 2; 2; 2; 2; 2; 2; 2; 2; 42; 48; 47; 49; 2; 2; 2; 2; 2; 2; 2; 2; 2;
  2; 2; 2; 2; 2; 2; 2; 2; 2; 2; 2; 2; 2; 2; 2; 2; 2; 2; 2; 2; 2; 2; 2; 2;
  2; 2; 2; 2; 2; 2; 2; 2; 2; 2; 2; 2; 2; 2; 2; 2; 2; 2; 2; 2; 2; 2; 2; 2;
  2; 2; 2; 2; 2; 2; 2; 2; 2; 2; 2; 2; 2; 2; 2; 2; 2; 2; 2; 2; 2; 2; 2; 2;
  2; 2; 2; 2; 2; 2; 2; 2; 2; 2; 2; 2; 2; 2; 2; 2; 2; 2; 2; 2; 2; 2; 2; 2;
  2; 2; 2; 2; 2; 2; 2; 2; 2; 2; 2; 2; 2; 2; 2; 2; 2; 2; 2; 2; 2; 2; 2; 2;
  2; 2; 2; 2; 2; 2; 2; 2; 2; 2; 2; 2; 2; 2; 2; 2; 2; 2; 2; 2; 2; 2; 2; 2;
  2; 2; 2; 2; 2; 2; 2; 2; 2; 2; 2; 2; 2; 2; 2; 2; 2; 2; 2; 2; 2; 2; 2; 2;
  2; 2; 2; 2; 2; 2; 2; 2; 2; 2; 2; 2; 2; 2; 2; 2; 1; 2; 3; 4; 5; 6; 7; 8;
  9; 10; 11; 12; 13; 14; 15; 16; 17; 18; 19; 20; 21; 22; 23; 24; 25; 26; 27; 28; 29; 30; 31; 32;
  33; 34; 35; 36; 37; 38; 39; 40; 41
].

Definition yypact : list Z := [
  42; 21; 5; 8; -2; 32; 31; -2; -26; -75; -75; -75; -75; -75; -75; -75; 52; 6; -75; -75; -75; -75; -75; -2;
  -2; -2; -2; -75; -75; -2; -2; 34; 13; -75; -75; 16; 55; 39; -75; -75; -75; 43; 44; -75; 45; 78; 73; 53;
  54; -2; 53; 53; 53; 53; 50; 54; -75; -75; -4; -75; 51; -75; -7; -75; -75; -11; -75; -5; 22; -75; 33; 24;
  -75; 74; 48; 53; -75; 24; -2; -2; 85; -75; 53; -75; 58; -75; -75; -75; 53; -75; -75; -75; -75; 36; -75; 54;
  -75; -75; -75; -75; -75; -75; 17; -75; -75; -75; -75; 86; -75; -75; 63; -75; -75; 24; -75; -75; -75; -75; 54; 60;
  -75; 1; -75; -75; -75; -75; -75
].

Definition yydefact : list Z := [
  0; 0; 0; 0; 0; 0; 0; 0; 0; 4; 3; 10; 11; 12; 13; 5; 0; 0; 9; 6; 7; 8; 14; 0;
  0; 0; 0; 68; 17; 0; 0; 0; 69; 57; 44; 58; 0; 0; 43; 1; 2; 0; 0; 16; 0; 0; 38; 0;
  0; 0; 0; 0; 0; 0; 0; 0; 21; 69; 38; 54; 0; 45; 38; 59; 42; 0; 24; 0; 0; 26; 0; 0;
  40; 39; 0; 0; 22; 0; 0; 0; 63; 15; 0; 29; 0; 31; 28; 18; 0; 19; 36; 34; 35; 0; 32; 0;
  50; 49; 51; 46; 47; 48; 0; 55; 56; 61; 60; 0; 23; 25; 0; 27; 20; 0; 41; 52; 53; 37; 0; 0;
  33; 67; 62; 30; 66; 65; 64
].

Definition yypgoto : list Z := [
  -75; -75; -75; -75; -75; -75; -75; -75; 56; 23; -75; -75; -74; 11; -27; -75; -8; -75; -75; -75; -75; 37; -75; -75;
  -75; -75; -75; -3; -45
].

Definition yydefgoto : list Z := [
  0; 16; 17; 18; 19; 20; 21; 65; 68; 66; 86; 93; 94; 72; 56; 73; 74; 35; 102; 117; 58; 59; 36; 62;
  108; 122; 126; 37; 38
].

Definition yytable : list Z := [
  34; 28; 60; 104; 31; 64; 67; 69; 69; 124; 55; 23; 32; 55; 25; 125; 83; 84; 85; 78; 41; 42; 43; 44;
  33; 22; 45; 46; 115; 24; 60; 76; 26; 81; 82; 80; 27; 67; 79; 120; 61; 75; 29; 111; 30; 1; 63; 2;
  40; 3; 4; 5; 39; 47; 6; 32; 90; 91; 92; -68; 7; 48; 8; 90; 91; 92; 87; 88; 49; 9; 10; 11;
  12; 13; 14; 105; 106; 89; 88; 15; 112; 113; 96; 97; 98; 50; 51; 52; 53; 54; 55; 57; 32; 71; 116; 99;
  100; 101; 77; 95; 107; 110; 118; 119; 123; 109; 114; 0; 0; 70; 121; 0; 103
].

Definition yycheck : list Z := [
  8; 4; 47; 77; 7; 50; 51; 52; 53; 8; 17; 6; 38; 17; 6; 14; 21; 22; 23; 26; 23; 24; 25; 26;
  50; 4; 29; 30; 102; 24; 75; 58; 24; 44; 45; 62; 38; 82; 45; 113; 48; 45; 10; 88; 13; 3; 49; 5;
  42; 7; 8; 9; 0; 19; 12; 38; 39; 40; 41; 46; 18; 45; 20; 39; 40; 41; 44; 45; 13; 27; 28; 29;
  30; 31; 32; 78; 79; 44; 45; 37; 44; 45; 34; 35; 36; 46; 43; 43; 43; 11; 17; 38; 38; 43; 102; 47;
  48; 49; 47; 25; 15; 43; 16; 40; 44; 82; 95; -1; -1; 53; 118; -1; 75
].

Definition yystos : list Z := [
  0; 3; 5; 7; 8; 9; 12; 18; 20; 27; 28; 29; 30; 31; 32; 37; 52; 53; 54; 55; 56; 57; 4; 6;
  24; 6; 24; 38; 78; 10; 13; 78; 38; 50; 67; 68; 73; 78; 79; 0; 42; 78; 78; 78; 78; 78; 78; 19;
  45; 13; 46; 43; 43; 43; 11; 17; 65; 38; 71; 72; 79; 67; 74; 78; 79; 58; 60; 79; 59; 79; 59; 43;
  64; 66; 67; 45; 65; 47; 26; 45; 65; 44; 45; 21; 22; 23; 61; 44; 45; 44; 39; 40; 41; 62; 63; 25;
  34; 35; 36; 47; 48; 49; 69; 72; 63; 78; 78; 15; 75; 60; 43; 79; 44; 45; 64; 63; 67; 70; 16; 40;
  63; 67; 76; 44; 8; 14; 77
].

Definition yyr1 : list Z := [
  0; 51; 52; 52; 52; 52; 53; 53; 53; 53; 54; 54; 54; 54; 55; 56; 56; 56; 56; 56; 57; 57; 57; 57;
  58; 58; 59; 59; 60; 61; 61; 61; 62; 62; 63; 63; 63; 64; 65; 65; 66; 66; 67; 67; 68; 68; 69; 69;
  69; 69; 69; 69; 70; 70; 71; 71; 72; 73; 73; 74; 74; 74; 75; 75; 76; 77; 77; 77; 78; 79
].

Definition yyr2 : list Z := [
  0; 2; 2; 1; 1; 1; 1; 1; 1; 1; 1; 1; 1; 1; 2; 6; 3; 2; 6; 6; 7; 4; 5; 6;
  1; 3; 1; 3; 2; 1; 4; 1; 1; 3; 1; 1; 1; 3; 0; 2; 1; 3; 3; 1; 1; 3; 1; 1;
  1; 1; 1; 1; 1; 1; 1; 3; 3; 1; 1; 1; 3; 3; 3; 0; 2; 1; 1; 0; 1; 1
].
