(* ===== verification/Scanner.v ===== *)
(** * The scanner

    [yylex] of [parser/lex.yy.cpp], the scanner flex made of [parser/lex.l]: the automaton over
    the tables, the back-up to the last accepting state, the end of the buffer, the actions of
    the rules.  The buffer of [yy_scan_string] is the text and two NUL bytes; it is never
    refilled.  Locations, which only messages use, and what is written to the terminal are left
    out.  [atof] (with the conversion to [float]) is a parameter. *)

From S2P Require Import Prelude Text Values SemVal ParserTables.
From stdpp Require Import options.
Import sem.

(** ** Tokens: [yytokentype] of [parser/yacc.tab.h] *)

Definition YYEOF := 0.
Definition YYerror := 256.
Definition YYUNDEF := 257.
Definition SHOW := 258.
Definition TABLES := 259.
Definition CREATE := 260.
Definition TABLE := 261.
Definition DROP := 262.
Definition DESC := 263.
Definition INSERT := 264.
Definition INTO := 265.
Definition VALUES := 266.
Definition DELETE := 267.
Definition FROM := 268.
Definition ASC := 269.
Definition ORDER := 270.
Definition BY := 271.
Definition WHERE := 272.
Definition UPDATE := 273.
Definition SET := 274.
Definition SELECT := 275.
Definition INT := 276.
Definition CHAR := 277.
Definition FLOAT := 278.
Definition INDEX := 279.
Definition AND := 280.
Definition JOIN := 281.
Definition EXIT := 282.
Definition HELP := 283.
Definition TXN_BEGIN := 284.
Definition TXN_COMMIT := 285.
Definition TXN_ABORT := 286.
Definition TXN_ROLLBACK := 287.
Definition LEQ := 289.
Definition NEQ := 290.
Definition GEQ := 291.
Definition T_EOF := 292.
Definition IDENTIFIER := 293.
Definition VALUE_STRING := 294.
Definition VALUE_INT := 295.
Definition VALUE_FLOAT := 296.

(** ** The automaton *)

Definition YY_END_OF_BUFFER := 48.
(** [BEGIN(s)] sets [yy_start] to [1 + 2 * s]. *)
Definition INITIAL := 1.
Definition STATE_COMMENT := 3.

(** The inner loop: from a state without an entry for the class to its default state. *)
Fixpoint yy_default (n : nat) (s c : Z) : option (Z * Z) :=
  match n with
  | O => None
  | S n =>
      base ← at_ yy_base s;
      k ← at_ yy_chk (base + c);
      if k =? s then Some (s, c)
      else
        s ← at_ yy_def s;
        c ← (if 154 <=? s then at_ yy_meta c else Some c);
        yy_default n s c
  end.

(** One transition, on a class of characters.  A chain of default states has at most three. *)
Definition yy_trans (s c : Z) : option Z :=
  '(s, c) ← yy_default 4 s c;
  base ← at_ yy_base s;
  at_ yy_nxt (base + c).

(** [yy_last_accepting_state] and [yy_last_accepting_cpos], the latter as an offset from
    [yytext]; [None] before they are set for this token. *)
Abbreviation Accepting := (option (Z * nat)).

Definition note_accepting (s : Z) (n : nat) (last : Accepting) : option Accepting :=
  act ← at_ yy_accept s;
  Some (if act =? 0 then last else Some (s, n)).

(** [yy_match]: transitions until a state without successors.  [n] characters were read, [cp]
    is what follows [yy_cp] in the buffer. *)
Fixpoint yy_match (s : Z) (n : nat) (last : Accepting) (cp : list byte) : option (Z * nat * Accepting) :=
  match cp with
  | [] => None
  | b :: cp =>
      c ← at_ yy_ec (byte_val b);
      last ← note_accepting s n last;
      s ← yy_trans s c;
      base ← at_ yy_base s;
      if base =? 306 then Some (s, S n, last) else yy_match s (S n) last cp
  end.

(** [yy_get_previous_state]: the state after the characters [cp], with those passed noted. *)
Fixpoint yy_get_previous_state (s : Z) (n : nat) (last : Accepting) (cp : list byte) : option (Z * Accepting) :=
  match cp with
  | [] => Some (s, last)
  | b :: cp =>
      c ← (if byte_val b =? 0 then Some 1 else at_ yy_ec (byte_val b));
      last ← note_accepting s n last;
      s ← yy_trans s c;
      yy_get_previous_state s (S n) last cp
  end.

(** [yy_find_action]: the rule and the length of its text. *)
Definition yy_find_action (s : Z) (n : nat) (last : Accepting) : option (Z * nat) :=
  act ← at_ yy_accept s;
  if act =? 0 then
    '(s, n) ← last;
    act ← at_ yy_accept s;
    Some (act, n)
  else Some (act, n).

Inductive Scan := ScanEof | ScanRule (yy_act : Z) (len : nat).

(** One token's text, from the start state [yy_start].  At the end-of-buffer action
    [yy_get_next_buffer] says either that nothing was matched (the end of the input) or that the
    text before the end of the buffer is to be matched once more.  A NUL before the end of the
    buffer does not occur in a C string: [None]. *)
Definition yy_scan (start : Z) (text : list byte) : option Scan :=
  '(s, n, last) ← yy_match start 0 None (text ++ [x00; x00]);
  '(act, n) ← yy_find_action s n last;
  if act =? YY_END_OF_BUFFER then
    if (n <=? length text)%nat then None
    else if (n - 1 =? 0)%nat then Some ScanEof
    else
      '(s, last) ← yy_get_previous_state start 0 last text;
      '(act, n) ← yy_find_action s (length text) last;
      Some (ScanRule act n)
  else Some (ScanRule act n).

(** ** The actions *)

(** The rules that return a constant: 8 to 40. *)
Definition rule_tokens : list Z := [
  SHOW; TXN_BEGIN; TXN_COMMIT; TXN_ABORT; TXN_ROLLBACK; TABLES; CREATE; TABLE; DROP; DESC; INSERT; INTO;
  VALUES; DELETE; FROM; WHERE; UPDATE; SET; SELECT; INT; CHAR; FLOAT; INDEX; AND; JOIN; EXIT; HELP;
  ORDER; BY; ASC; GEQ; LEQ; NEQ].

Definition bytes_str (l : list byte) : string := String.string_of_list_byte l.

(** [atoi]: [strtol] reads a number as [operator>>] does, stays within [long], and the result is
    cut to an [int]. *)
Definition atoi (s : string) : Z :=
  match read_Z s with
  | Some (v, _) => wrap32 (Z.max (- 2 ^ 63) (Z.min (2 ^ 63 - 1) v))
  | None => 0
  end.

(** The characters between the quotes: [std::string(yytext + 1, strlen(yytext) - 2)]. *)
Definition unquote (t : list byte) : list byte := take (length t - 2) (tail t).

Section scanner.
Context (atof : string → Z).

Inductive Action :=
  | Skip
  | Begin (start : Z)
  | Return (token : Z) (set : SemValue → SemValue)
  | Fatal.

(** The action of a rule on its text [yytext]. *)
Definition yy_action (act : Z) (yytext : list byte) : Action :=
  if act =? 1 then Begin STATE_COMMENT
  else if act =? 2 then Begin INITIAL
  else if bool_decide (3 <= act <= 7) then Skip
  else if bool_decide (8 <= act <= 40) then
    match at_ rule_tokens (act - 8) with Some t => Return t id | None => Fatal end
  else if act =? 41 then
    match yytext with b :: _ => Return (byte_val b) id | [] => Fatal end
  else if act =? 42 then Return IDENTIFIER (set_sv_str (bytes_str yytext))
  else if act =? 43 then Return VALUE_INT (set_sv_int (atoi (bytes_str yytext)))
  else if act =? 44 then Return VALUE_FLOAT (set_sv_float (atof (bytes_str yytext)))
  else if act =? 45 then Return VALUE_STRING (set_sv_str (bytes_str (unquote yytext)))
  else if bool_decide (46 <= act <= 47) then Skip
  else Fatal.

(** What the scanner keeps between calls: the start condition, a global that nothing resets, and
    the text from [yy_c_buf_p] on. *)
Record Scanner := mkScanner { yy_start : Z; yy_rest : list byte }.

(** The outer loop of [yylex]: texts are matched until a rule returns a token.  Every round but
    the last consumes a character. *)
Fixpoint yylex_loop (fuel : nat) (yylval : SemValue) (sc : Scanner) : option (Z * SemValue * Scanner) :=
  match fuel with
  | O => None
  | S fuel =>
      r ← yy_scan (yy_start sc) (yy_rest sc);
      match r with
      | ScanEof => Some (T_EOF, yylval, sc)
      | ScanRule act n =>
          let rest := drop n (yy_rest sc) in
          match yy_action act (take n (yy_rest sc)) with
          | Skip => yylex_loop fuel yylval (mkScanner (yy_start sc) rest)
          | Begin start => yylex_loop fuel yylval (mkScanner start rest)
          | Return token set => Some (token, set yylval, mkScanner (yy_start sc) rest)
          | Fatal => None
          end
      end
  end.

Definition yylex (yylval : SemValue) (sc : Scanner) : option (Z * SemValue * Scanner) :=
  yylex_loop (S (length (yy_rest sc))) yylval sc.

(** [yy_scan_string]: the text up to its first NUL becomes the buffer; the start condition stays. *)
Definition yy_scan_string (text : string) (start : Z) : Scanner := mkScanner start (c_str (str_bytes text)).
End scanner.
