(* ===== verification/Lexical.v ===== *)
(** * The lexical rules

    [parser/lex.l] as the documentation of flex reads it: regular expressions, of which the one
    that matches the longest text applies and, among those, the first.  Expressions have their
    usual language ([matches]) and a derivative by a byte, with which [LexicalProps] compares the
    rules with the automaton. *)

From Stdlib Require Import Strings.Ascii.
From S2P Require Import Prelude Values Scanner.
From stdpp Require Import options.

(** ** Regular expressions *)

(** A class of bytes is a list of ranges. *)
Inductive re :=
  | Void
  | Eps
  | Cls (l : list (Z * Z))
  | Seq (e1 e2 : re)
  | Alt (e1 e2 : re)
  | Star (e : re).

#[global] Instance re_eq_dec : EqDecision re.
Proof. solve_decision. Defined.

Definition in_cls (l : list (Z * Z)) (b : byte) : bool :=
  existsb (λ r : Z * Z, (r.1 <=? byte_val b) && (byte_val b <=? r.2)) l.

Inductive matches : re → list byte → Prop :=
  | m_eps : matches Eps []
  | m_cls l b : in_cls l b = true → matches (Cls l) [b]
  | m_seq e1 e2 w1 w2 : matches e1 w1 → matches e2 w2 → matches (Seq e1 e2) (w1 ++ w2)
  | m_alt_l e1 e2 w : matches e1 w → matches (Alt e1 e2) w
  | m_alt_r e1 e2 w : matches e2 w → matches (Alt e1 e2) w
  | m_star_nil e : matches (Star e) []
  | m_star_app e w1 w2 : matches e w1 → matches (Star e) w2 → matches (Star e) (w1 ++ w2).

Fixpoint nullable (e : re) : bool :=
  match e with
  | Void | Cls _ => false
  | Eps | Star _ => true
  | Seq e1 e2 => nullable e1 && nullable e2
  | Alt e1 e2 => nullable e1 || nullable e2
  end.

Definition seq_ (e1 e2 : re) : re :=
  match e1 with Void => Void | Eps => e2 | _ => Seq e1 e2 end.

Definition alt_ (e1 e2 : re) : re :=
  match e1, e2 with
  | Void, _ => e2
  | _, Void => e1
  | _, _ => if decide (e1 = e2) then e1 else Alt e1 e2
  end.

Fixpoint deriv (b : byte) (e : re) : re :=
  match e with
  | Void | Eps => Void
  | Cls l => if in_cls l b then Eps else Void
  | Seq e1 e2 =>
      if nullable e1 then alt_ (seq_ (deriv b e1) e2) (deriv b e2) else seq_ (deriv b e1) e2
  | Alt e1 e2 => alt_ (deriv b e1) (deriv b e2)
  | Star e => seq_ (deriv b e) (Star e)
  end.

(** ** The definitions section of [lex.l] *)

Definition opt (e : re) : re := Alt Eps e.
Definition plus (e : re) : re := Seq e (Star e).

(** A character of a literal; under [%option caseless] a letter stands for both cases. *)
Definition lit_char (c : ascii) : re :=
  let n := Z.of_N (N_of_ascii c) in
  if (65 <=? n) && (n <=? 90) then Cls [(n, n); (n + 32, n + 32)]
  else if (97 <=? n) && (n <=? 122) then Cls [(n - 32, n - 32); (n, n)]
  else Cls [(n, n)].

Fixpoint lit (s : string) : re :=
  match s with
  | EmptyString => Eps
  | String c EmptyString => lit_char c
  | String c s => Seq (lit_char c) (lit s)
  end.

Definition alpha : list (Z * Z) := [(65, 90); (97, 122)].
Definition digit : list (Z * Z) := [(48, 57)].
Definition white_space : re := plus (Cls [(32, 32); (9, 9)]).
Definition new_line : re := Alt (Cls [(13, 13)]) (Alt (Cls [(10, 10)]) (Seq (Cls [(13, 13)]) (Cls [(10, 10)]))).
Definition sign : re := Cls [(43, 43); (45, 45)].
Definition identifier : re := Seq (Cls alpha) (Star (Cls ((95, 95) :: alpha ++ digit))).
Definition value_int : re := Seq (opt sign) (plus (Cls digit)).
Definition value_float : re :=
  Seq (opt sign) (Seq (plus (Cls digit)) (Seq (Cls [(46, 46)]) (opt (plus (Cls digit))))).
Definition value_string : re := Seq (Cls [(39, 39)]) (Seq (Star (Cls [(0, 38); (40, 255)])) (Cls [(39, 39)])).
(** The characters [; ( ) , * = > < .] *)
Definition single_op : re :=
  Cls [(59, 59); (40, 40); (41, 41); (44, 44); (42, 42); (61, 61); (62, 62); (60, 60); (46, 46)].

(** ** The rules, by their numbers, of a start condition

    The last one is the rule flex adds, which matches any character.  [.] is any character but a
    newline. *)
Definition keywords : list string := [
  "SHOW"; "BEGIN"; "COMMIT"; "ABORT"; "ROLLBACK"; "TABLES"; "CREATE"; "TABLE"; "DROP"; "DESC"; "INSERT"; "INTO";
  "VALUES"; "DELETE"; "FROM"; "WHERE"; "UPDATE"; "SET"; "SELECT"; "INT"; "CHAR"; "FLOAT"; "INDEX"; "AND"; "JOIN";
  "EXIT"; "HELP"; "ORDER"; "BY"; "ASC"; ">="; "<="; "<>"].

Definition any_char : re := Cls [(0, 255)].
Definition not_newline : list (Z * Z) := [(0, 9); (11, 255)].

Definition initial_rules : list (Z * re) :=
  [(1, lit "/*"); (5, Seq (lit "--") (Star (Cls not_newline))); (6, white_space); (7, new_line)] ++
  zip (seqZ 8 33) (lit <$> keywords) ++
  [(41, single_op); (42, identifier); (43, value_int); (44, value_float); (45, value_string);
   (46, Cls not_newline); (47, any_char)].

Definition comment_rules : list (Z * re) :=
  [(2, lit "*/"); (3, Cls [(0, 41); (43, 255)]); (4, lit "*"); (47, any_char)].

Definition rules (start : Z) : list (Z * re) :=
  if start =? STATE_COMMENT then comment_rules else initial_rules.

(** Rule [r] matches the text [w]. *)
Definition rule_matches (start r : Z) (w : list byte) : Prop :=
  ∃ e, (r, e) ∈ rules start ∧ matches e w.

(** The first [n] characters of [w] are the longest text a rule matches, and [r] is the first
    rule that matches them. *)
Definition longest_match (start : Z) (w : list byte) (r : Z) (n : nat) : Prop :=
  (0 < n <= length w)%nat ∧ rule_matches start r (take n w) ∧
  (∀ r' m, (m <= length w)%nat → rule_matches start r' (take m w) → (m <= n)%nat) ∧
  (∀ r', rule_matches start r' (take n w) → r <= r').

(** ** Languages and derivatives *)

Lemma seq_matches e1 e2 w : matches (seq_ e1 e2) w ↔ matches (Seq e1 e2) w.
Proof.
  destruct e1; simpl; try done.
  - split; intros H; inversion H; subst. inversion H2.
  - split; intros H; [apply (m_seq Eps e2 []); [constructor|done]|].
    inversion H as [| |? ? ? ? H1 H2| | | |]; subst. inversion H1; subst. done.
Qed.

Lemma alt_matches e1 e2 w : matches (alt_ e1 e2) w ↔ matches (Alt e1 e2) w.
Proof.
  assert (Hv : ∀ w, ¬ matches Void w) by (intros ? H; inversion H).
  assert (Hd : ∀ e, matches (if decide (e1 = e2) then e else Alt e1 e2) w →
    e = e1 → matches (Alt e1 e2) w).
  { intros e. case_decide; [|done]. intros ? ->. by constructor. }
  assert (Hi : matches (Alt e1 e2) w → matches (if decide (e1 = e2) then e1 else Alt e1 e2) w).
  { case_decide as E; [|done]. rewrite <- E. intros H. by inversion H. }
  destruct e1, e2; cbn [alt_]; (split; [intros H|intros H; try (by apply Hi)]);
    first [by (eapply Hd; [exact H|])|by apply m_alt_r|by apply m_alt_l|
           inversion H; subst; first [done|exfalso; by eapply Hv]].
Qed.

Lemma nullable_ok e : nullable e = true ↔ matches e [].
Proof.
  induction e as [| |l|e1 IH1 e2 IH2|e1 IH1 e2 IH2|e IH]; simpl.
  - split; [done|]. intros H; inversion H.
  - split; [constructor|done].
  - split; [done|]. intros H; inversion H.
  - rewrite andb_true_iff, IH1, IH2. split.
    + intros [H1 H2]. by apply (m_seq e1 e2 [] []).
    + intros H. inversion H as [| |? ? w1 w2 H1 H2 He Hw| | | |]; subst.
      apply app_eq_nil in Hw as [-> ->]. done.
  - rewrite orb_true_iff, IH1, IH2. split.
    + intros [?|?]; [by apply m_alt_l|by apply m_alt_r].
    + intros H. inversion H; subst; auto.
  - split; [constructor|done].
Qed.

(** A non-empty word of a starred language starts with a non-empty word of the language. *)
Lemma star_cons e b w : matches (Star e) (b :: w) →
  ∃ w1 w2, w = w1 ++ w2 ∧ matches e (b :: w1) ∧ matches (Star e) w2.
Proof.
  intros H. remember (Star e) as s eqn:Es. remember (b :: w) as v eqn:Ev. revert Es b w Ev.
  induction H as [| | | | | |e0 w1 w2 H1 IH1 H2 IH2]; intros Es b' w' Ev; try done.
  injection Es as ->. destruct w1 as [|b1 w1]; simpl in Ev; [by eapply IH2|].
  injection Ev as -> <-. eauto 10.
Qed.

Lemma seq_cons e1 e2 b w : matches (Seq e1 e2) (b :: w) ↔
  (∃ w1 w2, w = w1 ++ w2 ∧ matches e1 (b :: w1) ∧ matches e2 w2) ∨ (matches e1 [] ∧ matches e2 (b :: w)).
Proof.
  split.
  - intros H. inversion H as [| |? ? w1 w2 H1 H2 He Hw| | | |]; subst.
    destruct w1 as [|b1 w1]; simpl in Hw; [subst; auto|]. injection Hw as -> <-. left. eauto 10.
  - intros [(w1&w2&->&H1&H2)|[H1 H2]].
    + by apply (m_seq e1 e2 (b :: w1)).
    + by apply (m_seq e1 e2 []).
Qed.

Lemma deriv_ok b e w : matches (deriv b e) w ↔ matches e (b :: w).
Proof.
  assert (Hv : ∀ w, matches Void w ↔ False) by (split; [intros H; inversion H|done]).
  revert w. induction e as [| |l|e1 IH1 e2 IH2|e1 IH1 e2 IH2|e IH]; intros w; cbn [deriv].
  - rewrite !Hv. done.
  - rewrite Hv. split; [done|]. intros H; inversion H.
  - split.
    + destruct (in_cls l b) eqn:E; intros H; inversion H; subst. by constructor.
    + intros H. inversion H as [|l0 b0 Hb| | | | |]; subst. rewrite Hb. constructor.
  - assert (Hs : matches (seq_ (deriv b e1) e2) w ↔
      ∃ w1 w2, w = w1 ++ w2 ∧ matches e1 (b :: w1) ∧ matches e2 w2).
    { rewrite seq_matches. split.
      - intros H. inversion H as [| |? ? w1 w2 H1 H2 He Hw| | | |]; subst.
        exists w1, w2. by rewrite <- IH1.
      - intros (w1&w2&->&H1&H2). constructor; [by apply IH1|done]. }
    rewrite seq_cons, <- nullable_ok. destruct (nullable e1).
    + rewrite alt_matches, <- IH2, <- Hs. split.
      * intros H. inversion H; subst; auto.
      * intros [?|[_ ?]]; [by apply m_alt_l|by apply m_alt_r].
    + rewrite Hs. naive_solver.
  - rewrite alt_matches. split; intros H; inversion H; subst.
    + by apply m_alt_l, IH1.
    + by apply m_alt_r, IH2.
    + by apply m_alt_l, IH1.
    + by apply m_alt_r, IH2.
  - rewrite seq_matches. split.
    + intros H. inversion H as [| |? ? w1 w2 H1 H2 He Hw| | | |]; subst.
      apply IH in H1. by apply (m_star_app e (b :: w1)).
    + intros (w1&w2&->&H1&H2)%star_cons. constructor; [by apply IH|done].
Qed.
