(* ===== verification/LexicalProps.v ===== *)
(** * The scanner applies the lexical rules

    The states of the table-driven automaton are compared with the sets of derivatives of the
    rules: [sim] is the list of pairs that are reached together, and one evaluation checks that
    it is closed under every byte and that both sides accept alike. *)

From S2P Require Import Prelude Values SemVal ParserTables Scanner Lexical.
From stdpp Require Import options.

(** ** The rules after some characters *)

Definition alive (l : list (Z * re)) : list (Z * re) := filter (λ x, x.2 ≠ Void) l.

Definition advance (b : byte) (l : list (Z * re)) : list (Z * re) :=
  alive ((λ x : Z * re, (x.1, deriv b x.2)) <$> l).

(** The first rule that matches the text read, [0] when there is none. *)
Fixpoint accepting (l : list (Z * re)) : Z :=
  match l with
  | [] => 0
  | (r, e) :: l => if nullable e then r else accepting l
  end.

Fixpoint advances (l : list (Z * re)) (w : list byte) : list (Z * re) :=
  match w with [] => l | b :: w => advances (advance b l) w end.

Definition has (l : list (Z * re)) (r : Z) (w : list byte) : Prop := ∃ e, (r, e) ∈ l ∧ matches e w.

Lemma has_advance b l r w : has (advance b l) r w ↔ has l r (b :: w).
Proof.
  unfold has, advance, alive. split.
  - intros (e&He&Hm). apply list_elem_of_filter in He as [_ He].
    apply list_elem_of_fmap in He as ([r0 e0]&[= -> ->]&He). exists e0. by rewrite <- deriv_ok.
  - intros (e&He&Hm). apply deriv_ok in Hm. exists (deriv b e). split; [|done].
    apply list_elem_of_filter. split.
    + simpl. intros Hv. rewrite Hv in Hm. inversion Hm.
    + apply list_elem_of_fmap. by exists (r, e).
Qed.

Lemma has_advances l r v w : has (advances l v) r w ↔ has l r (v ++ w).
Proof.
  revert l. induction v as [|b v IH]; intros l; [done|]. cbn [advances app].
  by rewrite IH, has_advance.
Qed.

Lemma advances_app l v w : advances l (v ++ w) = advances (advances l v) w.
Proof. revert l; induction v as [|b v IH]; intros l; simpl; auto. Qed.

(** Rules are listed in the order of their numbers, which are positive. *)
Fixpoint ordered (lo : Z) (l : list (Z * re)) : bool :=
  match l with
  | [] => true
  | (r, _) :: l => (lo <? r) && ordered r l
  end.

Lemma ordered_lt lo l r e : ordered lo l = true → (r, e) ∈ l → lo < r.
Proof.
  revert lo. induction l as [|[r0 e0] l IH]; intros lo; simpl; [set_solver|].
  intros [Hr Ho]%andb_prop [[= -> ->]|Hin]%elem_of_cons; [lia|].
  apply IH in Ho; [lia|done].
Qed.

Lemma ordered_weak lo lo' l : lo <= lo' → ordered lo' l = true → ordered lo l = true.
Proof. destruct l as [|[r e] l]; simpl; [done|]. intros ? [? ->]%andb_prop. rewrite andb_true_r. lia. Qed.

Lemma ordered_advance b lo l : ordered lo l = true → ordered lo (advance b l) = true.
Proof.
  revert lo. induction l as [|[r e] l IH]; intros lo; simpl; [done|].
  intros [Hr Ho]%andb_prop. unfold advance, alive in *. simpl.
  rewrite filter_cons. case_decide; simpl.
  - rewrite Hr. by apply IH.
  - apply IH. apply (ordered_weak lo r); [lia|done].
Qed.

Lemma ordered_advances lo l w : ordered lo l = true → ordered lo (advances l w) = true.
Proof. revert l; induction w as [|b w IH]; intros l Ho; simpl; [done|]. by apply IH, ordered_advance. Qed.

(** [accepting] is the least rule that matches. *)
Lemma accepting_zero lo l : 0 <= lo → ordered lo l = true → accepting l = 0 → ∀ r, ¬ has l r [].
Proof.
  intros Hlo Ho Ha r (e&He&Hm). apply nullable_ok in Hm. revert lo Hlo Ho.
  induction l as [|[r0 e0] l IH]; intros lo Hlo Ho; [by apply elem_of_nil in He|].
  simpl in Ho, Ha. apply andb_prop in Ho as [Hr Ho].
  apply elem_of_cons in He as [[= <- <-]|He].
  - rewrite Hm in Ha. lia.
  - destruct (nullable e0); [lia|]. apply (IH Ha He r0); [lia|done].
Qed.

Lemma accepting_least lo l : ordered lo l = true → accepting l ≠ 0 →
  has l (accepting l) [] ∧ ∀ r, has l r [] → accepting l <= r.
Proof.
  revert lo. induction l as [|[r0 e0] l IH]; intros lo Ho Ha; [done|].
  simpl in Ho, Ha |- *. apply andb_prop in Ho as [Hr Ho]. destruct (nullable e0) eqn:En.
  - split.
    + exists e0. split; [set_solver|by apply nullable_ok].
    + intros r (e&He&_). apply elem_of_cons in He as [[= <- <-]|He]; [lia|].
      pose proof (ordered_lt _ _ _ _ Ho He). lia.
  - destruct (IH r0 Ho Ha) as [(e&He&Hm) Hl]. split; [exists e; split; [set_solver|done]|].
    intros r (e'&He'&Hm'). apply elem_of_cons in He' as [[= <- <-]|He'].
    + apply nullable_ok in Hm'. congruence.
    + apply Hl. by exists e'.
Qed.

(** ** Bytes that no class tells apart *)

Fixpoint cls_of (e : re) : list (list (Z * Z)) :=
  match e with
  | Void | Eps => []
  | Cls l => [l]
  | Seq e1 e2 | Alt e1 e2 => cls_of e1 ++ cls_of e2
  | Star e => cls_of e
  end.

Lemma deriv_ext b b' e : Forall (λ l, in_cls l b = in_cls l b') (cls_of e) → deriv b e = deriv b' e.
Proof.
  induction e as [| |l|e1 IH1 e2 IH2|e1 IH1 e2 IH2|e IHe]; simpl; intros H; try done.
  - apply Forall_cons_1 in H as [H _]. cbn beta in H. by rewrite H.
  - apply Forall_app in H as [H1 H2]. by rewrite (IH1 H1), (IH2 H2).
  - apply Forall_app in H as [H1 H2]. by rewrite (IH1 H1), (IH2 H2).
  - by rewrite (IHe H).
Qed.

Lemma advance_ext b b' l :
  Forall (λ x : Z * re, Forall (λ c, in_cls c b = in_cls c b') (cls_of x.2)) l → advance b l = advance b' l.
Proof.
  intros H. unfold advance. f_equal. apply list_fmap_ext. intros i [r e] Hi. simpl. f_equal.
  apply deriv_ext, (Forall_lookup_1 _ _ _ _ H Hi).
Qed.

Definition all_bytes : list byte := byte_of <$> seqZ 1 255.

(** One byte of every class of [yy_ec]; the first class is that of the NUL. *)
Definition rep_bytes : list byte :=
  Eval vm_compute in (λ c, default x00 (find (λ b, bool_decide (at_ yy_ec (byte_val b) = Some c)) all_bytes)) <$> seqZ 1 68.

Definition rep (b : byte) : byte :=
  match at_ yy_ec (byte_val b) with Some c => default x00 (rep_bytes !! Z.to_nat (c - 1)) | None => x00 end.

(** ** The simulation *)

Definition pair_of := (Z * list (Z * re))%type.

Definition mem_pair (p : pair_of) (ps : list pair_of) : bool :=
  existsb (λ q : pair_of, if p.1 =? q.1 then bool_decide (p.2 = q.2) else false) ps.

Definition byte_trans (s : Z) (b : byte) : option Z := c ← at_ yy_ec (byte_val b); yy_trans s c.

Definition stops (s : Z) : bool := bool_decide (at_ yy_base s = Some 306).

Definition successors (p : pair_of) : list pair_of :=
  if stops p.1 then [] else omap (λ b, (λ s, (s, advance b p.2)) <$> byte_trans p.1 b) rep_bytes.

(** Pairs reached from [todo]. *)
Fixpoint explore (fuel : nat) (todo seen : list pair_of) : list pair_of :=
  match fuel, todo with
  | S fuel, p :: todo =>
      if mem_pair p seen then explore fuel todo seen
      else explore fuel (successors p ++ todo) (p :: seen)
  | _, _ => seen
  end.

Definition sim : list pair_of :=
  Eval vm_compute in reverse (explore (N.to_nat 20000) [(INITIAL, initial_rules); (STATE_COMMENT, comment_rules)] []).

(** The classes of the expressions in [sim]. *)
Definition sim_cls : list (list (Z * Z)) :=
  Eval vm_compute in remove_dups (p ← sim; x ← p.2; cls_of x.2).

(** Both sides accept alike.  A state the matching stops in has no rule left; from another one
    every byte leads to a pair of [sim], and the end of the buffer to its own state. *)
Definition pair_ok (p : pair_of) : bool :=
  bool_decide (at_ yy_accept p.1 = Some (accepting p.2)) &&
  forallb (λ x : Z * re, forallb (λ c, bool_decide (c ∈ sim_cls)) (cls_of x.2)) p.2 &&
  if stops p.1 then forallb (λ b, match advance b p.2 with [] => true | _ => false end) rep_bytes
  else
    forallb (λ b,
      match byte_trans p.1 b with Some s => mem_pair (s, advance b p.2) sim | None => false end) rep_bytes &&
    bool_decide (yy_trans p.1 0 = Some 5).

Definition byte_ok (b : byte) : bool :=
  bool_decide (rep b ∈ rep_bytes ∧ at_ yy_ec (byte_val b) = at_ yy_ec (byte_val (rep b)) ∧
               at_ yy_ec (byte_val b) ≠ None) &&
  forallb (λ c, eqb (in_cls c b) (in_cls c (rep b))) sim_cls.

Lemma sim_checked : forallb pair_ok sim = true.
Proof. vm_compute. reflexivity. Qed.

Lemma bytes_checked : forallb byte_ok all_bytes = true.
Proof. vm_compute. reflexivity. Qed.

(** ** What the check gives *)

Definition no_nul (w : list byte) : Prop := Forall (λ b, byte_val b ≠ 0) w.

Lemma all_bytes_in b : byte_val b ≠ 0 → b ∈ all_bytes.
Proof.
  intros H. apply list_elem_of_fmap. exists (byte_val b). rewrite byte_of_val. split; [done|].
  apply elem_of_seqZ. pose proof (byte_val_range b). lia.
Qed.

Lemma forallb_in {A} (f : A → bool) l x : forallb f l = true → x ∈ l → f x = true.
Proof. intros H Hx. by apply (proj1 (forallb_forall f l) H), list_elem_of_In. Qed.

Lemma sim_pair s l : (s, l) ∈ sim → pair_ok (s, l) = true.
Proof. apply forallb_in, sim_checked. Qed.

Lemma sim_accept s l : (s, l) ∈ sim → at_ yy_accept s = Some (accepting l).
Proof. intros H%sim_pair. unfold pair_ok in H. rewrite !andb_true_iff, bool_decide_eq_true in H. tauto. Qed.

(** A byte and the representative of its class are not told apart. *)
Lemma rep_ok s l b : (s, l) ∈ sim → byte_val b ≠ 0 →
  rep b ∈ rep_bytes ∧ advance b l = advance (rep b) l ∧ byte_trans s b = byte_trans s (rep b) ∧
  at_ yy_ec (byte_val b) ≠ None.
Proof.
  intros Hs%sim_pair Hb%all_bytes_in. apply (forallb_in _ _ _ bytes_checked) in Hb.
  unfold byte_ok in Hb. apply andb_prop in Hb as [Hd Hc].
  apply bool_decide_eq_true in Hd as (Hr&He&Hn).
  unfold pair_ok in Hs. apply andb_prop in Hs as [[_ Hs]%andb_prop _]. simpl in Hs.
  split_and!; [done| |by unfold byte_trans; rewrite He|done].
  apply advance_ext, Forall_forall. intros x Hx. apply Forall_forall. intros c Hcc.
  apply (forallb_in _ _ _ Hs), (λ H, forallb_in _ _ _ H Hcc), bool_decide_eq_true in Hx.
  by apply eqb_prop, (forallb_in _ _ _ Hc).
Qed.

Lemma mem_pair_in p ps : mem_pair p ps = true → p ∈ ps.
Proof.
  unfold mem_pair. rewrite existsb_exists. intros ([s l]&Hin&Hp). destruct p as [s0 l0]. simpl in Hp.
  destruct (s0 =? s) eqn:E; [|done]. apply Z.eqb_eq in E as ->. apply bool_decide_eq_true in Hp as ->.
  by apply list_elem_of_In.
Qed.

Lemma sim_step s l b : (s, l) ∈ sim → stops s = false → byte_val b ≠ 0 →
  ∃ c s', at_ yy_ec (byte_val b) = Some c ∧ yy_trans s c = Some s' ∧ (s', advance b l) ∈ sim.
Proof.
  intros Hs Hst Hb. destruct (rep_ok s l b Hs Hb) as (Hr&Ha&Ht&Hn).
  apply sim_pair in Hs. unfold pair_ok in Hs. cbn [fst snd] in Hs. rewrite Hst in Hs.
  apply andb_prop in Hs as [_ [Hs _]%andb_prop]. apply (forallb_in _ _ _ Hs) in Hr.
  rewrite <- Ht, <- Ha in Hr. unfold byte_trans in Hr.
  destruct (at_ yy_ec (byte_val b)) as [c|]; [|done]. simpl in Hr.
  destruct (yy_trans s c) as [s'|] eqn:E; [|done]. exists c, s'. by eauto using mem_pair_in.
Qed.

Lemma sim_stop s l b : (s, l) ∈ sim → stops s = true → byte_val b ≠ 0 → advance b l = [].
Proof.
  intros Hs Hst Hb. destruct (rep_ok s l b Hs Hb) as (Hr&Ha&_&_).
  apply sim_pair in Hs. unfold pair_ok in Hs. cbn [fst snd] in Hs. rewrite Hst in Hs.
  apply andb_prop in Hs as [_ Hs]. apply (forallb_in _ _ _ Hs) in Hr. rewrite <- Ha in Hr.
  by destruct (advance b l).
Qed.

Lemma sim_end s l : (s, l) ∈ sim → stops s = false → yy_trans s 0 = Some 5.
Proof.
  intros Hs%sim_pair Hst. unfold pair_ok in Hs. cbn [fst snd] in Hs. rewrite Hst in Hs.
  apply andb_prop in Hs as [_ [_ Hs]%andb_prop]. by apply bool_decide_eq_true in Hs.
Qed.

(** ** The best match, on the side of the rules *)

Fixpoint best (l : list (Z * re)) (n : nat) (acc : option (Z * nat)) (w : list byte) : option (Z * nat) :=
  let acc := if accepting l =? 0 then acc else Some (accepting l, n) in
  match w with
  | [] => acc
  | b :: w => best (advance b l) (S n) acc w
  end.

Lemma best_spec l n acc w :
  (∃ k, (k <= length w)%nat ∧ accepting (advances l (take k w)) ≠ 0 ∧
     best l n acc w = Some (accepting (advances l (take k w)), (n + k)%nat) ∧
     ∀ j, (k < j <= length w)%nat → accepting (advances l (take j w)) = 0) ∨
  ((∀ j, (j <= length w)%nat → accepting (advances l (take j w)) = 0) ∧ best l n acc w = acc).
Proof.
  revert l n acc. induction w as [|b w IH]; intros l n acc; simpl.
  - destruct (Z.eqb_spec (accepting l) 0) as [E|E].
    + right. split; [|done]. intros j Hj. by destruct j; [|lia].
    + left. exists 0%nat. rewrite Nat.add_0_r. split_and!; [lia|done|done|lia].
  - destruct (IH (advance b l) (S n) (if accepting l =? 0 then acc else Some (accepting l, n)))
      as [(k&Hk&Ha&Hb&Hj)|[Hj Hb]].
    + left. exists (S k). simpl. split_and!; [lia|done|by rewrite Hb, Nat.add_succ_r|].
      intros [|j] ?; [lia|]. simpl. apply Hj. lia.
    + destruct (Z.eqb_spec (accepting l) 0) as [E|E].
      * right. split; [|done]. intros [|j] ?; [done|]. simpl. apply Hj. lia.
      * left. exists 0%nat. rewrite Nat.add_0_r. simpl. split_and!; [lia|done|done|].
        intros [|j] ?; [lia|]. simpl. apply Hj. lia.
Qed.

(** The rule a noted state stands for. *)
Definition noted (last : Accepting) : option (Z * nat) :=
  '(s, n) ← last; act ← at_ yy_accept s; Some (act, n).

Lemma find_action_ok s l n last : (s, l) ∈ sim →
  yy_find_action s n last = if accepting l =? 0 then noted last else Some (accepting l, n).
Proof.
  intros Hs%sim_accept. unfold yy_find_action. rewrite Hs. cbn. by destruct (accepting l =? 0).
Qed.

Lemma note_ok s l n last : (s, l) ∈ sim → ∃ last',
  note_accepting s n last = Some last' ∧
  noted last' = if accepting l =? 0 then noted last else Some (accepting l, n).
Proof.
  intros Hs%sim_accept. unfold note_accepting. rewrite Hs. cbn. eexists. split; [done|].
  destruct (accepting l =? 0) eqn:E; [done|]. cbn. by rewrite Hs.
Qed.

Lemma sim_base s l : (s, l) ∈ sim → ∃ base, at_ yy_base s = Some base ∧ stops s = (base =? 306).
Proof.
  intros Hs. unfold stops. destruct (at_ yy_base s) as [base|] eqn:E.
  - exists base. split; [done|]. destruct (Z.eqb_spec base 306) as [->|Hn].
    + by apply bool_decide_eq_true.
    + apply bool_decide_eq_false. congruence.
  - pose proof (sim_end s l Hs) as Ht. unfold stops, yy_trans in Ht. cbn [yy_default] in Ht. rewrite E in Ht.
    by specialize (Ht eq_refl).
Qed.

(** ** Runs of the automaton *)

#[local] Arguments yy_trans : simpl never.
#[local] Arguments at_ : simpl never.
#[local] Arguments yy_find_action : simpl never.

(** From [s], where the rules [l] are alive, the characters lead to a state without the matching
    stopping before. *)
Inductive path : Z → list (Z * re) → list byte → Z → Prop :=
  | path_nil s l : (s, l) ∈ sim → path s l [] s
  | path_cons s l b v c s1 s' :
      (s, l) ∈ sim → stops s = false → at_ yy_ec (byte_val b) = Some c → byte_val b ≠ 0 →
      yy_trans s c = Some s1 → path s1 (advance b l) v s' → path s l (b :: v) s'.

Lemma path_end s l v s' : path s l v s' → (s', advances l v) ∈ sim.
Proof. induction 1; done. Qed.

Lemma path_previous s l v s' n last : path s l v s' → ∃ last',
  yy_get_previous_state s n last v = Some (s', last') ∧
  yy_find_action s' (n + length v) last' = best l n (noted last) v.
Proof.
  intros Hp. revert n last. induction Hp as [s l Hs|s l b v c s1 s' Hs Hst Hc Hb Ht Hp IH]; intros n last.
  - exists last. split; [done|]. simpl. by rewrite Nat.add_0_r, (find_action_ok s l n last Hs).
  - destruct (note_ok s l n last Hs) as (last1&Hn&Hn1). destruct (IH (S n) last1) as (last'&Hr&Hf).
    exists last'. cbn [yy_get_previous_state best length].
    rewrite (proj2 (Z.eqb_neq _ _) Hb), Hc. cbn. rewrite Hn. cbn. rewrite Ht. cbn.
    split; [done|]. by rewrite Nat.add_succ_r, <- Hn1.
Qed.

Definition eob : list byte := [x00; x00].

(** The matching stops in a state without successors, or at the end of the buffer. *)
Lemma match_path s l n last w : (s, l) ∈ sim → stops s = false → no_nul w →
  (∃ v1 v2 s' last', w = v1 ++ v2 ∧ v1 ≠ [] ∧ path s l v1 s' ∧ stops s' = true ∧
     yy_match s n last (w ++ eob) = Some (s', (n + length v1)%nat, last') ∧
     yy_find_action s' (n + length v1) last' = best l n (noted last) v1) ∨
  (∃ s', path s l w s' ∧
     yy_match s n last (w ++ eob) = Some (153, (n + length w + 2)%nat, Some (5, (n + length w + 1)%nat))).
Proof.
  intros Hs Hst Hw. revert s l n last Hs Hst.
  induction Hw as [|b w Hb Hw IH]; intros s l n last Hs Hst;
    destruct (note_ok s l n last Hs) as (last1&Hn&Hn1).
  - right. exists s. split; [by constructor|]. cbn [app eob yy_match].
    change (at_ yy_ec (byte_val x00)) with (Some 0). cbn. rewrite Hn. cbn.
    rewrite (sim_end s l Hs Hst). cbn.
    replace (at_ yy_base 5) with (Some 287) by reflexivity. cbn.
    unfold note_accepting. replace (at_ yy_accept 5) with (Some 48) by reflexivity. cbn.
    replace (yy_trans 5 0) with (Some 153) by reflexivity. cbn.
    replace (at_ yy_base 153) with (Some 306) by reflexivity. cbn.
    apply f_equal, f_equal2; [f_equal; lia|do 2 f_equal; lia].
  - destruct (sim_step s l b Hs Hst Hb) as (c&s1&Hc&Ht&Hs1).
    destruct (sim_base _ _ Hs1) as (base&Hbase&Hst1).
    cbn [app yy_match]. rewrite Hc. cbn. rewrite Hn. cbn. rewrite Ht. cbn.
    rewrite Hbase. cbn. rewrite <- Hst1. destruct (stops s1) eqn:E.
    + left. exists [b], w, s1, last1. split_and!; try done.
      * by econstructor; [..|constructor].
      * simpl. by rewrite Nat.add_1_r.
      * simpl. by rewrite Nat.add_1_r, (find_action_ok s1 _ _ _ Hs1), Hn1.
    + destruct (IH s1 _ (S n) last1 Hs1 E) as [(v1&v2&s'&last'&->&Hv&Hp&Hst'&Hm&Hf)|(s'&Hp&Hm)].
      * left. exists (b :: v1), v2, s', last'. split_and!; try done.
        -- by econstructor.
        -- cbn [length]. by rewrite Nat.add_succ_r.
        -- cbn [length best]. by rewrite Nat.add_succ_r, <- Hn1.
      * right. exists s'. split; [by econstructor|]. rewrite Hm. cbn [length]. apply f_equal, f_equal2; [f_equal; lia|do 2 f_equal; lia].
Qed.

(** ** The theorem *)

Definition start_cond (start : Z) : Prop := start = INITIAL ∨ start = STATE_COMMENT.

Lemma start_sim start : start_cond start →
  (start, rules start) ∈ sim ∧ stops start = false ∧ ordered 0 (rules start) = true ∧
  accepting (rules start) = 0 ∧ (47, any_char) ∈ rules start.
Proof.
  intros [-> | ->]; (split; [apply mem_pair_in; vm_compute; reflexivity|]); 
    (split; [vm_compute; reflexivity|]); (split; [vm_compute; reflexivity|]);
    (split; [vm_compute; reflexivity|]); apply list_elem_of_In; vm_compute; tauto.
Qed.

Lemma has_rules start r w : rule_matches start r w ↔ has (advances (rules start) w) r [].
Proof. rewrite has_advances, app_nil_r. done. Qed.

Lemma advance_nil b : advance b [] = [].
Proof. done. Qed.

Lemma advances_nil w : advances [] w = [].
Proof. induction w; simpl; auto. Qed.

(** The best prefix of [v], when no rule matches more than [v]. *)
Lemma best_longest start w v1 v2 acc : start_cond start → no_nul w → w = v1 ++ v2 → v1 ≠ [] →
  (v2 ≠ [] → ∀ b, byte_val b ≠ 0 → advance b (advances (rules start) v1) = []) →
  ∃ r n, best (rules start) 0 acc v1 = Some (r, n) ∧ longest_match start w r n.
Proof.
  intros Hsc Hw -> Hv Hend. destruct (start_sim start Hsc) as (_&_&Ho&H0&Hany).
  set (a k := accepting (advances (rules start) (take k v1))).
  assert (Hpre : ∀ k, (k <= length v1)%nat → take k (v1 ++ v2) = take k v1).
  { intros k ?. by rewrite take_app_le. }
  assert (Hbig : ∀ r m, (length v1 < m <= length (v1 ++ v2))%nat → ¬ rule_matches start r (take m (v1 ++ v2))).
  { intros r m Hm. rewrite length_app in Hm. rewrite has_rules, take_app_ge by lia.
    destruct v2 as [|b v2]; [simpl in Hm; lia|]. destruct (m - length v1)%nat as [|m'] eqn:E; [lia|].
    simpl. rewrite advances_app. simpl. apply Forall_app in Hw as [_ Hb%Forall_inv].
    rewrite (Hend ltac:(done) b Hb), advances_nil. intros (e&He&_). by apply elem_of_nil in He. }
  assert (Hzero : ∀ r j, (j <= length v1)%nat → a j = 0 → ¬ rule_matches start r (take j (v1 ++ v2))).
  { intros r j Hj Ha. rewrite has_rules, Hpre by done.
    by apply (accepting_zero 0); [lia|apply ordered_advances|]. }
  destruct (best_spec (rules start) 0 acc v1) as [(k&Hk&Ha&->&Hj)|[Hj _]].
  - exists (a k), k. split; [done|]. try rewrite Nat.add_0_l in *.
    destruct (accepting_least 0 (advances (rules start) (take k v1))) as [Hm Hl];
      [by apply ordered_advances|done|].
    unfold longest_match. rewrite length_app, has_rules, Hpre by lia. split_and!.
    + destruct k as [|k]; [by rewrite take_0 in Ha|lia].
    + lia.
    + done.
    + intros r' m Hm' Hr. destruct (decide (m <= k)%nat); [done|exfalso].
      destruct (decide (m <= length v1)%nat).
      * revert Hr. apply Hzero; [done|]. apply Hj. lia.
      * revert Hr. apply Hbig. rewrite length_app. lia.
    + intros r'. rewrite has_rules. apply Hl.
  - exfalso. destruct v1 as [|b v1]; [done|].
    apply (Hzero 47 1%nat); [simpl; lia|apply Hj; simpl; lia|].
    simpl. rewrite take_0. exists any_char. split; [done|]. constructor. unfold in_cls. simpl.
    pose proof (byte_val_range b). destruct (byte_val b); simpl; [done|lia|lia].
Qed.

Lemma eob_action m n : yy_find_action 153 m (Some (5, n)) = Some (YY_END_OF_BUFFER, n).
Proof. reflexivity. Qed.

Lemma yy_scan_longest start w : start_cond start → no_nul w → w ≠ [] →
  ∃ r n, yy_scan start w = Some (ScanRule r n) ∧ longest_match start w r n ∧ 1 <= r <= 47.
Proof.
  intros Hsc Hw Hne. destruct (start_sim start Hsc) as (Hs&Hst&_).
  assert (Hr : ∀ r n, longest_match start w r n → 1 <= r <= 47).
  { intros r n (_&(e&He&_)&_). destruct Hsc as [-> | ->]; vm_compute in He; 
      apply list_elem_of_In in He; simpl in He; naive_solver lia. }
  unfold yy_scan. fold eob.
  destruct (match_path start _ 0 None w Hs Hst Hw) as [(v1&v2&s'&last'&Hw'&Hv&Hp&Hst'&Hm&Hf)|(s'&Hp&Hm)];
    rewrite Hm; clear Hm.
  - cbn. rewrite Nat.add_0_l in Hf. rewrite Hf. clear Hf.
    destruct (best_longest start w v1 v2 (noted None) Hsc Hw Hw' Hv) as (r&n&Hb&Hl).
    { intros _ b Hb. apply (sim_stop s'); [by apply path_end in Hp|done|done]. }
    rewrite Hb. cbn. rewrite (proj2 (Z.eqb_neq r YY_END_OF_BUFFER)) by (specialize (Hr _ _ Hl); unfold YY_END_OF_BUFFER; lia).
    exists r, n. eauto.
  - cbn. rewrite eob_action. cbn -[Nat.leb Nat.sub]. rewrite (proj2 (Nat.leb_gt _ _)) by lia.
    destruct (Nat.eqb_spec (length w + 1 - 1) 0) as [E|_]; [destruct w; simpl in E; [done|lia]|].
    destruct (path_previous start _ w s' 0 (Some (5, (length w + 1)%nat)) Hp) as (last'&Hq&Hf).
    rewrite Hq. cbn. rewrite Nat.add_0_l in Hf. rewrite Hf. 
    destruct (best_longest start w w [] (noted (Some (5, (length w + 1)%nat))) Hsc Hw) as (r&n&Hb&Hl);
      [by rewrite app_nil_r|done|done|].
    rewrite Hb. cbn. exists r, n. eauto.
Qed.
