(* ===== verification/Grammar.v ===== *)
(** * The grammar

    [parser/yacc.y]: its productions with their actions, and what they derive.  A symbol has an
    attribute, the member of [SemValue] its action is about ([%type] of [yacc.y]).  The
    productions are numbered from 2 as bison numbers them; production 1 is its own. *)

From S2P Require Import Prelude Values Ast Scanner.
From stdpp Require Import options.
Import ast.

Inductive nonterm :=
  | n_start | n_stmt | n_txnStmt | n_dbStmt | n_ddl | n_dml | n_fieldList | n_colNameList | n_field | n_type
  | n_valueList | n_value | n_condition | n_optWhereClause | n_whereClause | n_col | n_colList | n_op | n_expr
  | n_setClauses | n_setClause | n_selector | n_tableList | n_opt_order_clause | n_order_clause
  | n_opt_asc_desc | n_tbName | n_colName.

(** A terminal is a token of the scanner; a character stands for itself. *)
Inductive symbol := T (token : Z) | N (n : nonterm).

#[global] Instance nonterm_eq_dec : EqDecision nonterm.
Proof. solve_decision. Defined.
#[global] Instance symbol_eq_dec : EqDecision symbol.
Proof. solve_decision. Defined.

Inductive attr :=
  | ANone
  | ATree (t : option TreeNode)
  | ANode (t : TreeNode)
  | AField (f : ColDef) | AFields (l : list ColDef)
  | AType (t : TypeLen)
  | AOp (op : SvCompOp)
  | AExpr (e : Expr)
  | AVal (v : Value) | AVals (l : list Value)
  | AStr (s : string) | AStrs (l : list string)
  | ACol (c : Col) | ACols (l : list Col)
  | ASet (s : SetClause) | ASets (l : list SetClause)
  | ACond (c : BinaryExpr) | AConds (l : list BinaryExpr)
  | AOrder (o : option OrderBy)
  | ADir (d : OrderByDir)
  | AInt (z : Z) | AFloat (z : Z).

Record production := mkProd { p_lhs : nonterm; p_rhs : list symbol; p_act : list attr → option attr }.

Definition semicolon := T 59.
Definition lparen := T 40.
Definition rparen := T 41.
Definition comma := T 44.
Definition dot := T 46.

(** Without an action: [$$ = $1]. *)
Definition copy (a : list attr) : option attr := match a with [x] => Some x | _ => None end.
Definition const (x : attr) (_ : list attr) : option attr := Some x.

Definition productions : list production := [
  mkProd n_start [N n_stmt; semicolon] (λ a, match a with [ANode t; _] => Some (ATree (Some t)) | _ => None end);
  mkProd n_start [T HELP] (const (ATree (Some Help)));
  mkProd n_start [T EXIT] (const (ATree None));
  mkProd n_start [T T_EOF] (const (ATree None));
  mkProd n_stmt [N n_dbStmt] copy;
  mkProd n_stmt [N n_ddl] copy;
  mkProd n_stmt [N n_dml] copy;
  mkProd n_stmt [N n_txnStmt] copy;
  mkProd n_txnStmt [T TXN_BEGIN] (const (ANode TxnBegin));
  mkProd n_txnStmt [T TXN_COMMIT] (const (ANode TxnCommit));
  mkProd n_txnStmt [T TXN_ABORT] (const (ANode TxnAbort));
  mkProd n_txnStmt [T TXN_ROLLBACK] (const (ANode TxnRollback));
  mkProd n_dbStmt [T SHOW; T TABLES] (const (ANode ShowTables));
  mkProd n_ddl [T CREATE; T TABLE; N n_tbName; lparen; N n_fieldList; rparen]
    (λ a, match a with [_; _; AStr t; _; AFields l; _] => Some (ANode (CreateTable t l)) | _ => None end);
  mkProd n_ddl [T DROP; T TABLE; N n_tbName]
    (λ a, match a with [_; _; AStr t] => Some (ANode (DropTable t)) | _ => None end);
  mkProd n_ddl [T DESC; N n_tbName]
    (λ a, match a with [_; AStr t] => Some (ANode (DescTable t)) | _ => None end);
  mkProd n_ddl [T CREATE; T INDEX; N n_tbName; lparen; N n_colNameList; rparen]
    (λ a, match a with [_; _; AStr t; _; AStrs l; _] => Some (ANode (CreateIndex t l)) | _ => None end);
  mkProd n_ddl [T DROP; T INDEX; N n_tbName; lparen; N n_colNameList; rparen]
    (λ a, match a with [_; _; AStr t; _; AStrs l; _] => Some (ANode (DropIndex t l)) | _ => None end);
  mkProd n_dml [T INSERT; T INTO; N n_tbName; T VALUES; lparen; N n_valueList; rparen]
    (λ a, match a with [_; _; AStr t; _; _; AVals l; _] => Some (ANode (InsertStmt t l)) | _ => None end);
  mkProd n_dml [T DELETE; T FROM; N n_tbName; N n_optWhereClause]
    (λ a, match a with [_; _; AStr t; AConds l] => Some (ANode (DeleteStmt t l)) | _ => None end);
  mkProd n_dml [T UPDATE; N n_tbName; T SET; N n_setClauses; N n_optWhereClause]
    (λ a, match a with [_; AStr t; _; ASets s; AConds l] => Some (ANode (UpdateStmt t s l)) | _ => None end);
  mkProd n_dml [T SELECT; N n_selector; T FROM; N n_tableList; N n_optWhereClause; N n_opt_order_clause]
    (λ a, match a with
          | [_; ACols c; _; AStrs t; AConds w; AOrder o] => Some (ANode (SelectStmt (SelectNode_make c t w o)))
          | _ => None end);
  mkProd n_fieldList [N n_field] (λ a, match a with [AField f] => Some (AFields [f]) | _ => None end);
  mkProd n_fieldList [N n_fieldList; comma; N n_field]
    (λ a, match a with [AFields l; _; AField f] => Some (AFields (l ++ [f])) | _ => None end);
  mkProd n_colNameList [N n_colName] (λ a, match a with [AStr s] => Some (AStrs [s]) | _ => None end);
  mkProd n_colNameList [N n_colNameList; comma; N n_colName]
    (λ a, match a with [AStrs l; _; AStr s] => Some (AStrs (l ++ [s])) | _ => None end);
  mkProd n_field [N n_colName; N n_type]
    (λ a, match a with [AStr s; AType t] => Some (AField (mkColDef s t)) | _ => None end);
  mkProd n_type [T INT] (const (AType (mkTypeLen SV_TYPE_INT 4)));
  mkProd n_type [T CHAR; lparen; T VALUE_INT; rparen]
    (λ a, match a with [_; _; AInt n; _] => Some (AType (mkTypeLen SV_TYPE_STRING n)) | _ => None end);
  mkProd n_type [T FLOAT] (const (AType (mkTypeLen SV_TYPE_FLOAT 4)));
  mkProd n_valueList [N n_value] (λ a, match a with [AVal v] => Some (AVals [v]) | _ => None end);
  mkProd n_valueList [N n_valueList; comma; N n_value]
    (λ a, match a with [AVals l; _; AVal v] => Some (AVals (l ++ [v])) | _ => None end);
  mkProd n_value [T VALUE_INT] (λ a, match a with [AInt n] => Some (AVal (IntLit n)) | _ => None end);
  mkProd n_value [T VALUE_FLOAT] (λ a, match a with [AFloat f] => Some (AVal (FloatLit f)) | _ => None end);
  mkProd n_value [T VALUE_STRING] (λ a, match a with [AStr s] => Some (AVal (StringLit s)) | _ => None end);
  mkProd n_condition [N n_col; N n_op; N n_expr]
    (λ a, match a with [ACol c; AOp o; AExpr e] => Some (ACond (mkBinaryExpr c o e)) | _ => None end);
  mkProd n_optWhereClause [] (const (AConds []));
  mkProd n_optWhereClause [T WHERE; N n_whereClause]
    (λ a, match a with [_; AConds l] => Some (AConds l) | _ => None end);
  mkProd n_whereClause [N n_condition] (λ a, match a with [ACond c] => Some (AConds [c]) | _ => None end);
  mkProd n_whereClause [N n_whereClause; T AND; N n_condition]
    (λ a, match a with [AConds l; _; ACond c] => Some (AConds (l ++ [c])) | _ => None end);
  mkProd n_col [N n_tbName; dot; N n_colName]
    (λ a, match a with [AStr t; _; AStr c] => Some (ACol (mkCol t c)) | _ => None end);
  mkProd n_col [N n_colName] (λ a, match a with [AStr c] => Some (ACol (mkCol "" c)) | _ => None end);
  mkProd n_colList [N n_col] (λ a, match a with [ACol c] => Some (ACols [c]) | _ => None end);
  mkProd n_colList [N n_colList; comma; N n_col]
    (λ a, match a with [ACols l; _; ACol c] => Some (ACols (l ++ [c])) | _ => None end);
  mkProd n_op [T 61] (const (AOp SV_OP_EQ));
  mkProd n_op [T 60] (const (AOp SV_OP_LT));
  mkProd n_op [T 62] (const (AOp SV_OP_GT));
  mkProd n_op [T NEQ] (const (AOp SV_OP_NE));
  mkProd n_op [T LEQ] (const (AOp SV_OP_LE));
  mkProd n_op [T GEQ] (const (AOp SV_OP_GE));
  mkProd n_expr [N n_value] (λ a, match a with [AVal v] => Some (AExpr (EValue v)) | _ => None end);
  mkProd n_expr [N n_col] (λ a, match a with [ACol c] => Some (AExpr (ECol c)) | _ => None end);
  mkProd n_setClauses [N n_setClause] (λ a, match a with [ASet s] => Some (ASets [s]) | _ => None end);
  mkProd n_setClauses [N n_setClauses; comma; N n_setClause]
    (λ a, match a with [ASets l; _; ASet s] => Some (ASets (l ++ [s])) | _ => None end);
  mkProd n_setClause [N n_colName; T 61; N n_value]
    (λ a, match a with [AStr s; _; AVal v] => Some (ASet (mkSetClause s v)) | _ => None end);
  mkProd n_selector [T 42] (const (ACols []));
  mkProd n_selector [N n_colList] copy;
  mkProd n_tableList [N n_tbName] (λ a, match a with [AStr t] => Some (AStrs [t]) | _ => None end);
  mkProd n_tableList [N n_tableList; comma; N n_tbName]
    (λ a, match a with [AStrs l; _; AStr t] => Some (AStrs (l ++ [t])) | _ => None end);
  mkProd n_tableList [N n_tableList; T JOIN; N n_tbName]
    (λ a, match a with [AStrs l; _; AStr t] => Some (AStrs (l ++ [t])) | _ => None end);
  mkProd n_opt_order_clause [T ORDER; T BY; N n_order_clause]
    (λ a, match a with [_; _; AOrder o] => Some (AOrder o) | _ => None end);
  mkProd n_opt_order_clause [] (const (AOrder None));
  mkProd n_order_clause [N n_col; N n_opt_asc_desc]
    (λ a, match a with [ACol c; ADir d] => Some (AOrder (Some (mkOrderBy c d))) | _ => None end);
  mkProd n_opt_asc_desc [T ASC] (const (ADir OrderBy_ASC));
  mkProd n_opt_asc_desc [T DESC] (const (ADir OrderBy_DESC));
  mkProd n_opt_asc_desc [] (const (ADir OrderBy_DEFAULT));
  mkProd n_tbName [T IDENTIFIER] copy;
  mkProd n_colName [T IDENTIFIER] copy].

(** Production [r] of bison. *)
Definition production_of (r : Z) : option production := if 2 <=? r then productions !! Z.to_nat (r - 2) else None.

(** ** Derivations

    A token comes with its text, which determines its attribute. *)
Definition tok : Type := Z * list byte.

Section derivations.
Context (atof : string → Z).

Definition tok_attr (k : tok) : attr :=
  if k.1 =? IDENTIFIER then AStr (bytes_str k.2)
  else if k.1 =? VALUE_STRING then AStr (bytes_str (unquote k.2))
  else if k.1 =? VALUE_INT then AInt (atoi (bytes_str k.2))
  else if k.1 =? VALUE_FLOAT then AFloat (atof (bytes_str k.2))
  else ANone.

(** [derives X w a]: the symbol derives the tokens, with this attribute. *)
Inductive derives : symbol → list tok → attr → Prop :=
  | d_tok k : derives (T k.1) [k] (tok_attr k)
  | d_prod p w l a : p ∈ productions → derives_all (p_rhs p) w l → p_act p l = Some a → derives (N (p_lhs p)) w a
with derives_all : list symbol → list tok → list attr → Prop :=
  | d_nil : derives_all [] [] []
  | d_cons X Xs w1 w2 a l : derives X w1 a → derives_all Xs w2 l → derives_all (X :: Xs) (w1 ++ w2) (a :: l).
End derivations.

Scheme derives_mut := Induction for derives Sort Prop
  with derives_all_mut := Induction for derives_all Sort Prop.
Combined Scheme derives_ind2 from derives_mut, derives_all_mut.

(** ** The types of the attributes *)

Definition attr_ok (X : symbol) (a : attr) : Prop :=
  match X with
  | T t =>
      if t =? IDENTIFIER then ∃ s, a = AStr s
      else if t =? VALUE_STRING then ∃ s, a = AStr s
      else if t =? VALUE_INT then ∃ z, a = AInt z
      else if t =? VALUE_FLOAT then ∃ z, a = AFloat z
      else a = ANone
  | N n =>
      match n with
      | n_start => ∃ t, a = ATree t
      | n_stmt | n_txnStmt | n_dbStmt | n_ddl | n_dml => ∃ t, a = ANode t
      | n_fieldList => ∃ l, a = AFields l
      | n_colNameList | n_tableList => ∃ l, a = AStrs l
      | n_field => ∃ f, a = AField f
      | n_type => ∃ t, a = AType t
      | n_valueList => ∃ l, a = AVals l
      | n_value => ∃ v, a = AVal v
      | n_condition => ∃ c, a = ACond c
      | n_optWhereClause | n_whereClause => ∃ l, a = AConds l
      | n_col => ∃ c, a = ACol c
      | n_colList | n_selector => ∃ l, a = ACols l
      | n_op => ∃ o, a = AOp o
      | n_expr => ∃ e, a = AExpr e
      | n_setClauses => ∃ l, a = ASets l
      | n_setClause => ∃ s, a = ASet s
      | n_opt_order_clause | n_order_clause => ∃ o, a = AOrder o
      | n_opt_asc_desc => ∃ d, a = ADir d
      | n_tbName | n_colName => ∃ s, a = AStr s
      end
  end.

Lemma tok_attr_ok atof k : attr_ok (T k.1) (tok_attr atof k).
Proof. unfold attr_ok, tok_attr. repeat case_match; eauto. Qed.
