(* ===== verification/Lexing.v ===== *)
(** * The token stream of a text

    What [lex.l] says [yylex] returns: the rules apply to the longest text again and again, until
    one returns a token.  [reads] is this relation; [yylex] computes it. *)

From S2P Require Import Prelude Text Values SemVal ParserTables Scanner Lexical LexicalProps Grammar.
From stdpp Require Import options.
Import sem.

#[local] Opaque sim.

Section lexing.
Context (atof : string → Z).

Inductive reads : Scanner → tok → Scanner → Prop :=
  | reads_eof st : reads (mkScanner st []) (T_EOF, []) (mkScanner st [])
  | reads_token st w r n t set :
      longest_match st w r n → yy_action atof r (take n w) = Return t set →
      reads (mkScanner st w) (t, take n w) (mkScanner st (drop n w))
  | reads_skip st w r n k sc :
      longest_match st w r n → yy_action atof r (take n w) = Skip →
      reads (mkScanner st (drop n w)) k sc → reads (mkScanner st w) k sc
  | reads_begin st w r n st' k sc :
      longest_match st w r n → yy_action atof r (take n w) = Begin st' →
      reads (mkScanner st' (drop n w)) k sc → reads (mkScanner st w) k sc.

(** The member of [yylval] a token sets. *)
Definition tok_set (k : tok) : SemValue → SemValue :=
  if k.1 =? IDENTIFIER then set_sv_str (bytes_str k.2)
  else if k.1 =? VALUE_STRING then set_sv_str (bytes_str (unquote k.2))
  else if k.1 =? VALUE_INT then set_sv_int (atoi (bytes_str k.2))
  else if k.1 =? VALUE_FLOAT then set_sv_float (atof (bytes_str k.2))
  else id.

(** A buffer of [yy_scan_string] and a start condition of [lex.l]. *)
Definition scanner_ok (sc : Scanner) : Prop := start_cond (yy_start sc) ∧ no_nul (yy_rest sc).

Lemma no_nul_drop n w : no_nul w → no_nul (drop n w).
Proof. apply Forall_drop. Qed.

Lemma no_nul_c_str l : no_nul (c_str l).
Proof.
  induction l as [|b l IH]; simpl; [constructor|].
  case_decide as Hb; [constructor|]. constructor; [|done]. by destruct b.
Qed.

Lemma c_str_no_nul l : no_nul l → c_str l = l.
Proof. induction 1 as [|b l Hb Hl IH]; [done|]. simpl. rewrite decide_False by (by intros ->). by rewrite IH. Qed.

Lemma c_str_app_nul l : no_nul l → c_str (l ++ [x00]) = l.
Proof. induction 1 as [|b l Hb Hl IH]; [done|]. simpl. rewrite decide_False by (by intros ->). by rewrite IH. Qed.

Lemma longest_unique st w r n r' n' : longest_match st w r n → longest_match st w r' n' → r = r' ∧ n = n'.
Proof.
  intros (Hn&Hm&Hl&Hr) (Hn'&Hm'&Hl'&Hr').
  assert (n = n') as ->.
  { pose proof (Hl r' n' ltac:(lia) Hm'). pose proof (Hl' r n ltac:(lia) Hm). lia. }
  split; [|done]. pose proof (Hr _ Hm'). pose proof (Hr' _ Hm). lia.
Qed.

(** A text that a rule matches and that nothing can continue is the longest match. *)
Lemma longest_dead st x rest r : start_cond st → x ≠ [] → accepting (advances (rules st) x) = r → r ≠ 0 →
  (∀ b, head rest = Some b → advance b (advances (rules st) x) = []) → longest_match st (x ++ rest) r (length x).
Proof.
  intros Hst Hx Hr Hr0 Hd. destruct (start_sim st Hst) as (_&_&Ho&_).
  destruct (accepting_least 0 (advances (rules st) x)) as [Hh Hle]; [by apply ordered_advances|by rewrite Hr|].
  rewrite Hr in *. unfold longest_match. rewrite take_app_length, length_app. split_and!.
  - destruct x; [done|simpl; lia].
  - lia.
  - by apply has_rules.
  - intros r' m Hm Hr'. destruct (decide (m <= length x)%nat); [done|]. exfalso.
    apply has_rules in Hr'. rewrite take_app_ge, advances_app in Hr' by lia.
    destruct rest as [|b rest]; [simpl in Hm; lia|]. destruct (m - length x)%nat as [|m'] eqn:E; [lia|].
    simpl in Hr'. rewrite (Hd b eq_refl), advances_nil in Hr'. destruct Hr' as (e&He&_). by apply elem_of_nil in He.
  - intros r' Hr'. apply Hle. by apply has_rules in Hr'.
Qed.

(** C13: the tables of the generated scanner are those of [lex.l].  On a text without NUL, in a start
    condition of [lex.l], the automaton of [yylex] (its compressed tables, the last accepting
    state it backs up to, its detour at the end of the buffer) finds rule [r] and length [n]
    if and only if [n] is the length of the longest prefix that some rule matches, as regular
    expressions, and [r] is the first rule that matches it. *)
Theorem yy_scan_is_longest_match st w r n : start_cond st → no_nul w → w ≠ [] →
  yy_scan st w = Some (ScanRule r n) ↔ longest_match st w r n.
Proof.
  intros Hst Hw Hne. destruct (yy_scan_longest st w Hst Hw Hne) as (r1&n1&Hs&Hm&_). split.
  - intros Hs'. congruence.
  - intros Hm'. by destruct (longest_unique _ _ _ _ _ _ Hm Hm') as [<- <-].
Qed.

(** The actions of the rules: each skips, begins a start condition of [lex.l] or returns a token
    and sets the member of [yylval] that belongs to it. *)
Definition action_ok (r : Z) (x : list byte) : Prop :=
  match yy_action atof r x with
  | Skip => True
  | Begin st => start_cond st
  | Return t set => set = tok_set (t, x) ∧ 0 < t ∧ t ≠ YYerror ∧ t ≠ T_EOF
  | Fatal => False
  end.

Lemma rule_action r x : 1 <= r <= 47 → x ≠ [] → no_nul x → action_ok r x.
Proof.
  intros Hr Hx Hnul.
  assert (Hin : r ∈ seqZ 1 47) by (apply elem_of_seqZ; lia). clear Hr.
  destruct x as [|b x]; [done|]. apply Forall_inv in Hnul. pose proof (byte_val_range b) as Hb.
  assert (H41 : action_ok 41 (b :: x)).
  { unfold action_ok. simpl. split_and!; try (unfold YYerror, T_EOF; lia).
    unfold tok_set, IDENTIFIER, VALUE_STRING, VALUE_INT, VALUE_FLOAT. simpl.
    by rewrite !(proj2 (Z.eqb_neq (byte_val b) _)) by lia. }
  change (seqZ 1 47) with (seqZ 1 40 ++ 41 :: seqZ 42 6) in Hin.
  apply elem_of_app in Hin as [Hin|[->|Hin]%elem_of_cons]; [|done|];
    vm_compute in Hin; repeat (apply elem_of_cons in Hin as [->|Hin]); try by apply elem_of_nil in Hin.
  all: unfold action_ok; simpl; try done; (by left) || (by right) || idtac.
  all: by split_and!.
Qed.

Lemma yylex_loop_reads fuel v sc : scanner_ok sc → (length (yy_rest sc) < fuel)%nat → ∃ t x sc',
  yylex_loop atof fuel v sc = Some (t, tok_set (t, x) v, sc') ∧ reads sc (t, x) sc' ∧ scanner_ok sc' ∧
  0 < t ∧ t ≠ YYerror ∧
  (t = T_EOF ∧ yy_rest sc' = [] ∨ (length (yy_rest sc') < length (yy_rest sc))%nat).
Proof.
  revert sc. induction fuel as [|fuel IH]; intros [st w] [Hst Hw] Hl; simpl in *; [lia|].
  destruct (decide (w = [])) as [->|Hne].
  { assert (He : yy_scan st [] = Some ScanEof) by (destruct Hst as [-> | ->]; reflexivity).
    rewrite He. cbn. exists T_EOF, [], (mkScanner st []).
    split_and!; [done|constructor|split; [done|constructor]|done|done|by left]. }
  destruct (yy_scan_longest st w Hst Hw Hne) as (r&n&Hs&Hm&Hr). rewrite Hs. cbn.
  assert (Hn : (0 < n <= length w)%nat) by apply Hm.
  assert (Hx : action_ok r (take n w)).
  { apply rule_action; [done| |by apply Forall_take].
    intros E. apply (f_equal length) in E. rewrite length_take in E. simpl in E. lia. }
  unfold action_ok in Hx.
  destruct (yy_action atof r (take n w)) as [|st'|t set|] eqn:Ea; [| | |done].
  - destruct (IH (mkScanner st (drop n w))) as (t&x&sc'&He&Hrd&Hok&?&?&Hp);
      [split; [done|by apply no_nul_drop]|simpl; rewrite length_drop; lia|].
    exists t, x, sc'. split_and!; eauto using reads_skip.
    simpl in Hp. rewrite length_drop in Hp. destruct Hp as [?|?]; [by left|right; lia].
  - destruct (IH (mkScanner st' (drop n w))) as (t&x&sc'&He&Hrd&Hok&?&?&Hp);
      [split; [done|by apply no_nul_drop]|simpl; rewrite length_drop; lia|].
    exists t, x, sc'. split_and!; eauto using reads_begin.
    simpl in Hp. rewrite length_drop in Hp. destruct Hp as [?|?]; [by left|right; lia].
  - destruct Hx as (->&?&?&?). exists t, (take n w), (mkScanner st (drop n w)).
    split_and!; [done|by econstructor|split; [done|by apply no_nul_drop]|done|done|].
    right. simpl. rewrite length_drop. lia.
Qed.

Lemma yylex_reads v sc : scanner_ok sc → ∃ t x sc',
  yylex atof v sc = Some (t, tok_set (t, x) v, sc') ∧ reads sc (t, x) sc' ∧ scanner_ok sc' ∧
  0 < t ∧ t ≠ YYerror ∧
  (t = T_EOF ∧ yy_rest sc' = [] ∨ (length (yy_rest sc') < length (yy_rest sc))%nat).
Proof. intros Hok. apply yylex_loop_reads; [done|lia]. Qed.

(** A text is read in one way. *)
Lemma longest_nonempty st r n : ¬ longest_match st [] r n.
Proof. intros ([? ?]&_). simpl in *. lia. Qed.

Lemma reads_unique sc k sc' : reads sc k sc' → ∀ k2 sc2, reads sc k2 sc2 → k = k2 ∧ sc' = sc2.
Proof.
  assert (Hlu : ∀ st w r n r' n', longest_match st w r n → longest_match st w r' n' → r = r' ∧ n = n')
    by apply longest_unique.
  induction 1 as [st|st w r n t set Hm Ha|st w r n k sc Hm Ha Hr IH|st w r n st' k sc Hm Ha Hr IH];
    intros k2 sc2 H2; inversion H2 as [|? ? r2 n2 ? ? Hm2 Ha2|? ? r2 n2 ? ? Hm2 Ha2 Hr2|? ? r2 n2 ? ? ? Hm2 Ha2 Hr2];
    subst; try (by exfalso; eapply longest_nonempty); try done;
    destruct (longest_unique _ _ _ _ _ _ Hm Hm2) as [<- <-]; rewrite Ha in Ha2; try done.
  - by injection Ha2 as -> ->.
  - by apply IH.
  - injection Ha2 as <-. by apply IH.
Qed.
End lexing.

Definition a_comment : list byte := str_bytes "/* a */ x".

Lemma yy_scan_is_longest_match_witness :
  longest_match INITIAL a_comment 1 2 ∧ longest_match STATE_COMMENT (drop 5 a_comment) 2 2.
Proof.
  split; (apply yy_scan_is_longest_match; [unfold start_cond; tauto|repeat constructor; vm_compute; discriminate|
    vm_compute; discriminate|vm_compute; reflexivity]).
Defined.
