(* ===== verification/Yacc.v ===== *)
(** * The parser

    [yyparse] of [parser/yacc.tab.cpp], the LALR parser bison made of [parser/yacc.y]: the state
    and value stacks, the tables, the actions, the recovery from errors.  The arrays [yyssa] and
    [yyvsa] have [YYINITDEPTH] slots and are never enlarged ([YYSTACK_RELOCATE] is not defined
    for a [SemValue]).  The value stack is kept as the slots up to [yyvsp], the top first, and
    the slots above it, the nearest first: a slot keeps its value after it was popped, and the
    action of an empty production starts from the slot above the top.  Locations and messages are
    left out. *)

From S2P Require Import Prelude Values Ast SemVal ParserTables Scanner.
From stdpp Require Import options.
Import ast sem.

Definition YYINITDEPTH := 200.
Definition YYFINAL := 39.
Definition YYLAST := 112.
Definition YYNTOKENS := 51.
Definition YYMAXUTOK := 296.
Definition YYPACT_NINF := -75.
Definition YYSYMBOL_YYEOF := 0.
Definition YYSYMBOL_YYerror := 1.
Definition YYSYMBOL_YYUNDEF := 2.

Definition YYTRANSLATE (c : Z) : option Z :=
  if (0 <=? c) && (c <=? YYMAXUTOK) then at_ yytranslate c else Some YYSYMBOL_YYUNDEF.

(** ** The actions

    [vs !! k] is [yyvsp[-k]].  An action that would put a null pointer into a vector or under a
    node that keeps it has no counterpart in the model: [None]. *)

Inductive Reduced := Accept (tree : option TreeNode) | Val (v : SemValue).

Definition yy_user_action (r : Z) (yyval : SemValue) (vs : list SemValue) : option Reduced :=
  match r with
  | 2 => v ← vs !! 1%nat; Some (Accept (sv_node v))
  | 3 => Some (Accept (Some Help))
  | 4 | 5 => Some (Accept None)
  | 10 => Some (Val (set_sv_node (Some TxnBegin) yyval))
  | 11 => Some (Val (set_sv_node (Some TxnCommit) yyval))
  | 12 => Some (Val (set_sv_node (Some TxnAbort) yyval))
  | 13 => Some (Val (set_sv_node (Some TxnRollback) yyval))
  | 14 => Some (Val (set_sv_node (Some ShowTables) yyval))
  | 15 =>
      t ← vs !! 3%nat; l ← vs !! 1%nat;
      Some (Val (set_sv_node (Some (CreateTable (sv_str t) (sv_fields l))) yyval))
  | 16 => t ← vs !! 0%nat; Some (Val (set_sv_node (Some (DropTable (sv_str t))) yyval))
  | 17 => t ← vs !! 0%nat; Some (Val (set_sv_node (Some (DescTable (sv_str t))) yyval))
  | 18 =>
      t ← vs !! 3%nat; l ← vs !! 1%nat;
      Some (Val (set_sv_node (Some (CreateIndex (sv_str t) (sv_strs l))) yyval))
  | 19 =>
      t ← vs !! 3%nat; l ← vs !! 1%nat;
      Some (Val (set_sv_node (Some (DropIndex (sv_str t) (sv_strs l))) yyval))
  | 20 =>
      t ← vs !! 4%nat; l ← vs !! 1%nat;
      Some (Val (set_sv_node (Some (InsertStmt (sv_str t) (sv_vals l))) yyval))
  | 21 =>
      t ← vs !! 1%nat; w ← vs !! 0%nat;
      Some (Val (set_sv_node (Some (DeleteStmt (sv_str t) (sv_conds w))) yyval))
  | 22 =>
      t ← vs !! 3%nat; s ← vs !! 1%nat; w ← vs !! 0%nat;
      Some (Val (set_sv_node (Some (UpdateStmt (sv_str t) (sv_set_clauses s) (sv_conds w))) yyval))
  | 23 =>
      c ← vs !! 4%nat; t ← vs !! 2%nat; w ← vs !! 1%nat; o ← vs !! 0%nat;
      Some (Val (set_sv_node (Some (SelectStmt (SelectNode_make (sv_cols c) (sv_strs t) (sv_conds w) (sv_orderby o)))) yyval))
  | 24 => x ← vs !! 0%nat; x ← sv_field x; Some (Val (set_sv_fields [x] yyval))
  | 25 => x ← vs !! 0%nat; x ← sv_field x; Some (Val (set_sv_fields (sv_fields yyval ++ [x]) yyval))
  | 26 => x ← vs !! 0%nat; Some (Val (set_sv_strs [sv_str x] yyval))
  | 27 => x ← vs !! 0%nat; Some (Val (set_sv_strs (sv_strs yyval ++ [sv_str x]) yyval))
  | 28 =>
      c ← vs !! 1%nat; t ← vs !! 0%nat;
      t ← sv_type_len t; Some (Val (set_sv_field (Some (mkColDef (sv_str c) t)) yyval))
  | 29 => Some (Val (set_sv_type_len (Some (mkTypeLen SV_TYPE_INT 4)) yyval))
  | 30 => n ← vs !! 1%nat; Some (Val (set_sv_type_len (Some (mkTypeLen SV_TYPE_STRING (sv_int n))) yyval))
  | 31 => Some (Val (set_sv_type_len (Some (mkTypeLen SV_TYPE_FLOAT 4)) yyval))
  | 32 => x ← vs !! 0%nat; x ← sv_val x; Some (Val (set_sv_vals [x] yyval))
  | 33 => x ← vs !! 0%nat; x ← sv_val x; Some (Val (set_sv_vals (sv_vals yyval ++ [x]) yyval))
  | 34 => x ← vs !! 0%nat; Some (Val (set_sv_val (Some (IntLit (sv_int x))) yyval))
  | 35 => x ← vs !! 0%nat; Some (Val (set_sv_val (Some (FloatLit (sv_float x))) yyval))
  | 36 => x ← vs !! 0%nat; Some (Val (set_sv_val (Some (StringLit (sv_str x))) yyval))
  | 37 =>
      c ← vs !! 2%nat; o ← vs !! 1%nat; e ← vs !! 0%nat;
      c ← sv_col c; e ← sv_expr e;
      Some (Val (set_sv_cond (Some (mkBinaryExpr c (sv_comp_op o) e)) yyval))
  | 39 => w ← vs !! 0%nat; Some (Val (set_sv_conds (sv_conds w) yyval))
  | 40 => x ← vs !! 0%nat; x ← sv_cond x; Some (Val (set_sv_conds [x] yyval))
  | 41 => x ← vs !! 0%nat; x ← sv_cond x; Some (Val (set_sv_conds (sv_conds yyval ++ [x]) yyval))
  | 42 => t ← vs !! 2%nat; c ← vs !! 0%nat; Some (Val (set_sv_col (Some (mkCol (sv_str t) (sv_str c))) yyval))
  | 43 => c ← vs !! 0%nat; Some (Val (set_sv_col (Some (mkCol "" (sv_str c))) yyval))
  | 44 => x ← vs !! 0%nat; x ← sv_col x; Some (Val (set_sv_cols [x] yyval))
  | 45 => x ← vs !! 0%nat; x ← sv_col x; Some (Val (set_sv_cols (sv_cols yyval ++ [x]) yyval))
  | 46 => Some (Val (set_sv_comp_op SV_OP_EQ yyval))
  | 47 => Some (Val (set_sv_comp_op SV_OP_LT yyval))
  | 48 => Some (Val (set_sv_comp_op SV_OP_GT yyval))
  | 49 => Some (Val (set_sv_comp_op SV_OP_NE yyval))
  | 50 => Some (Val (set_sv_comp_op SV_OP_LE yyval))
  | 51 => Some (Val (set_sv_comp_op SV_OP_GE yyval))
  | 52 => x ← vs !! 0%nat; Some (Val (set_sv_expr (EValue <$> sv_val x) yyval))
  | 53 => x ← vs !! 0%nat; Some (Val (set_sv_expr (ECol <$> sv_col x) yyval))
  | 54 => x ← vs !! 0%nat; x ← sv_set_clause x; Some (Val (set_sv_set_clauses [x] yyval))
  | 55 =>
      x ← vs !! 0%nat;
      x ← sv_set_clause x; Some (Val (set_sv_set_clauses (sv_set_clauses yyval ++ [x]) yyval))
  | 56 =>
      c ← vs !! 2%nat; v ← vs !! 0%nat;
      v ← sv_val v; Some (Val (set_sv_set_clause (Some (mkSetClause (sv_str c) v)) yyval))
  | 57 => Some (Val (set_sv_cols [] yyval))
  | 59 => x ← vs !! 0%nat; Some (Val (set_sv_strs [sv_str x] yyval))
  | 60 => x ← vs !! 0%nat; Some (Val (set_sv_strs (sv_strs yyval ++ [sv_str x]) yyval))
  | 61 => x ← vs !! 0%nat; Some (Val (set_sv_strs (sv_strs yyval ++ [sv_str x]) yyval))
  | 62 => o ← vs !! 0%nat; Some (Val (set_sv_orderby (sv_orderby o) yyval))
  | 64 =>
      c ← vs !! 1%nat; d ← vs !! 0%nat;
      c ← sv_col c; Some (Val (set_sv_orderby (Some (mkOrderBy c (sv_orderby_dir d))) yyval))
  | 65 => Some (Val (set_sv_orderby_dir OrderBy_ASC yyval))
  | 66 => Some (Val (set_sv_orderby_dir OrderBy_DESC yyval))
  | 67 => Some (Val (set_sv_orderby_dir OrderBy_DEFAULT yyval))
  | _ => Some (Val yyval)
  end.

(** ** The driver *)

Record Parser := mkParser {
  yyss : list Z;              (** states, the top first *)
  yyvs : list SemValue;       (** values, the top first *)
  yyabove : list SemValue;    (** the slots above the top *)
  yychar : option Z;          (** the lookahead; [None] is [YYEMPTY] *)
  yylval : SemValue;
  yyerrstatus : Z;
  yyscanner : Scanner;
  parse_tree : option TreeNode;
}.

Inductive PStep := Next (p : Parser) | Done (yyresult : Z) (p : Parser).

(** [*++yyvsp = v; *++yyssp = s], into a slot of the array. *)
Definition push (s : Z) (v : SemValue) (p : Parser) : option Parser :=
  match yyabove p with
  | _ :: above =>
      Some (mkParser (s :: yyss p) (v :: yyvs p) above (yychar p) (yylval p) (yyerrstatus p) (yyscanner p) (parse_tree p))
  | [] => None
  end.

Definition YYPOPSTACK (n : nat) (p : Parser) : option Parser :=
  if (n <=? length (yyvs p))%nat
  then Some (mkParser (drop n (yyss p)) (drop n (yyvs p)) (reverse (take n (yyvs p)) ++ yyabove p)
                      (yychar p) (yylval p) (yyerrstatus p) (yyscanner p) (parse_tree p))
  else None.

Definition set_lookahead (c : option Z) (v : SemValue) (sc : Scanner) (p : Parser) : Parser :=
  mkParser (yyss p) (yyvs p) (yyabove p) c v (yyerrstatus p) sc (parse_tree p).

Definition set_errstatus (e : Z) (p : Parser) : Parser :=
  mkParser (yyss p) (yyvs p) (yyabove p) (yychar p) (yylval p) e (yyscanner p) (parse_tree p).

Definition set_tree (t : option TreeNode) (p : Parser) : Parser :=
  mkParser (yyss p) (yyvs p) (yyabove p) (yychar p) (yylval p) (yyerrstatus p) (yyscanner p) t.

(** What the tables say: [yydefact], and [yytable] behind the check of [yycheck].  No entry of
    [yytable] is an error ([yytable_value_is_error] is 0). *)
Inductive LrAction := Shift (s : Z) | Reduce (r : Z) | SyntaxError.

#[global] Instance LrAction_eq_dec : EqDecision LrAction.
Proof. solve_decision. Defined.

Definition yydefault (s : Z) : option LrAction :=
  n ← at_ yydefact s;
  Some (if n =? 0 then SyntaxError else Reduce n).

Definition yy_decide (s yyn token : Z) : option LrAction :=
  let n := yyn + token in
  if (n <? 0) || (YYLAST <? n) then yydefault s
  else
    c ← at_ yycheck n;
    if c =? token then
      t ← at_ yytable n;
      Some (if t <=? 0 then Reduce (- t) else Shift t)
    else yydefault s.

(** The state after a reduction to the symbol [lhs] above the state [s]. *)
Definition yy_goto (lhs s : Z) : option Z :=
  let yylhs := lhs - YYNTOKENS in
  g ← at_ yypgoto yylhs;
  let yyi := g + s in
  if (0 <=? yyi) && (yyi <=? YYLAST) then
    c ← at_ yycheck yyi;
    if c =? s then at_ yytable yyi else at_ yydefgoto yylhs
  else at_ yydefgoto yylhs.

(** [yyreduce].  Before the action [yyval] is [yyvsp[1 - yylen]]: the first symbol's value or,
    for an empty production, whatever the slot above the top holds. *)
Definition yyreduce (r : Z) (p : Parser) : option PStep :=
  len ← at_ yyr2 r;
  let yylen := Z.to_nat len in
  yyval ← (if (yylen =? 0)%nat then yyabove p !! 0%nat else yyvs p !! (yylen - 1)%nat);
  a ← yy_user_action r yyval (yyvs p);
  match a with
  | Accept t => Some (Done 0 (set_tree t p))
  | Val v =>
      p ← YYPOPSTACK yylen p;
      lhs ← at_ yyr1 r;
      top ← head (yyss p);
      s ← yy_goto lhs top;
      Next <$> push s v p
  end.

(** The loop of [yyerrlab1]: the nearest state that shifts the error token, with the number of
    states popped. *)
Definition shifts_error (s : Z) : option (option Z) :=
  yyn ← at_ yypact s;
  if yyn =? YYPACT_NINF then Some None
  else
    let n := yyn + YYSYMBOL_YYerror in
    if (0 <=? n) && (n <=? YYLAST) then
      c ← at_ yycheck n;
      t ← at_ yytable n;
      Some (if (c =? YYSYMBOL_YYerror) && (0 <? t) then Some t else None)
    else Some None.

Fixpoint find_error (ss : list Z) (n : nat) : option (option (Z * nat)) :=
  match ss with
  | [] => Some None
  | s :: ss =>
      r ← shifts_error s;
      match r with
      | Some t => Some (Some (t, n))
      | None => find_error ss (S n)
      end
  end.

Definition yyerrlab1 (p : Parser) : option PStep :=
  let p := set_errstatus 3 p in
  r ← find_error (yyss p) 0;
  match r with
  | None => Some (Done 1 p)
  | Some (t, n) => p ← YYPOPSTACK n p; Next <$> push t (yylval p) p
  end.

Definition yyerrlab (p : Parser) : option PStep :=
  if yyerrstatus p =? 3 then
    match yychar p with
    | None => yyerrlab1 p
    | Some c => if c =? YYEOF then Some (Done 1 p) else yyerrlab1 (set_lookahead None (yylval p) (yyscanner p) p)
    end
  else yyerrlab1 p.

Definition perform (d : LrAction) (p : Parser) : option PStep :=
  match d with
  | Shift s =>
      let p := if yyerrstatus p =? 0 then p else set_errstatus (yyerrstatus p - 1) p in
      p ← push s (yylval p) p;
      Some (Next (set_lookahead None (yylval p) (yyscanner p) p))
  | Reduce r => yyreduce r p
  | SyntaxError => yyerrlab p
  end.

Section parser.
Context (atof : string → Z).

(** A lookahead, read from the scanner when there is none. *)
Definition yy_lookahead (p : Parser) : option (Z * Parser) :=
  match yychar p with
  | Some c => Some (c, p)
  | None =>
      '(c, v, sc) ← yylex atof (yylval p) (yyscanner p);
      Some (c, set_lookahead (Some c) v sc p)
  end.

(** From [yysetstate] to the next one. *)
Definition yystep (p : Parser) : option PStep :=
  s ← head (yyss p);
  if YYINITDEPTH <=? Z.of_nat (length (yyss p)) then Some (Done 2 p)
  else if s =? YYFINAL then Some (Done 0 p)
  else
    yyn ← at_ yypact s;
    if yyn =? YYPACT_NINF then d ← yydefault s; perform d p
    else
      '(c, p) ← yy_lookahead p;
      if c <=? YYEOF then
        d ← yy_decide s yyn YYSYMBOL_YYEOF;
        perform d (set_lookahead (Some YYEOF) (yylval p) (yyscanner p) p)
      else if c =? YYerror then yyerrlab1 (set_lookahead (Some YYUNDEF) (yylval p) (yyscanner p) p)
      else
        token ← YYTRANSLATE c;
        d ← yy_decide s yyn token;
        perform d p.

Fixpoint yyloop (fuel : nat) (p : Parser) : option (Z * Parser) :=
  match fuel with
  | O => None
  | S fuel =>
      r ← yystep p;
      match r with
      | Next p => yyloop fuel p
      | Done res p => Some (res, p)
      end
  end.

(** The parse starts with the bottom slot on the stacks; [slots] is what the 200 slots of the
    array and [yylval] hold before.  At most 16 steps pass between two tokens. *)
Definition yyparse_init (slot : SemValue) (sc : Scanner) (tree : option TreeNode) : Parser :=
  mkParser [0] [slot] (replicate 199 slot) None slot 0 sc tree.

Definition yyparse (slot : SemValue) (sc : Scanner) (tree : option TreeNode) : option (Z * Parser) :=
  yyloop (16 * (length (yy_rest sc) + 2)) (yyparse_init slot sc tree).
End parser.
