(* ===== verification/Automaton.v ===== *)
(** * The LALR automaton, checked

    The tables of [yacc.tab.cpp] as a machine on stacks of states and attributes, which does what
    [yyparse] does to its stacks apart from reading tokens and storing values.  Three finite
    objects are computed from the tables and the grammar and checked by evaluation:
    the stacks of states that occur ([stacks]; the grammar is left-recursive, so there are
    finitely many), the first tokens of a symbol ([first_tab]), and the LR(1) items of a state
    ([items]). *)

From S2P Require Import Prelude Values Ast ParserTables Scanner Grammar Yacc.
From stdpp Require Import options.
Import ast.

(** ** Symbols and their numbers *)

Definition nt_number (n : nonterm) : Z :=
  match n with
  | n_start => 52 | n_stmt => 53 | n_txnStmt => 54 | n_dbStmt => 55 | n_ddl => 56 | n_dml => 57 | n_fieldList => 58
  | n_colNameList => 59 | n_field => 60 | n_type => 61 | n_valueList => 62 | n_value => 63 | n_condition => 64
  | n_optWhereClause => 65 | n_whereClause => 66 | n_col => 67 | n_colList => 68 | n_op => 69 | n_expr => 70
  | n_setClauses => 71 | n_setClause => 72 | n_selector => 73 | n_tableList => 74 | n_opt_order_clause => 75
  | n_order_clause => 76 | n_opt_asc_desc => 77 | n_tbName => 78 | n_colName => 79
  end.

(** [yysymbol_kind_t] of a token of the scanner. *)
Definition token_kind (t : Z) : Z :=
  match YYTRANSLATE t with Some k => k | None => YYSYMBOL_YYUNDEF end.

Definition sym_number (X : symbol) : Z := match X with T t => token_kind t | N n => nt_number n end.

(** ** Moves on the stack of states *)

Inductive Ctl := CShift (s : Z) | CReduce (r len s : Z) | CAccept (r : Z) | CError.

(** The move on a lookahead of kind [token]; states that do not look use their default. *)
Definition decide_on (s token : Z) : option LrAction :=
  yyn ← at_ yypact s;
  if yyn =? YYPACT_NINF then yydefault s else yy_decide s yyn token.

Definition ctl (ss : list Z) (token : Z) : option Ctl :=
  s ← head ss;
  d ← decide_on s token;
  match d with
  | Shift s => Some (CShift s)
  | SyntaxError => Some CError
  | Reduce r =>
      if r <=? 5 then Some (CAccept r)
      else
        len ← at_ yyr2 r;
        lhs ← at_ yyr1 r;
        top ← head (drop (Z.to_nat len) ss);
        s ← yy_goto lhs top;
        Some (CReduce r len s)
  end.

Definition ctl_next (c : Ctl) (ss : list Z) : option (list Z) :=
  match c with
  | CShift s => Some (s :: ss)
  | CReduce _ len s => Some (s :: drop (Z.to_nat len) ss)
  | _ => None
  end.

Definition kinds : list Z := seqZ 0 YYNTOKENS.

Fixpoint list_eqb (l1 l2 : list Z) : bool :=
  match l1, l2 with
  | [], [] => true
  | x :: l1, y :: l2 => if x =? y then list_eqb l1 l2 else false
  | _, _ => false
  end.

Definition mem_stack (ss : list Z) (l : list (list Z)) : bool := existsb (list_eqb ss) l.

Fixpoint reach (fuel : nat) (todo seen : list (list Z)) : list (list Z) :=
  match fuel, todo with
  | S fuel, ss :: todo =>
      if mem_stack ss seen then reach fuel todo seen
      else reach fuel (omap (λ k, c ← ctl ss k; ctl_next c ss) kinds ++ todo) (ss :: seen)
  | _, _ => seen
  end.

Definition stacks : list (list Z) := Eval vm_compute in reverse (reach (N.to_nat 100000) [[0]] []).

(** ** What is checked of a stack *)

(** The topmost states were reached by the symbols of the production. *)
Definition rhs_ok (r : Z) (ss : list Z) : bool :=
  match production_of r with
  | Some p =>
      bool_decide (at_ yyr2 r = Some (Z.of_nat (length (p_rhs p)))) &&
      bool_decide (at_ yyr1 r = Some (nt_number (p_lhs p))) &&
      bool_decide ((λ s, at_ yystos s) <$> take (length (p_rhs p)) ss = (λ X, Some (sym_number X)) <$> reverse (p_rhs p))
  | None => false
  end.

(** A lookahead causes less than [n] reductions; checked of the stacks after a shift. *)
Fixpoint settles (n : nat) (ss : list Z) (k : Z) : bool :=
  match n with
  | O => false
  | S n =>
      match ctl ss k with
      | Some (CReduce r len s) => settles n (s :: drop (Z.to_nat len) ss) k
      | Some _ => true
      | None => false
      end
  end.

Definition move_ok (ss : list Z) (k : Z) : bool :=
  match ctl ss k with
  | Some (CShift s) => mem_stack (s :: ss) stacks && bool_decide (at_ yystos s = Some k) && (3 <=? k) && (k <? 51)
  | Some (CReduce r len s) =>
      mem_stack (s :: drop (Z.to_nat len) ss) stacks && rhs_ok r ss && (6 <=? r) &&
      bool_decide (at_ yystos s = at_ yyr1 r)
  | Some (CAccept r) =>
      rhs_ok r ss && (2 <=? r) && bool_decide (Z.of_nat (length ss) = default 0 (at_ yyr2 r) + 1) &&
      bool_decide (head ss ≫= at_ yypact = Some YYPACT_NINF) &&
      (default 60 (head ss ≫= at_ yystos) <? YYNTOKENS)
  | Some CError => true
  | None => false
  end.

(** The lookaheads that make a difference: one stands for all when the state does not look. *)
Definition kinds_of (ss : list Z) : list Z :=
  if bool_decide (head ss ≫= at_ yypact = Some YYPACT_NINF) then [0] else kinds.

Definition stack_ok (ss : list Z) : bool :=
  (length ss <=? 13)%nat && negb (default YYFINAL (head ss) =? YYFINAL) &&
  bool_decide (find_error ss 0 = Some None) &&
  forallb (λ k, move_ok ss k) (kinds_of ss) &&
  (if default 60 (head ss ≫= at_ yystos) <? YYNTOKENS then forallb (settles 12 ss) kinds else true).

(** ** First tokens *)

Definition nullable_nt (n : nonterm) : bool :=
  match n with n_optWhereClause | n_opt_order_clause | n_opt_asc_desc => true | _ => false end.

Definition table_of (tab : list (nonterm * list Z)) (n : nonterm) : list Z :=
  match find (λ x : nonterm * list Z, bool_decide (x.1 = n)) tab with Some x => x.2 | None => [] end.

(** The first tokens of a sequence followed by [la]. *)
Fixpoint first_with (tab : nonterm → list Z) (Xs : list symbol) (la : list Z) : list Z :=
  match Xs with
  | [] => la
  | T t :: _ => [token_kind t]
  | N n :: Xs => tab n ++ if nullable_nt n then first_with tab Xs la else []
  end.

Definition nonterms : list nonterm := Eval vm_compute in remove_dups (p_lhs <$> productions).

Definition first_round (tab : list (nonterm * list Z)) : list (nonterm * list Z) :=
  (λ n, (n, remove_dups (p ← productions;
             if bool_decide (p_lhs p = n) then first_with (table_of tab) (p_rhs p) [] else []))) <$> nonterms.

Definition first_tab : list (nonterm * list Z) := Eval vm_compute in Nat.iter 12 first_round [].

Definition first_seq : list symbol → list Z → list Z := first_with (table_of first_tab).

Definition first_ok (p : production) : bool :=
  forallb (λ k, bool_decide (k ∈ table_of first_tab (p_lhs p))) (first_seq (p_rhs p) []) &&
  implb (forallb (λ X, match X with T _ => false | N n => nullable_nt n end) (p_rhs p)) (nullable_nt (p_lhs p)).

(** ** Items

    An item of a state: the production, the position of the dot, and the kind of a token that
    may follow; [any] where the parser accepts without looking. *)

Definition item : Type := Z * nat * Z.
Definition any : Z := -1.

(** The state after a symbol. *)
Definition next_state (s : Z) (X : symbol) : option Z :=
  match X with
  | T t => match decide_on s (token_kind t) with Some (Shift s) => Some s | _ => None end
  | N n => yy_goto (nt_number n) s
  end.

Definition numbers : list Z := seqZ 2 68.

Definition produce (n : nonterm) : list Z :=
  filter (λ r, p_lhs <$> production_of r = Some n) numbers.

Definition item_next (s : Z) (i : item) : list (Z * item) :=
  let '(r, d, la) := i in
  match production_of r with
  | None => []
  | Some p =>
      match drop d (p_rhs p) with
      | [] => []
      | X :: rest =>
          (match next_state s X with Some s => [(s, (r, S d, la))] | None => [] end) ++
          match X with
          | T _ => []
          | N n => r ← produce n; la ← remove_dups (first_seq rest [la]); [(s, (r, 0%nat, la))]
          end
      end
  end.

Definition has_item (tab : list (list item)) (s : Z) (i : item) : bool :=
  let '(r, d, la) := i in
  existsb (λ j : item, let '(r', d', la') := j in if r =? r' then if (d =? d')%nat then la =? la' else false else false)
    (default [] (tab !! Z.to_nat s)).

Fixpoint gather (fuel : nat) (todo : list (Z * item)) (tab : list (list item)) : list (list item) :=
  match fuel, todo with
  | S fuel, (s, i) :: todo =>
      if has_item tab s i then gather fuel todo tab
      else gather fuel (item_next s i ++ todo) (alter (cons i) (Z.to_nat s) tab)
  | _, _ => tab
  end.

Definition items : list (list item) :=
  Eval vm_compute in
    gather (N.to_nat 1000000) ((λ r, (0, (r, 0%nat, any))) <$> produce n_start) (replicate 127 []).

(** What is checked of an item: its successors are items, the automaton has the transition, and
    at the end of the production it reduces. *)
Definition item_ok (s : Z) (i : item) : bool :=
  let '(r, d, la) := i in
  match production_of r with
  | None => false
  | Some p =>
      forallb (λ x : Z * item, (0 <=? x.1) && has_item items x.1 x.2) (item_next s i) &&
      match drop d (p_rhs p) with
      | [] =>
          bool_decide (at_ yyr2 r = Some (Z.of_nat (length (p_rhs p)))) &&
          bool_decide (at_ yyr1 r = Some (nt_number (p_lhs p))) && (d =? length (p_rhs p))%nat &&
          if la =? any then forallb (λ k, bool_decide (decide_on s k = Some (Reduce r))) kinds
          else bool_decide (decide_on s la = Some (Reduce r))
      | X :: _ => bool_decide (next_state s X ≠ None)
      end &&
      (if r <=? 5 then bool_decide (la = any) && bool_decide (p_lhs p = n_start) else bool_decide (p_lhs p ≠ n_start))
  end.

Definition state_items_ok (x : nat * list item) : bool := forallb (item_ok (Z.of_nat x.1)) x.2.
