(* ===== verification/AutomatonProps.v ===== *)
(** * The automaton and the grammar

    A machine on states and attributes, driven by the tables: what it accepts the grammar derives
    ([parsed]), and what the grammar derives it accepts ([machine_complete]). *)

From S2P Require Import Prelude Values Ast ParserTables Scanner Grammar Yacc Automaton.
From stdpp Require Import options.
Import ast.

#[local] Arguments at_ : simpl never.

(** ** The checks *)

Lemma stacks_checked : forallb stack_ok stacks = true.
Proof. vm_compute. reflexivity. Qed.

Lemma first_checked : forallb first_ok productions = true.
Proof. vm_compute. reflexivity. Qed.

Lemma items_checked : forallb state_items_ok (imap pair items) = true.
Proof. vm_compute. reflexivity. Qed.

#[local] Opaque stacks items first_tab.

Lemma forallb_elem {A} (f : A → bool) l x : forallb f l = true → x ∈ l → f x = true.
Proof. intros H Hx. by apply (proj1 (forallb_forall f l) H), list_elem_of_In. Qed.

Lemma list_eqb_eq l1 l2 : list_eqb l1 l2 = true → l1 = l2.
Proof.
  revert l2. induction l1 as [|x l1 IH]; intros [|y l2]; simpl; try done.
  destruct (Z.eqb_spec x y) as [->|]; [|done]. intros H. by rewrite (IH _ H).
Qed.

Lemma mem_stack_in ss : mem_stack ss stacks = true → ss ∈ stacks.
Proof.
  unfold mem_stack. rewrite existsb_exists. intros (ss'&Hin&->%list_eqb_eq).
  by apply list_elem_of_In.
Qed.

(** ** Stacks of states *)

Definition rhs_spec (r : Z) (ss : list Z) : Prop := ∃ p,
  production_of r = Some p ∧ at_ yyr2 r = Some (Z.of_nat (length (p_rhs p))) ∧
  at_ yyr1 r = Some (nt_number (p_lhs p)) ∧
  (λ s, at_ yystos s) <$> take (length (p_rhs p)) ss = (λ X, Some (sym_number X)) <$> reverse (p_rhs p).

Lemma rhs_ok_spec r ss : rhs_ok r ss = true → rhs_spec r ss.
Proof.
  unfold rhs_ok, rhs_spec. destruct (production_of r) as [p|]; [|done].
  rewrite !andb_true_iff, !bool_decide_eq_true. naive_solver.
Qed.

Definition move_spec (ss : list Z) (k : Z) (c : Ctl) : Prop :=
  match c with
  | CShift s => s :: ss ∈ stacks ∧ at_ yystos s = Some k ∧ 3 <= k < 51
  | CReduce r len s => s :: drop (Z.to_nat len) ss ∈ stacks ∧ rhs_spec r ss ∧ 6 <= r ∧ at_ yystos s = at_ yyr1 r
  | CAccept r =>
      rhs_spec r ss ∧ 2 <= r ∧ Z.of_nat (length ss) = default 0 (at_ yyr2 r) + 1 ∧
      head ss ≫= at_ yypact = Some YYPACT_NINF ∧ default 60 (head ss ≫= at_ yystos) < YYNTOKENS
  | CError => True
  end.

Lemma move_ok_spec ss k : move_ok ss k = true → ∃ c, ctl ss k = Some c ∧ move_spec ss k c.
Proof.
  unfold move_ok. destruct (ctl ss k) as [[s|r len s|r|]|]; try done;
    rewrite ?andb_true_iff, ?bool_decide_eq_true; intros H; eexists; (split; [done|]); simpl;
    naive_solver (eauto using mem_stack_in, rhs_ok_spec with lia).
Qed.

Lemma kinds_in k : 0 <= k < 51 → k ∈ kinds.
Proof. intros ?. apply elem_of_seqZ. unfold YYNTOKENS. lia. Qed.

(** A state that does not look does the same on every lookahead, and does not shift. *)
Lemma ctl_blind ss k k' : head ss ≫= at_ yypact = Some YYPACT_NINF →
  ctl ss k = ctl ss k' ∧ ∀ s, ctl ss k ≠ Some (CShift s).
Proof.
  unfold ctl, decide_on. destruct ss as [|s0 ss]; [done|]. cbn. intros ->. cbn. split; [done|]. intros s.
  unfold yydefault. destruct (at_ yydefact s0) as [n|]; [|done]. cbn. destruct (n =? 0); [done|].
  destruct (n <=? 5); [done|]. repeat (case_match || (destruct (at_ _ _)); cbn; try done).
  destruct (head _); [|done]. cbn. by destruct (yy_goto _ _).
Qed.

Lemma stack_move ss k : ss ∈ stacks → 0 <= k < 51 → ∃ c, ctl ss k = Some c ∧ move_spec ss k c.
Proof.
  intros Hss Hk. pose proof (forallb_elem _ _ _ stacks_checked Hss) as Hc.
  unfold stack_ok in Hc. apply andb_prop in Hc as [[_ Hc]%andb_prop _]. unfold kinds_of in Hc.
  case_bool_decide as Hn.
  - apply andb_prop in Hc as [Hc _]. apply move_ok_spec in Hc as (c&Hc&Hm).
    destruct (ctl_blind ss k 0 Hn) as [He Hs]. rewrite He in *. exists c. split; [done|].
    destruct c; [|done..]. by specialize (Hs s).
  - by apply move_ok_spec, (forallb_elem _ _ _ Hc), kinds_in.
Qed.

Lemma stack_facts ss : ss ∈ stacks →
  (length ss <= 13)%nat ∧ head ss ≠ Some YYFINAL ∧ find_error ss 0 = Some None.
Proof.
  intros Hc%(forallb_elem _ _ _ stacks_checked). unfold stack_ok in Hc.
  rewrite !andb_true_iff, bool_decide_eq_true in Hc. destruct Hc as [[[[Hl Hf] He] _] _].
  split_and!; [by apply Nat.leb_le| |done]. intros E. rewrite E in Hf. done.
Qed.

Lemma stack_settles ss k : ss ∈ stacks → default 60 (head ss ≫= at_ yystos) < YYNTOKENS → 0 <= k < 51 →
  settles 12 ss k = true.
Proof.
  intros Hc%(forallb_elem _ _ _ stacks_checked) Hs Hk. unfold stack_ok in Hc.
  apply andb_prop in Hc as [_ Hc]. rewrite (proj2 (Z.ltb_lt _ _) Hs) in Hc.
  by apply (forallb_elem _ _ _ Hc), kinds_in.
Qed.

(** ** Symbols *)

Definition all_symbols : list symbol :=
  (T <$> filter (λ t, 3 <= token_kind t) (seqZ 0 297)) ++ (N <$> nonterms).

Lemma symbols_distinct : NoDup (sym_number <$> all_symbols).
Proof. apply (bool_decide_unpack _). vm_compute. exact I. Qed.

Lemma sym_number_inj X Y : X ∈ all_symbols → Y ∈ all_symbols → sym_number X = sym_number Y → X = Y.
Proof.
  intros [i Hi]%list_elem_of_lookup [j Hj]%list_elem_of_lookup E.
  assert (i = j) as ->; [|congruence].
  apply (NoDup_lookup _ _ _ (sym_number X) symbols_distinct); rewrite list_lookup_fmap; [by rewrite Hi|].
  by rewrite Hj, E.
Qed.

Lemma token_symbol t : 3 <= token_kind t → T t ∈ all_symbols.
Proof.
  intros H. apply elem_of_app. left. apply list_elem_of_fmap_2. apply list_elem_of_filter. split; [done|].
  apply elem_of_seqZ. unfold token_kind, YYTRANSLATE in H.
  destruct ((0 <=? t) && (t <=? YYMAXUTOK)) eqn:E; [|unfold YYSYMBOL_YYUNDEF in H; lia].
  unfold YYMAXUTOK in E. lia.
Qed.

Lemma token_kind_range t : 0 <= token_kind t < 51.
Proof.
  unfold token_kind, YYTRANSLATE. destruct (_ && _) eqn:E; [|done].
  assert (Ha : forallb (λ k, (0 <=? k) && (k <? 51)) yytranslate = true) by (vm_compute; reflexivity).
  destruct (at_ yytranslate t) as [k|] eqn:Ek; [|done]. unfold at_ in Ek.
  destruct (0 <=? t); [|done]. apply list_elem_of_lookup_2 in Ek.
  apply (forallb_elem _ _ _ Ha) in Ek. lia.
Qed.

Lemma production_symbols p X : p ∈ productions → X ∈ p_rhs p → X ∈ all_symbols.
Proof.
  assert (H : forallb (λ p, forallb (λ X, bool_decide (X ∈ all_symbols)) (p_rhs p)) productions = true)
    by (vm_compute; reflexivity).
  intros Hp HX. apply (forallb_elem _ _ _ H), (λ H, forallb_elem _ _ _ H HX) in Hp.
  by apply bool_decide_eq_true in Hp.
Qed.

Lemma production_in r p : production_of r = Some p → p ∈ productions.
Proof. unfold production_of. destruct (2 <=? r); [|done]. apply list_elem_of_lookup_2. Qed.

Lemma production_lhs p : p ∈ productions → N (p_lhs p) ∈ all_symbols.
Proof.
  assert (H : forallb (λ p, bool_decide (N (p_lhs p) ∈ all_symbols)) productions = true)
    by (vm_compute; reflexivity).
  intros Hp%(forallb_elem _ _ _ H). by apply bool_decide_eq_true in Hp.
Qed.

(** The attributes of a right-hand side of known types. *)
Ltac typed_args :=
  repeat match goal with
  | H : Forall2 _ (_ :: _) _ |- _ =>
      apply Forall2_cons_inv_l in H as (?&?&?H&?&->); cbv in H
  | H : Forall2 _ [] _ |- _ => apply Forall2_nil_inv_l in H as ->
  | H : ∃ _, _ |- _ => destruct H
  end; subst.

Section machine.
Context (atof : string → Z).
Abbreviation derives := (derives atof).
Abbreviation derives_all := (derives_all atof).
Abbreviation tok_attr := (tok_attr atof).

Lemma derives_all_app Xs1 Xs2 w1 w2 l1 l2 :
  derives_all Xs1 w1 l1 → derives_all Xs2 w2 l2 → derives_all (Xs1 ++ Xs2) (w1 ++ w2) (l1 ++ l2).
Proof. induction 1; intros; simpl; [done|]. rewrite <- (assoc_L (++)). constructor; auto. Qed.

(** ** What a stack stands for *)

Inductive parsed : list Z → list attr → list tok → Prop :=
  | parsed_bottom a : parsed [0] [a] []
  | parsed_push s ss a l w1 w X :
      parsed ss l w1 → X ∈ all_symbols → at_ yystos s = Some (sym_number X) → derives X w a →
      parsed (s :: ss) (a :: l) (w1 ++ w).

Lemma parsed_length ss l w : parsed ss l w → length ss = length l.
Proof. induction 1; simpl; auto. Qed.

Lemma parsed_rhs Xs ss l w : parsed ss l w → (∀ X, X ∈ Xs → X ∈ all_symbols) →
  (λ s, at_ yystos s) <$> take (length Xs) ss = (λ X, Some (sym_number X)) <$> reverse Xs →
  (length Xs < length ss)%nat →
  ∃ w1 w2, w = w1 ++ w2 ∧ parsed (drop (length Xs) ss) (drop (length Xs) l) w1 ∧
    derives_all Xs w2 (reverse (take (length Xs) l)).
Proof.
  revert ss l w. induction Xs as [|X Xs IH] using rev_ind; intros ss l w Hp Hin He Hl.
  - exists w, []. rewrite app_nil_r. split_and!; try done. simpl. constructor.
  - rewrite length_app in *. simpl in *. rewrite Nat.add_1_r in *.
    rewrite reverse_app in He. simpl in He.
    destruct Hp as [a|s ss a l w1 w2 Y Hp HY Hs Hd]; [simpl in Hl; lia|].
    simpl in He, Hl. injection He as Hs' He. rewrite Hs in Hs'. injection Hs' as Hs'.
    apply sym_number_inj in Hs' as ->; [|done|apply Hin, elem_of_app; right; by apply list_elem_of_singleton].
    destruct (IH ss l w1 Hp) as (v1&v2&->&Hp'&Hd'); [intros ??; apply Hin, elem_of_app; by left|done|lia|].
    exists v1, (v2 ++ w2). rewrite <- (assoc_L (++)). split_and!; [done|done|]. simpl.
    rewrite reverse_cons. apply derives_all_app; [done|].
    rewrite <- (app_nil_r w2). repeat constructor. done.
Qed.

(** ** The types of the attributes *)

Definition act_typed (p : production) : Prop :=
  ∀ l, Forall2 attr_ok (p_rhs p) l → ∃ a, p_act p l = Some a ∧ attr_ok (N (p_lhs p)) a.

Lemma productions_typed : Forall act_typed productions.
Proof.
  unfold productions.
  repeat apply Forall_cons_2; [..|apply Forall_nil_2];
    intros l Hl; cbn [p_rhs p_act p_lhs semicolon comma lparen rparen dot] in *; typed_args;
    (eexists; split; [reflexivity|]); simpl; eauto.
Qed.

Lemma act_ok p l : p ∈ productions → Forall2 attr_ok (p_rhs p) l → ∃ a, p_act p l = Some a ∧ attr_ok (N (p_lhs p)) a.
Proof. intros Hp. apply (proj1 (Forall_forall _ _) productions_typed p Hp). Qed.

#[local] Opaque productions.

Lemma derives_ok :
  (∀ X w a, derives X w a → attr_ok X a) ∧ (∀ Xs w l, derives_all Xs w l → Forall2 attr_ok Xs l).
Proof.
  apply derives_ind2.
  - intros k. apply tok_attr_ok.
  - intros p w l a Hp Hd Hl Ha. destruct (act_ok p l Hp Hl) as (a'&Ha'&Hok). congruence.
  - constructor.
  - by constructor.
Qed.

(** ** First tokens *)

Definition nullables (Xs : list symbol) : bool :=
  forallb (λ X, match X with T _ => false | N n => nullable_nt n end) Xs.

Lemma first_closed p : p ∈ productions →
  (∀ k, k ∈ first_seq (p_rhs p) [] → k ∈ table_of first_tab (p_lhs p)) ∧
  (nullables (p_rhs p) = true → nullable_nt (p_lhs p) = true).
Proof.
  intros Hc%(forallb_elem _ _ _ first_checked). unfold first_ok in Hc. apply andb_prop in Hc as [Hf Hn].
  split; [|intros H; unfold nullables in H; by rewrite H in Hn].
  intros k Hk. apply (forallb_elem _ _ _ Hf) in Hk. by apply bool_decide_eq_true in Hk.
Qed.

Lemma first_seq_nullable Xs la : nullables Xs = true → ∀ x, x ∈ la → x ∈ first_seq Xs la.
Proof.
  unfold first_seq. induction Xs as [|[t|n] Xs IH]; simpl; intros Hn x Hx; [done..|].
  apply andb_prop in Hn as [-> Hn]. apply elem_of_app. right. by apply IH.
Qed.

Definition starts_in (k : tok) (l : list Z) : Prop := token_kind k.1 ∈ l.

Lemma first_derives :
  (∀ X w a, derives X w a →
     match w with [] => nullables [X] = true | k :: _ => ∀ la, starts_in k (first_seq [X] la) end) ∧
  (∀ Xs w l, derives_all Xs w l →
     match w with [] => nullables Xs = true | k :: _ => ∀ la, starts_in k (first_seq Xs la) end).
Proof.
  apply derives_ind2.
  - intros k la. by apply list_elem_of_singleton.
  - intros p w l a Hp _ IH _. destruct (first_closed p Hp) as [Hf Hn]. destruct w as [|k w].
    + simpl. by rewrite Hn.
    + intros la. unfold first_seq. simpl. apply elem_of_app. left. apply Hf, IH.
  - done.
  - intros X Xs w1 w2 a l _ IH1 _ IH2. unfold starts_in, first_seq in *. destruct w1 as [|k w1].
    + simpl in *. destruct X as [t|n]; [done|]. rewrite andb_true_r in IH1. rewrite IH1.
      destruct w2 as [|k w2]; [exact IH2|]. intros la. apply elem_of_app. right. apply IH2.
    + intros la. destruct X as [t|n]; simpl in *; [apply (IH1 la)|].
      specialize (IH1 []). apply elem_of_app. apply elem_of_app in IH1 as [?|Hk]; [by left|].
      destruct (nullable_nt n); by apply elem_of_nil in Hk.
Qed.

Definition la_ok (la : Z) (k : tok) : Prop := la = any ∨ la = token_kind k.1.

(** What follows the dot, and then the lookahead, starts with a first token. *)
Lemma first_follow Xs w l la k rest : derives_all Xs w l → la_ok la k →
  ∃ b k' rest', b ∈ first_seq Xs [la] ∧ w ++ k :: rest = k' :: rest' ∧ la_ok b k'.
Proof.
  intros Hd Hk. pose proof (proj2 first_derives _ _ _ Hd) as Hf. destruct w as [|k' w].
  - exists la, k, rest. split_and!; [|done|done]. apply first_seq_nullable; [done|by left].
  - exists (token_kind k'.1), k', (w ++ k :: rest). split_and!; [apply Hf|done|by right].
Qed.

(** ** Items *)

Definition item_in (s : Z) (i : item) : Prop := 0 <= s ∧ has_item items s i = true.

Lemma item_in_ok s i : item_in s i → item_ok s i = true.
Proof.
  intros [Hs Hi]. destruct i as [[r d] la]. unfold has_item in Hi. apply existsb_exists in Hi as (j&Hj&He).
  destruct j as [[r' d'] la']. destruct (Z.eqb_spec r r') as [<-|]; [|done].
  destruct (Nat.eqb_spec d d') as [<-|]; [|done]. apply Z.eqb_eq in He as <-.
  destruct (items !! Z.to_nat s) as [l|] eqn:El; [|done]. simpl in Hj.
  pose proof (forallb_elem _ _ (Z.to_nat s, l) items_checked) as Hc.
  unfold state_items_ok in Hc. cbn [fst snd] in Hc. rewrite Z2Nat.id in Hc by done.
  eapply forallb_elem; [apply Hc|by apply list_elem_of_In].
  apply elem_of_lookup_imap. eauto.
Qed.

Lemma item_next_in s i x : item_in s i → x ∈ item_next s i → item_in x.1 x.2.
Proof.
  intros Hi%item_in_ok Hx. destruct i as [[r d] la]. unfold item_ok in Hi.
  destruct (production_of r) as [p|] eqn:Ep; [|done].
  apply andb_prop in Hi as [[Hi _]%andb_prop _]. apply (forallb_elem _ _ _ Hi) in Hx.
  apply andb_prop in Hx as [? ?]. split; [lia|done].
Qed.

Lemma item_advance s r d la p X Xs : item_in s (r, d, la) → production_of r = Some p →
  drop d (p_rhs p) = X :: Xs → ∃ s', next_state s X = Some s' ∧ item_in s' (r, S d, la).
Proof.
  intros Hi Hp Hd. pose proof (item_in_ok _ _ Hi) as Hc. unfold item_ok in Hc. rewrite Hp, Hd in Hc.
  apply andb_prop in Hc as [[_ Hc]%andb_prop _]. apply bool_decide_eq_true in Hc.
  destruct (next_state s X) as [s'|] eqn:Es; [|done]. exists s'. split; [done|].
  apply (item_next_in _ _ (s', (r, S d, la)) Hi). simpl. rewrite Hp, Hd, Es. by left.
Qed.

Lemma production_number p : p ∈ productions → ∃ r, production_of r = Some p ∧ r ∈ numbers.
Proof.
  intros [i Hi]%list_elem_of_lookup. exists (Z.of_nat i + 2). split.
  - unfold production_of. rewrite (proj2 (Z.leb_le _ _)) by lia.
    by replace (Z.to_nat (Z.of_nat i + 2 - 2)) with i by lia.
  - apply lookup_lt_Some in Hi. change (length productions) with 68%nat in Hi. apply elem_of_seqZ. lia.
Qed.

Lemma item_closure s r d la p n Xs p' : item_in s (r, d, la) → production_of r = Some p →
  drop d (p_rhs p) = N n :: Xs → p' ∈ productions → p_lhs p' = n →
  ∃ r', production_of r' = Some p' ∧ ∀ b, b ∈ first_seq Xs [la] → item_in s (r', 0%nat, b).
Proof.
  intros Hi Hp Hd (r'&Hr'&Hn)%production_number <-. exists r'. split; [done|]. intros b Hb.
  apply (item_next_in _ _ (s, (r', 0%nat, b)) Hi). simpl. rewrite Hp, Hd. apply elem_of_app. right.
  apply list_elem_of_bind. exists r'. split.
  - apply list_elem_of_bind. exists b. split; [by left|]. by apply elem_of_remove_dups.
  - apply list_elem_of_filter. by rewrite Hr'.
Qed.

Lemma item_end s r la p : item_in s (r, length (p_rhs p), la) → production_of r = Some p →
  at_ yyr2 r = Some (Z.of_nat (length (p_rhs p))) ∧ at_ yyr1 r = Some (nt_number (p_lhs p)) ∧
  (∀ k, la_ok la k → decide_on s (token_kind k.1) = Some (Reduce r)).
Proof.
  intros Hi%item_in_ok Hp. unfold item_ok in Hi. rewrite Hp, drop_all in Hi.
  apply andb_prop in Hi as [[_ Hi]%andb_prop _].
  rewrite !andb_true_iff, !bool_decide_eq_true in Hi. destruct Hi as [[[H2 H1] _] Hla].
  split_and!; [done..|]. intros k [-> | ->].
  - rewrite Z.eqb_refl in Hla. apply (forallb_elem _ _ (token_kind k.1)) in Hla; [|apply kinds_in, token_kind_range].
    by apply bool_decide_eq_true in Hla.
  - destruct (Z.eqb_spec (token_kind k.1) any) as [E|_].
    + pose proof (token_kind_range k.1). unfold any in E. lia.
    + by apply bool_decide_eq_true in Hla.
Qed.

Lemma item_start s r d la p : item_in s (r, d, la) → production_of r = Some p → (r <= 5 ↔ p_lhs p = n_start).
Proof.
  intros Hi%item_in_ok Hp. unfold item_ok in Hi. rewrite Hp in Hi. apply andb_prop in Hi as [_ Hi].
  destruct (Z.leb_spec r 5); rewrite ?andb_true_iff, ?bool_decide_eq_true in Hi; naive_solver lia.
Qed.

(** ** The machine *)

Definition conf : Type := list Z * list attr * list tok.

Inductive astep : conf → conf → Prop :=
  | astep_shift ss l k ws s :
      ctl ss (token_kind k.1) = Some (CShift s) → astep (ss, l, k :: ws) (s :: ss, tok_attr k :: l, ws)
  | astep_reduce ss l k ws r len s p a :
      ctl ss (token_kind k.1) = Some (CReduce r len s) → production_of r = Some p →
      p_act p (reverse (take (Z.to_nat len) l)) = Some a →
      astep (ss, l, k :: ws) (s :: drop (Z.to_nat len) ss, a :: drop (Z.to_nat len) l, k :: ws).

(** The machine accepts with a tree; the next token does not matter. *)
Definition accepts (c : conf) (t : option TreeNode) : Prop :=
  ∃ ss l k ws r p, c = (ss, l, k :: ws) ∧ ctl ss (token_kind k.1) = Some (CAccept r) ∧
    production_of r = Some p ∧ p_act p (reverse (take (length (p_rhs p)) l)) = Some (ATree t).

Lemma ctl_decided s ss k d : decide_on s k = Some d → ctl (s :: ss) k =
  match d with
  | Shift s => Some (CShift s)
  | SyntaxError => Some CError
  | Reduce r =>
      if r <=? 5 then Some (CAccept r)
      else
        len ← at_ yyr2 r;
        lhs ← at_ yyr1 r;
        top ← head (drop (Z.to_nat len) (s :: ss));
        s ← yy_goto lhs top;
        Some (CReduce r len s)
  end.
Proof. intros Hd. unfold ctl. cbn [head]. cbn -[drop head]. by rewrite Hd. Qed.

Definition follows (Xs : list symbol) (la : Z) (rest : list tok) : Prop :=
  ∃ b k rest', b ∈ first_seq Xs [la] ∧ rest = k :: rest' ∧ la_ok b k.

(** The machine pushes a symbol that an item of its state expects, when what follows the symbol
    may follow it. *)
Definition pushes (X : symbol) (w : list tok) (a : attr) : Prop :=
  ∀ s ss l rest r d la p Xs,
    item_in s (r, d, la) → production_of r = Some p → drop d (p_rhs p) = X :: Xs → follows Xs la rest →
    ∃ s', next_state s X = Some s' ∧ rtc astep (s :: ss, l, w ++ rest) (s' :: s :: ss, a :: l, rest).

Definition pushes_all (Xs : list symbol) (w : list tok) (al : list attr) : Prop :=
  ∀ s ss l k rest r d la p,
    item_in s (r, d, la) → production_of r = Some p → drop d (p_rhs p) = Xs → la_ok la k →
    ∃ s' ss', rtc astep (s :: ss, l, w ++ k :: rest) (s' :: ss', reverse al ++ l, k :: rest) ∧
      item_in s' (r, length (p_rhs p), la) ∧ drop (length Xs) (s' :: ss') = s :: ss.

Lemma no_start p : p ∈ productions → N n_start ∉ p_rhs p.
Proof.
  assert (H : forallb (λ p, bool_decide (N n_start ∉ p_rhs p)) productions = true) by (vm_compute; reflexivity).
  intros Hp%(forallb_elem _ _ _ H). by apply bool_decide_eq_true in Hp.
Qed.

Lemma pushes_tok k : pushes (T k.1) [k] (tok_attr k).
Proof.
  intros s ss l rest r d la p Xs Hi Hp Hd _.
  destruct (item_advance _ _ _ _ _ _ _ Hi Hp Hd) as (s'&Hs'&_). exists s'. split; [done|].
  apply rtc_once. simpl. apply astep_shift. simpl in Hs'.
  destruct (decide_on s (token_kind k.1)) as [[?| |]|] eqn:E; try done. injection Hs' as ->.
  by rewrite (ctl_decided _ _ _ _ E).
Qed.

Lemma pushes_prod p w al a : p ∈ productions → derives_all (p_rhs p) w al → pushes_all (p_rhs p) w al →
  p_act p al = Some a → pushes (N (p_lhs p)) w a.
Proof.
  intros Hp Hda IH Ha s ss l rest r d la p0 Xs Hi Hp0 Hd (b&k&rest'&Hb&->&Hk).
  destruct (item_advance _ _ _ _ _ _ _ Hi Hp0 Hd) as (s'&Hs'&_). exists s'. split; [done|].
  destruct (item_closure _ _ _ _ _ _ _ p Hi Hp0 Hd Hp eq_refl) as (r'&Hr'&Hcl).
  destruct (IH s ss l k rest' r' 0%nat b p (Hcl b Hb) Hr' eq_refl Hk) as (s1&ss1&Hrun&Hi1&Hdrop).
  etrans; [exact Hrun|]. apply rtc_once.
  destruct (item_end _ _ _ _ Hi1 Hr') as (H2&H1&Hdec). specialize (Hdec k Hk).
  assert (Hlen : length al = length (p_rhs p)).
  { clear -Hda. induction Hda; simpl; congruence. }
  assert (Hctl : ctl (s1 :: ss1) (token_kind k.1) = Some (CReduce r' (Z.of_nat (length (p_rhs p))) s')).
  { rewrite (ctl_decided _ _ _ _ Hdec). destruct (Z.leb_spec r' 5) as [Hle|_].
    - exfalso. apply (item_start _ _ _ _ _ (Hcl b Hb) Hr') in Hle.
      apply (no_start p0); [by eapply production_in|]. rewrite <- Hle.
      rewrite <- (take_drop d (p_rhs p0)), Hd. apply elem_of_app. right. by left.
    - rewrite H2, H1. cbn -[drop head]. rewrite Nat2Z.id, Hdrop. cbn. simpl in Hs'. by rewrite Hs'. }
  pose proof (astep_reduce _ (reverse al ++ l) k rest' _ _ _ p a Hctl Hr') as Hst.
  rewrite Nat2Z.id, Hdrop, drop_app_length', take_app_length' in Hst by (by rewrite length_reverse).
  rewrite reverse_involutive in Hst. by apply Hst.
Qed.

Lemma pushes_cons X Xs w1 w2 a al : derives_all Xs w2 al → pushes X w1 a → pushes_all Xs w2 al →
  pushes_all (X :: Xs) (w1 ++ w2) (a :: al).
Proof.
  intros Hda IH1 IH2 s ss l k rest r d la p Hi Hp Hd Hk.
  destruct (first_follow _ _ _ _ _ rest Hda Hk) as (b&k'&rest'&Hb&He&Hk').
  destruct (IH1 s ss l (w2 ++ k :: rest) r d la p Xs Hi Hp Hd) as (s1&Hs1&Hrun1).
  { exists b, k', rest'. done. }
  destruct (item_advance _ _ _ _ _ _ _ Hi Hp Hd) as (s1'&Hs1'&Hi1). rewrite Hs1 in Hs1'. injection Hs1' as <-.
  destruct (IH2 s1 (s :: ss) (a :: l) k rest r (S d) la p Hi1 Hp) as (s'&ss'&Hrun2&Hi'&Hdrop); [|done|].
  { replace (S d) with (d + 1)%nat by lia. by rewrite <- drop_drop, Hd. }
  exists s', ss'. split_and!; [|done|].
  - rewrite <- (assoc_L (++)). etrans; [exact Hrun1|]. rewrite reverse_cons, <- (assoc_L (++)). done.
  - replace (length (X :: Xs)) with (length Xs + 1)%nat by (simpl; lia). by rewrite <- drop_drop, Hdrop.
Qed.

Lemma pushes_nil : pushes_all [] [] [].
Proof.
  intros s ss l k rest r d la p Hi Hp Hd Hk. exists s, ss. split_and!; [done| |done].
  pose proof (item_in_ok _ _ Hi) as Hc. unfold item_ok in Hc. rewrite Hp, Hd in Hc.
  rewrite !andb_true_iff in Hc. destruct Hc as [[_ [[_ E%Nat.eqb_eq] _]] _]. by subst d.
Qed.

Lemma derives_pushes :
  (∀ X w a, derives X w a → pushes X w a) ∧ (∀ Xs w al, derives_all Xs w al → pushes_all Xs w al).
Proof.
  apply derives_ind2; eauto using pushes_tok, pushes_prod, pushes_nil, pushes_cons.
Qed.

(** What the grammar derives from [start], the machine accepts, with the same attribute. *)
Lemma machine_complete w a k : derives (N n_start) w a →
  ∃ t c, a = ATree t ∧ rtc astep ([0], [ANone], w ++ [k]) c ∧ accepts c t ∧ c.2 = [k].
Proof.
  intros Hd. destruct (proj1 derives_ok _ _ _ Hd) as [t Ht]. exists t.
  inversion Hd as [|p w' al a' Hp Hda Ha]; subst.
  assert (Hps : p_lhs p = n_start) by done.
  destruct (production_number p Hp) as (r&Hr&Hin).
  assert (Hi : item_in 0 (r, 0%nat, any)).
  { assert (Hall : forallb (λ r, has_item items 0 (r, 0%nat, any)) (produce n_start) = true)
      by (vm_compute; reflexivity).
    split; [done|]. apply (forallb_elem _ _ r Hall). apply list_elem_of_filter. by rewrite Hr, <- Hps. }
  destruct (proj2 derives_pushes _ _ _ Hda 0 [] [ANone] k [] r 0%nat any p Hi Hr eq_refl) as (s'&ss'&Hrun&Hi'&Hdrop);
    [by left|].
  eexists. split_and!; [done|exact Hrun| |done]. eexists _, _, k, [], r, p. split_and!; [done| |done|].
  - destruct (item_end _ _ _ _ Hi' Hr) as (_&_&Hdec). rewrite (ctl_decided _ _ _ _ (Hdec k ltac:(by left))).
    rewrite (proj2 (Z.leb_le r 5)); [done|]. by apply (item_start _ _ _ _ _ Hi' Hr).
  - assert (Hlen : length al = length (p_rhs p)) by (clear -Hda; induction Hda; simpl; congruence).
    rewrite take_app_length' by (by rewrite length_reverse). by rewrite reverse_involutive.
Qed.
End machine.
