(* ===== verification/YaccProps.v ===== *)
(** * The parser implements the grammar

    [yyparse] is related to the machine of [AutomatonProps]: its values are those of the
    attributes ([holds]), its lookahead is the next token of the text.  One step of the parser is
    a move of the machine ([step_ok]). *)

From S2P Require Import Prelude Values Ast SemVal ParserTables Scanner Lexical LexicalProps Grammar Yacc Automaton.
From S2P Require Import AutomatonProps Lexing.
From stdpp Require Import options.
Import ast sem.

#[local] Opaque stacks items first_tab sim.
#[local] Arguments at_ : simpl never.

(** The value of a symbol, in the member that belongs to it. *)
Definition holds (v : SemValue) (a : attr) : Prop :=
  match a with
  | ANone => True
  | ATree t => False
  | ANode t => sv_node v = Some t
  | AField f => sv_field v = Some f
  | AFields l => sv_fields v = l
  | AType t => sv_type_len v = Some t
  | AOp op => sv_comp_op v = op
  | AExpr e => sv_expr v = Some e
  | AVal x => sv_val v = Some x
  | AVals l => sv_vals v = l
  | AStr s => sv_str v = s
  | AStrs l => sv_strs v = l
  | ACol c => sv_col v = Some c
  | ACols l => sv_cols v = l
  | ASet s => sv_set_clause v = Some s
  | ASets l => sv_set_clauses v = l
  | ACond c => sv_cond v = Some c
  | AConds l => sv_conds v = l
  | AOrder o => sv_orderby v = o
  | ADir d => sv_orderby_dir v = d
  | AInt z => sv_int v = z
  | AFloat z => sv_float v = z
  end.

(** ** The actions *)

(** [yyval] before the action, for the values [top] of the right-hand side, the last first. *)
Definition first_value (r : Z) (yyval : SemValue) (top : list SemValue) : Prop :=
  match last top with
  | Some v => yyval = v
  | None => (r = 38 → sv_conds yyval = []) ∧ (r = 63 → sv_orderby yyval = None)
  end.

Definition act_refines (r : Z) : Prop := ∀ p al top rest yyval a,
  production_of r = Some p → Forall2 attr_ok (p_rhs p) al → Forall2 holds top (reverse al) →
  first_value r yyval top → p_act p al = Some a →
  match a with
  | ATree t => yy_user_action r yyval (top ++ rest) = Some (Accept t)
  | _ => ∃ v, yy_user_action r yyval (top ++ rest) = Some (Val v) ∧ holds v a
  end.

Ltac typed_values :=
  repeat match goal with
  | H : Forall2 holds _ (_ :: _) |- _ => apply Forall2_cons_inv_r in H as (?&?&?H&?&->); cbv [holds] in H
  | H : Forall2 holds _ [] |- _ => apply Forall2_nil_inv_r in H as ->
  end.

Lemma actions_refine : Forall act_refines numbers.
Proof.
  let l := eval vm_compute in numbers in change numbers with l.
  repeat apply Forall_cons_2; [..|apply Forall_nil_2];
    intros p al top rest yyval a Hp Hal Htop Hv Ha; lazy in Hp; injection Hp as <-;
    cbn [p_rhs p_act] in *; typed_args; unfold reverse in Htop; cbn [rev_append] in Htop; typed_values;
    lazy in Ha; injection Ha as <-; cbn [first_value last app] in Hv; unfold first_value in Hv; cbn [last] in Hv.
  all: destruct_and?; repeat match goal with H : _ = _ → _ |- _ => specialize (H eq_refl) || clear H end;
    subst; cbn;
    repeat match goal with H : _ = Some _ |- _ => rewrite H; clear H end;
    first [reflexivity|eexists; split; [reflexivity|]; cbn; first [reflexivity|congruence]].
Qed.

#[local] Opaque productions.

(** The actions that set the conditions and the order; the others keep what [yyval] holds. *)
Lemma action_keeps r yyval vs v : r ∈ numbers → yy_user_action r yyval vs = Some (Val v) →
  (r ∉ [39; 40; 41] → sv_conds v = sv_conds yyval) ∧ (r ∉ [62; 64] → sv_orderby v = sv_orderby yyval).
Proof.
  intros Hr Hv. let l := eval vm_compute in numbers in change numbers with l in Hr.
  repeat (apply elem_of_cons in Hr as [->|Hr]); [..|by apply elem_of_nil in Hr];
    cbn in Hv; repeat (simplify_option_eq; try done); (split; intros Hn; [done|done]) || idtac;
    (split; intros Hn; try done; exfalso; apply Hn; set_solver).
Qed.

(** ** Slots without conditions or an order

    An empty production starts from the slot above the stack, which may have been used before.
    As long as no symbol with conditions (with an order) is on the stack, no slot has any. *)
Definition slots (p : Parser) : list SemValue := yylval p :: yyvs p ++ yyabove p.

Definition quiet (bad : list Z) (f : SemValue → Prop) (p : Parser) : Prop :=
  Forall (λ s, ∀ x, at_ yystos s = Some x → x ∉ bad) (yyss p) → Forall f (slots p).

(** The symbols that have conditions, or an order, in their value or the tree of their value. *)
Definition conds_symbols : list Z := [52; 53; 57; 65; 66].
Definition order_symbols : list Z := [52; 53; 57; 75; 76].
Definition no_conds (v : SemValue) : Prop := sv_conds v = [].
Definition no_order (v : SemValue) : Prop := sv_orderby v = None.

(** What a set of symbols needs: a symbol made of one of them is one of them, and the actions
    of the others keep the property. *)
Definition closed_symbols (bad : list Z) (f : SemValue → Prop) : Prop := ∀ r p, production_of r = Some p →
  nt_number (p_lhs p) ∉ bad →
  (∀ X, X ∈ p_rhs p → sym_number X ∉ bad) ∧
  (∀ yyval vs v, yy_user_action r yyval vs = Some (Val v) → f yyval → f v).

Lemma production_numbers r p : production_of r = Some p → r ∈ numbers.
Proof.
  intros H. unfold production_of in H. destruct (Z.leb_spec 2 r); [|done].
  apply lookup_lt_Some in H. change (length productions) with 68%nat in H. apply elem_of_seqZ. lia.
Qed.

Definition rhs_avoids (bad : list Z) (special : list Z) (r : Z) : bool :=
  match production_of r with
  | Some p => bool_decide (nt_number (p_lhs p) ∈ bad) ||
      (forallb (λ X, negb (bool_decide (sym_number X ∈ bad))) (p_rhs p) && bool_decide (r ∉ special))
  | None => true
  end.

Lemma rhs_avoids_ok bad special r p : forallb (rhs_avoids bad special) numbers = true → production_of r = Some p →
  nt_number (p_lhs p) ∉ bad → (∀ X, X ∈ p_rhs p → sym_number X ∉ bad) ∧ r ∉ special.
Proof.
  intros Hall Hp Hn. apply (forallb_elem _ _ r) in Hall; [|by eapply production_numbers].
  unfold rhs_avoids in Hall. rewrite Hp, (bool_decide_eq_false_2 _ Hn) in Hall.
  apply andb_prop in Hall as [Hr Hs%bool_decide_eq_true]. split; [|done].
  intros X HX%(forallb_elem _ _ _ Hr). by apply negb_true_iff, bool_decide_eq_false in HX.
Qed.

Lemma conds_closed : closed_symbols conds_symbols no_conds.
Proof.
  intros r p Hp Hn. destruct (rhs_avoids_ok conds_symbols [39; 40; 41] r p) as [Hr Hs];
    [vm_compute; reflexivity|done|done|]. split; [done|].
  intros yyval vs v Hv Hf. unfold no_conds.
  by rewrite (proj1 (action_keeps r yyval vs v (production_numbers _ _ Hp) Hv) Hs).
Qed.

Lemma order_closed : closed_symbols order_symbols no_order.
Proof.
  intros r p Hp Hn. destruct (rhs_avoids_ok order_symbols [62; 64] r p) as [Hr Hs];
    [vm_compute; reflexivity|done|done|]. split; [done|].
  intros yyval vs v Hv Hf. unfold no_order.
  by rewrite (proj2 (action_keeps r yyval vs v (production_numbers _ _ Hp) Hv) Hs).
Qed.

Section parser.
Context (atof : string → Z).
Abbreviation derives := (derives atof).
Abbreviation tok_attr := (tok_attr atof).
Abbreviation reads := (reads atof).
Abbreviation parsed := (parsed atof).
Abbreviation yystep := (yystep atof).

Lemma tok_set_holds k v : holds (tok_set atof k v) (tok_attr k).
Proof. unfold tok_set, tok_attr, Grammar.tok_attr. repeat case_match; try done; by destruct v. Qed.

Lemma tok_set_keeps k v : sv_conds (tok_set atof k v) = sv_conds v ∧ sv_orderby (tok_set atof k v) = sv_orderby v.
Proof. unfold tok_set. repeat case_match; done. Qed.

(** The tokens between two states of the scanner. *)
Inductive reads_all (sc : Scanner) : list tok → Scanner → Prop :=
  | ra_nil : reads_all sc [] sc
  | ra_snoc w k sc1 sc2 : reads_all sc w sc1 → reads sc1 k sc2 → reads_all sc (w ++ [k]) sc2.

(** The parser [p] has read the tokens [w] since [sc0]; [l] are the attributes on its stack, [k]
    is the next token and [e] the scanner after it. *)
Record pinv (sc0 : Scanner) (p : Parser) (l : list attr) (w : list tok) (k : tok) (e : Scanner) : Prop := {
  pi_stacks : yyss p ∈ stacks;
  pi_parsed : parsed (yyss p) l w;
  pi_vals : Forall2 holds (yyvs p) l;
  pi_slots : (length (yyvs p) + length (yyabove p) = 200)%nat;
  pi_err : yyerrstatus p = 0;
  pi_kind : 0 < k.1 ∧ k.1 ≠ YYerror;
  pi_ok : scanner_ok e;
  pi_next : ∃ sw, reads_all sc0 w sw ∧ reads sw k e ∧ scanner_ok sw ∧
    match yychar p with
    | None => yyscanner p = sw
    | Some c => c = k.1 ∧ yyscanner p = e ∧ holds (yylval p) (tok_attr k)
    end;
  pi_conds : quiet conds_symbols no_conds p;
  pi_order : quiet order_symbols no_order p;
}.

(** A lookahead is there only above a nonterminal or before a decision. *)
Definition settled (p : Parser) : Prop :=
  yychar p = None ∨ YYNTOKENS <= default 60 (head (yyss p) ≫= at_ yystos).

Lemma pinv_head sc0 p l w k e : pinv sc0 p l w k e → ∃ s ss, yyss p = s :: ss.
Proof. intros H. destruct (pi_parsed _ _ _ _ _ _ H); eauto. Qed.

Lemma pinv_lengths sc0 p l w k e : pinv sc0 p l w k e →
  length (yyss p) = length l ∧ length (yyvs p) = length l ∧ (length l <= 13)%nat ∧
  ∃ v above, yyabove p = v :: above.
Proof.
  intros H. pose proof (parsed_length _ _ _ _ (pi_parsed _ _ _ _ _ _ H)) as H1.
  pose proof (Forall2_length _ _ _ (pi_vals _ _ _ _ _ _ H)) as H2.
  destruct (stack_facts _ (pi_stacks _ _ _ _ _ _ H)) as [H3 _].
  pose proof (pi_slots _ _ _ _ _ _ H). destruct (yyabove p) as [|v above]; [simpl in *; lia|].
  split_and!; [done|done|lia|eauto].
Qed.

Lemma quiet_lookahead bad f p c v sc : (f (yylval p) → f v) → quiet bad f p → quiet bad f (set_lookahead c v sc p).
Proof.
  unfold quiet, slots. simpl. intros Hv Hq Hs. specialize (Hq Hs). inversion_clear Hq. constructor; auto.
Qed.

(** Reading the lookahead. *)
Lemma lookahead_ok sc0 p l w k e : pinv sc0 p l w k e → ∃ p1,
  yy_lookahead atof p = Some (k.1, p1) ∧ pinv sc0 p1 l w k e ∧ yyss p1 = yyss p ∧ yychar p1 = Some k.1.
Proof.
  intros H. destruct (pi_next _ _ _ _ _ _ H) as (sw&Hw&Hr&Hsw&Hc). unfold yy_lookahead.
  destruct (yychar p) as [c|] eqn:Ec; [destruct Hc as (->&_); by exists p|].
  destruct (yylex_reads atof (yylval p) sw Hsw) as (t&x&sc'&Hl&Hr'&Hok&?&?&_).
  destruct (reads_unique _ _ _ _ Hr _ _ Hr') as [-> ->]. rewrite Hc, Hl. cbn.
  eexists. split; [done|]. split; [|done].
  destruct H. split; simpl; try done.
  - exists sw. split_and!; try done. apply tok_set_holds.
  - apply quiet_lookahead; [|done]. unfold no_conds. by rewrite (proj1 (tok_set_keeps _ _)).
  - apply quiet_lookahead; [|done]. unfold no_order. by rewrite (proj2 (tok_set_keeps _ _)).
Qed.

(** A step is the decision of the tables on the next token. *)
Lemma yystep_decided sc0 p l w k e : pinv sc0 p l w k e → ∃ p1 s ss,
  yyss p = s :: ss ∧ pinv sc0 p1 l w k e ∧ yyss p1 = yyss p ∧
  (if bool_decide (at_ yypact s = Some YYPACT_NINF) then p1 = p else yychar p1 = Some k.1) ∧
  ∀ d, decide_on s (token_kind k.1) = Some d → yystep p = perform d p1.
Proof.
  intros H. destruct (pinv_head _ _ _ _ _ _ H) as (s&ss&Hss). destruct (pinv_lengths _ _ _ _ _ _ H) as (Hl&_&Hle&_).
  destruct (stack_facts _ (pi_stacks _ _ _ _ _ _ H)) as (_&Hf&_). rewrite Hss in Hf. simpl in Hf.
  assert (Hfinal : (s =? YYFINAL) = false) by (apply Z.eqb_neq; congruence).
  unfold yystep, Yacc.yystep, decide_on. rewrite Hss. cbn [head]. cbn -[length].
  rewrite (proj2 (Z.leb_gt _ _)) by (rewrite <- Hss, Hl; unfold YYINITDEPTH; lia). rewrite Hfinal.
  destruct (at_ yypact s) as [yyn|] eqn:Ep; cbn -[YYPACT_NINF].
  - destruct (Z.eqb_spec yyn YYPACT_NINF) as [->|Hn].
    + exists p, s, ss. rewrite bool_decide_eq_true_2 by done. split_and!; try done. intros d Hd.
      rewrite Ep in Hd. cbn in Hd. by rewrite Hd.
    + destruct (lookahead_ok _ _ _ _ _ _ H) as (p1&Hla&H1&Hs1&Hc1). exists p1, s, ss.
      rewrite bool_decide_eq_false_2 by congruence. split_and!; [done|done|congruence|done|]. intros d Hd.
      rewrite Ep in Hd. cbn -[YYPACT_NINF] in Hd. rewrite (proj2 (Z.eqb_neq _ _) Hn) in Hd.
      rewrite Hla. cbn. destruct (pi_kind _ _ _ _ _ _ H) as [Hk0 Hke].
      rewrite (proj2 (Z.leb_gt _ _)) by done. rewrite (proj2 (Z.eqb_neq _ _)) by done.
      unfold token_kind in Hd. destruct (YYTRANSLATE k.1) as [t|] eqn:Et; cbn; [by rewrite Hd|].
      exfalso. revert Et. unfold YYTRANSLATE. destruct (_ && _) eqn:E; [|done]. unfold at_.
      rewrite (proj2 (Z.leb_le _ _)) by lia. intros Hn2%lookup_ge_None.
      change (length yytranslate) with 297%nat in Hn2. unfold YYMAXUTOK in E. lia.
  - destruct (lookahead_ok _ _ _ _ _ _ H) as (p1&_&H1&Hs1&Hc1). exists p1, s, ss.
    rewrite bool_decide_eq_false_2 by congruence. split_and!; [done|done|congruence|done|]. intros d. by rewrite Ep.
Qed.

(** ** The moves *)

Lemma quiet_sub bad f p p' : quiet bad f p →
  (Forall (λ s, ∀ x, at_ yystos s = Some x → x ∉ bad) (yyss p') →
   Forall (λ s, ∀ x, at_ yystos s = Some x → x ∉ bad) (yyss p) ∧ ∀ v, v ∈ slots p' → v ∈ slots p ∨ f v) →
  quiet bad f p'.
Proof.
  intros Hq H Hs. destruct (H Hs) as [Hold Hsub]. specialize (Hq Hold). apply Forall_forall. intros v Hv.
  destruct (Hsub v Hv) as [Hv'|?]; [|done]. by apply (proj1 (Forall_forall _ _) Hq).
Qed.

Lemma perform_shift sc0 p l w k e s : pinv sc0 p l w k e → ctl (yyss p) (token_kind k.1) = Some (CShift s) →
  yychar p = Some k.1 → ∃ p',
  perform (Shift s) p = Some (Next p') ∧ yyss p' = s :: yyss p ∧ yychar p' = None ∧ yyscanner p' = e ∧
  ∀ k' e', reads e k' e' → scanner_ok e' → 0 < k'.1 ∧ k'.1 ≠ YYerror →
    pinv sc0 p' (tok_attr k :: l) (w ++ [k]) k' e'.
Proof.
  intros H Hc Hch. destruct (pinv_lengths _ _ _ _ _ _ H) as (_&_&_&v&above&Ha).
  destruct (stack_move _ _ (pi_stacks _ _ _ _ _ _ H) (token_kind_range k.1)) as (c&Hc'&Hm).
  rewrite Hc in Hc'. injection Hc' as <-. destruct Hm as (Hst&Hstos&Hk3).
  destruct (pi_next _ _ _ _ _ _ H) as (sw&Hw&Hr&Hsw&Hla). rewrite Hch in Hla. destruct Hla as (_&Hsc&Hv).
  unfold perform. rewrite (pi_err _ _ _ _ _ _ H). cbn. unfold push. rewrite Ha. cbn.
  eexists. split_and!; [done|done|done|done|]. intros k' e' Hr' Hok' Hk'.
  assert (Hquiet : ∀ bad f, quiet bad f p → quiet bad f (mkParser (s :: yyss p) (yylval p :: yyvs p) above None
      (yylval p) (yyerrstatus p) (yyscanner p) (parse_tree p))).
  { intros bad f Hq. apply (quiet_sub _ _ p); [done|]. simpl. intros Hs%Forall_inv_tail. split; [done|].
    intros x Hx. left. unfold slots in *. rewrite Ha. simpl in Hx. set_solver. }
  split; simpl; try done.
  - eapply parsed_push; [apply H|apply token_symbol, Hk3| |constructor].
    by rewrite Hstos.
  - constructor; [done|apply H].
  - pose proof (pi_slots _ _ _ _ _ _ H) as Hl. rewrite Ha in Hl. simpl in Hl. lia.
  - apply H.
  - exists e. split_and!; [by econstructor|done|apply H|done].
  - apply Hquiet, H.
  - apply Hquiet, H.
Qed.

Lemma ctl_reduce_inv ss k r len s : ctl ss k = Some (CReduce r len s) → ∃ s0 lhs top,
  head ss = Some s0 ∧ decide_on s0 k = Some (Reduce r) ∧ at_ yyr2 r = Some len ∧ at_ yyr1 r = Some lhs ∧
  head (drop (Z.to_nat len) ss) = Some top ∧ yy_goto lhs top = Some s.
Proof.
  unfold ctl. destruct (head ss) as [s0|]; [|done]. cbn.
  destruct (decide_on s0 k) as [[?|r'|]|] eqn:Ed; try done. cbn.
  destruct (r' <=? 5); [done|]. destruct (at_ yyr2 r') as [len'|] eqn:E2; [|done]. cbn.
  destruct (at_ yyr1 r') as [lhs|] eqn:E1; [|done]. cbn. destruct (head (drop _ ss)) as [top|] eqn:Et; [|done]. cbn.
  destruct (yy_goto lhs top) as [s1|] eqn:Eg; [|done]. cbn. intros [= <- <- <-].
  exists s0, lhs, top. by split_and!.
Qed.

(** Where an empty production is reduced, no slot has conditions (an order) yet. *)
Definition avoids (bad : list Z) (ss : list Z) : bool :=
  forallb (λ s, match at_ yystos s with Some x => negb (bool_decide (x ∈ bad)) | None => true end) ss.

Definition empty_ok (ss : list Z) : bool :=
  forallb (λ k, match ctl ss k with
                | Some (CReduce 38 _ _) => avoids conds_symbols ss
                | Some (CReduce 63 _ _) => avoids order_symbols ss
                | _ => true end) (kinds_of ss).

Lemma empty_checked : forallb empty_ok stacks = true.
Proof. vm_compute. reflexivity. Qed.

Lemma avoids_ok bad ss : avoids bad ss = true → Forall (λ s, ∀ x, at_ yystos s = Some x → x ∉ bad) ss.
Proof.
  intros H. apply Forall_forall. intros s Hs x Hx. apply (forallb_elem _ _ _ H) in Hs. rewrite Hx in Hs.
  by apply negb_true_iff, bool_decide_eq_false in Hs.
Qed.

Lemma empty_reduce ss k r len s : ss ∈ stacks → 0 <= k < 51 → ctl ss k = Some (CReduce r len s) →
  (r = 38 → avoids conds_symbols ss = true) ∧ (r = 63 → avoids order_symbols ss = true).
Proof.
  intros Hss%(forallb_elem _ _ _ empty_checked) Hk Hc. unfold empty_ok, kinds_of in Hss.
  case_bool_decide as Hn.
  - apply (forallb_elem _ _ 0) in Hss; [|by left]. cbv beta in Hss.
    rewrite (proj1 (ctl_blind ss 0 k Hn)), Hc in Hss.
    split; by intros ->.
  - apply (forallb_elem _ _ k) in Hss; [|by apply kinds_in]. cbv beta in Hss. rewrite Hc in Hss. split; by intros ->.
Qed.

Lemma start_numbers r p : production_of r = Some p → 6 <= r → p_lhs p ≠ n_start.
Proof.
  intros Hp Hr. assert (Hall : forallb (λ r, match production_of r with
    | Some p => (r <? 6) || negb (bool_decide (p_lhs p = n_start)) | None => true end) numbers = true)
    by (vm_compute; reflexivity).
  apply (forallb_elem _ _ r) in Hall; [|by eapply production_numbers]. cbv beta in Hall.
  rewrite Hp in Hall. rewrite (proj2 (Z.ltb_ge _ _)) in Hall by lia. simpl in Hall.
  by apply negb_true_iff, bool_decide_eq_false in Hall.
Qed.

(** What the top of the stack gives to a reduction. *)
Lemma reduce_top sc0 p l w k e r : pinv sc0 p l w k e → rhs_spec r (yyss p) →
  Z.of_nat (length (yyss p)) > default 0 (at_ yyr2 r) → ∃ pr a w1 w2,
  production_of r = Some pr ∧ at_ yyr2 r = Some (Z.of_nat (length (p_rhs pr))) ∧
  at_ yyr1 r = Some (nt_number (p_lhs pr)) ∧
  p_act pr (reverse (take (length (p_rhs pr)) l)) = Some a ∧ attr_ok (N (p_lhs pr)) a ∧ w = w1 ++ w2 ∧
  parsed (drop (length (p_rhs pr)) (yyss p)) (drop (length (p_rhs pr)) l) w1 ∧ derives (N (p_lhs pr)) w2 a ∧
  ∀ yyval, first_value r yyval (take (length (p_rhs pr)) (yyvs p)) →
    match a with
    | ATree t => yy_user_action r yyval (yyvs p) = Some (Accept t)
    | _ => ∃ v, yy_user_action r yyval (yyvs p) = Some (Val v) ∧ holds v a
    end.
Proof.
  intros H (pr&Hp&H2&H1&Hrhs) Hlen. rewrite H2 in Hlen. simpl in Hlen.
  pose proof (production_in _ _ Hp) as Hin.
  destruct (parsed_rhs atof (p_rhs pr) (yyss p) l w (pi_parsed _ _ _ _ _ _ H)) as (w1&w2&->&Hpar&Hda);
    [by intros X; apply production_symbols|done|lia|].
  pose proof (proj2 (derives_ok atof) _ _ _ Hda) as Hok.
  destruct (act_ok pr _ Hin Hok) as (a&Ha&Hoka).
  exists pr, a, w1, w2. split_and!; try done; [by eapply d_prod|]. intros yyval Hv.
  rewrite <- (take_drop (length (p_rhs pr)) (yyvs p)).
  pose proof (proj1 (Forall_forall _ _) actions_refine r (production_numbers _ _ Hp)) as Hact.
  apply (Hact pr _ _ _ _ _ Hp Hok); [|done|done]. rewrite reverse_involutive. apply Forall2_take, H.
Qed.

Lemma yyval_ok sc0 p l w k e r n : pinv sc0 p l w k e → (n < length (yyvs p))%nat →
  (n = 0%nat → (r = 38 → avoids conds_symbols (yyss p) = true) ∧ (r = 63 → avoids order_symbols (yyss p) = true)) →
  ∃ yyval, (if (n =? 0)%nat then yyabove p !! 0%nat else yyvs p !! (n - 1)%nat) = Some yyval ∧
    first_value r yyval (take n (yyvs p)) ∧ yyval ∈ slots p.
Proof.
  intros H Hn Hav. destruct (pinv_lengths _ _ _ _ _ _ H) as (_&_&_&v&above&Ha).
  destruct (Nat.eqb_spec n 0) as [->|Hn0].
  - exists v. rewrite Ha. assert (Hin : v ∈ slots p).
    { unfold slots. rewrite Ha. right. apply elem_of_app. right. by left. }
    split_and!; [done| |done]. unfold first_value. simpl. destruct (Hav eq_refl) as [Hc Ho].
    split; intros E.
    + apply Hc, avoids_ok, (pi_conds _ _ _ _ _ _ H) in E. by apply (proj1 (Forall_forall _ _) E).
    + apply Ho, avoids_ok, (pi_order _ _ _ _ _ _ H) in E. by apply (proj1 (Forall_forall _ _) E).
  - destruct (yyvs p !! (n - 1)%nat) as [v'|] eqn:E; [|apply lookup_ge_None in E; lia].
    exists v'. split_and!; [done| |].
    + unfold first_value. rewrite last_lookup, length_take, Nat.min_l by lia.
      replace (pred n) with (n - 1)%nat by lia. rewrite lookup_take_lt by lia. by rewrite E.
    + unfold slots. right. apply elem_of_app. left. by eapply list_elem_of_lookup_2.
Qed.

(** A reduction keeps the slots quiet. *)
Lemma quiet_reduce bad f p pr r n s v yyval : closed_symbols bad f → production_of r = Some pr → n = length (p_rhs pr) →
  (λ s, at_ yystos s) <$> take n (yyss p) = (λ X, Some (sym_number X)) <$> reverse (p_rhs pr) →
  at_ yystos s = Some (nt_number (p_lhs pr)) →
  yy_user_action r yyval (yyvs p) = Some (Val v) → yyval ∈ slots p → quiet bad f p →
  quiet bad f (mkParser (s :: drop n (yyss p)) (v :: drop n (yyvs p)) (tail (reverse (take n (yyvs p)) ++ yyabove p))
    (yychar p) (yylval p) (yyerrstatus p) (yyscanner p) (parse_tree p)).
Proof.
  intros Hcl Hp Hn Hrhs Hs Hv Hin Hq Hall. simpl in Hall.
  pose proof (Forall_inv Hall _ Hs) as Hlhs. destruct (Hcl r pr Hp Hlhs) as [Hsym Hkeep].
  assert (Hold : Forall f (slots p)).
  { apply Hq. rewrite <- (take_drop n (yyss p)). apply Forall_app. split; [|by apply Forall_inv_tail in Hall].
    apply Forall_forall. intros s0 Hs0 x Hx.
    assert (Hx' : Some x ∈ (λ X, Some (sym_number X)) <$> reverse (p_rhs pr)).
    { rewrite <- Hrhs, <- Hx. by apply (list_elem_of_fmap_2 (λ s, at_ yystos s)). }
    apply list_elem_of_fmap in Hx' as (X&[= ->]&HX). by apply Hsym, elem_of_reverse. }
  assert (Hfv : f v) by (eapply Hkeep; [done|by apply (proj1 (Forall_forall _ _) Hold)]).
  unfold slots in *. simpl. inversion Hold as [|? ? Hlv Hrest]; subst. apply Forall_app in Hrest as [Hvs Hab].
  constructor; [done|]. constructor; [done|]. apply Forall_app. split; [by apply Forall_drop|].
  assert (Ht : Forall f (reverse (take (length (p_rhs pr)) (yyvs p)) ++ yyabove p)).
  { apply Forall_app. split; [|done]. by apply Forall_reverse, Forall_take. }
  destruct (reverse _ ++ _); [done|]. by apply Forall_inv_tail in Ht.
Qed.

Lemma perform_reduce sc0 p l w k e r len s : pinv sc0 p l w k e →
  ctl (yyss p) (token_kind k.1) = Some (CReduce r len s) → ∃ p' pr a,
  perform (Reduce r) p = Some (Next p') ∧ yyss p' = s :: drop (Z.to_nat len) (yyss p) ∧ settled p' ∧
  production_of r = Some pr ∧ p_act pr (reverse (take (Z.to_nat len) l)) = Some a ∧
  pinv sc0 p' (a :: drop (Z.to_nat len) l) w k e.
Proof.
  intros H Hc. destruct (stack_move _ _ (pi_stacks _ _ _ _ _ _ H) (token_kind_range k.1)) as (c&Hc'&Hm).
  rewrite Hc in Hc'. injection Hc' as <-. destruct Hm as (Hst&Hrhs&Hr6&Hstos).
  destruct (empty_reduce _ _ _ _ _ (pi_stacks _ _ _ _ _ _ H) (token_kind_range k.1) Hc) as [Hec Heo].
  destruct (ctl_reduce_inv _ _ _ _ _ Hc) as (s0&lhs&top&_&_&H2&H1&Htop&Hgoto).
  destruct (pinv_lengths _ _ _ _ _ _ H) as (Hl1&Hl2&_&_).
  assert (Hgt : (Z.to_nat len < length (yyss p))%nat).
  { destruct (le_lt_dec (length (yyss p)) (Z.to_nat len)); [|done]. by rewrite drop_ge in Htop. }
  assert (Hlen0 : 0 <= len).
  { destruct Hrhs as (pr&_&H2'&_). rewrite H2 in H2'. injection H2' as ->. lia. }
  destruct (reduce_top _ _ _ _ _ _ _ H Hrhs) as (pr&a&w1&w2&Hp&H2'&H1'&Ha&Hoka&->&Hpar&Hd&Hact);
    [rewrite H2; simpl; lia|].
  rewrite H2 in H2'. injection H2' as ->. rewrite Nat2Z.id in *. rewrite H1 in H1'. injection H1' as ->.
  set (n := length (p_rhs pr)) in *.
  destruct (yyval_ok _ _ _ _ _ _ r n H) as (yyval&Hyv&Hfv&Hyin); [lia|done|].
  specialize (Hact yyval Hfv).
  assert (Hval : ∃ v, yy_user_action r yyval (yyvs p) = Some (Val v) ∧ holds v a).
  { pose proof (start_numbers r pr Hp Hr6). destruct a; try done.
    simpl in Hoka. destruct (p_lhs pr); naive_solver. }
  destruct Hval as (v&Hv&Hhv).
  destruct (reverse (take n (yyvs p)) ++ yyabove p) as [|v0 above] eqn:Eab.
  { apply app_eq_nil in Eab as [_ Eab]. pose proof (pinv_lengths _ _ _ _ _ _ H) as (_&_&_&?&?&?). congruence. }
  exists (mkParser (s :: drop n (yyss p)) (v :: drop n (yyvs p)) (tail (reverse (take n (yyvs p)) ++ yyabove p))
    (yychar p) (yylval p) (yyerrstatus p) (yyscanner p) (parse_tree p)), pr, a.
  split_and!; try done.
  - unfold perform, yyreduce. rewrite H2. cbn. rewrite Nat2Z.id, Hyv. cbn. rewrite Hv. cbn.
    unfold YYPOPSTACK. rewrite (proj2 (Nat.leb_le _ _)) by lia. cbn. rewrite H1. cbn.
    rewrite Htop. cbn. rewrite Hgoto. cbn. unfold push. cbn. by rewrite Eab.
  - right. simpl. rewrite Hstos, H1. simpl. unfold YYNTOKENS. destruct (p_lhs pr); simpl; lia.
  - destruct Hrhs as (pr'&Hp'&_&_&Hsyms). rewrite Hp in Hp'. injection Hp' as <-.
    split; simpl; try apply H; try done.
    + apply (parsed_push atof s _ a _ w1 w2 (N (p_lhs pr)));
        [done|by eapply production_lhs, production_in|by rewrite Hstos|done].
    + constructor; [done|]. apply Forall2_drop, H.
    + pose proof (pi_slots _ _ _ _ _ _ H) as Hs200. pose proof (f_equal length Eab) as El. rewrite Eab. simpl.
      rewrite length_app, length_reverse, length_take in El. rewrite length_drop. simpl in El. lia.
    + apply (quiet_reduce _ _ _ pr r n s v yyval); try done; [apply conds_closed|by rewrite Hstos|apply H].
    + apply (quiet_reduce _ _ _ pr r n s v yyval); try done; [apply order_closed|by rewrite Hstos|apply H].
Qed.

Lemma start_productions r p : production_of r = Some p → r <= 5 → p_lhs p = n_start.
Proof.
  intros Hp Hr. assert (Hall : forallb (λ r, match production_of r with
    | Some p => (5 <? r) || bool_decide (p_lhs p = n_start) | None => true end) numbers = true)
    by (vm_compute; reflexivity).
  apply (forallb_elem _ _ r) in Hall; [|by eapply production_numbers]. cbv beta in Hall.
  rewrite Hp in Hall. rewrite (proj2 (Z.ltb_ge _ _)) in Hall by lia. simpl in Hall.
  by apply bool_decide_eq_true in Hall.
Qed.

Lemma ctl_accept_le ss k r : ctl ss k = Some (CAccept r) → r <= 5.
Proof.
  unfold ctl. destruct (head ss); [|done]. cbn. destruct (decide_on _ k) as [[?|r'|]|]; try done. cbn.
  destruct (Z.leb_spec r' 5); [by intros [= <-]|].
  repeat (match goal with |- context [mbind _ ?o] => destruct o; [|done] end; cbn). done.
Qed.

Lemma perform_accept sc0 p l w k e r : pinv sc0 p l w k e → settled p →
  ctl (yyss p) (token_kind k.1) = Some (CAccept r) → ∃ pr t,
  perform (Reduce r) p = Some (Done 0 (set_tree t p)) ∧ production_of r = Some pr ∧
  p_act pr (reverse (take (length (p_rhs pr)) l)) = Some (ATree t) ∧
  derives (N n_start) w (ATree t) ∧ reads_all sc0 w (yyscanner p).
Proof.
  intros H Hset Hc. destruct (stack_move _ _ (pi_stacks _ _ _ _ _ _ H) (token_kind_range k.1)) as (c&Hc'&Hm).
  rewrite Hc in Hc'. injection Hc' as <-. destruct Hm as (Hrhs&Hr2&Hlen&Hninf&Hstos).
  pose proof (ctl_accept_le _ _ _ Hc) as Hr5. destruct (pinv_lengths _ _ _ _ _ _ H) as (Hl1&Hl2&_&_).
  destruct (reduce_top _ _ _ _ _ _ _ H Hrhs) as (pr&a&w1&w2&Hp&H2&H1&Ha&Hoka&->&Hpar&Hd&Hact); [lia|].
  rewrite H2 in Hlen. simpl in Hlen. set (n := length (p_rhs pr)) in *.
  pose proof (start_productions r pr Hp Hr5) as Hs. rewrite Hs in Hoka, Hd. destruct Hoka as [t ->].
  destruct (yyval_ok _ _ _ _ _ _ r n H) as (yyval&Hyv&Hfv&_); [lia|lia|].
  specialize (Hact yyval Hfv). simpl in Hact.
  assert (w1 = []) as ->.
  { inversion Hpar as [|? ss ? ? ? ? ? Hpar' ? ? ? Hss]; [done|]. 
    pose proof (f_equal length Hss) as El. rewrite length_drop in El. simpl in El.
    destruct ss; [by inversion Hpar'|simpl in El; lia]. }
  exists pr, t. split_and!; try done.
  - unfold perform, yyreduce. rewrite H2. cbn. rewrite Nat2Z.id. fold n. rewrite Hyv. cbn. by rewrite Hact.
  - destruct Hset as [Hn|Hn]; [|lia]. destruct (pi_next _ _ _ _ _ _ H) as (sw&Hw&_&_&Hla).
    rewrite Hn in Hla. by rewrite Hla.
Qed.

Lemma perform_error sc0 p l w k e : pinv sc0 p l w k e →
  ∃ p' w', perform SyntaxError p = Some (Done 1 p') ∧ reads_all sc0 w' (yyscanner p').
Proof.
  intros H. assert (∃ w', reads_all sc0 w' (yyscanner p)) as [w' Hw'].
  { destruct (pi_next _ _ _ _ _ _ H) as (sw&Hw&Hr&_&Hla). destruct (yychar p) as [c|]; [|rewrite Hla; eauto].
    destruct Hla as (_&->&_). exists (w ++ [k]). by econstructor. }
  exists (set_errstatus 3 p), w'. split; [|done]. destruct (stack_facts _ (pi_stacks _ _ _ _ _ _ H)) as (_&_&Hf).
  unfold perform, yyerrlab. rewrite (pi_err _ _ _ _ _ _ H). cbn. unfold yyerrlab1. cbn. by rewrite Hf.
Qed.

(** ** One step *)

Definition step_spec (sc0 : Scanner) (p : Parser) (l : list attr) (w : list tok) (k : tok) (e : Scanner) (c : Ctl) : Prop :=
  match c with
  | CShift s => ∃ p', yystep p = Some (Next p') ∧ yyss p' = s :: yyss p ∧ settled p' ∧
      default 60 (head (yyss p') ≫= at_ yystos) < YYNTOKENS ∧
      ∀ k' e', reads e k' e' → scanner_ok e' → 0 < k'.1 ∧ k'.1 ≠ YYerror →
        pinv sc0 p' (tok_attr k :: l) (w ++ [k]) k' e'
  | CReduce r len s => ∃ p' pr a, yystep p = Some (Next p') ∧ yyss p' = s :: drop (Z.to_nat len) (yyss p) ∧
      settled p' ∧ production_of r = Some pr ∧ p_act pr (reverse (take (Z.to_nat len) l)) = Some a ∧
      pinv sc0 p' (a :: drop (Z.to_nat len) l) w k e
  | CAccept r => ∃ p' pr t, yystep p = Some (Done 0 p') ∧ parse_tree p' = t ∧ production_of r = Some pr ∧
      p_act pr (reverse (take (length (p_rhs pr)) l)) = Some (ATree t) ∧
      derives (N n_start) w (ATree t) ∧ reads_all sc0 w (yyscanner p')
  | CError => ∃ p' w', yystep p = Some (Done 1 p') ∧ reads_all sc0 w' (yyscanner p')
  end.

Lemma ctl_decide ss s k c : ctl (s :: ss) k = Some c → ∃ d, decide_on s k = Some d ∧
  match d with
  | Shift s => c = CShift s
  | SyntaxError => c = CError
  | Reduce r => (∃ len s, c = CReduce r len s) ∨ c = CAccept r
  end.
Proof.
  destruct (decide_on s k) as [d|] eqn:Ed; [|by unfold ctl; cbn; rewrite Ed].
  rewrite (ctl_decided _ _ _ _ Ed). intros Hc. exists d. split; [done|].
  destruct d as [s'|r|]; [by injection Hc|  |by injection Hc]. destruct (r <=? 5); [right; congruence|]. left.
  repeat (match type of Hc with context [mbind _ ?o] => destruct o; [|done] end; cbn in Hc). 
  injection Hc as <-. eauto.
Qed.

Lemma step_ok sc0 p l w k e : pinv sc0 p l w k e → settled p →
  ∃ c, ctl (yyss p) (token_kind k.1) = Some c ∧ step_spec sc0 p l w k e c.
Proof.
  intros H Hset. destruct (stack_move _ _ (pi_stacks _ _ _ _ _ _ H) (token_kind_range k.1)) as (c&Hc&Hm).
  exists c. split; [done|].
  destruct (yystep_decided _ _ _ _ _ _ H) as (p1&s&ss&Hss&H1&Hs1&Hla&Hstep).
  pose proof Hc as Hc'. rewrite Hss in Hc'. apply ctl_decide in Hc' as (d&Hd&Hdc). specialize (Hstep d Hd).
  rewrite <- Hs1 in Hc. destruct c as [s'|r len s'|r|]; simpl.
  - destruct d as [?| |]; [|by destruct Hdc as [(?&?&?)|?]|done]. injection Hdc as <-.
    case_bool_decide as Hn.
    { exfalso. apply (proj2 (ctl_blind (yyss p1) (token_kind k.1) 0 ltac:(by rewrite Hs1, Hss)) _ Hc). }
    destruct (perform_shift _ _ _ _ _ _ _ H1 Hc Hla) as (p'&Hp&Hss'&Hch&_&Hinv).
    exists p'. rewrite Hstep, Hss', Hs1. split_and!; try done; [by left|].
    destruct Hm as (_&Hstos&Hk3). simpl. rewrite Hstos. simpl. unfold YYNTOKENS. lia.
  - destruct d as [?|r'|]; [done| |done]. assert (r' = r) as -> by naive_solver.
    destruct (perform_reduce _ _ _ _ _ _ _ _ _ H1 Hc) as (p'&pr&a&Hp&Hss'&Hset'&Hpr&Ha&Hinv).
    exists p', pr, a. rewrite Hstep, Hss', Hs1. by split_and!.
  - destruct d as [?|r'|]; [done| |done]. assert (r' = r) as -> by naive_solver.
    destruct Hm as (_&_&_&Hninf&_). rewrite Hss in Hninf. simpl in Hninf.
    rewrite bool_decide_eq_true_2 in Hla by done. subst p1.
    destruct (perform_accept _ _ _ _ _ _ _ H Hset Hc) as (pr&t&Hp&Hpr&Ha&Hd'&Hr).
    exists (set_tree t p), pr, t. rewrite Hstep. by split_and!.
  - destruct d as [?| |]; [done|by destruct Hdc as [(?&?&?)|?]|].
    destruct (perform_error _ _ _ _ _ _ H1) as (p'&w'&Hp&Hw). exists p', w'. by rewrite Hstep.
Qed.
End parser.
