(* ===== verification/Parse.v ===== *)
(** * From the text to the tree

    [yyparse] on the buffer of a text terminates and accepts exactly the texts whose tokens start
    with a derivation of [start], with the tree of the derivation; the rest of the text is not
    read. *)

From S2P Require Import Prelude Values Ast SemVal ParserTables Scanner Lexical LexicalProps Grammar Yacc Automaton.
From S2P Require Import AutomatonProps Lexing YaccProps.
From stdpp Require Import options.
Import ast sem.

#[local] Opaque stacks items first_tab productions sim.
#[local] Arguments at_ : simpl never.

Section parse.
Context (atof : string → Z).
Abbreviation derives := (derives atof).
Abbreviation tok_attr := (tok_attr atof).
Abbreviation reads := (reads atof).
Abbreviation reads_all := (reads_all atof).
Abbreviation pinv := (pinv atof).
Abbreviation yyloop := (yyloop atof).

Lemma yyloop_mono n m p r : yyloop n p = Some r → (n <= m)%nat → yyloop m p = Some r.
Proof.
  revert m p. induction n as [|n IH]; intros m p Hn Hm; [done|]. destruct m as [|m]; [lia|].
  simpl in *. destruct (yystep atof p) as [[p'|res p']|]; [|done..]. simpl in *. apply IH; [done|lia].
Qed.

Lemma yyloop_next n p p' : yystep atof p = Some (Next p') → yyloop (S n) p = yyloop n p'.
Proof. intros H. simpl. by rewrite H. Qed.

Lemma yyloop_done n p res p' : yystep atof p = Some (Done res p') → yyloop (S n) p = Some (res, p').
Proof. intros H. simpl. by rewrite H. Qed.

(** ** Termination and soundness *)

(** Accepted with a derivation of what was read, or refused at some token. *)
Definition parse_outcome (sc0 : Scanner) (r : Z * Parser) : Prop :=
  (r.1 = 0 ∧ ∃ w, reads_all sc0 w (yyscanner r.2) ∧ derives (N n_start) w (ATree (parse_tree r.2))) ∨
  (r.1 = 1 ∧ ∃ w, reads_all sc0 w (yyscanner r.2)).

Definition finishes (sc0 : Scanner) (fuel : nat) (p : Parser) : Prop :=
  ∃ r, yyloop fuel p = Some r ∧ parse_outcome sc0 r.

Lemma finishes_mono sc0 n m p : finishes sc0 n p → (n <= m)%nat → finishes sc0 m p.
Proof. intros (r&Hr&Ho) Hm. exists r. split; [by eapply yyloop_mono|done]. Qed.

(** Between two tokens. *)
Lemma finishes_settles sc0 n fuel p l w k e : pinv sc0 p l w k e → settled p →
  settles n (yyss p) (token_kind k.1) = true →
  (∀ p' l' ss s, pinv sc0 p l w k e → ctl ss (token_kind k.1) = Some (CShift s) → ss ∈ stacks →
     yyss p' = s :: ss → settled p' → default 60 (head (yyss p') ≫= at_ yystos) < YYNTOKENS →
     (∀ k' e', reads e k' e' → scanner_ok e' → 0 < k'.1 ∧ k'.1 ≠ YYerror → pinv sc0 p' l' (w ++ [k]) k' e') →
     finishes sc0 fuel p') →
  finishes sc0 (n + fuel) p.
Proof.
  revert p l. induction n as [|n IH]; intros p l H Hset Hn Hsh; [done|]. simpl in Hn.
  destruct (step_ok _ _ _ _ _ _ _ H Hset) as (c&Hc&Hs). rewrite Hc in Hn. destruct c as [s|r len s|r|]; simpl in Hs.
  - destruct Hs as (p'&Hp&Hss&Hset'&Htop&Hinv). destruct (Hsh p' (tok_attr k :: l) (yyss p) s H Hc) as (r&Hr&Ho);
      [apply H|done..|].
    exists r. split; [|done]. cbn [Nat.add]. rewrite (yyloop_next _ _ _ Hp). eapply yyloop_mono; [done|lia].
  - destruct Hs as (p'&pr&a&Hp&Hss&Hset'&_&_&H'). rewrite <- Hss in Hn.
    destruct (IH p' _ H' Hset' Hn) as (r'&Hr&Ho).
    { intros p2 l2 ss2 s2 _. by apply Hsh. }
    exists r'. split; [|done]. cbn [Nat.add]. by rewrite (yyloop_next _ _ _ Hp).
  - destruct Hs as (p'&pr&t&Hp&Ht&_&_&Hd&Hr). exists (0, p'). split; [by apply yyloop_done|].
    left. split; [done|]. exists w. simpl. by rewrite Ht.
  - destruct Hs as (p'&w'&Hp&Hw). exists (1, p'). split; [by apply yyloop_done|]. right. split; [done|]. by exists w'.
Qed.

(** The end of the text is shifted only as a whole statement. *)
Definition eof_ok (ss : list Z) : bool :=
  match ctl ss (token_kind T_EOF) with
  | Some (CShift s) => forallb (λ k, match ctl (s :: ss) k with Some (CAccept _) => true | _ => false end) kinds
  | _ => true
  end.

Lemma eof_checked : forallb eof_ok stacks = true.
Proof. vm_compute. reflexivity. Qed.

Lemma eof_accept ss s k : ss ∈ stacks → ctl ss (token_kind T_EOF) = Some (CShift s) → 0 <= k < 51 →
  ∃ r, ctl (s :: ss) k = Some (CAccept r).
Proof.
  intros Hss%(forallb_elem _ _ _ eof_checked) Hc Hk. unfold eof_ok in Hss. rewrite Hc in Hss.
  apply (forallb_elem _ _ k) in Hss; [|by apply kinds_in]. cbv beta in Hss.
  destruct (ctl (s :: ss) k) as [[| |r|]|]; try done. eauto.
Qed.

(** An upper bound of the tokens that can still be shifted. *)
Definition left_tokens (k : tok) (e : Scanner) : nat :=
  if k.1 =? T_EOF then 0 else S (S (length (yy_rest e))).

Lemma next_token e : scanner_ok e → ∃ k e', reads e k e' ∧ scanner_ok e' ∧ (0 < k.1 ∧ k.1 ≠ YYerror) ∧
  (left_tokens k e' <= S (length (yy_rest e)))%nat.
Proof.
  intros Hok. destruct (yylex_reads atof (SemValue_make 0 0 OrderBy_DEFAULT SV_OP_EQ) e Hok)
    as (t&x&e'&_&Hr&Hok'&H0&He&Hlen).
  exists (t, x), e'. split_and!; try done. unfold left_tokens. simpl.
  destruct Hlen as [[-> _]|?]; [rewrite Z.eqb_refl; lia|]. destruct (t =? T_EOF); lia.
Qed.

Lemma finishes_all sc0 n p l w k e : pinv sc0 p l w k e → settled p →
  default 60 (head (yyss p) ≫= at_ yystos) < YYNTOKENS → (left_tokens k e <= n)%nat →
  finishes sc0 (12 * n + 13) p.
Proof.
  revert p l w k e. induction n as [n IH] using lt_wf_ind. intros p l w k e H Hset Htop Hn.
  assert (Hs : settles 12 (yyss p) (token_kind k.1) = true)
    by (apply stack_settles; [apply H|done|apply token_kind_range]).
  replace (12 * n + 13)%nat with (12 + (12 * n + 1))%nat by lia.
  apply (finishes_settles _ _ _ _ _ _ _ _ H Hset Hs).
  intros p' l' ss s _ Hc Hss Hss' Hset' Htop' Hinv.
  destruct (next_token e (pi_ok _ _ _ _ _ _ _ H)) as (k'&e'&Hr&Hok&Hk&Hlt). specialize (Hinv k' e' Hr Hok Hk).
  unfold left_tokens in Hn. destruct (Z.eqb_spec k.1 T_EOF) as [Ek|_].
  - rewrite Ek in Hc. destruct (eof_accept ss s (token_kind k'.1) Hss Hc (token_kind_range _)) as [r Hr'].
    destruct (step_ok _ _ _ _ _ _ _ Hinv Hset') as (c&Hc'&Hstep). rewrite Hss', Hr' in Hc'. injection Hc' as <-.
    destruct Hstep as (p2&pr&t&Hp&Ht&_&_&Hd&Hra). exists (0, p2). split.
    + replace (12 * n + 1)%nat with (S (12 * n)) by lia. by apply yyloop_done.
    + left. split; [done|]. exists (w ++ [k]). simpl. by rewrite Ht.
  - assert (Hm : finishes sc0 (12 * (n - 1) + 13) p').
    { apply (IH (n - 1)%nat ltac:(lia) _ _ _ _ _ Hinv Hset' Htop'). lia. }
    eapply finishes_mono; [exact Hm|lia].
Qed.

(** ** Completeness *)

Inductive reads_list : Scanner → list tok → Scanner → Prop :=
  | rl_nil sc : reads_list sc [] sc
  | rl_cons sc k sc1 w sc2 : reads sc k sc1 → reads_list sc1 w sc2 → reads_list sc (k :: w) sc2.

Lemma reads_list_snoc sc w sc1 k sc2 : reads_list sc w sc1 → reads sc1 k sc2 → reads_list sc (w ++ [k]) sc2.
Proof. induction 1; intros; simpl; repeat (econstructor; eauto). Qed.

Lemma reads_all_list sc w sc' : reads_all sc w sc' → reads_list sc w sc'.
Proof. induction 1; [constructor|]. by eapply reads_list_snoc. Qed.

Lemma reads_all_unique sc w sc1 sc2 : reads_all sc w sc1 → reads_all sc w sc2 → sc1 = sc2.
Proof.
  intros H1%reads_all_list H2%reads_all_list. revert sc2 H2.
  induction H1 as [sc|sc k sc1 w sc2 Hr Hl IH]; intros sc3 H2; inversion H2; subst; [done|].
  apply IH. destruct (reads_unique _ _ _ _ Hr _ _ H3) as [_ ->]. done.
Qed.

Lemma reads_ok sc k e : scanner_ok sc → reads sc k e → scanner_ok e ∧ 0 < k.1 ∧ k.1 ≠ YYerror.
Proof.
  intros Hok Hr. destruct (next_token sc Hok) as (k'&e'&Hr'&Hok'&Hk&_).
  destruct (reads_unique _ _ _ _ Hr _ _ Hr') as [-> ->]. done.
Qed.

Lemma reads_all_ok sc w sc' : scanner_ok sc → reads_all sc w sc' → scanner_ok sc'.
Proof. intros Hok. induction 1 as [|w k sc1 sc2 _ IH Hr]; [done|]. by apply (reads_ok sc1 k). Qed.

Lemma astep_nil c c' : rtc (astep atof) c c' → c.2 = [] → c' = c.
Proof. intros Hr Hc. destruct Hr as [|c c1 c' Hst]; [done|]. inversion Hst; subst; done. Qed.

(** The parser follows the machine as long as the machine's tokens are those of the text. *)
Lemma simulate sc0 c c' eend : rtc (astep atof) c c' → c'.2 ≠ [] → ∀ p w k e ws,
  yyss p = c.1.1 → pinv sc0 p c.1.2 w k e → settled p → c.2 = k :: ws → reads_list e ws eend →
  ∃ n p' w' k' e', pinv sc0 p' c'.1.2 w' k' e' ∧ settled p' ∧ yyss p' = c'.1.1 ∧
    (∃ ws', c'.2 = k' :: ws' ∧ w ++ k :: ws = w' ++ k' :: ws') ∧
    ∀ m, yyloop (n + m) p = yyloop m p'.
Proof.
  intros Hrun Hne. induction Hrun as [c|c c1 c' Hst Hrun IH]; intros p w k e ws Hss H Hset Hws Hr.
  { exists 0%nat, p, w, k, e. split_and!; [done..| |done]. exists ws. done. }
  destruct (step_ok _ _ _ _ _ _ _ H Hset) as (ct&Hc&Hs). rewrite Hss in Hc.
  inversion Hst as [ss l k0 ws0 s Hcs|ss l k0 ws0 r len s pr a Hcs Hpr Ha]; subst; simpl in *;
    injection Hws as -> ->; rewrite Hcs in Hc; injection Hc as <-.
  - destruct Hs as (p1&Hp1&Hss1&Hset1&_&Hinv). rewrite Hss in Hss1.
    destruct Hr as [sc|sc k' sc1 ws' sc2 Hr Hrl]; [by rewrite (astep_nil _ _ Hrun eq_refl) in Hne|].
    destruct (reads_ok _ _ _ (pi_ok _ _ _ _ _ _ _ H) Hr) as [Hok Hk].
    destruct (IH Hne p1 (w ++ [k]) k' sc1 ws' Hss1 (Hinv _ _ Hr Hok Hk) Hset1 eq_refl Hrl)
      as (n&p'&w'&k2&e'&H'&Hset'&Hss'&(ws2&E2&Ew)&Hl).
    exists (S n), p', w', k2, e'. split_and!; [done..| |].
    + exists ws2. split; [done|]. by rewrite <- Ew, <- (assoc_L (++)).
    + intros m. cbn [Nat.add]. by rewrite (yyloop_next _ _ _ Hp1).
  - destruct Hs as (p1&pr1&a1&Hp1&Hss1&Hset1&Hpr1&Ha1&H1). rewrite Hss in Hss1.
    rewrite Hpr in Hpr1. injection Hpr1 as <-. rewrite Ha in Ha1. injection Ha1 as <-.
    destruct (IH Hne p1 w k e ws Hss1 H1 Hset1 eq_refl Hr) as (n&p'&w'&k2&e'&H'&Hset'&Hss'&Hw&Hl).
    exists (S n), p', w', k2, e'. split_and!; [done..|].
    intros m. cbn [Nat.add]. by rewrite (yyloop_next _ _ _ Hp1).
Qed.

(** ** The start *)

Lemma init_ok slot sc tree k e : no_conds slot → no_order slot → scanner_ok sc → reads sc k e →
  pinv sc (yyparse_init slot sc tree) [ANone] [] k e.
Proof.
  intros Hc Ho Hok Hr. destruct (reads_ok _ _ _ Hok Hr) as [Hok' Hk].
  split; simpl; try done.
  - apply mem_stack_in. vm_compute. reflexivity.
  - constructor.
  - by constructor.
  - exists sc. split_and!; [constructor|done..].
  - intros _. unfold slots. simpl. repeat constructor; done.
  - intros _. unfold slots. simpl. repeat constructor; done.
Qed.

Lemma yyparse_total slot sc tree : no_conds slot → no_order slot → scanner_ok sc →
  ∃ r, yyparse atof slot sc tree = Some r ∧ parse_outcome sc r.
Proof.
  intros Hc Ho Hok. destruct (next_token sc Hok) as (k&e&Hr&_&_&Hlt).
  assert (Hf : finishes sc (12 * S (length (yy_rest sc)) + 13) (yyparse_init slot sc tree)).
  { eapply finishes_all; [by apply init_ok|by left|done|done]. }
  eapply finishes_mono; [exact Hf|lia].
Qed.

Lemma yyparse_complete slot sc tree w sc' t : no_conds slot → no_order slot → scanner_ok sc →
  reads_all sc w sc' → derives (N n_start) w (ATree t) →
  ∃ n p, yyloop n (yyparse_init slot sc tree) = Some (0, p) ∧ parse_tree p = t ∧ yyscanner p = sc'.
Proof.
  intros Hc Ho Hok Hr Hd. destruct (next_token sc' (reads_all_ok _ _ _ Hok Hr)) as (k&e&Hk&_).
  destruct (machine_complete atof w (ATree t) k Hd) as (t'&c&[= <-]&Hrun&Hacc&Hck).
  assert (Hall : reads_list sc (w ++ [k]) e) by (eapply reads_list_snoc; [by apply reads_all_list|done]).
  destruct Hacc as (ss&l&k'&ws&r&pr&->&Hca&Hpr&Ha). injection Hck as -> ->.
  revert Hall Hrun. destruct (w ++ [k]) as [|k1 w1] eqn:Heq; [by destruct w|]. intros Hall Hrun.
  inversion Hall as [|? ? sc1 ? ? Hr1 Hl1]; subst.
  destruct (simulate sc _ _ e Hrun ltac:(done) (yyparse_init slot sc tree) [] k1 sc1 w1)
    as (n&p'&w'&k2&e'&H'&Hset'&Hss'&(ws'&[= <- <-]&Ew)&Hl); [done|by apply init_ok|by left|done|done|].
  destruct (step_ok _ _ _ _ _ _ _ H' Hset') as (ct&Hct&Hs). rewrite Hss' in Hct. simpl in Hct.
  rewrite Hca in Hct. injection Hct as <-. destruct Hs as (p2&pr'&t'&Hp2&Ht&Hpr'&Ha'&_&Hra).
  rewrite Hpr in Hpr'. injection Hpr' as <-. simpl in Ha'. rewrite Ha in Ha'. injection Ha' as <-.
  simpl in Ew. rewrite <- Heq in Ew. apply app_inj_tail in Ew as [<- _].
  exists (n + 1)%nat, p2. split_and!; [|done|by eapply reads_all_unique].
  rewrite Hl. by apply yyloop_done.
Qed.

(** The tokens of a first part of the text derive from [start]. *)
Lemma yyparse_accepts slot sc tree w sc' t : no_conds slot → no_order slot → scanner_ok sc →
  reads_all sc w sc' → derives (N n_start) w (ATree t) →
  ∃ p, yyparse atof slot sc tree = Some (0, p) ∧ parse_tree p = t ∧ yyscanner p = sc'.
Proof.
  intros Hc Ho Hok Hr Hd. destruct (yyparse_complete slot sc tree w sc' t Hc Ho Hok Hr Hd) as (n&p&Hl&Ht&Hs).
  destruct (yyparse_total slot sc tree Hc Ho Hok) as (r&Hp&_). exists p. split; [|done]. rewrite Hp. unfold yyparse in Hp.
  pose proof (yyloop_mono _ (n + 16 * (length (yy_rest sc) + 2)) _ _ Hl ltac:(lia)) as H1.
  pose proof (yyloop_mono _ (n + 16 * (length (yy_rest sc) + 2)) _ _ Hp ltac:(lia)) as H2. congruence.
Qed.

(** C4: the parser and the scanner together implement [yacc.y] over [lex.l].  On the buffer of any
    text, started in a start condition of [lex.l], [yyparse] returns: with 0 when the tokens of a
    first part of the text derive from [start], and then with the tree of that derivation and
    the scanner after that part, and otherwise with 1.  In particular the stack never
    overflows, no null pointer gets into a tree, no left-over value of a slot is used, and the
    tables agree with the grammar. *)
Theorem yyparse_correct slot sc tree : no_conds slot → no_order slot → scanner_ok sc →
  ∃ res p, yyparse atof slot sc tree = Some (res, p) ∧ (res = 0 ∨ res = 1) ∧
    ∀ t sc', (res = 0 ∧ parse_tree p = t ∧ yyscanner p = sc') ↔
             (∃ w, reads_all sc w sc' ∧ derives (N n_start) w (ATree t)).
Proof.
  intros Hc Ho Hok. destruct (yyparse_total slot sc tree Hc Ho Hok) as ([res p]&Hp&Hout).
  exists res, p. split; [done|]. unfold parse_outcome in Hout. simpl in Hout. split; [tauto|].
  intros t sc'. split.
  - intros (->&<-&<-). destruct Hout as [[_ Hw]|[? _]]; [done|done].
  - intros (w&Hr&Hd). destruct (yyparse_accepts slot sc tree w sc' t Hc Ho Hok Hr Hd) as (p'&Hp'&Ht&Hs).
    rewrite Hp in Hp'. by injection Hp' as -> ->.
Qed.
End parse.

Definition any_slot : SemValue := SemValue_make 0 0 OrderBy_DEFAULT SV_OP_EQ.
Definition a_text : Scanner := mkScanner INITIAL (str_bytes "drop table /* the first */ t; and more").

Lemma yyparse_correct_witness :
  ∃ res p, yyparse (λ _, 0) any_slot a_text None = Some (res, p) ∧ (res = 0 ∨ res = 1) ∧
    ∀ t sc', (res = 0 ∧ parse_tree p = t ∧ yyscanner p = sc') ↔
             (∃ w, reads_all (λ _, 0) a_text w sc' ∧ derives (λ _, 0) (N n_start) w (ATree t)).
Proof.
  apply (yyparse_correct (λ _, 0) any_slot a_text None); [reflexivity|reflexivity|].
  split; [by left|]. repeat constructor; vm_compute; discriminate.
Defined.

Example a_text_dropped : (λ r, (r.1, parse_tree r.2, yy_rest (yyscanner r.2))) <$> yyparse (λ _, 0) any_slot a_text None =
  Some (0, Some (DropTable "t"), str_bytes " and more").
Proof. vm_compute. reflexivity. Qed.

Definition parsed_text (text : string) : option (Z * option TreeNode) :=
  (λ r, (r.1, parse_tree r.2)) <$> yyparse (λ _, 0) any_slot (yy_scan_string text INITIAL) None.

(** A character no rule knows is skipped, the statement is executed without it. *)
Example unknown_character_skipped : parsed_text "delete from t ? where id # = 1;" =
  Some (0, Some (DeleteStmt "t" [mkBinaryExpr (mkCol "" "id") SV_OP_EQ (EValue (IntLit 1))])).
Proof. vm_compute. reflexivity. Qed.

(** An integer outside the range of [int] becomes another number. *)
Example integer_cut : parsed_text "insert into t values (4294967297);" = Some (0, Some (InsertStmt "t" [IntLit 1])).
Proof. vm_compute. reflexivity. Qed.

(** The rest after the first statement is not read. *)
Example second_statement_dropped : parsed_text "delete from t; delete from u;" = parsed_text "delete from t;".
Proof. vm_compute. reflexivity. Qed.
