(* ===== verification/Sentence.v ===== *)
(** * Writing tokens

    Tokens written one after the other, each followed by a blank, are read back: the scanner sees
    the same tokens.  With the parser this gives a text for every sentence of the grammar. *)

From S2P Require Import Prelude Text Values Ast SemVal ParserTables Scanner Lexical LexicalProps Grammar Lexing.
From S2P Require Import Yacc YaccProps Parse.
From stdpp Require Import options.

#[local] Opaque sim.

(** The rules of [lex.l] that return a token. *)
Definition token_rules : list Z := seqZ 8 38.

(** A token is spelled by a text that one of these rules matches, and none before it. *)
Definition spelled (atof : string → Z) (k : tok) : Prop := ∃ r set,
  longest_match INITIAL k.2 r (length k.2) ∧ r ∈ token_rules ∧ no_nul k.2 ∧
  yy_action atof r k.2 = Return k.1 set.

Definition blank : byte := x20.

Definition sentence (w : list tok) : list byte := k ← w; k.2 ++ [blank].

(** ** What is checked of the automaton *)

Definition blank_ok (p : pair_of) : bool :=
  implb (bool_decide (accepting p.2 ∈ token_rules)) (match advance blank p.2 with [] => true | _ => false end).

Lemma blanks_checked : forallb blank_ok sim = true.
Proof. vm_compute. reflexivity. Qed.

(** A blank or a tab starts no token. *)
Lemma white_checked b : b ∈ [x20; x09] → forallb (λ x : Z * re, bool_decide (x.1 ∉ token_rules)) (advance b initial_rules) = true.
Proof. intros [->|[->|[]%elem_of_nil]%elem_of_cons]%elem_of_cons; vm_compute; reflexivity. Qed.

Lemma rules_in_advance b l x : x ∈ advance b l → ∃ e, (x.1, e) ∈ l.
Proof.
  intros [_ Hx]%list_elem_of_filter. apply list_elem_of_fmap in Hx as ([r e]&->&He). by exists e.
Qed.

Lemma rules_in_advances l w x : x ∈ advances l w → ∃ e, (x.1, e) ∈ l.
Proof.
  revert l. induction w as [|b w IH]; intros l Hx; [exists x.2; by destruct x|].
  simpl in Hx. destruct (IH _ Hx) as [e He]. by apply rules_in_advance in He.
Qed.

(** ** One token *)

(** After some characters, the rules still alive belong to a state of the automaton. *)
Lemma advances_state w s l : (s, l) ∈ sim → no_nul w → advances l w = [] ∨ ∃ s', (s', advances l w) ∈ sim.
Proof.
  intros Hs Hw. revert s l Hs. induction Hw as [|b w Hb Hw IH]; intros s l Hs; [eauto|]. simpl.
  destruct (stops s) eqn:Est.
  - left. by rewrite (sim_stop _ _ _ Hs Est Hb), advances_nil.
  - destruct (sim_step _ _ _ Hs Est Hb) as (c&s'&_&_&Hs'). by apply (IH s').
Qed.

Lemma longest_accepting x r : longest_match INITIAL x r (length x) → accepting (advances initial_rules x) = r.
Proof.
  intros (_&Hm&_&Hl). rewrite firstn_all in *. apply has_rules in Hm.
  assert (Ho : ordered 0 (advances initial_rules x) = true)
    by (apply ordered_advances; vm_compute; reflexivity).
  assert (Hn : accepting (advances initial_rules x) ≠ 0).
  { intros E. by eapply (accepting_zero 0). }
  destruct (accepting_least 0 _ Ho Hn) as [Hh Hle].
  pose proof (Hle r Hm). pose proof (Hl (accepting (advances initial_rules x)) (proj2 (has_rules INITIAL _ _) Hh)). lia.
Qed.

Lemma spelled_blank atof k rest : spelled atof k → no_nul rest →
  ∃ r set, longest_match INITIAL (k.2 ++ blank :: rest) r (length k.2) ∧ yy_action atof r k.2 = Return k.1 set.
Proof.
  intros (r&set&Hm&Hr&Hn&Ha) Hrest. exists r, set. split; [|done].
  pose proof (longest_accepting _ _ Hm) as Hacc. change initial_rules with (rules INITIAL) in Hacc.
  apply longest_dead; [by left| |done| |].
  - intros E. destruct Hm as [[Hlen _] _]. rewrite E in Hlen. simpl in Hlen. lia.
  - intros ->. by apply elem_of_seqZ in Hr as [? _].
  - intros b [= <-]. destruct (start_sim INITIAL ltac:(by left)) as (Hs&_).
    destruct (advances_state k.2 _ _ Hs Hn) as [He|[s' Hs']]; [by rewrite He|].
    apply (forallb_in _ _ _ blanks_checked) in Hs'. unfold blank_ok in Hs'. cbn [fst snd] in Hs'.
    rewrite Hacc, bool_decide_eq_true_2 in Hs' by done. by destruct (advance blank (advances (rules INITIAL) k.2)).
Qed.

(** A spelled token does not start with white space. *)
Lemma spelled_head atof k : spelled atof k → ∃ b x, k.2 = b :: x ∧ b ∉ [x20; x09].
Proof.
  intros (r&set&Hm&Hr&_&_). destruct k as [t [|b x]]; cbn [fst snd] in *; [by apply longest_nonempty in Hm|].
  exists b, x. split; [done|]. intros Hb%white_checked. destruct Hm as (_&Hmat&_). rewrite firstn_all in Hmat.
  apply has_rules in Hmat as (e&He&_). simpl in He. apply rules_in_advances in He as [e' He']. simpl in He'.
  apply (forallb_in _ _ _ Hb) in He'. by apply bool_decide_eq_true in He'.
Qed.

(** One blank before it is skipped: no rule matches more than the blank. *)
Lemma blank_longest b rest : b ∉ [x20; x09] → no_nul (b :: rest) → longest_match INITIAL (blank :: b :: rest) 6 1.
Proof.
  intros Hb Hn. apply (longest_dead INITIAL [blank] (b :: rest)); [by left|done|vm_compute; reflexivity|done|].
  intros b' [= <-].
  assert (Hall : forallb (λ b, bool_decide (b ∈ [x20; x09]) ||
      match advance b (advance blank initial_rules) with [] => true | _ => false end) all_bytes = true)
    by (vm_compute; reflexivity).
  pose proof (forallb_in _ _ b Hall (all_bytes_in _ (Forall_inv Hn))) as H. cbv beta in H.
  rewrite bool_decide_eq_false_2 in H by done. cbn [orb] in H. cbn [advances]. change (rules INITIAL) with initial_rules.
  by destruct (advance b (advance blank initial_rules)).
Qed.

(** ** A sentence *)

Section sentence.
Context (atof : string → Z).

Lemma no_nul_sentence w : Forall (spelled atof) w → no_nul (sentence w).
Proof.
  induction 1 as [|k w (r&set&_&_&Hn&_) _ IH]; [constructor|]. unfold sentence. cbn.
  apply Forall_app. split; [|done]. apply Forall_app. split; [done|]. by constructor.
Qed.

Lemma reads_spelled k rest : spelled atof k → no_nul rest →
  reads atof (mkScanner INITIAL (k.2 ++ blank :: rest)) k (mkScanner INITIAL (blank :: rest)).
Proof.
  intros Hk Hn. destruct (spelled_blank atof k rest Hk Hn) as (r&set&Hm&Ha).
  pose proof (reads_token atof INITIAL (k.2 ++ blank :: rest) r (length k.2) k.1 set Hm) as Hr.
  rewrite take_app_length, drop_app_length in Hr. specialize (Hr Ha). by destruct k.
Qed.

Lemma reads_spelled_blank k rest : spelled atof k → no_nul rest →
  reads atof (mkScanner INITIAL (blank :: k.2 ++ blank :: rest)) k (mkScanner INITIAL (blank :: rest)).
Proof.
  intros Hk Hn. destruct (spelled_head atof k Hk) as (b&x&Ek&Hb).
  eapply (reads_skip atof INITIAL _ 6 1); [|done|].
  - rewrite Ek. simpl. apply blank_longest; [done|].
    change (no_nul ((b :: x) ++ blank :: rest)). rewrite <- Ek. destruct Hk as (_&_&_&_&Hkn&_).
    apply Forall_app. split; [done|]. by constructor.
  - by apply reads_spelled.
Qed.

Lemma reads_rest w : Forall (spelled atof) w →
  reads_list atof (mkScanner INITIAL (blank :: sentence w)) w (mkScanner INITIAL [blank]).
Proof.
  induction 1 as [|k w Hk Hw IH]; [constructor|]. econstructor; [|exact IH].
  unfold sentence. cbn. rewrite <- (assoc_L (++)). apply reads_spelled_blank; [done|by apply no_nul_sentence].
Qed.

Lemma list_reads sc0 w0 sc w sc' : reads_all atof sc0 w0 sc → reads_list atof sc w sc' → reads_all atof sc0 (w0 ++ w) sc'.
Proof.
  intros H0 Hl. revert w0 H0. induction Hl as [|sc k sc1 w sc2 Hr Hl IH]; intros w0 H0; [by rewrite app_nil_r|].
  rewrite (cons_middle k w0 w), (assoc_L (++)). apply IH. by econstructor.
Qed.

Lemma sentence_reads w : Forall (spelled atof) w → w ≠ [] →
  reads_all atof (mkScanner INITIAL (sentence w)) w (mkScanner INITIAL [blank]).
Proof.
  intros Hw Hne. destruct Hw as [|k w Hk Hw]; [done|].
  apply (list_reads _ [] (mkScanner INITIAL (sentence (k :: w)))); [constructor|].
  econstructor; [|by apply reads_rest]. unfold sentence at 1. cbn. rewrite <- (assoc_L (++)).
  apply reads_spelled; [done|by apply no_nul_sentence].
Qed.

(** A sentence of the grammar is parsed to its tree. *)
Lemma sentence_parsed slot w t tree : no_conds slot → no_order slot →
  Forall (spelled atof) w → derives atof (N n_start) w (ATree t) → ∃ p,
  yyparse atof slot (mkScanner INITIAL (sentence w)) tree = Some (0, p) ∧ parse_tree p = t ∧
  yyscanner p = mkScanner INITIAL [blank].
Proof.
  intros Hc Ho Hw Hd.
  assert (Hne : w ≠ []).
  { intros ->. pose proof (proj1 (AutomatonProps.first_derives atof) _ _ _ Hd) as Hf. vm_compute in Hf. done. }
  assert (Hok : scanner_ok (mkScanner INITIAL (sentence w))) by (split; [by left|by apply no_nul_sentence]).
  exact (yyparse_accepts atof slot _ tree w _ t Hc Ho Hok (sentence_reads w Hw Hne) Hd).
Qed.
End sentence.
