(* ===== verification/SqlText.v ===== *)
(** * Statements as text

    A printer of syntax trees as SQL, and that the parser reads back what it prints.  The trees
    are those the grammar can make: names that [lex.l] takes for identifiers, numbers within
    [int], strings without a quote. *)

From S2P Require Import Prelude Errors Text Values Ast SemVal ParserTables Scanner Lexical LexicalProps Grammar Lexing.
From S2P Require Import Yacc Automaton AutomatonProps YaccProps Parse Sentence.
From stdpp Require Import options.
Import ast sem.

#[local] Opaque sim.

(** ** Tokens *)

Definition kw (t : Z) (s : string) : tok := (t, str_bytes s).
Definition punct (s : string) : tok := (default 0 (byte_val <$> head (str_bytes s)), str_bytes s).
Definition name (s : string) : tok := kw IDENTIFIER s.
Definition quoted (s : string) : list byte := [x27] ++ str_bytes s ++ [x27].

(** Elements with a separator between them. *)
Definition separated {A} (sep : tok) (f : A → list tok) (l : list A) : list tok :=
  match l with
  | [] => []
  | x :: l => f x ++ y ← l; sep :: f y
  end.

Section print.
(** A text for the number of a [float]. *)
Context (float_text : Z → string).

Definition value_tokens (v : Value) : list tok :=
  match v with
  | IntLit n => [kw VALUE_INT (to_string n)]
  | FloatLit b => [kw VALUE_FLOAT (float_text b)]
  | StringLit s => [(VALUE_STRING, quoted s)]
  | BareValue => []
  end.

Definition col_tokens (c : Col) : list tok :=
  if decide (c_tab_name c = "") then [name (c_col_name c)]
  else [name (c_tab_name c); punct "."; name (c_col_name c)].

Definition op_token (op : SvCompOp) : tok :=
  match op with
  | SV_OP_EQ => punct "=" | SV_OP_LT => punct "<" | SV_OP_GT => punct ">"
  | SV_OP_NE => kw NEQ "<>" | SV_OP_LE => kw LEQ "<=" | SV_OP_GE => kw GEQ ">="
  end.

Definition expr_tokens (e : Expr) : list tok :=
  match e with EValue v => value_tokens v | ECol c => col_tokens c end.

Definition cond_tokens (c : BinaryExpr) : list tok :=
  col_tokens (be_lhs c) ++ op_token (be_op c) :: expr_tokens (be_rhs c).

Definition where_tokens (l : list BinaryExpr) : list tok :=
  match l with [] => [] | _ => kw WHERE "where" :: separated (kw AND "and") cond_tokens l end.

Definition type_tokens (t : TypeLen) : list tok :=
  match tl_type t with
  | SV_TYPE_INT => [kw INT "int"]
  | SV_TYPE_FLOAT => [kw FLOAT "float"]
  | SV_TYPE_STRING => [kw CHAR "char"; punct "("; kw VALUE_INT (to_string (tl_len t)); punct ")"]
  end.

Definition field_tokens (f : ColDef) : list tok := name (cd_col_name f) :: type_tokens (cd_type_len f).
Definition set_tokens (s : SetClause) : list tok := name (sc_col_name s) :: punct "=" :: value_tokens (sc_val s).

Definition dir_tokens (d : OrderByDir) : list tok :=
  match d with OrderBy_DEFAULT => [] | OrderBy_ASC => [kw ASC "asc"] | OrderBy_DESC => [kw DESC "desc"] end.

Definition order_tokens (o : option OrderBy) : list tok :=
  match o with
  | None => []
  | Some o => kw ORDER "order" :: kw BY "by" :: col_tokens (ob_cols o) ++ dir_tokens (orderby_dir o)
  end.

Definition names (l : list string) : list tok := separated (punct ",") (λ s, [name s]) l.

Definition selector_tokens (l : list Col) : list tok :=
  match l with [] => [punct "*"] | _ => separated (punct ",") col_tokens l end.

Definition stmt_tokens (t : TreeNode) : list tok :=
  match t with
  | Help => []
  | ShowTables => [kw SHOW "show"; kw TABLES "tables"]
  | TxnBegin => [kw TXN_BEGIN "begin"]
  | TxnCommit => [kw TXN_COMMIT "commit"]
  | TxnAbort => [kw TXN_ABORT "abort"]
  | TxnRollback => [kw TXN_ROLLBACK "rollback"]
  | CreateTable n l =>
      kw CREATE "create" :: kw TABLE "table" :: name n :: punct "(" :: separated (punct ",") field_tokens l ++ [punct ")"]
  | DropTable n => [kw DROP "drop"; kw TABLE "table"; name n]
  | DescTable n => [kw DESC "desc"; name n]
  | CreateIndex n l => kw CREATE "create" :: kw INDEX "index" :: name n :: punct "(" :: names l ++ [punct ")"]
  | DropIndex n l => kw DROP "drop" :: kw INDEX "index" :: name n :: punct "(" :: names l ++ [punct ")"]
  | InsertStmt n l =>
      kw INSERT "insert" :: kw INTO "into" :: name n :: kw VALUES "values" :: punct "(" ::
        separated (punct ",") value_tokens l ++ [punct ")"]
  | DeleteStmt n w => kw DELETE "delete" :: kw FROM "from" :: name n :: where_tokens w
  | UpdateStmt n s w =>
      kw UPDATE "update" :: name n :: kw SET "set" :: separated (punct ",") set_tokens s ++ where_tokens w
  | SelectStmt s =>
      kw SELECT "select" :: selector_tokens (sel_cols s) ++ kw FROM "from" :: names (sel_tabs s) ++ where_tokens (sel_conds s) ++ order_tokens (order s)
  end.

Definition tree_tokens (t : TreeNode) : list tok :=
  match t with Help => [kw HELP "help"] | _ => stmt_tokens t ++ [punct ";"] end.

Definition sql_text (t : TreeNode) : string := bytes_str (sentence (tree_tokens t)).
End print.

(** ** The trees of the grammar *)

(** [lex.l] takes the whole of it for an identifier: it is none of the keywords. *)
Definition name_ok (s : string) : Prop :=
  no_nul (str_bytes s) ∧ longest_match INITIAL (str_bytes s) 42 (length (str_bytes s)).

Definition string_ok (s : string) : Prop := Forall (λ b, byte_val b ≠ 0 ∧ b ≠ x27) (str_bytes s).

Section printable.
Context (float_ok : Z → Prop).

Definition value_ok (v : Value) : Prop :=
  match v with
  | IntLit n => is_int32 n
  | FloatLit b => float_ok b
  | StringLit s => string_ok s
  | BareValue => False
  end.

Definition col_ok (c : Col) : Prop := (c_tab_name c = "" ∨ name_ok (c_tab_name c)) ∧ name_ok (c_col_name c).
Definition expr_ok (e : Expr) : Prop := match e with EValue v => value_ok v | ECol c => col_ok c end.
Definition cond_ok (c : BinaryExpr) : Prop := col_ok (be_lhs c) ∧ expr_ok (be_rhs c).
Definition type_ok (t : TypeLen) : Prop := match tl_type t with SV_TYPE_STRING => is_int32 (tl_len t) | _ => tl_len t = 4 end.
Definition field_ok (f : ColDef) : Prop := name_ok (cd_col_name f) ∧ type_ok (cd_type_len f).
Definition set_ok (s : SetClause) : Prop := name_ok (sc_col_name s) ∧ value_ok (sc_val s).

Definition some_ok {A} (P : A → Prop) (l : list A) : Prop := l ≠ [] ∧ Forall P l.

Definition tree_ok (t : TreeNode) : Prop :=
  match t with
  | Help | ShowTables | TxnBegin | TxnCommit | TxnAbort | TxnRollback => True
  | CreateTable n l => name_ok n ∧ some_ok field_ok l
  | DropTable n | DescTable n => name_ok n
  | CreateIndex n l | DropIndex n l => name_ok n ∧ some_ok name_ok l
  | InsertStmt n l => name_ok n ∧ some_ok value_ok l
  | DeleteStmt n w => name_ok n ∧ Forall cond_ok w
  | UpdateStmt n s w => name_ok n ∧ some_ok set_ok s ∧ Forall cond_ok w
  | SelectStmt s =>
      Forall col_ok (sel_cols s) ∧ some_ok name_ok (sel_tabs s) ∧ Forall cond_ok (sel_conds s) ∧
      (∀ o, order s = Some o → col_ok (ob_cols o)) ∧
      s = SelectNode_make (sel_cols s) (sel_tabs s) (sel_conds s) (order s)
  end.
End printable.

(** ** Spelling *)

Section roundtrip.
Context (atof : string → Z) (float_text : Z → string) (float_ok : Z → Prop).
(** The text of a number is one for the scanner, and [atof] reads it back. *)
Context (Hfloat : ∀ b, float_ok b → atof (float_text b) = b ∧ spelled atof (kw VALUE_FLOAT (float_text b))).

Abbreviation spelled := (spelled atof).
Abbreviation derives := (derives atof).
Abbreviation derives_all := (derives_all atof).

Lemma bytes_str_bytes s : bytes_str (str_bytes s) = s.
Proof. apply String.string_of_list_byte_of_string. Qed.

Lemma str_bytes_str l : str_bytes (bytes_str l) = l.
Proof. apply String.list_byte_of_string_of_list_byte. Qed.

(** Spelling is decided by the scanner. *)
Lemma scan_longest x r n : x ≠ [] → no_nul x → yy_scan INITIAL x = Some (ScanRule r n) → longest_match INITIAL x r n.
Proof.
  intros Hx Hn Hs. destruct (yy_scan_longest INITIAL x ltac:(by left) Hn Hx) as (r'&n'&Hs'&Hm&_). congruence.
Qed.

Lemma spelled_scan k r set : forallb (λ b, negb (byte_val b =? 0)) k.2 = true →
  yy_scan INITIAL k.2 = Some (ScanRule r (length k.2)) →
  bool_decide (r ∈ token_rules) = true → yy_action atof r k.2 = Return k.1 set → spelled k.
Proof.
  intros Hn Hs Hr%bool_decide_eq_true Ha. exists r, set.
  assert (Hnul : no_nul k.2).
  { apply Forall_forall. intros b Hb. apply (forallb_in _ _ _ Hn), negb_true_iff, Z.eqb_neq in Hb. done. }
  split_and!; try done. apply scan_longest; [|done|done]. intros E. by rewrite E in Hs.
Qed.

Ltac spell := eapply spelled_scan; [vm_compute; reflexivity|vm_compute; reflexivity|vm_compute; reflexivity|reflexivity].

Lemma accepting_longest x r : x ≠ [] → accepting (advances initial_rules x) = r → r ≠ 0 →
  longest_match INITIAL x r (length x).
Proof.
  intros Hx Hr Hr0. rewrite <- (app_nil_r x) at 1. by apply (longest_dead INITIAL x []); [left|..].
Qed.

Lemma spelled_name s : name_ok s → spelled (name s).
Proof.
  intros [Hn Hm]. exists 42. eexists. split_and!; [exact Hm|apply elem_of_seqZ; lia|done|reflexivity].
Qed.

(** Numbers: a sign and digits. *)
Definition digits : list byte := [x30; x31; x32; x33; x34; x35; x36; x37; x38; x39].
Definition after_digit : list (Z * re) := Eval vm_compute in advance x30 initial_rules.
Definition after_digits : list (Z * re) := Eval vm_compute in advance x30 after_digit.

Lemma digits_checked : forallb (λ b,
  bool_decide (advance b initial_rules = after_digit) && bool_decide (advance b after_digit = after_digits) &&
  bool_decide (advance b after_digits = after_digits) &&
  bool_decide (advance b (advance x2d initial_rules) = after_digits) && negb (byte_val b =? 0)) digits = true.
Proof. vm_compute. reflexivity. Qed.

Lemma advances_after_digits ds : Forall (λ b, b ∈ digits) ds → advances after_digits ds = after_digits.
Proof.
  induction 1 as [|b ds Hb _ IH]; [done|]. simpl. apply (forallb_in _ _ _ digits_checked) in Hb.
  rewrite !andb_true_iff, !bool_decide_eq_true in Hb. destruct Hb as [[[[_ _] ->] _] _]. exact IH.
Qed.

Lemma digits_accepting ds : Forall (λ b, b ∈ digits) ds → ds ≠ [] →
  accepting (advances initial_rules ds) = 43 ∧ accepting (advances initial_rules (x2d :: ds)) = 43.
Proof.
  intros Hds Hne. destruct Hds as [|b ds Hb Hds]; [done|].
  apply (forallb_in _ _ _ digits_checked) in Hb. rewrite !andb_true_iff, !bool_decide_eq_true in Hb.
  destruct Hb as [[[[H1 H2] _] H4] _]. cbn [advances]. rewrite H1, H4. split.
  - destruct Hds as [|b' ds Hb' Hds]; [reflexivity|]. cbn [advances].
    apply (forallb_in _ _ _ digits_checked) in Hb'. rewrite !andb_true_iff, !bool_decide_eq_true in Hb'.
    destruct Hb' as [[[[_ ->] _] _] _]. by rewrite advances_after_digits.
  - by rewrite advances_after_digits.
Qed.

Lemma digits_no_nul ds : Forall (λ b, b ∈ digits) ds → no_nul ds.
Proof.
  intros Hds. eapply Forall_impl; [exact Hds|]. intros b Hb%(forallb_in _ _ _ digits_checked).
  rewrite !andb_true_iff in Hb. destruct Hb as [_ Hb]. by apply negb_true_iff, Z.eqb_neq in Hb.
Qed.

Lemma digit_char x : (x < 10)%N → str_bytes (String (pretty_N_char x) "") = [default x30 (digits !! N.to_nat x)] ∧
  default x30 (digits !! N.to_nat x) ∈ digits.
Proof.
  intros H. assert (Hx : x ∈ (N.of_nat <$> seq 0 10)).
  { apply list_elem_of_fmap. exists (N.to_nat x). split; [lia|]. apply elem_of_seq. lia. }
  simpl in Hx. repeat (apply elem_of_cons in Hx as [->|Hx];
    [split; [reflexivity|apply list_elem_of_In; vm_compute; tauto]|]). by apply not_elem_of_nil in Hx.
Qed.

Lemma str_bytes_cons c s : str_bytes (String c s) = str_bytes (String c "") ++ str_bytes s.
Proof. done. Qed.

Lemma pretty_go_digits x s : Forall (λ b, b ∈ digits) (str_bytes s) → Forall (λ b, b ∈ digits) (str_bytes (pretty_N_go x s)).
Proof.
  revert s. induction (N.lt_wf_0 x) as [x _ IH]. intros s Hs.
  destruct (decide (x = 0)%N) as [->|Hx]; [by rewrite pretty_N_go_0|].
  rewrite pretty_N_go_step by lia. apply IH; [apply N.div_lt; lia|].
  rewrite str_bytes_cons. destruct (digit_char (x `mod` 10)%N) as [-> Hd]; [apply N.mod_lt; lia|].
  by constructor.
Qed.

Lemma pretty_N_digits x : Forall (λ b, b ∈ digits) (str_bytes (pretty (x : BinNums.N))) ∧ str_bytes (pretty x) ≠ [].
Proof.
  split.
  - unfold pretty, pretty_N. case_decide; [|apply pretty_go_digits; constructor].
    constructor; [|constructor]. by left.
  - pose proof (pretty_N_app x "") as [H _]. intros E. rewrite string_app_nil in H.
    destruct (pretty x) as [|c s]; [done|]. rewrite str_bytes_cons in E. by apply app_eq_nil in E as [? _].
Qed.

Lemma spelled_int n : spelled (kw VALUE_INT (to_string n)).
Proof.
  assert (H : ∃ ds, Forall (λ b, b ∈ digits) ds ∧ ds ≠ [] ∧
    (str_bytes (to_string n) = ds ∨ str_bytes (to_string n) = x2d :: ds)).
  { destruct n as [|p|p]; unfold to_string.
    - exists [x30]. split_and!; [|done|by left]. constructor; [by left|constructor].
    - destruct (pretty_N_digits (N.pos p)) as [H1 H2]. exists (str_bytes (pretty (N.pos p))). auto.
    - destruct (pretty_N_digits (N.pos p)) as [H1 H2]. exists (str_bytes (pretty (N.pos p))). auto. }
  destruct H as (ds&Hds&Hne&Hx). destruct (digits_accepting ds Hds Hne) as [H1 H2].
  exists 43. eexists. unfold kw. cbn [fst snd].
  split_and!; [|apply elem_of_seqZ; lia| |reflexivity]; destruct Hx as [-> | ->].
  - by apply accepting_longest.
  - by apply accepting_longest.
  - by apply digits_no_nul.
  - constructor; [done|]. by apply digits_no_nul.
Qed.

Lemma atoi_to_string n : is_int32 n → atoi (to_string n) = n.
Proof.
  intros Hn. unfold atoi. pose proof (read_Z_pretty n "" I) as Hr. rewrite string_app_nil in Hr.
  change (to_string n) with (pretty n). rewrite Hr.
  unfold is_int32, INT_MIN, INT_MAX in Hn. rewrite Z.min_r, Z.max_r by lia. by apply wrap32_id.
Qed.

(** Strings. *)
Definition in_string : list (Z * re) := Eval vm_compute in advance x41 (advance x27 initial_rules).

Lemma string_checked : forallb (λ b, bool_decide (b = x27) ||
  (bool_decide (advance b (advance x27 initial_rules) = in_string) && bool_decide (advance b in_string = in_string)))
  all_bytes = true.
Proof. vm_compute. reflexivity. Qed.

Lemma string_char b : byte_val b ≠ 0 → b ≠ x27 →
  advance b (advance x27 initial_rules) = in_string ∧ advance b in_string = in_string.
Proof.
  intros Hb Hq. pose proof (forallb_in _ _ b string_checked (all_bytes_in _ Hb)) as H. cbv beta in H.
  rewrite bool_decide_eq_false_2 in H by done. simpl in H. by rewrite andb_true_iff, !bool_decide_eq_true in H.
Qed.

Lemma string_accepting l : Forall (λ b, byte_val b ≠ 0 ∧ b ≠ x27) l →
  accepting (advances initial_rules ([x27] ++ l ++ [x27])) = 45.
Proof.
  intros Hl. cbn [app advances]. destruct Hl as [|b l [Hb Hq] Hl]; [reflexivity|].
  cbn [app advances]. rewrite (proj1 (string_char b Hb Hq)). clear b Hb Hq.
  induction Hl as [|b l [Hb Hq] Hl IH]; [reflexivity|]. cbn [app advances]. by rewrite (proj2 (string_char b Hb Hq)).
Qed.

Lemma spelled_string s : string_ok s → spelled (VALUE_STRING, quoted s).
Proof.
  intros Hs. exists 45. eexists. cbn [fst snd]. split_and!; [|apply elem_of_seqZ; lia| |reflexivity].
  - apply accepting_longest; [done|by apply string_accepting|done].
  - unfold quoted. apply Forall_app. split; [by constructor|]. apply Forall_app. split; [|by constructor].
    eapply Forall_impl; [exact Hs|]. by intros b [? _].
Qed.

Lemma unquote_quoted s : bytes_str (unquote (quoted s)) = s.
Proof.
  unfold unquote, quoted. rewrite !length_app. simpl tail. simpl length.
  replace (1 + (length (str_bytes s) + 1) - 2)%nat with (length (str_bytes s)) by lia.
  rewrite take_app_length. apply bytes_str_bytes.
Qed.

(** ** Derivations *)

Definition good (X : symbol) (w : list tok) (a : attr) : Prop := Forall spelled w ∧ derives X w a.
Definition goods (Xs : list symbol) (w : list tok) (al : list attr) : Prop := Forall spelled w ∧ derives_all Xs w al.

Lemma good_prod r p n w al a : production_of r = Some p → p_lhs p = n → goods (p_rhs p) w al → p_act p al = Some a →
  good (N n) w a.
Proof. intros Hp <- [Hs Hd] Ha. split; [done|]. eapply d_prod; [by eapply production_in|done|done]. Qed.

Lemma goods_nil : goods [] [] [].
Proof. split; constructor. Qed.

Lemma goods_tok t k Xs w al : k.1 = t → spelled k → goods Xs w al → goods (T t :: Xs) (k :: w) (tok_attr atof k :: al).
Proof. intros <- Hk [Hs Hd]. split; [by constructor|]. apply (d_cons atof _ Xs [k]); [constructor|done]. Qed.

Lemma goods_one X k Xs w a al : good X [k] a → goods Xs w al → goods (X :: Xs) (k :: w) (a :: al).
Proof.
  intros [Hk Hx] [Hs Hd]. split; [by apply (Forall_app_2 _ [k])|]. by apply (d_cons atof X Xs [k]).
Qed.

Lemma goods_app X Xs w1 w2 a al : good X w1 a → goods Xs w2 al → goods (X :: Xs) (w1 ++ w2) (a :: al).
Proof. intros [H1 Hx] [H2 Hd]. split; [apply Forall_app; by split|]. by constructor. Qed.

Lemma goods_last X w a : good X w a → goods [X] w [a].
Proof. intros H. rewrite <- (app_nil_r w). apply goods_app; [done|apply goods_nil]. Qed.

Tactic Notation "production" constr(r) "by" tactic3(tac) :=
  eapply (good_prod r); [reflexivity|reflexivity|cbn [p_rhs]; tac|reflexivity].
Ltac token := apply goods_tok; [reflexivity|first [spell|apply spelled_int|by apply spelled_string|by apply spelled_name]|].

Lemma good_name n s : name_ok s → n = n_tbName ∨ n = n_colName → good (N n) [name s] (AStr s).
Proof.
  intros Hs Hn. rewrite <- (bytes_str_bytes s) at 2. destruct Hn as [-> | ->].
  - production 68 by (token; apply goods_nil).
  - production 69 by (token; apply goods_nil).
Qed.

Lemma good_tbName s : name_ok s → good (N n_tbName) [name s] (AStr s).
Proof. intros Hs. apply good_name; auto. Qed.

Lemma good_colName s : name_ok s → good (N n_colName) [name s] (AStr s).
Proof. intros Hs. apply good_name; auto. Qed.

Lemma cons_not_nil {A} (x : A) l : x :: l ≠ [].
Proof. done. Qed.

Lemma good_value v : value_ok float_ok v → good (N n_value) (value_tokens float_text v) (AVal v).
Proof using Hfloat.
  destruct v as [n|b|s|]; simpl; intros Hv; [| | |done].
  - rewrite <- (atoi_to_string n Hv) at 2. rewrite <- (bytes_str_bytes (to_string n)) at 2.
    production 34 by (token; apply goods_nil).
  - destruct (Hfloat b Hv) as [Ha Hs]. rewrite <- Ha at 2. rewrite <- (bytes_str_bytes (float_text b)) at 2.
    production 35 by (apply goods_tok; [done|done|apply goods_nil]).
  - rewrite <- (unquote_quoted s) at 2.
    production 36 by (token; apply goods_nil).
Qed.

Lemma good_col c : col_ok c → good (N n_col) (col_tokens c) (ACol c).
Proof.
  destruct c as [t c]. intros [Ht Hc]. unfold col_tokens. simpl in *. case_decide as Et.
  - subst t. production 43 by (apply goods_last, good_name; auto).
  - destruct Ht as [|Ht]; [done|]. production 42 by
      (eapply goods_one; [apply good_name; auto|]; token; apply goods_last, good_name; auto).
Qed.

Lemma good_expr e : expr_ok float_ok e → good (N n_expr) (expr_tokens float_text e) (AExpr e).
Proof using Hfloat.
  destruct e as [v|c]; simpl; intros He.
  - production 52 by (by apply goods_last, good_value).
  - production 53 by (by apply goods_last, good_col).
Qed.

Lemma good_op o : good (N n_op) [op_token o] (AOp o).
Proof.
  destruct o; [production 46 by (token; apply goods_nil)|production 49 by (token; apply goods_nil)|
    production 47 by (token; apply goods_nil)|production 48 by (token; apply goods_nil)|
    production 50 by (token; apply goods_nil)|production 51 by (token; apply goods_nil)].
Qed.

Lemma good_cond c : cond_ok float_ok c → good (N n_condition) (cond_tokens float_text c) (ACond c).
Proof using Hfloat.
  destruct c as [l o e]. intros [Hl He]. production 37 by
    (apply goods_app; [by apply good_col|]; eapply goods_one; [apply good_op|]; by apply goods_last, good_expr).
Qed.

(** Left-recursive lists: the productions [r1] of one element and [r2] of one more. *)
Lemma separated_snoc {A} sep (f : A → list tok) l x : l ≠ [] → separated sep f (l ++ [x]) = separated sep f l ++ sep :: f x.
Proof.
  destruct l as [|y l]; [done|]. intros _. simpl. rewrite bind_app. simpl. rewrite app_nil_r.
  by rewrite <- (assoc_L (++)).
Qed.

Lemma good_list {A} n e sep (f : A → list tok) (one : A → attr) (many : list A → attr) (P : A → Prop) l :
  spelled sep →
  (∃ r p, production_of r = Some p ∧ p_lhs p = n ∧ p_rhs p = [N e] ∧ ∀ x, p_act p [one x] = Some (many [x])) →
  (∃ r p, production_of r = Some p ∧ p_lhs p = n ∧ p_rhs p = [N n; T sep.1; N e] ∧
     ∀ l x b, p_act p [many l; b; one x] = Some (many (l ++ [x]))) →
  (∀ x, P x → good (N e) (f x) (one x)) → some_ok P l → good (N n) (separated sep f l) (many l).
Proof.
  intros Hsep (r1&p1&Hp1&Hl1&Hr1&Ha1) (r2&p2&Hp2&Hl2&Hr2&Ha2) Hx [Hne Hl].
  induction l as [|x l IH] using rev_ind; [done|]. apply Forall_app in Hl as [Hl Hx1].
  apply Forall_inv in Hx1. destruct l as [|y l].
  - simpl. rewrite app_nil_r. eapply (good_prod r1 p1); [done|done| |apply Ha1]. rewrite Hr1.
    by apply goods_last, Hx.
  - rewrite separated_snoc by done. eapply (good_prod r2 p2); [done|done| |apply (Ha2 _ _ (tok_attr atof sep))].
    rewrite Hr2. apply goods_app; [by apply IH|]. apply goods_tok; [done|done|]. by apply goods_last, Hx.
Qed.

Lemma spelled_comma : spelled (punct ",").
Proof. spell. Qed.

(** [elem] proves one element good, [ok] that the list is not empty and its elements satisfy [P]. *)
Ltac list_of r1 r2 e one many P elem ok :=
  apply (good_list _ e _ _ one many P); [first [exact spelled_comma|spell]|exists r1; eexists; split_and!; reflexivity|
    exists r2; eexists; split_and!; reflexivity|exact elem|exact ok].

Lemma good_where l : Forall (cond_ok float_ok) l → good (N n_optWhereClause) (where_tokens float_text l) (AConds l).
Proof using Hfloat.
  intros Hl. destruct l as [|c l]; [production 38 by (apply goods_nil)|].
  production 39 by (token; apply goods_last; list_of 40 41 n_condition ACond AConds (cond_ok float_ok) good_cond (conj (@cons_not_nil _ c l) Hl)).
Qed.

Lemma good_type t : type_ok t → good (N n_type) (type_tokens t) (AType t).
Proof.
  destruct t as [ty n]. unfold type_ok, type_tokens. destruct ty; simpl; intros Hn; [subst..|].
  - production 29 by (token; apply goods_nil).
  - production 31 by (token; apply goods_nil).
  - rewrite <- (atoi_to_string n Hn) at 2. rewrite <- (bytes_str_bytes (to_string n)) at 2.
    production 30 by (token; token; token; token; apply goods_nil).
Qed.

Lemma good_field f : field_ok f → good (N n_field) (field_tokens f) (AField f).
Proof.
  destruct f as [n t]. intros [Hn Ht]. production 28 by
    (eapply goods_one; [apply good_name; auto|]; by apply goods_last, good_type).
Qed.

Lemma good_set s : set_ok float_ok s → good (N n_setClause) (set_tokens float_text s) (ASet s).
Proof using Hfloat.
  destruct s as [n v]. intros [Hn Hv]. production 56 by
    (eapply goods_one; [apply good_name; auto|]; token; by apply goods_last, good_value).
Qed.

Lemma good_colNames l : some_ok name_ok l → good (N n_colNameList) (names l) (AStrs l).
Proof. intros Hl. list_of 26 27 n_colName AStr AStrs name_ok good_colName Hl. Qed.

Lemma good_tables l : some_ok name_ok l → good (N n_tableList) (names l) (AStrs l).
Proof. intros Hl. list_of 59 60 n_tbName AStr AStrs name_ok good_tbName Hl. Qed.

Lemma good_selector l : Forall col_ok l → good (N n_selector) (selector_tokens l) (ACols l).
Proof.
  intros Hl. destruct l as [|c l]; [production 57 by (token; apply goods_nil)|].
  production 58 by (apply goods_last; list_of 44 45 n_col ACol ACols col_ok good_col (conj (@cons_not_nil _ c l) Hl)).
Qed.

Lemma good_dir d : good (N n_opt_asc_desc) (dir_tokens d) (ADir d).
Proof.
  destruct d; [production 67 by (apply goods_nil)|production 65 by (token; apply goods_nil)|
    production 66 by (token; apply goods_nil)].
Qed.

Lemma good_order o : (∀ x, o = Some x → col_ok (ob_cols x)) → good (N n_opt_order_clause) (order_tokens o) (AOrder o).
Proof.
  intros Ho. destruct o as [[c d]|]; [|production 63 by (apply goods_nil)].
  production 62 by (token; token; apply goods_last;
    production 64 by (apply goods_app; [by apply good_col, (Ho _ eq_refl)|apply goods_last, good_dir])).
Qed.

(** The statements without the semicolon; HELP is not one. *)
Lemma good_copy n m w a :
  (∃ r p, production_of r = Some p ∧ p_lhs p = n ∧ p_rhs p = [N m] ∧ p_act p = copy) →
  good (N m) w a → good (N n) w a.
Proof.
  intros (r&p&Hp&Hl&Hr&Ha) Hg. eapply (good_prod r p _ _ [a]); [done|done| |by rewrite Ha]. rewrite Hr. by apply goods_last.
Qed.

Lemma good_txn t : t ∈ [TxnBegin; TxnCommit; TxnAbort; TxnRollback] → good (N n_stmt) (stmt_tokens float_text t) (ANode t).
Proof.
  intros Ht. apply good_copy with n_txnStmt; [by exists 9; eexists; split_and!|].
  repeat (apply elem_of_cons in Ht as [->|Ht]); [..|by apply elem_of_nil in Ht].
  - production 10 by (token; apply goods_nil).
  - production 11 by (token; apply goods_nil).
  - production 12 by (token; apply goods_nil).
  - production 13 by (token; apply goods_nil).
Qed.

Lemma good_dml t : match t with InsertStmt _ _ | DeleteStmt _ _ | UpdateStmt _ _ _ | SelectStmt _ => True | _ => False end →
  tree_ok float_ok t → good (N n_stmt) (stmt_tokens float_text t) (ANode t).
Proof using Hfloat.
  intros Hdml Ht. apply good_copy with n_dml; [by exists 8; eexists; split_and!|].
  destruct t as [| | | | | | | | | | |n l|n w|n s w|s]; try done; clear Hdml; simpl in Ht.
  - destruct Ht as [Hn Hl]. production 20 by (token; token; eapply goods_one; [apply good_name; auto|];
      token; token; apply goods_app; [list_of 32 33 n_value AVal AVals (value_ok float_ok) good_value Hl|token; apply goods_nil]).
  - destruct Ht as [Hn Hw]. production 21 by (token; token; eapply goods_one; [apply good_name; auto|];
      by apply goods_last, good_where).
  - destruct Ht as (Hn&Hs&Hw). production 22 by (token; eapply goods_one; [apply good_name; auto|]; token;
      apply goods_app; [list_of 54 55 n_setClause ASet ASets (set_ok float_ok) good_set Hs|by apply goods_last, good_where]).
  - destruct Ht as (Hc&Ht&Hw&Ho&->). simpl. production 23 by (token; apply goods_app; [by apply good_selector|];
      token; apply goods_app; [by apply good_tables|]; apply goods_app; [by apply good_where|];
      by apply goods_last, good_order).
Qed.

Lemma good_ddl t : match t with CreateTable _ _ | DropTable _ | DescTable _ | CreateIndex _ _ | DropIndex _ _ => True
  | _ => False end → tree_ok float_ok t → good (N n_stmt) (stmt_tokens float_text t) (ANode t).
Proof.
  intros Hddl Ht. apply good_copy with n_ddl; [by exists 7; eexists; split_and!|].
  destruct t as [| | | | | |n l|n|n|n l|n l| | | |]; try done; clear Hddl; simpl in Ht.
  - destruct Ht as [Hn Hl]. production 15 by (token; token; eapply goods_one; [apply good_name; auto|];
      token; apply goods_app; [list_of 24 25 n_field AField AFields field_ok good_field Hl|token; apply goods_nil]).
  - production 16 by (token; token; apply goods_last, good_name; auto).
  - production 17 by (token; apply goods_last, good_name; auto).
  - destruct Ht as [Hn Hl]. production 18 by (token; token; eapply goods_one; [apply good_name; auto|];
      token; apply goods_app; [by apply good_colNames|token; apply goods_nil]).
  - destruct Ht as [Hn Hl]. production 19 by (token; token; eapply goods_one; [apply good_name; auto|];
      token; apply goods_app; [by apply good_colNames|token; apply goods_nil]).
Qed.

Lemma good_stmt t : t ≠ Help → tree_ok float_ok t → good (N n_stmt) (stmt_tokens float_text t) (ANode t).
Proof using Hfloat.
  intros Hh Ht. destruct t; try done; try (by apply good_dml); try (by apply good_ddl).
  - production 6 by (apply goods_last; production 14 by (token; token; apply goods_nil)).
  - apply good_txn. by repeat constructor.
  - apply good_txn. by repeat constructor.
  - apply good_txn. by repeat constructor.
  - apply good_txn. by repeat constructor.
Qed.

Lemma good_tree t : tree_ok float_ok t → good (N n_start) (tree_tokens float_text t) (ATree (Some t)).
Proof using Hfloat.
  intros Ht. assert (t = Help ∨ t ≠ Help) as [->|Hh] by (destruct t; auto).
  - production 3 by (token; apply goods_nil).
  - assert (tree_tokens float_text t = stmt_tokens float_text t ++ [punct ";"]) as -> by by destruct t.
    production 2 by (apply goods_app; [by apply good_stmt|]; token; apply goods_nil).
Qed.

Lemma yy_scan_string_no_nul l start : no_nul l → yy_scan_string (bytes_str l) start = mkScanner start l.
Proof.
  intros Hl. unfold yy_scan_string. by rewrite str_bytes_str, c_str_no_nul.
Qed.

Lemma sql_text_ok t slot tree : no_conds slot → no_order slot → tree_ok float_ok t →
  ∃ p, yyparse atof slot (yy_scan_string (sql_text float_text t) INITIAL) tree = Some (0, p) ∧
    parse_tree p = Some t ∧ yyscanner p = mkScanner INITIAL [blank].
Proof using Hfloat.
  intros Hc Ho [Hs Hd]%good_tree. unfold sql_text. rewrite yy_scan_string_no_nul by (by eapply no_nul_sentence).
  by eapply sentence_parsed.
Qed.

Lemma no_nul_sql_text t : tree_ok float_ok t → no_nul (str_bytes (sql_text float_text t)).
Proof using Hfloat. intros [Hs _]%good_tree. unfold sql_text. rewrite str_bytes_str. by eapply no_nul_sentence. Qed.

(** The text ends with a blank. *)
Lemma sql_text_last t : ∃ l, str_bytes (sql_text float_text t) = l ++ [blank].
Proof.
  unfold sql_text. rewrite str_bytes_str.
  assert (∃ w k, tree_tokens float_text t = w ++ [k]) as (w&k&->).
  { destruct t; try (by eexists _, _). by exists [], (kw HELP "help"). }
  unfold sentence. rewrite bind_app. simpl. rewrite app_nil_r, (assoc_L (++)). eauto.
Qed.

(** C6: printing and parsing are inverse.  The text of any tree the grammar can make (identifiers
    that [lex.l] takes for such, integers of an [int], strings without a quote, floats whose text
    [atof] reads back) is parsed by [yyparse] to that tree, whatever the slots of the value
    stack and the previous [parse_tree] hold. *)
Theorem sql_text_parsed t slot tree : no_conds slot → no_order slot → tree_ok float_ok t →
  ∃ p, yyparse atof slot (yy_scan_string (sql_text float_text t) INITIAL) tree = Some (0, p) ∧
    parse_tree p = Some t ∧ yyscanner p = mkScanner INITIAL [blank].
Proof using Hfloat. apply sql_text_ok. Qed.
End roundtrip.

(** ** A SELECT with every kind of clause *)

Definition three_halves : Z := 1069547520.

Definition sample_tree : TreeNode :=
  SelectStmt (SelectNode_make [mkCol "t" "id"; mkCol "" "name"] ["t"; "selected"]
    [mkBinaryExpr (mkCol "t" "id") SV_OP_GE (EValue (IntLit (-7)));
     mkBinaryExpr (mkCol "t" "score") SV_OP_LT (EValue (FloatLit three_halves));
     mkBinaryExpr (mkCol "" "name") SV_OP_NE (EValue (StringLit "it is; /* not */ -- a comment"));
     mkBinaryExpr (mkCol "t" "id") SV_OP_EQ (ECol (mkCol "selected" "id"))]
    (Some (mkOrderBy (mkCol "t" "id") OrderBy_DESC))).

Lemma name_scanned s : forallb (λ b, negb (byte_val b =? 0)) (str_bytes s) = true →
  yy_scan INITIAL (str_bytes s) = Some (ScanRule 42 (length (str_bytes s))) → name_ok s.
Proof.
  intros Hn Hs. assert (Hnul : no_nul (str_bytes s)).
  { apply Forall_forall. intros b Hb. by apply (forallb_in _ _ _ Hn), negb_true_iff, Z.eqb_neq in Hb. }
  split; [done|]. apply scan_longest; [|done|done]. intros E. by rewrite E in Hs.
Qed.

Lemma string_scanned s : forallb (λ b, negb (byte_val b =? 0) && bool_decide (b ≠ x27)) (str_bytes s) = true → string_ok s.
Proof.
  intros Hs. apply Forall_forall. intros b Hb. apply (forallb_in _ _ _ Hs) in Hb.
  by rewrite andb_true_iff, negb_true_iff, Z.eqb_neq, bool_decide_eq_true in Hb.
Qed.

(** [tree_ok] of a given tree. *)
Ltac check_tree := repeat first
  [ done
  | apply name_scanned; [vm_compute; reflexivity|vm_compute; reflexivity]
  | apply string_scanned; vm_compute; reflexivity
  | match goal with
    | |- _ ∧ _ => split
    | |- Forall _ _ => constructor
    | |- _ = "" ∨ _ => first [by left|right]
    | |- ∀ o, Some _ = Some o → _ => intros ? [= <-]
    end
  | progress (unfold some_ok, col_ok, expr_ok, cond_ok, type_ok, field_ok, set_ok, value_ok); simpl ].

Lemma sample_tree_ok : tree_ok (λ b, b = three_halves) sample_tree.
Proof. simpl. check_tree. Qed.

Lemma sql_text_parsed_witness : ∃ p,
  yyparse (λ _, three_halves) (SemValue_make 0 0 OrderBy_DEFAULT SV_OP_EQ)
    (yy_scan_string (sql_text (λ _, "1.5") sample_tree) INITIAL) None = Some (0, p) ∧
  parse_tree p = Some sample_tree ∧ yyscanner p = mkScanner INITIAL [blank].
Proof.
  apply (sql_text_parsed (λ _, three_halves) (λ _, "1.5") (λ b, b = three_halves)); [|done|done|apply sample_tree_ok].
  intros b ->. split; [done|]. eapply spelled_scan; [vm_compute; reflexivity|vm_compute; reflexivity|vm_compute; reflexivity|reflexivity].
Defined.
