(* ===== verification/Meaning.v ===== *)
(** * What a text means

    The statement the grammar reads in a text, and [yyparse] on the text: the parser gives the
    statement, or refuses a text that holds none, and the scanner is ready for the next text. *)

From S2P Require Import Prelude Values Ast Text SemVal Scanner Lexical LexicalProps Grammar Lexing Yacc AutomatonProps YaccProps Parse Sentence SqlText.
From stdpp Require Import options.
Import sem.

#[local] Opaque sim.

Section meaning.
Context (atof : string → Z).

(** The tokens of a first part of the text derive from [start], and the scanner is not inside a
    comment then; or no first part is a statement, and no comment is left open. *)
Inductive means (text : string) : option ast.TreeNode → Prop :=
  | means_start w sc' t :
      reads_all atof (yy_scan_string text INITIAL) w sc' → derives atof (N n_start) w (ATree t) →
      yy_start sc' = INITIAL → means text t
  | means_nothing :
      (∀ w sc', reads_all atof (yy_scan_string text INITIAL) w sc' →
         yy_start sc' = INITIAL ∧ ∀ t, ¬ derives atof (N n_start) w (ATree t)) →
      means text None.

Lemma scan_string_ok text start : start_cond start → scanner_ok (yy_scan_string text start).
Proof. split; [done|apply no_nul_c_str]. Qed.

(** The printed text of a tree means the tree. *)
Lemma sql_text_means float_text float_ok t :
  (∀ b, float_ok b → atof (float_text b) = b ∧ spelled atof (kw VALUE_FLOAT (float_text b))) →
  tree_ok float_ok t → means (sql_text float_text t) (Some t).
Proof.
  intros Hfloat [Hs Hd]%(good_tree atof float_text float_ok Hfloat).
  assert (Hne : tree_tokens float_text t ≠ []).
  { intros E. rewrite E in Hd. pose proof (proj1 (AutomatonProps.first_derives atof) _ _ _ Hd) as Hf. by vm_compute in Hf. }
  eapply means_start; [|exact Hd|].
  - unfold sql_text. rewrite yy_scan_string_no_nul by (by eapply no_nul_sentence). by apply sentence_reads.
  - done.
Qed.

(** ** Texts that are refused *)

(** Only the first two characters of a comment change the start condition. *)
Lemma begin_comment w r n st : longest_match INITIAL w r n → yy_action atof r (take n w) = Begin st → x2f ∈ w.
Proof.
  intros (Hn&(e&He&Hm)&_) Ha. assert (r = 1) as ->.
  { unfold yy_action in Ha. destruct (Z.eqb_spec r 1); [done|]. destruct (Z.eqb_spec r 2) as [->|].
    - exfalso. assert (Hno : forallb (λ x, negb (x.1 =? 2)) (rules INITIAL) = true) by (vm_compute; reflexivity).
      apply (forallb_in _ _ _ Hno) in He. done.
    - repeat (case_match; try done). }
  assert (e = lit "/*") as ->.
  { assert (Hone : forallb (λ x, negb (x.1 =? 1)) (tail (rules INITIAL)) = true) by (vm_compute; reflexivity).
    change (rules INITIAL) with ((1, lit "/*") :: tail (rules INITIAL)) in He. apply elem_of_cons in He as [[= ->]|He]; [done|].
    by apply (forallb_in _ _ _ Hone) in He. }
  rewrite <- (take_drop n w). apply elem_of_app. left. inversion Hm as [| |? ? w1 w2 H1 _| | | |]; subst.
  inversion H1 as [|l b Hb| | | | |]; subst. assert (b = x2f) as -> by (destruct b; first [done|vm_compute in Hb; discriminate]).
  by left.
Qed.

Lemma reads_initial sc k sc' : reads atof sc k sc' → yy_start sc = INITIAL → x2f ∉ yy_rest sc →
  yy_start sc' = INITIAL ∧ x2f ∉ yy_rest sc'.
Proof.
  assert (Hdrop : ∀ n w, x2f ∉ w → x2f ∉ drop n w).
  { intros n w H Hin. apply H. rewrite <- (take_drop n w). by apply elem_of_app; right. }
  induction 1 as [st|st w r n t set|st w r n k sc Hl Ha Hr IH|st w r n st' k sc Hl Ha Hr IH]; simpl; intros -> Hw.
  - done.
  - by auto.
  - apply IH; [done|by apply Hdrop].
  - exfalso. by eapply Hw, begin_comment.
Qed.

Lemma reads_all_initial sc w sc' : reads_all atof sc w sc' → yy_start sc = INITIAL → x2f ∉ yy_rest sc → yy_start sc' = INITIAL.
Proof.
  intros H Hs Hr. enough (yy_start sc' = INITIAL ∧ x2f ∉ yy_rest sc') by tauto.
  induction H as [|w k sc1 sc2 _ IH H]; [done|]. destruct IH. by eapply reads_initial.
Qed.

(** A text without a slash that [yyparse] refuses. *)
Lemma refused_means text p : x2f ∉ c_str (str_bytes text) →
  yyparse atof any_slot (yy_scan_string text INITIAL) None = Some (1, p) → means text None.
Proof.
  intros Hs Hp. apply means_nothing. intros w sc' Hr. split; [by eapply reads_all_initial|]. intros t Hd.
  destruct (yyparse_accepts atof any_slot _ None w sc' t eq_refl eq_refl (scan_string_ok text INITIAL ltac:(by left)) Hr Hd)
    as (p'&Hp'&_). congruence.
Qed.

(** ** The parser finds the meaning *)

Lemma means_parsed text o slot tree : no_conds slot → no_order slot → means text o →
  ∃ res p, yyparse atof slot (yy_scan_string text INITIAL) tree = Some (res, p) ∧ yy_start (yyscanner p) = INITIAL ∧
    (if res =? 0 then parse_tree p = o else o = None).
Proof.
  intros Hc Ho Hm. pose proof (scan_string_ok text INITIAL ltac:(by left)) as Hok. destruct Hm as [w sc' t Hr Hd Hst|Hno].
  - destruct (yyparse_accepts atof slot _ tree w sc' t Hc Ho Hok Hr Hd) as (p&Hp&Ht&Hs).
    exists 0, p. by rewrite Hs.
  - destruct (yyparse_total atof slot (yy_scan_string text INITIAL) tree Hc Ho Hok) as ([res p]&Hp&[(_&w&Hr&Hd)|(Hres&w&Hr)]).
    + destruct (Hno w _ Hr) as [_ Hn]. by destruct (Hn _ Hd).
    + simpl in Hres, Hr. subst res. exists 1, p. split_and!; [done|by apply (Hno w _ Hr)|done].
Qed.

(** A text has one meaning. *)
Lemma means_unique text o o' : means text o → means text o' → o = o'.
Proof.
  intros H1 H2. destruct (means_parsed text o any_slot None eq_refl eq_refl H1) as (r1&p1&Hp1&_&E1).
  destruct (means_parsed text o' any_slot None eq_refl eq_refl H2) as (r2&p2&Hp2&_&E2).
  rewrite Hp1 in Hp2. injection Hp2 as <- <-. destruct (r1 =? 0); congruence.
Qed.
End meaning.
