(* ===== verification/AstPrinter.v ===== *)
(** * Printing syntax trees

    [TreePrinter] of [parser/ast_printer.h], and the texts of [parser/test_parser.cpp], which parses
    and prints them.  The printer finds the class of a node by casts and fails on a node of
    no class it knows: such is only a bare [Value]. *)

From S2P Require Import Prelude Errors Text Values Ast SemVal Scanner Lexical LexicalProps Grammar Lexing Yacc Parse.
From stdpp Require Import options.
Import ast sem.

Section printer.
(** [operator<<] of a [float]. *)
Context (float_out : Z → string).

Definition offset2string (offset : nat) : string := Nat.iter offset (String.append " ") "".

Definition print_val (val : string) (offset : nat) : string := offset2string offset +:+ val +:+ nl.

Definition concat (l : list string) : string := foldr String.append "" l.

Definition print_val_list (vals : list string) (offset : nat) : string :=
  offset2string offset +:+ "LIST" +:+ nl +:+ concat ((λ v, print_val v (offset + 2)) <$> vals).

Definition type2str (t : SvType) : string :=
  match t with SV_TYPE_INT => "INT" | SV_TYPE_FLOAT => "FLOAT" | SV_TYPE_STRING => "STRING" end.

Definition op2str (op : SvCompOp) : string :=
  match op with
  | SV_OP_EQ => "==" | SV_OP_NE => "!=" | SV_OP_LT => "<" | SV_OP_GT => ">" | SV_OP_LE => "<=" | SV_OP_GE => ">="
  end.

(** [print_node] of one class: its title, and what follows it two places further right. *)
Definition titled (title : string) (offset : nat) (parts : list (outcome string)) : outcome string :=
  l ← omap_list id parts;
  Ret (offset2string offset +:+ title +:+ nl +:+ concat l).

Definition print_node_list {T} (print_node : T → nat → outcome string) (nodes : list T) (offset : nat) : outcome string :=
  titled "LIST" offset ((λ x, print_node x (offset + 2)%nat) <$> nodes).

Definition print_Value (v : Value) (o : nat) : outcome string :=
  match v with
  | IntLit n => titled "INT_LIT" o [Ret (print_val (to_string n) (o + 2))]
  | FloatLit b => titled "FLOAT_LIT" o [Ret (print_val (float_out b) (o + 2))]
  | StringLit s => titled "STRING_LIT" o [Ret (print_val s (o + 2))]
  | BareValue => Crash AssertFailed
  end.

Definition print_Col (c : Col) (o : nat) : outcome string :=
  titled "COL" o [Ret (print_val (c_tab_name c) (o + 2)); Ret (print_val (c_col_name c) (o + 2))].

Definition print_TypeLen (t : TypeLen) (o : nat) : outcome string :=
  titled "TYPE_LEN" o [Ret (print_val (type2str (tl_type t)) (o + 2)); Ret (print_val (to_string (tl_len t)) (o + 2))].

Definition print_ColDef (f : ColDef) (o : nat) : outcome string :=
  titled "COL_DEF" o [Ret (print_val (cd_col_name f) (o + 2)); print_TypeLen (cd_type_len f) (o + 2)%nat].

Definition print_SetClause (s : SetClause) (o : nat) : outcome string :=
  titled "SET_CLAUSE" o [Ret (print_val (sc_col_name s) (o + 2)); print_Value (sc_val s) (o + 2)%nat].

Definition print_Expr (e : Expr) (o : nat) : outcome string :=
  match e with EValue v => print_Value v o | ECol c => print_Col c o end.

Definition print_BinaryExpr (b : BinaryExpr) (o : nat) : outcome string :=
  titled "BINARY_EXPR" o
    [print_Col (be_lhs b) (o + 2)%nat; Ret (print_val (op2str (be_op b)) (o + 2)); print_Expr (be_rhs b) (o + 2)%nat].

Definition print_node (node : TreeNode) (o : nat) : outcome string :=
  let vals l := (λ v, Ret (print_val v (o + 2))) <$> l in
  match node with
  | Help => titled "HELP" o []
  | ShowTables => titled "SHOW_TABLES" o []
  | CreateTable t l => titled "CREATE_TABLE" o [Ret (print_val t (o + 2)); print_node_list print_ColDef l (o + 2)]
  | DropTable t => titled "DROP_TABLE" o (vals [t])
  | DescTable t => titled "DESC_TABLE" o (vals [t])
  | CreateIndex t l => titled "CREATE_INDEX" o (vals (t :: l))
  | DropIndex t l => titled "DROP_INDEX" o (vals (t :: l))
  | InsertStmt t l => titled "INSERT" o [Ret (print_val t (o + 2)); print_node_list print_Value l (o + 2)]
  | DeleteStmt t w => titled "DELETE" o [Ret (print_val t (o + 2)); print_node_list print_BinaryExpr w (o + 2)]
  | UpdateStmt t s w =>
      titled "UPDATE" o
        [Ret (print_val t (o + 2)); print_node_list print_SetClause s (o + 2); print_node_list print_BinaryExpr w (o + 2)]
  | SelectStmt s =>
      titled "SELECT" o
        [print_node_list print_Col (sel_cols s) (o + 2); Ret (print_val_list (sel_tabs s) (o + 2));
         print_node_list print_BinaryExpr (sel_conds s) (o + 2)]
  | TxnBegin => titled "BEGIN" o []
  | TxnCommit => titled "COMMIT" o []
  | TxnAbort => titled "ABORT" o []
  | TxnRollback => titled "ROLLBACK" o []
  end.

Definition TreePrinter_print (node : TreeNode) : outcome string := print_node node 0.
End printer.

(** ** [test_parser.cpp] *)

Definition test_sqls : list string := [
  "show tables;";
  "desc tb;";
  "create table tb (a int, b float, c char(4));";
  "drop table tb;";
  "create index tb(a);";
  "create index tb(a, b, c);";
  "drop index tb(a, b, c);";
  "drop index tb(b);";
  "insert into tb values (1, 3.14, 'pi');";
  "delete from tb where a = 1;";
  "update tb set a = 1, b = 2.2, c = 'xyz' where x = 2 and y < 1.1 and z > 'abc';";
  "select * from tb;";
  "select * from tb where x <> 2 and y >= 3. and z <= '123' and b < tb.a;";
  "select x.a, y.b from x, y where x.a = y.b and c = d;";
  "select x.a, y.b from x join y where x.a = y.b and c = d;";
  "exit;";
  "help;";
  ""].

(** The trees the author of the test means. *)
Definition test_trees (atof : string → Z) : list (option TreeNode) :=
  let col := mkCol "" in
  let cmp x op e := mkBinaryExpr (col x) op e in
  let int n := EValue (IntLit n) in
  let str s := EValue (StringLit s) in
  let flt s := EValue (FloatLit (atof s)) in
  let xy := SelectStmt (SelectNode_make [mkCol "x" "a"; mkCol "y" "b"] ["x"; "y"]
    [mkBinaryExpr (mkCol "x" "a") SV_OP_EQ (ECol (mkCol "y" "b")); cmp "c" SV_OP_EQ (ECol (col "d"))] None) in
  [Some ShowTables;
   Some (DescTable "tb");
   Some (CreateTable "tb" [mkColDef "a" (mkTypeLen SV_TYPE_INT 4); mkColDef "b" (mkTypeLen SV_TYPE_FLOAT 4);
                           mkColDef "c" (mkTypeLen SV_TYPE_STRING 4)]);
   Some (DropTable "tb");
   Some (CreateIndex "tb" ["a"]);
   Some (CreateIndex "tb" ["a"; "b"; "c"]);
   Some (DropIndex "tb" ["a"; "b"; "c"]);
   Some (DropIndex "tb" ["b"]);
   Some (InsertStmt "tb" [IntLit 1; FloatLit (atof "3.14"); StringLit "pi"]);
   Some (DeleteStmt "tb" [cmp "a" SV_OP_EQ (int 1)]);
   Some (UpdateStmt "tb" [mkSetClause "a" (IntLit 1); mkSetClause "b" (FloatLit (atof "2.2")); mkSetClause "c" (StringLit "xyz")]
     [cmp "x" SV_OP_EQ (int 2); cmp "y" SV_OP_LT (flt "1.1"); cmp "z" SV_OP_GT (str "abc")]);
   Some (SelectStmt (SelectNode_make [] ["tb"] [] None));
   Some (SelectStmt (SelectNode_make [] ["tb"]
     [cmp "x" SV_OP_NE (int 2); cmp "y" SV_OP_GE (flt "3."); cmp "z" SV_OP_LE (str "123");
      cmp "b" SV_OP_LT (ECol (mkCol "tb" "a"))] None));
   Some xy; Some xy; None; Some Help; None].

(** One round of the test: [yyparse() == 0], and [parse_tree]. *)
Definition parse_test (atof : string → Z) (slot : SemValue) (sql : string) : option (option TreeNode) :=
  '(res, p) ← yyparse atof slot (yy_scan_string sql INITIAL) None;
  if res =? 0 then Some (parse_tree p) else None.

(** The assertions of [test_parser.cpp] hold: all its texts are accepted, and with the trees
    they are meant to have, whatever the uninitialised members of the value stack are. *)
Example test_parser_passes atof i f d op :
  parse_test atof (SemValue_make i f d op) <$> test_sqls = Some <$> test_trees atof.
Proof. vm_compute. reflexivity. Qed.

(** The trees of the parser have no bare [Value] in them: printing them does not fail. *)
Example test_parser_prints atof float_out :
  Forall (λ t, match t with Some t => ∃ s, TreePrinter_print float_out t = Ret s | None => True end) (test_trees atof).
Proof. repeat constructor; eexists; reflexivity. Qed.

Example select_printed :
  TreePrinter_print (λ _, "0") (SelectStmt (SelectNode_make [mkCol "x" "a"] ["x"] [mkBinaryExpr (mkCol "x" "a") SV_OP_GE (EValue (IntLit 2))] None)) =
  Ret (concat ((λ l, l +:+ nl) <$> ["SELECT"; "  LIST"; "    COL"; "      x"; "      a"; "  LIST"; "    x"; "  LIST"; "    BINARY_EXPR";
    "      COL"; "        x"; "        a"; "      >="; "      INT_LIT"; "        2"])).
Proof. vm_compute. reflexivity. Qed.
