(* ===== verification/Client.v ===== *)
(** * The client

    [rucbase_client/main.cpp]: a line the user types goes to the server with its NUL, and the bytes
    that come back are shown up to their first NUL.  The socket and [readline] are not modelled:
    a line is a string, and a message is delivered as it was sent. *)

From S2P Require Import Prelude Errors Text Values.
From stdpp Require Import options.

Definition MAX_MEM_BUFFER_SIZE : Z := 8192.

Definition is_exit_command (cmd : string) : bool :=
  bool_decide (cmd = "exit") || bool_decide (cmd = "exit;") || bool_decide (cmd = "bye") || bool_decide (cmd = "bye;").

(** [write(sockfd, command.c_str(), command.length() + 1)] *)
Definition message (command : string) : list byte := str_bytes command ++ [x00].

(** The loop that prints: [n] more turns, from some place of the buffer on. *)
Fixpoint print_buf (n : nat) (buf : list byte) : outcome (list byte) :=
  match n with
  | O => Ret []
  | S n =>
      match buf with
      | [] => Crash OutOfBounds
      | b :: buf => if decide (b = x00) then Ret [] else l ← print_buf n buf; Ret (b :: l)
      end
  end.

(** What is printed for the bytes of a reply: [recv] takes as many as the buffer holds and says how
    many; the places after them hold zeros or older bytes [rest]. *)
Definition print_reply (rest reply : list byte) : outcome string :=
  let got := take (Z.to_nat MAX_MEM_BUFFER_SIZE) reply in
  let recv_buf := got ++ drop (length got) rest in
  l ← print_buf (S (length got)) recv_buf;
  Ret (String.string_of_list_byte l).

Lemma print_buf_nul n l k : x00 ∈ l → (length l <= n)%nat → print_buf n (l ++ k) = Ret (c_str l).
Proof.
  revert n. induction l as [|b l IH]; intros n Hin Hn; [by apply elem_of_nil in Hin|].
  destruct n as [|n]; simpl in Hn |- *; [lia|]. case_decide as Hb; [done|].
  apply elem_of_cons in Hin as [<-|Hin]; [done|]. by rewrite (IH n Hin) by lia.
Qed.

(** A reply with a NUL that fits the buffer is shown up to it; nothing behind it is read. *)
Lemma print_reply_text rest reply : x00 ∈ reply → Z.of_nat (length reply) <= MAX_MEM_BUFFER_SIZE →
  print_reply rest reply = Ret (String.string_of_list_byte (c_str reply)).
Proof.
  intros Hin Hl. unfold print_reply. rewrite take_ge by (unfold MAX_MEM_BUFFER_SIZE in *; lia).
  by rewrite print_buf_nul by (done || lia).
Qed.
