(* ===== verification/Frontend.v ===== *)
(** * From the bytes of a client to the reply

    One round of the loop of [client_handler] with the generated scanner and parser in their place:
    the bytes read become a C string, [yy_scan_string] and [yyparse] make a tree of it, and
    [handle_request] does the rest.  The start condition of the scanner and [ast::parse_tree]
    are globals: they are kept from one request to the next, whichever client sends it. *)

From S2P Require Import Prelude Ast SemVal Scanner Lexical LexicalProps Grammar Lexing Yacc AutomatonProps YaccProps Parse Sentence SqlText Client.
From S2P Require Import Errors Config Posix DiskManager Replacer BufferPool BufferPoolSpec BufferPoolProps.
From S2P Require Import Bitmap RecordFile RecordPage RecordSpec RecordStore RecordProps StrMap Values Text Meta Analyze Plan.
From S2P Require Import Compare Planner PlannerProps Executor ExecutorProps Index Printer PrinterProps System Dml Txn Ql Server.
From S2P Require Import Tables SeqScan Columns Relational Select RecordClaims Sample Query Statements Requests History.
From stdpp Require Import options.

#[local] Opaque sim.

(** ** The request *)

(** [memset; read]: at most [BUFFER_LENGTH] bytes, used as a C string.  When all of them were
    read there is no NUL after them: [None]. *)
Inductive Received := Closed | ReadError | Got (bytes : list byte).

Definition data_recv (bytes : list byte) : option string :=
  if Z.of_nat (length bytes) <? BUFFER_LENGTH then Some (bytes_str (c_str bytes)) else None.

Section front.
Context {R : Type} `{!Replacer R}.
Context (fuel : nat) (junk : Z → list byte) (self_thread : Z).
Context (atof : string → Z) (slot : sem.SemValue).

Record Front := mkFront {
  fr_start : Z;                            (** [yy_start] *)
  fr_tree : option ast.TreeNode;           (** [ast::parse_tree] *)
  fr_session : Session R;
}.

(** [yy_scan_string(data_recv); yyparse()]: whether it accepts and with which tree, and the two
    globals after it. *)
Definition parse_text (text : string) (start : Z) (tree : option ast.TreeNode) :
    option (option (option ast.TreeNode) * Z * option ast.TreeNode) :=
  '(res, p) ← yyparse atof slot (yy_scan_string text start) tree;
  Some (if res =? 0 then Some (parse_tree p) else None, yy_start (yyscanner p), parse_tree p).

Definition client_request (text : string) (txn_id : Z) : M Front Step := λ f,
  if decide (text = "exit") then (Ret ClientGone, f)
  else if decide (text = "crash") then (Ret ServerExit, f)
  else
    match parse_text text (fr_start f) (fr_tree f) with
    | Some (answer, start, tree) =>
        let '(r, s) := handle_request fuel junk self_thread (λ _, answer) text txn_id (fr_session f) in
        (r, mkFront start tree s)
    | None => (Crash NullDeref, f)
    end.

(** One round of the loop; [break] ends the connection, [exit(1)] the server. *)
Definition client_round (txn_id : Z) (r : Received) : M Front Step :=
  match r with
  | Closed | ReadError => ret ClientGone
  | Got bytes =>
      match data_recv bytes with
      | Some text => client_request text txn_id
      | None => crashes OutOfBounds
      end
  end.

(** The rounds of all clients in the order in which they are served, each with the [txn_id] of its
    client, and how they end. *)
Fixpoint serve_clients (l : list (Z * Received)) : M Front (list Step) :=
  match l with
  | [] => ret []
  | (txn_id, r) :: l =>
      let! step := client_round txn_id r in
      match step with
      | ServerExit => ret [ServerExit]
      | _ => let! steps := serve_clients l in ret (step :: steps)
      end
  end.
End front.
Arguments Front R : clear implicits.

(** ** A reply fits the buffer *)

Section fits.
Context {R : Type} `{!Replacer R} (fuel : nat) (junk : Z → list byte) (self_thread : Z).

Lemma keeps_catch {S A} (P : S → Prop) (m : M S A) h : keeps P m → (∀ e, keeps P (h e)) → keeps P (catch m h).
Proof.
  intros Hm Hh s Hs. specialize (Hm s Hs). unfold catch. destruct (m s) as [[a|e|c] s']; [done|by apply Hh|done].
Qed.

Lemma keeps_error_reply e : keeps (world_full (R := R)) (error_reply e).
Proof.
  unfold error_reply. apply keeps_bind; [|intros; apply keeps_output]. apply keeps_ctx. intros c Hc.
  destruct (mwrite (data_send_ c) 0 _) as [d|] eqn:E1; [|done]. apply mwrite_length in E1.
  destruct (mwrite d _ _) as [d'|] eqn:E2; [|done]. apply mwrite_length in E2.
  unfold ctx_full in *. simpl. by rewrite E2, E1.
Qed.

Lemma reply_fits yyparse text txn (s s' : Session R) bytes :
  handle_request fuel junk self_thread yyparse text txn s = (Ret (Reply bytes), s') →
  Z.of_nat (length bytes) <= BUFFER_LENGTH.
Proof.
  unfold handle_request. case_decide; [done|]. case_decide; [done|]. unfold bind at 1, new_context, modify.
  fold (fresh_session s). set (m := match yyparse text with Some (Some t) => _ | _ => _ end).
  assert (Hm : keeps session_full m).
  { unfold m. destruct (yyparse text) as [[t|]|]; [|apply keeps_ret..].
    apply keeps_catch; [apply keeps_statement|]. intros e. apply keeps_world, keeps_error_reply. }
  assert (Hf : session_full (fresh_session s)) by (unfold session_full, world_full, ctx_full; cbn; by rewrite length_zeros).
  specialize (Hm _ Hf). unfold bind. destruct (m (fresh_session s)) as [[[]| |] s1]; [|done..]. simpl in Hm.
  unfold gets, access. destruct (mread _ 0 _) as [bs|] eqn:E; [|done]. intros [= <- <-].
  unfold session_full, world_full, ctx_full in Hm. apply mread_Some in E as (_&H1&H2&->).
  rewrite length_take, length_drop. lia.
Qed.
End fits.

(** ** A comment that is not closed *)

(** No [*/] in the text. *)
Definition unclosed (l : list byte) : Prop := ∀ l1 l2, l ≠ l1 ++ [x2a; x2f] ++ l2.

Lemma unclosed_tail b l : unclosed (b :: l) → unclosed l.
Proof. intros H l1 l2 ->. by apply (H (b :: l1) l2). Qed.

Lemma unclosed_c_str l : unclosed l → unclosed (c_str l).
Proof.
  intros H l1 l2 E. assert (∃ k, l = c_str l ++ k) as [k Hk].
  { clear. induction l as [|b l [k IH]]; [by exists []|]. cbn [c_str]. case_decide; [by exists (b :: l)|].
    exists k. simpl. by rewrite <- IH. }
  apply (H l1 (l2 ++ k)). rewrite Hk, E. by rewrite <- !(assoc_L (++)).
Qed.

(** Inside a comment every character is a text of its own, apart from the [*/] that ends it. *)
Lemma comment_char b l : byte_val b ≠ 0 → unclosed (b :: l) →
  ∃ r, longest_match STATE_COMMENT (b :: l) r 1 ∧ ∀ atof x, yy_action atof r x = Skip.
Proof.
  intros Hb Hun. destruct (decide (b = x2a)) as [->|Hne].
  - exists 4. split; [|done]. apply (longest_dead STATE_COMMENT [x2a] l); [by right|done|vm_compute; reflexivity|done|].
    intros c Hc. destruct l as [|c' l]; [done|]. injection Hc as ->.
    assert (Hcne : c ≠ x2f) by (intros ->; by apply (Hun [] l)). destruct c; first [vm_compute; reflexivity|by destruct Hcne].
  - exists 3. split; [|done].
    assert (Hadv : advances (rules STATE_COMMENT) [b] = [(3, Eps); (47, Eps)])
      by (destruct b; first [by destruct Hne|by destruct Hb|vm_compute; reflexivity]).
    apply (longest_dead STATE_COMMENT [b] l); [by right|done|by rewrite Hadv|done|]. intros c _. by rewrite Hadv.
Qed.

Lemma comment_reads atof l : no_nul l → unclosed l →
  reads atof (mkScanner STATE_COMMENT l) (T_EOF, []) (mkScanner STATE_COMMENT []).
Proof.
  induction 1 as [|b l Hb Hl IH]; intros Hun; [constructor|].
  destruct (comment_char b l Hb Hun) as (r&Hm&Ha).
  eapply (reads_skip atof _ _ r 1); [exact Hm|apply Ha|]. apply IH. by eapply unclosed_tail.
Qed.

Lemma open_comment_longest l : longest_match INITIAL (x2f :: x2a :: l) 1 2.
Proof.
  apply (longest_dead INITIAL [x2f; x2a] l); [by left|done|vm_compute; reflexivity|done|].
  intros c _. destruct c; vm_compute; reflexivity.
Qed.

Section comment.
Context {R : Type} `{!Replacer R}.
Context (fuel : nat) (junk : Z → list byte) (self_thread : Z).
Context (atof : string → Z) (slot : sem.SemValue) (Hconds : no_conds slot) (Horder : no_order slot).

(** The scanner gets nothing but the end of the text: [T_EOF] is a statement of the grammar. *)
Lemma eof_parsed text start start' tree : start_cond start →
  reads atof (yy_scan_string text start) (T_EOF, []) (mkScanner start' []) →
  parse_text atof slot text start tree = Some (Some None, start', None).
Proof using Hconds Horder.
  intros Hst Hr. assert (Hok : scanner_ok (yy_scan_string text start)) by (split; [done|apply no_nul_c_str]).
  assert (Hd : derives atof (N n_start) [(T_EOF, [])] (ATree None)).
  { apply (d_prod atof (mkProd n_start [T T_EOF] (const (ATree None))) _ [ANone]); [|exact (d_cons atof (T T_EOF) [] [(T_EOF, [])] [] ANone [] (d_tok atof (T_EOF, [])) (d_nil atof))|done].
    by apply (production_in 5). }
  destruct (yyparse_accepts atof slot _ tree [(T_EOF, [])] (mkScanner start' []) None Hconds Horder Hok
    (ra_snoc atof _ [] _ _ _ (ra_nil _ _) Hr) Hd) as (p&Hp&Ht&Hs).
  unfold parse_text. rewrite Hp. cbn. by rewrite Ht, Hs.
Qed.

(** A request without a statement is answered with an empty text. *)
Lemma request_without_tree text txn (s : Session R) : text ≠ "exit" → text ≠ "crash" →
  handle_request fuel junk self_thread (λ _, Some None) text txn s = (Ret (Reply [x00]), fresh_session s).
Proof. intros H1 H2. unfold handle_request. rewrite !decide_False by done. vm_compute. done. Qed.

Lemma swallowed_request text txn (f : Front R) : text ≠ "exit" → text ≠ "crash" →
  (fr_start f = STATE_COMMENT ∧ unclosed (str_bytes text)) ∨
  (fr_start f = INITIAL ∧ ∃ l, str_bytes text = x2f :: x2a :: l ∧ unclosed l) →
  client_request fuel junk self_thread atof slot text txn f =
    (Ret (Reply [x00]), mkFront STATE_COMMENT None (fresh_session (fr_session f))).
Proof using Hconds Horder.
  intros H1 H2 Hf. unfold client_request. rewrite !decide_False by done.
  rewrite (eof_parsed text (fr_start f) STATE_COMMENT), request_without_tree; [done..| |].
  - destruct Hf as [[-> _]|[-> _]]; [by right|by left].
  - unfold yy_scan_string. destruct Hf as [[-> Hun]|(->&l&->&Hun)].
    + apply comment_reads; [apply no_nul_c_str|by apply unclosed_c_str].
    + change (c_str (x2f :: x2a :: l)) with (x2f :: x2a :: c_str l).
      apply (reads_begin atof INITIAL _ 1 2 STATE_COMMENT); [apply open_comment_longest|done|].
      apply comment_reads; [apply no_nul_c_str|by apply unclosed_c_str].
Qed.

(** A request that leaves the scanner inside a comment. *)
Definition unclosed_request (r : Z * Received) : Prop := ∃ text, r.2 = Got (message text) ∧
  no_nul (str_bytes text) ∧ str_size text + 1 < BUFFER_LENGTH ∧ text ≠ "exit" ∧ text ≠ "crash" ∧ unclosed (str_bytes text).

Lemma data_recv_text text : no_nul (str_bytes text) → str_size text + 1 < BUFFER_LENGTH →
  data_recv (message text) = Some text.
Proof using.
  intros Hn Hl. unfold data_recv, message. rewrite length_app, Nat2Z.inj_add, length_str_bytes, c_str_app_nul by done.
  simpl length. destruct (Z.ltb_spec (str_size text + Z.of_nat 1) BUFFER_LENGTH); [|lia]. by rewrite bytes_str_bytes.
Qed.

Lemma swallowed_requests l (f : Front R) : fr_start f = STATE_COMMENT → Forall unclosed_request l →
  ∃ f', serve_clients fuel junk self_thread atof slot l f = (Ret (replicate (length l) (Reply [x00])), f') ∧
    fr_start f' = STATE_COMMENT ∧ w_sm (se_world (fr_session f')) = w_sm (se_world (fr_session f)).
Proof using Hconds Horder.
  intros Hst Hl. revert f Hst. induction Hl as [|[txn r] l (text&Hr&Hn&Hlen&H1&H2&Hun) _ IH]; intros f Hst; [by exists f|].
  simpl in Hr. subst r. cbn [serve_clients client_round length replicate]. rewrite data_recv_text by done.
  pose proof (swallowed_request text txn f H1 H2 (or_introl (conj Hst Hun))) as Hreq.
  destruct (IH (mkFront STATE_COMMENT None (fresh_session (fr_session f))) eq_refl) as (f'&Hf&Hst'&Hsm).
  exists f'. split_and!; [|done|done]. rewrite (bind_Ret _ _ _ _ _ Hreq). by rewrite (bind_Ret _ _ _ _ _ Hf).
Qed.

(** C23: a comment that is not closed silences the server.  After a request that starts with [/*] and
    has no [*/] after it, every request of every client without [*/] is answered with an empty
    text and does nothing, whatever statement it holds: the start condition of the scanner is
    a global that neither [yy_scan_string] nor [yyparse] resets. *)
Theorem unclosed_comment_silences text l txn rest (f : Front R) :
  fr_start f = INITIAL → str_bytes text = x2f :: x2a :: l → unclosed l → no_nul l → str_size text + 1 < BUFFER_LENGTH →
  Forall unclosed_request rest →
  ∃ f', serve_clients fuel junk self_thread atof slot ((txn, Got (message text)) :: rest) f =
      (Ret (replicate (S (length rest)) (Reply [x00])), f') ∧
    fr_start f' = STATE_COMMENT ∧ w_sm (se_world (fr_session f')) = w_sm (se_world (fr_session f)).
Proof using Hconds Horder.
  intros Hst Ht Hun Hn Hlen Hrest.
  assert (Hne : text ≠ "exit" ∧ text ≠ "crash") by (split; intros ->; vm_compute in Ht; done).
  destruct Hne as [H1 H2]. cbn [serve_clients client_round length replicate].
  rewrite data_recv_text by (rewrite ?Ht; by repeat constructor).
  pose proof (swallowed_request text txn f H1 H2 (or_intror (conj Hst (ex_intro _ l (conj Ht Hun))))) as Hreq.
  destruct (swallowed_requests rest (mkFront STATE_COMMENT None (fresh_session (fr_session f))) eq_refl Hrest)
    as (f'&Hf&Hst'&Hsm).
  exists f'. split_and!; [|done|done]. rewrite (bind_Ret _ _ _ _ _ Hreq). by rewrite (bind_Ret _ _ _ _ _ Hf).
Qed.
End comment.

Lemma unclosed_small l : forallb (λ b, negb (bool_decide (b = x2f))) l = true → unclosed l.
Proof.
  intros Hl l1 l2 ->. rewrite forallb_app in Hl. apply andb_prop in Hl as [_ Hl]. simpl in Hl. done.
Qed.

Lemma unclosed_comment_silences_witness :
  ∃ f', serve_clients 10 zeros 0 (λ _, 0) any_slot
      ((0, Got (message "/* all rows")) :: [(1, Got (message "delete from t;"))]) (mkFront INITIAL None one_session) =
      (Ret (replicate 2 (Reply [x00])), f') ∧
    fr_start f' = STATE_COMMENT ∧ w_sm (se_world (fr_session f')) = w_sm (se_world one_session).
Proof.
  apply (unclosed_comment_silences 10 zeros 0 (λ _, 0) any_slot eq_refl eq_refl "/* all rows" (str_bytes " all rows")).
  - reflexivity.
  - reflexivity.
  - by apply unclosed_small.
  - repeat constructor; vm_compute; discriminate.
  - vm_compute. reflexivity.
  - constructor; [|done]. exists "delete from t;". split_and!; [done| |vm_compute; reflexivity|done|done|by apply unclosed_small].
    repeat constructor; vm_compute; discriminate.
Defined.
