(* ===== verification/SqlServer.v ===== *)
(** * The server for clients that send SQL

    Histories of texts through the generated scanner and parser: what the abstract database
    answers to the statements the texts mean is what the clients get. *)

From S2P Require Import Prelude Ast SemVal Scanner Lexical LexicalProps Grammar Lexing Yacc AutomatonProps YaccProps Parse Sentence SqlText Meaning Client.
From S2P Require Import Errors Config Posix DiskManager Replacer BufferPool BufferPoolSpec BufferPoolProps.
From S2P Require Import Bitmap RecordFile RecordPage RecordSpec RecordStore RecordProps RecordManager RecordClaims StrMap Values Text Meta Analyze Plan.
From S2P Require Import Compare Planner PlannerProps Executor ExecutorProps Index Printer PrinterProps System Dml Txn Ql Server.
From S2P Require Import Tables SeqScan Columns Relational Select Sample Query Statements Requests CreateTable Utility Schema History Frontend.
From stdpp Require Import options.

#[local] Opaque sim.

(** ** The abstract database and texts *)

Section abstract.
Context (atof : string → Z) (txn : Z).

(** A text that means no statement is answered with an empty text. *)
Inductive abs_text (a : AbsDb) (text : string) : list byte → AbsDb → Prop :=
  | text_statement t bytes a' : means atof text (Some t) → abs_step txn a t bytes a' → abs_text a text bytes a'
  | text_nothing : means atof text None → abs_text a text [x00] a.

(** What the abstract database may answer to the texts. *)
Inductive abs_answers : AbsDb → list string → list (list byte) → AbsDb → Prop :=
  | ans_nil a : abs_answers a [] [] a
  | ans_cons a a1 a2 text texts bytes replies :
      abs_text a text bytes a1 → abs_answers a1 texts replies a2 → abs_answers a (text :: texts) (bytes :: replies) a2.
End abstract.

(** A text that is sent as it is and is no command of the server. *)
Definition sent_text (text : string) : Prop :=
  no_nul (str_bytes text) ∧ str_size text + 1 < BUFFER_LENGTH ∧ text ≠ "exit" ∧ text ≠ "crash".

Section sql.
Context {R : Type} `{!Replacer R, !ReplacerSpec R}.
Context (A : gset PageId) (n : Z).
Context (fuel : nat) (junk : Z → list byte) (Hjunk : ∀ k, 0 <= k → Z.of_nat (length (junk k)) = k) (self_thread : Z).
Context (atof : string → Z) (slot : sem.SemValue) (Hconds : no_conds slot) (Horder : no_order slot) (txn : Z).

Abbreviation Data := (gmap string (RmFileHandle * gmap Rid (list byte))).
Abbreviation request text := (client_request (R := R) fuel junk self_thread atof slot text txn).

(** Between two requests the scanner is in its first start condition. *)
Definition front_stands_for (a : AbsDb) (data : Data) (f : Front R) : Prop :=
  stands_for A n a data (fr_session f) ∧ fr_start f = INITIAL.

(** A text whose statement is acceptable, or that means nothing. *)
Definition acceptable_text (a : AbsDb) (data : Data) (f : Front R) (text : string) : Prop :=
  sent_text text ∧
  ((∃ t, means atof text (Some t) ∧ acceptable A fuel txn a data (w_sm (se_world (fr_session f))) t) ∨ means atof text None).

(** The parser gives the meaning, and the request is run with it. *)
Lemma request_means text o (f : Front R) : fr_start f = INITIAL → sent_text text → means atof text o →
  ∃ tree, request text f =
    match o with
    | Some t =>
        let '(r, s') := handle_request fuel junk self_thread (λ _, Some (Some t)) text txn (fr_session f) in (r, mkFront INITIAL tree s')
    | None => (Ret (Reply [x00]), mkFront INITIAL tree (fresh_session (fr_session f)))
    end.
Proof using Hconds Horder.
  intros Hst (_&_&H1&H2) Hm. unfold client_request. rewrite !decide_False by done.
  destruct (means_parsed atof text o slot (fr_tree f) Hconds Horder Hm) as (res&p&Hp&Hs&Ho).
  unfold parse_text. rewrite Hst, Hp. cbn. rewrite Hs. exists (parse_tree p). destruct (res =? 0); subst.
  - destruct (parse_tree p) as [t|]; [done|]. by rewrite request_without_tree.
  - unfold handle_request. rewrite !decide_False by done. done.
Qed.

(** One acceptable text. *)
Lemma serve_text a data (f : Front R) text : front_stands_for a data f → acceptable_text a data f text →
  ∃ bytes a' data' f', request text f = (Ret (Reply bytes), f') ∧ abs_text atof txn a text bytes a' ∧
    front_stands_for a' data' f' ∧ Z.of_nat (length bytes) <= BUFFER_LENGTH.
Proof using Hjunk Hconds Horder.
  intros [Hs Hst] [Hx [(t&Hm&Hacc)|Hm]]; destruct (request_means text _ f Hst Hx Hm) as [tree Hreq].
  - destruct (serve_one A n fuel junk Hjunk self_thread (λ _, Some (Some t)) txn a data (fr_session f) text t)
      as (bytes&a'&data'&s'&Hrun&Hstep&Hs'); [done|by split_and!; try apply Hx|done|].
    rewrite Hrun in Hreq. exists bytes, a', data', (mkFront INITIAL tree s'). split_and!; [done|by eapply text_statement|done|].
    by eapply reply_fits.
  - exists [x00], a, data, (mkFront INITIAL tree (fresh_session (fr_session f))). split_and!; [done|by apply text_nothing| |].
    + split; [|done]. destruct Hs. by split.
    + vm_compute. discriminate.
Qed.

(** Every text is acceptable in the state the texts before it lead to. *)
Inductive acceptable_texts : AbsDb → Data → Front R → list string → Prop :=
  | texts_nil a data f : acceptable_texts a data f []
  | texts_cons a data f text texts :
      acceptable_text a data f text →
      (∀ bytes a' data' f', request text f = (Ret (Reply bytes), f') → abs_text atof txn a text bytes a' →
         front_stands_for a' data' f' → acceptable_texts a' data' f' texts) →
      acceptable_texts a data f (text :: texts).

(** The server is a relational database for clients that send SQL.  For every history of texts,
    each acceptable in the state it arrives in: the bytes go through the generated scanner and
    parser, the analyzer, the planner, the executors, the record files and the buffer pool,
    and the server answers every one, with the bytes with which the abstract database may
    answer the same texts; in the end its catalogue, its stored files and [output.txt] are
    those of the abstract database, and the scanner is ready for the next request. *)
Theorem sql_server_refines_database a data (f : Front R) texts :
  front_stands_for a data f → acceptable_texts a data f texts →
  ∃ replies a' data' f', serve_clients fuel junk self_thread atof slot ((λ t, (txn, Got (message t))) <$> texts) f =
      (Ret (Reply <$> replies), f') ∧
    abs_answers atof txn a texts replies a' ∧ front_stands_for a' data' f'.
Proof using Hjunk Hconds Horder.
  intros Hs Hacc. revert Hs. induction Hacc as [a data f|a data f text texts Hx _ IH]; intros Hs.
  { exists [], a, data, f. split_and!; [done|constructor|done]. }
  destruct (serve_text a data f text Hs Hx) as (bytes&a1&data1&f1&Hrun&Hstep&Hs1&_).
  destruct (IH bytes a1 data1 f1 Hrun Hstep Hs1 Hs1) as (replies&a2&data2&f2&Hrun2&Habs&Hs2).
  exists (bytes :: replies), a2, data2, f2. split_and!; [|by econstructor|done].
  rewrite !fmap_cons. cbn [serve_clients client_round]. destruct Hx as [(Hn&Hlen&_) _].
  rewrite data_recv_text by done. rewrite (bind_Ret _ _ _ _ _ Hrun). by rewrite (bind_Ret _ _ _ _ _ Hrun2).
Qed.
End sql.
