(* ===== verification/Dialogue.v ===== *)
(** * A user and the server

    The loop of [rucbase_client/main.cpp] against the rounds of [client_handler]: what the user
    types and sees. *)

From S2P Require Import Prelude Ast SemVal Scanner Lexical LexicalProps Grammar Lexing Yacc AutomatonProps YaccProps Parse Sentence SqlText Meaning Client.
From S2P Require Import Errors Config Posix DiskManager Replacer BufferPool BufferPoolSpec BufferPoolProps.
From S2P Require Import Bitmap RecordFile RecordPage RecordSpec RecordStore RecordProps StrMap Values Text Meta Analyze Plan.
From S2P Require Import Compare Planner PlannerProps Executor ExecutorProps Index Printer PrinterProps System Dml Txn Ql Server.
From S2P Require Import Tables SeqScan Columns Relational Select RecordClaims Sample Query Statements Requests CreateTable Utility Schema History Frontend SqlServer.
From stdpp Require Import options.

#[local] Opaque sim.

(** ** The loop of the client *)

Section dialogue.
Context {R : Type} `{!Replacer R} (fuel : nat) (junk : Z → list byte) (self_thread : Z).
Context (atof : string → Z) (slot : sem.SemValue).

(** The lines the user types until [readline] says there are no more, and what is printed for
    each.  [rest] is what the buffer for replies holds. *)
Fixpoint client_main (rest : list byte) (lines : list string) : M (Front R) (list string) :=
  match lines with
  | [] => ret ["Bye." +:+ nl]
  | line :: lines =>
      if decide (line = "") then client_main rest lines
      else if is_exit_command line then ret ["The client will be closed." +:+ nl; "Bye." +:+ nl]
      else
        let! step := client_round fuel junk self_thread atof slot INVALID_TXN_ID (Got (message line)) in
        match step with
        | Reply reply =>
            let! shown := lift (print_reply rest reply) in
            let! l := client_main (zeros MAX_MEM_BUFFER_SIZE) lines in
            ret (shown :: l)
        | ClientGone | ServerExit => ret ["Connection has been closed" +:+ nl; "Bye." +:+ nl]
        end
  end.
End dialogue.

Lemma abs_text_nul atof txn a text bytes a' : abs_text atof txn a text bytes a' → x00 ∈ bytes.
Proof.
  intros [t bs b _ Hs|_]; [|by left]. apply list_elem_of_In.
  destruct Hs as [t q bs b _ Hq| | | | | | |]; [destruct Hq|..]; unfold text_reply, error_text, text_reply; rewrite ?in_app_iff; simpl; auto.
Qed.

(** ** What the user sees *)

Definition shown (reply : list byte) : string := String.string_of_list_byte (c_str reply).

(** A line that the client sends: not empty, and none of its own commands. *)
Definition typed (line : string) : Prop := line ≠ "" ∧ is_exit_command line = false.

Section shown.
Context {R : Type} `{!Replacer R, !ReplacerSpec R}.
Context (A : gset PageId) (n : Z).
Context (fuel : nat) (junk : Z → list byte) (Hjunk : ∀ k, 0 <= k → Z.of_nat (length (junk k)) = k) (self_thread : Z).
Context (atof : string → Z) (slot : sem.SemValue) (Hconds : no_conds slot) (Horder : no_order slot).

Lemma client_answers a data (f : Front R) lines rest :
  front_stands_for A n a data f →
  acceptable_texts A n fuel junk self_thread atof slot INVALID_TXN_ID a data f lines → Forall typed lines →
  ∃ replies a' data' f', client_main fuel junk self_thread atof slot rest lines f =
      (Ret ((shown <$> replies) ++ ["Bye." +:+ nl]), f') ∧
    abs_answers atof INVALID_TXN_ID a lines replies a' ∧ front_stands_for A n a' data' f'.
Proof using Hjunk Hconds Horder.
  intros Hs Hacc. revert Hs rest. induction Hacc as [a data f|a data f text texts Hx _ IH]; intros Hs rest Htyped.
  { exists [], a, data, f. split_and!; [done|constructor|done]. }
  apply Forall_cons in Htyped as [[Hne Hcmd] Htyped].
  destruct (serve_text A n fuel junk Hjunk self_thread atof slot Hconds Horder INVALID_TXN_ID a data f text Hs Hx)
    as (bytes&a1&data1&f1&Hrun&Hstep&Hs1&Hlen).
  destruct (IH bytes a1 data1 f1 Hrun Hstep Hs1 Hs1 (zeros MAX_MEM_BUFFER_SIZE) Htyped) as (replies&a2&data2&f2&Hrun2&Habs&Hs2).
  exists (bytes :: replies), a2, data2, f2. split_and!; [|by econstructor|done].
  cbn [client_main fmap list_fmap app]. rewrite decide_False, Hcmd by done. cbn [client_round]. destruct Hx as [(Hn&Hfits&_) _].
  rewrite data_recv_text by done. rewrite (bind_Ret _ _ _ _ _ Hrun).
  rewrite print_reply_text by (by eapply abs_text_nul || done).
  unfold bind at 1, lift. by rewrite (bind_Ret _ _ _ _ _ Hrun2).
Qed.

(** C2: The user sees the answers of a relational database.  For every history of lines, each
    acceptable in the state it arrives in (CREATE TABLE of a free name, DROP TABLE of a table
    none of whose pages is in the pool, SELECT of at most two tables, INSERT, DELETE, UPDATE, SHOW TABLES, DESC, HELP, statements whose bodies are empty,
    statements to be refused, texts that are no statement), typed into the client: each line
    goes over the socket through the generated scanner and parser, the analyzer, the planner,
    the executors, the record files and the buffer pool, and what the client prints is, line by
    line, the text of a reply with which the abstract database, a catalogue and a finite map
    from tables to records, may answer the lines; then "Bye."  In the end the catalogue, the
    stored files and [output.txt] are those of the abstract database and the scanner is ready
    for the next request. *)
Theorem client_shows_database a data (f : Front R) lines rest :
  front_stands_for A n a data f →
  acceptable_texts A n fuel junk self_thread atof slot INVALID_TXN_ID a data f lines → Forall typed lines →
  ∃ replies a' data' f', client_main fuel junk self_thread atof slot rest lines f =
      (Ret ((shown <$> replies) ++ ["Bye." +:+ nl]), f') ∧
    abs_answers atof INVALID_TXN_ID a lines replies a' ∧ front_stands_for A n a' data' f'.
Proof using Hjunk Hconds Horder.
  intros Hs Hacc Htyped. by apply (client_answers a data f lines rest).
Qed.
End shown.
