(* ===== verification/Process.v ===== *)
(** * Server processes

    [main] of [rmdb.cpp] with one client: the database is started, made when it is not there,
    the client types its lines, and the database is closed.  Several processes one after the
    other on one machine serve one abstract database. *)

From S2P Require Import Prelude Ast SemVal Scanner Lexical LexicalProps Grammar Lexing Yacc AutomatonProps YaccProps Parse Sentence SqlText Meaning Client.
From S2P Require Import Errors Config Posix DiskManager Replacer BufferPool BufferPoolSpec BufferPoolProps.
From S2P Require Import Bitmap RecordFile RecordPage RecordSpec RecordStore RecordProps RecordManager RecordClaims StrMap Values Text Meta Analyze Plan.
From S2P Require Import Compare Planner PlannerProps Executor ExecutorProps Index Printer PrinterProps System Dml Txn Ql Server.
From S2P Require Import Tables SeqScan Columns Relational Select Sample Query Statements Requests CreateTable Utility Schema Closing Reopening.
From S2P Require Import History Frontend SqlServer Dialogue.
From stdpp Require Import options.

#[local] Opaque sim.

(** ** A process *)

(** The scanner, the session and the transactions of a new process. *)
Definition new_front {R} (w : SmState R) : Front R :=
  mkFront INITIAL None (mkSession (mkWorld w (mkContext (zeros BUFFER_LENGTH) 0 false)) (mkTM ∅ TWO_PHASE_LOCKING 0 0) None).

Section process.
Context {R : Type} `{!Replacer R} (r : R) (n : Z) (name : string).
Context (iter : ∀ A : Type, gmap string A → list (string * A)).
Context (fuel : nat) (junk : Z → list byte) (junk_hdr : IxFileHdr) (self_thread : Z).
Context (atof : string → Z) (slot : sem.SemValue) (rest : list byte).

(** [main] with one client, which leaves before the server is stopped.  What the user saw, and
    the machine afterwards. *)
Definition run_process (lines : list string) : M OS (list string) := λ o,
  match start_db junk_hdr name (new_process r n o) with
  | (Ret _, w) =>
      let '(res, f) := client_main fuel junk self_thread atof slot rest lines (new_front w) in
      match close_db iter junk (w_sm (se_world (fr_session f))) with
      | (Ret _, w') => (res, os (disk (sm_store w')))
      | (Throw e, w') => (Throw e, os (disk (sm_store w')))
      | (Crash c, w') => (Crash c, os (disk (sm_store w')))
      end
  | (Throw e, w) => (Throw e, os (disk (sm_store w)))
  | (Crash c, w) => (Crash c, os (disk (sm_store w)))
  end.

Fixpoint run_processes (sessions : list (list string)) : M OS (list (list string)) :=
  match sessions with
  | [] => ret []
  | lines :: sessions =>
      let! shown := run_process lines in
      let! l := run_processes sessions in
      ret (shown :: l)
  end.
End process.

(** ** The database between two processes *)

Abbreviation Data := (gmap string (RmFileHandle * gmap Rid (list byte))).

(** The machine holds the abstract database, which can be started. *)
Record holds (name : string) (a : AbsDb) (data : Data) (o : OS) : Prop := {
  ho_saved : saved (abs_env a) (abs_out a) (abs_db a) data o;
  ho_restartable : restartable name (abs_env a) (abs_db a) data;
  ho_described : described (abs_db a) data;
  ho_tables : abs_tables a = snd <$> data;
  ho_names : ∀ t, is_Some (data !! t) ↔ is_table (abs_db a) t = true;
}.

(** The same database in a new process: the tables are open in the order of the catalogue. *)
Definition restarted (name : string) (a : AbsDb) : AbsDb :=
  mkAbs (abs_db a) (abs_tables a) (abs_out a) (reopened_env (tabs_ (abs_db a)) (start_env name (abs_env a))).

Definition kept (name : string) (a : AbsDb) (data : Data) : Data :=
  reopened (tabs_ (abs_db a)) (start_env name (abs_env a)) data ∅.

(** A machine without the database becomes one with an empty one. *)
Definition empty_database (name : string) (o : OS) : AbsDb :=
  mkAbs (mkDbMeta name []) ∅ (os_files o !! ([name; OUTPUT_FILE] : path))
    (mkEnv [name] (os_dirs (made name o)) (os_limit o) (os_nofile o) ∅).

Definition begins (name : string) (a : AbsDb) (data : Data) (o : OS) : Prop :=
  holds name a data o ∨ (creatable name o ∧ holds name a data (made name o)).

Lemma empty_begins name o : creatable name o → begins name (empty_database name o) ∅ o.
Proof.
  intros Hc. right. split; [done|]. destruct (made_saved name o ∅ Hc) as [Hs Hr]. split; try done.
  - intros t (tab&Htab&_). done.
  - intros t. split; [by intros [? ?]|done].
Qed.

Section lift.
Context {R : Type} `{!Replacer R, !ReplacerSpec R}.
Context (name : string) (A : gset PageId) (n : Z).

Lemma kept_names a data : DbMeta_ok (abs_db a) → (∀ t, is_Some (data !! t) ↔ is_table (abs_db a) t = true) →
  ∀ t, is_Some (kept name a data !! t) ↔ is_table (abs_db a) t = true.
Proof using.
  intros Hdb Hn t. rewrite <- Hn. assert (H : snd <$> kept name a data = snd <$> data).
  { apply reopened_tables; [by apply catalog_names|]. intros t'. by rewrite Hn, is_table_in. }
  apply (f_equal (lookup t)) in H. rewrite !lookup_fmap in H. destruct (kept name a data !! t), (data !! t); done || by split; eexists.
Qed.

Lemma kept_described a data : DbMeta_ok (abs_db a) → (∀ t, is_Some (data !! t) ↔ is_table (abs_db a) t = true) →
  described (abs_db a) data → described (abs_db a) (kept name a data).
Proof using.
  intros Hdb Hn Hd t Ht. destruct (Hd t Ht) as (hd&m&Hdt&Hrest).
  assert (Hin : ∀ t', t' ∈ (tabs_ (abs_db a)).*1 ↔ is_Some (data !! t')) by (intros t'; by rewrite Hn, is_table_in).
  destruct (reopened_in (tabs_ (abs_db a)) (start_env name (abs_env a)) data ∅ t) as (fd&x&Hx&Hk).
  - apply Hin. by eexists.
  - by apply catalog_names.
  - intros t' Ht'. by apply Hin.
  - rewrite Hdt in Hx. injection Hx as <-. exists (mkRmFileHandle fd (file_hdr_ hd)), m. by split.
Qed.

Lemma start_ready (r : R) junk_hdr a data o :
  rep_inv r → evictable r = ∅ → capacity r = n → Z.of_nat (size A) < n →
  holds name a data o → (∀ t x p, kept name a data !! t = Some x → in_file (file_hdr_ x.1) p → mkPageId (fd_ x.1) p ∈ A) →
  ∃ w, start_db junk_hdr name (new_process r n o) = (Ret tt, w) ∧
    front_stands_for A n (restarted name a) (kept name a data) (new_front w).
Proof using.
  intros Hr Hev Hcap Hsize [Hsv Hrs Hd Ht Hn] HA. pose proof (rs_catalog _ _ _ _ Hrs) as Hdb.
  destruct (start_db_ok A n r Hr Hev Hcap junk_hdr name (abs_env a) (abs_out a) (abs_db a) data o Hrs Hn Hsv HA Hsize) as (w&Hrun&Hi&He).
  exists w. split; [done|]. split; [|done]. split.
  - exact Hi.
  - exact He.
  - exact (kept_described a data Hdb Hn Hd).
  - simpl. rewrite Ht. symmetry. apply reopened_tables; [by apply catalog_names|]. intros t. by rewrite Hn, is_table_in.
  - exact (kept_names a data Hdb Hn).
  - apply Hdb.
Qed.
End lift.

(** ** Processes serve a database *)

Section runs.
Context {R : Type} `{!Replacer R, !ReplacerSpec R} (r : R) (n : Z).
Context (Hr : rep_inv r) (Hev : evictable r = ∅) (Hcap : capacity r = n) (name : string).
Context (iter : ∀ A : Type, gmap string A → list (string * A)) (Hiter : ∀ A m, iter A m ≡ₚ map_to_list m).
Context (fuel : nat) (junk : Z → list byte) (Hjunk : ∀ k, 0 <= k → Z.of_nat (length (junk k)) = k).
Context (junk_hdr : IxFileHdr) (self_thread : Z).
Context (atof : string → Z) (slot : sem.SemValue) (Hconds : no_conds slot) (Horder : no_order slot) (rest : list byte).

Abbreviation client := (client_main (R := R) fuel junk self_thread atof slot rest).
Abbreviation run := (run_process r n name iter fuel junk junk_hdr self_thread atof slot rest).
Abbreviation runs := (run_processes r n name iter fuel junk junk_hdr self_thread atof slot rest).
Abbreviation answered := (abs_answers atof INVALID_TXN_ID).

(** The lines of a process: every one is acceptable in the state it arrives in, the pool is large
    enough for the pages of the tables, and in the end the catalogue can be written. *)
Definition acceptable_run (a : AbsDb) (data : Data) (o : OS) (lines : list string) : Prop :=
  Forall typed lines ∧ ∃ A, Z.of_nat (size A) < n ∧
    (∀ t x p, kept name a data !! t = Some x → in_file (file_hdr_ x.1) p → mkPageId (fd_ x.1) p ∈ A) ∧
    ∀ w, start_db junk_hdr name (new_process r n o) = (Ret tt, w) →
      acceptable_texts A n fuel junk self_thread atof slot INVALID_TXN_ID (restarted name a) (kept name a data) (new_front w) lines ∧
      ∀ replies a' data' f', answered (restarted name a) lines replies a' → front_stands_for A n a' data' f' →
        writable (abs_env a') (abs_db a') ∧ restartable name (abs_env a') (abs_db a') data'.

Lemma run_process_ok a data o lines : holds name a data o → acceptable_run a data o lines →
  ∃ replies a' data' o', run lines o = (Ret ((shown <$> replies) ++ ["Bye." +:+ nl]), o') ∧
    answered (restarted name a) lines replies a' ∧ holds name a' data' o'.
Proof using Hr Hev Hcap Hiter Hjunk Hconds Horder.
  intros Ho (Htyped&A&Hsize&HA&Hacc).
  destruct (start_ready name A n r junk_hdr a data o Hr Hev Hcap Hsize Ho HA) as (w&Hstart&Hready).
  destruct (Hacc w Hstart) as [Hok Hclose].
  destruct (client_answers A n fuel junk Hjunk self_thread atof slot Hconds Horder _ _ _ lines rest Hready Hok Htyped)
    as (replies&a'&data'&f'&Hrun&Habs&Hs).
  destruct (Hclose replies a' data' f' Habs Hs) as [Hwr Hrs]. destruct Hs as [[Hi He Hd Ht Hn _] _].
  destruct (close_db_ok iter Hiter junk A n (abs_env a') He (abs_out a') (abs_db a') data' _ Hi Hwr) as (w'&Hc&Hsv).
  exists replies, a', data', (os (disk (sm_store w'))). split_and!; [|done|by split].
  unfold run_process. by rewrite Hstart, Hrun, Hc.
Qed.

(** What the abstract database may answer to the lines of the processes. *)
Inductive runs_answered : AbsDb → list (list string) → list (list (list byte)) → AbsDb → Prop :=
  | runs_nil a : runs_answered a [] [] a
  | runs_cons a a1 a2 lines sessions replies l :
      answered (restarted name a) lines replies a1 → runs_answered a1 sessions l a2 →
      runs_answered a (lines :: sessions) (replies :: l) a2.

Inductive acceptable_runs : AbsDb → Data → OS → list (list string) → Prop :=
  | accept_nil a data o : acceptable_runs a data o []
  | accept_cons a data o lines sessions :
      acceptable_run a data o lines →
      (∀ replies a' data' o', run lines o = (Ret ((shown <$> replies) ++ ["Bye." +:+ nl]), o') →
         answered (restarted name a) lines replies a' → holds name a' data' o' → acceptable_runs a' data' o' sessions) →
      acceptable_runs a data o (lines :: sessions).

(** A process that makes its database does what one does that finds it empty. *)
Lemma run_process_creates o lines : creatable name o → run lines o = run lines (made name o).
Proof using. intros Hc. unfold run_process. by rewrite start_db_creates. Qed.

Lemma acceptable_made a data o sessions : creatable name o →
  acceptable_runs a data o sessions → acceptable_runs a data (made name o) sessions.
Proof using.
  intros Hc Hacc. destruct Hacc as [a data o|a data o lines sessions Hrun Hrest]; constructor.
  - destruct Hrun as (Ht&A&Hs&HA&Hacc). split; [done|]. exists A. split_and!; [done|done|].
    intros w. rewrite <- start_db_creates by done. apply Hacc.
  - intros replies a' data' o'. rewrite <- run_process_creates by done. apply Hrest.
Qed.

Lemma run_processes_ok a data o sessions :
  holds name a data o → acceptable_runs a data o sessions →
  ∃ l a' data' o', runs sessions o = (Ret ((λ replies, (shown <$> replies) ++ ["Bye." +:+ nl]) <$> l), o') ∧
    runs_answered a sessions l a' ∧ holds name a' data' o'.
Proof using Hr Hev Hcap Hiter Hjunk Hconds Horder.
  intros Ho Hacc. revert Ho. induction Hacc as [a data o|a data o lines sessions Hrun _ IH]; intros Ho.
  { exists [], a, data, o. split_and!; [done|constructor|done]. }
  destruct (run_process_ok a data o lines Ho Hrun) as (replies&a1&data1&o1&Hr1&Habs&Ho1).
  destruct (IH replies a1 data1 o1 Hr1 Habs Ho1 Ho1) as (l&a2&data2&o2&Hr2&Habs2&Ho2).
  exists (replies :: l), a2, data2, o2. split_and!; [|by econstructor|done].
  cbn [run_processes fmap list_fmap]. rewrite (bind_Ret _ _ _ _ _ Hr1). by rewrite (bind_Ret _ _ _ _ _ Hr2).
Qed.

(** C1: A database outlives its servers.  The server is started on a machine that holds an abstract
    database, or that has no directory of its name; a user types lines; the server is stopped,
    and started again, any number of times.  Every process is [main] as a whole: [create_db] when
    it is needed, [open_db] with the catalogue read from [db.meta] and every table file opened,
    the lines through client, scanner, parser, analyzer, planner, executors, record files and
    buffer pool, and [close_db], which writes catalogue, headers and pages back.  For every
    sequence of acceptable sessions, what the users see are the answers of one abstract database
    that goes on from process to process, and in the end the machine holds it. *)
Theorem processes_serve_database a data o lines sessions :
  begins name a data o → acceptable_runs a data o (lines :: sessions) →
  ∃ l a' data' o', runs (lines :: sessions) o = (Ret ((λ replies, (shown <$> replies) ++ ["Bye." +:+ nl]) <$> l), o') ∧
    runs_answered a (lines :: sessions) l a' ∧ holds name a' data' o'.
Proof using Hr Hev Hcap Hiter Hjunk Hconds Horder.
  intros [Ho|[Hc Ho]] Hacc; [by apply (run_processes_ok a data)|].
  destruct (run_processes_ok a data (made name o) (lines :: sessions)) as (l&a'&data'&o'&Hruns&Hrest); [done|by apply acceptable_made|].
  exists l, a', data', o'. split; [|done]. rewrite <- Hruns. cbn [run_processes]. unfold bind at 1 3. by rewrite run_process_creates.
Qed.
End runs.
