(* ===== verification/FirstSession.v ===== *)
(** * A first session

    A user of a server with an empty database: a table is made, a line is no statement, a row
    is stored and read back.  The theorem about the dialogue is applied to it. *)

From S2P Require Import Prelude Ast SemVal Scanner Lexical LexicalProps Grammar Lexing Yacc AutomatonProps YaccProps Parse Sentence SqlText Meaning Client.
From S2P Require Import Errors Config Posix DiskManager Replacer BufferPool BufferPoolSpec BufferPoolProps.
From S2P Require Import Bitmap RecordFile RecordPage RecordSpec RecordStore RecordProps RecordManager RecordClaims StrMap Values Text Meta Analyze Plan.
From S2P Require Import Compare Planner PlannerProps Executor ExecutorProps Index Printer PrinterProps System Dml Txn Ql Server.
From S2P Require Import Tables SeqScan Columns Relational Select Sample Query Statements Requests CreateTable Utility Schema Closing Reopening History Frontend SqlServer Dialogue Process.
From stdpp Require Import options.

Definition float_text (b : Z) : string := "1.5".

Definition create_tree : ast.TreeNode :=
  ast.CreateTable "t" [ast.mkColDef "id" (ast.mkTypeLen ast.SV_TYPE_INT 4); ast.mkColDef "name" (ast.mkTypeLen ast.SV_TYPE_STRING 4)].
Definition insert_tree : ast.TreeNode := ast.InsertStmt "t" [ast.IntLit 7; ast.StringLit "abcd"].
Definition select_tree : ast.TreeNode := ast.SelectStmt (one_select ["t"]).
Definition nonsense : string := "selec name from t;".

Definition first_lines : list string :=
  [sql_text float_text create_tree; nonsense; sql_text float_text insert_tree; sql_text float_text select_tree].

(** A server for the database [d], on a machine that has none, with room for files of two pages. *)
Definition machine : OS := mkOS ∅ ∅ [] ∅ (2 * PAGE_SIZE) 1024.
Definition empty_front : Front LRUReplacer :=
  new_front (start_db (ix_initial_hdr []) "d" (new_process (LRUReplacer_init 2) 2 machine)).2.
Definition empty_abs : AbsDb := restarted "d" (empty_database "d" machine).

Abbreviation client := (client_main (R := LRUReplacer) 10 zeros 0 (λ _, 0) any_slot).
Abbreviation request text := (client_request (R := LRUReplacer) 10 zeros 0 (λ _, 0) any_slot text INVALID_TXN_ID).
Abbreviation abs_says := (abs_text (λ _, 0) INVALID_TXN_ID).
Abbreviation ready := (front_stands_for (R := LRUReplacer) one_pages 2).
Abbreviation fine := (acceptable_text (R := LRUReplacer) one_pages 10 (λ _, 0) INVALID_TXN_ID).

(** What the user sees. *)
Example first_session_shown :
  (client [] first_lines empty_front).1 = Ret ["" ; ""; "";
    "+------------------+" +:+ nl +:+ "|             name |" +:+ nl +:+ "+------------------+" +:+ nl +:+
    "|             abcd |" +:+ nl +:+ "+------------------+" +:+ nl +:+ "Total record(s): 1" +:+ nl; "Bye." +:+ nl].
Proof. vm_compute. reflexivity. Qed.

(** ** The empty database *)

Lemma machine_creatable : creatable "d" machine.
Proof.
  split; try (done || vm_compute; discriminate).
Qed.

Lemma start_made : start_db (ix_initial_hdr []) "d" (new_process (LRUReplacer_init 2) 2 machine) =
  start_db (ix_initial_hdr []) "d" (new_process (LRUReplacer_init 2) 2 (made "d" machine)).
Proof. apply start_db_creates, machine_creatable. Qed.

Lemma empty_ready : ready empty_abs ∅ empty_front.
Proof.
  destruct (empty_begins "d" machine machine_creatable) as [Hs|[_ Hs]]; [by destruct Hs as [[]]|].
  assert (H : ∃ w, start_db (ix_initial_hdr []) "d" (new_process (LRUReplacer_init 2) 2 (made "d" machine)) = (Ret tt, w) ∧
    ready empty_abs ∅ (new_front w)).
  { apply (start_ready "d" one_pages 2 (LRUReplacer_init 2) (ix_initial_hdr []) (empty_database "d" machine) ∅ (made "d" machine));
      [apply lru_inv_init|reflexivity|reflexivity|vm_compute; done|done|done]. }
  destruct H as (w&Hw&Hr).
  unfold empty_front. by rewrite start_made, Hw.
Qed.

Lemma tree_means t : SqlText.tree_ok (λ _, False) t → means (λ _, 0) (sql_text float_text t) (Some t).
Proof. intros Ht. by apply (sql_text_means (λ _, 0) float_text (λ _, False)). Qed.

(** The abstract database does what the tree says. *)
Lemma tree_step a t bytes a' : SqlText.tree_ok (λ _, False) t → abs_says a (sql_text float_text t) bytes a' →
  abs_step INVALID_TXN_ID a t bytes a'.
Proof.
  intros Ht%tree_means H. destruct H as [t' bytes a' Hm Hs|Hm]; pose proof (means_unique _ _ _ _ Ht Hm) as E; [|done].
  by injection E as ->.
Qed.

Abbreviation printable := (SqlText.tree_ok (λ _, False)).

Lemma trees_ok : printable create_tree ∧ printable insert_tree ∧ printable select_tree.
Proof. simpl. check_tree. Qed.

Lemma sent_small text : forallb (λ b, negb (byte_val b =? 0)) (str_bytes text) && (str_size text + 1 <? BUFFER_LENGTH) &&
  negb (String.eqb text "exit") && negb (String.eqb text "crash") = true → sent_text text.
Proof.
  rewrite !andb_true_iff, !negb_true_iff, !String.eqb_neq, Z.ltb_lt. intros [[[Hn Hl] H1] H2]. split_and!; try done.
  apply Forall_forall. intros b Hb. by apply (forallb_in _ _ _ Hn), negb_true_iff, Z.eqb_neq in Hb.
Qed.

Lemma nonsense_means : means (λ _, 0) nonsense None.
Proof.
  assert (Hs : forallb (λ b, negb (bool_decide (b = x2f))) (c_str (str_bytes nonsense)) = true) by (vm_compute; reflexivity).
  destruct (yyparse (λ _, 0) any_slot (yy_scan_string nonsense INITIAL) None) as [[res p]|] eqn:E;
    [|vm_compute in E; discriminate].
  assert (res = 1) as ->.
  { assert (fst <$> yyparse (λ _, 0) any_slot (yy_scan_string nonsense INITIAL) None = Some 1) as E' by (vm_compute; reflexivity).
    rewrite E in E'. by injection E'. }
  eapply refused_means; [|exact E]. intros Hin. by apply (forallb_in _ _ _ Hs) in Hin.
Qed.

(** ** The lines *)

Definition created : AbsDb := add_table "t" [ast.mkColDef "id" (ast.mkTypeLen ast.SV_TYPE_INT 4);
  ast.mkColDef "name" (ast.mkTypeLen ast.SV_TYPE_STRING 4)] empty_abs.

Lemma created_db : abs_db created = one_db.
Proof. vm_compute. reflexivity. Qed.

Lemma create_fine : fine empty_abs ∅ empty_front (sql_text float_text create_tree).
Proof.
  split; [by apply sent_small; vm_compute|]. left. exists create_tree. split; [apply tree_means, trees_ok|].
  apply ok_create; [|vm_compute; reflexivity]. split.
  - done.
  - repeat constructor; done.
  - vm_compute. discriminate.
  - reflexivity.
  - done.
  - vm_compute. set_solver.
  - vm_compute. reflexivity.
  - vm_compute. reflexivity.
  - vm_compute. discriminate.
Qed.

Lemma create_step bytes a' : abs_says empty_abs (sql_text float_text create_tree) bytes a' → a' = created.
Proof.
  intros H%tree_step; [|apply trees_ok].
  inversion H as [t q ? ? Ha Hq| | | | | |t err Href|]; subst; [|done|done|].
  - injection Ha as <-. destruct Hq; discriminate.
  - inversion Href; subst; try done.
    match goal with H : ¬ fresh_hdr _ |- _ => destruct H end. vm_compute. by split.
Qed.

Lemma nonsense_step a bytes a' : abs_says a nonsense bytes a' → a' = a.
Proof. intros [t bs b Hm _|_]; [|done]. by pose proof (means_unique _ _ _ _ nonsense_means Hm). Qed.

(** The handle of the table before the first row. *)
Definition first_handle : RmFileHandle := new_handle 3 [mkColDef "id" TYPE_INT 4; mkColDef "name" TYPE_STRING 4].

Lemma handle_before f1 f2 b1 b2 data : request (sql_text float_text create_tree) empty_front = (Ret (Reply b1), f1) →
  request nonsense f1 = (Ret (Reply b2), f2) → ready created data f2 → data !! "t" = Some (first_handle, ∅).
Proof.
  intros H1 H2 [[Hi _ _ Ht _ _] _].
  assert (Hc : fhs_ (w_sm (se_world (fr_session (request nonsense (request (sql_text float_text create_tree) empty_front).2).2))) !! "t" =
    Some first_handle) by (vm_compute; reflexivity).
  rewrite H1 in Hc. cbn [snd] in Hc. rewrite H2 in Hc. cbn [snd] in Hc.
  rewrite (ti_handles _ _ _ _ _ _ _ Hi), lookup_fmap in Hc. apply (f_equal (lookup "t")) in Ht. rewrite lookup_fmap in Ht.
  change (abs_tables created !! "t") with (Some (∅ : gmap Rid (list byte))) in Ht.
  destruct (data !! "t") as [[hd m]|]; [|done]. simpl in Hc, Ht. by injection Hc as ->; injection Ht as <-.
Qed.

Definition insert_tree_query : Query := insert_query [val_int 7; val_str "abcd"] insert_tree.

Lemma insert_fine data f : data !! "t" = Some (first_handle, ∅) →
  fine created data f (sql_text float_text insert_tree).
Proof.
  intros Ht. split; [by apply sent_small; vm_compute|]. left. exists insert_tree.
  split; [apply tree_means, trees_ok|].
  apply (ok_query _ _ _ _ _ _ _ insert_tree_query); [rewrite created_db; vm_compute; reflexivity|].
  unfold query_acceptable. rewrite created_db.
  exists first_handle, ∅, one_tab. split_and!; [done|reflexivity|done|].
  left. split_and!; [|done|].
  - repeat constructor; vm_compute; try discriminate; try done.
  - intros _. split_and!; [vm_compute; reflexivity|by apply elem_of_singleton|vm_compute; discriminate].
Qed.

(** At most one row is stored. *)
Lemma insert_step bytes a' : abs_says created (sql_text float_text insert_tree) bytes a' →
  abs_db a' = one_db ∧ (length (abs_rows a' "t") <= 1)%nat.
Proof.
  intros H%tree_step; [|apply trees_ok].
  inversion H as [t q ? ? Ha Hq| | | | |t Hidle|t err Href|]; subst; [|done|split; [apply created_db|vm_compute; lia]].
  apply (analyzed_once _ _ insert_tree_query) in Ha; [|rewrite created_db; vm_compute; reflexivity]. subst q.
  destruct Hq as [x bs Hp|t vs tab m r Hp Ht Hm _ _|t bs m Hp|t sets bs tab m Hp|t vs tab err Hp Ht Href]; try discriminate.
  - split; [apply created_db|]. simpl in Hp. injection Hp as <- <-.
    change (abs_tables created !! "t") with (Some (∅ : gmap Rid (list byte))) in Hm. injection Hm as <-.
    unfold abs_rows, set_table. cbn [abs_tables]. rewrite lookup_insert_eq. 
    rewrite length_fmap, length_records, map_size_insert_None by done. vm_compute. lia.
  - split; [apply created_db|vm_compute; lia].
Qed.

Lemma select_fine a data f : ready a data f → abs_db a = one_db → (length (abs_rows a "t") <= 1)%nat →
  fine a data f (sql_text float_text select_tree).
Proof.
  intros [Hs _] Hdb Hrows. split; [by apply sent_small; vm_compute|]. left. exists select_tree. split; [apply tree_means, trees_ok|].
  apply (ok_query _ _ _ _ _ _ _ one_query); [rewrite Hdb; vm_compute; reflexivity|].
  unfold query_acceptable. rewrite Hdb. split; [done|]. apply one_query_fits. by rewrite <- (abs_rows_of one_pages 2 a data (fr_session f)).
Qed.

Lemma first_lines_acceptable :
  acceptable_texts one_pages 2 10 zeros 0 (λ _, 0) any_slot INVALID_TXN_ID empty_abs ∅ empty_front first_lines.
Proof.
  apply texts_cons; [apply create_fine|]. intros b1 a1 data1 f1 H1 ->%create_step _.
  apply texts_cons; [split; [by apply sent_small; vm_compute|right; apply nonsense_means]|].
  intros b2 a2 data2 f2 H2 ->%nonsense_step Hr2.
  apply texts_cons; [by eapply insert_fine, handle_before|]. intros b3 a3 data3 f3 _ [Hdb Hrows]%insert_step Hr3.
  apply texts_cons; [by apply select_fine|]. intros. apply texts_nil.
Qed.

Lemma first_lines_typed : Forall typed first_lines.
Proof. repeat constructor; vm_compute; discriminate. Qed.

Lemma sql_server_refines_database_witness :
  ∃ replies a' data' f', serve_clients 10 zeros 0 (λ _, 0) any_slot ((λ t, (INVALID_TXN_ID, Got (message t))) <$> first_lines)
      empty_front = (Ret (Reply <$> replies), f') ∧
    abs_answers (λ _, 0) INVALID_TXN_ID empty_abs first_lines replies a' ∧ ready a' data' f'.
Proof.
  apply (sql_server_refines_database one_pages 2 10 zeros zeros_junk 0 (λ _, 0) any_slot eq_refl eq_refl INVALID_TXN_ID
    empty_abs ∅ empty_front first_lines).
  - apply empty_ready.
  - apply first_lines_acceptable.
Defined.

Lemma client_shows_database_witness :
  ∃ replies a' data' f', client [] first_lines empty_front = (Ret ((shown <$> replies) ++ ["Bye." +:+ nl]), f') ∧
    abs_answers (λ _, 0) INVALID_TXN_ID empty_abs first_lines replies a' ∧ ready a' data' f'.
Proof.
  apply (client_shows_database one_pages 2 10 zeros zeros_junk 0 (λ _, 0) any_slot eq_refl eq_refl
    empty_abs ∅ empty_front first_lines []).
  - apply empty_ready.
  - apply first_lines_acceptable.
  - apply first_lines_typed.
Defined.
