(* ===== verification/Restart.v ===== *)
(** * Starting, stopping and starting again

    Server processes one after the other on the machine of the first session: what is stored is
    found again, and what DROP TABLE leaves behind when pages of the table are in the pool.  At the
    end, three sessions as the witness of the theorem about processes. *)

From S2P Require Import Prelude Ast SemVal Scanner Lexical LexicalProps Grammar Lexing Yacc AutomatonProps YaccProps Parse Sentence SqlText Meaning Client.
From S2P Require Import Errors Config Posix DiskManager Replacer BufferPool BufferPoolSpec BufferPoolProps.
From S2P Require Import Bitmap RecordFile RecordPage RecordSpec RecordStore RecordProps RecordManager RecordClaims StrMap Values Text Meta Analyze Plan.
From S2P Require Import Compare Planner PlannerProps Executor ExecutorProps Index Printer PrinterProps System Dml Txn Ql Server.
From S2P Require Import Tables SeqScan Columns Relational Select Sample Query Statements Requests CreateTable Utility Schema Closing Drop Reopening History Frontend SqlServer Dialogue Process FirstSession.
From stdpp Require Import options.

Abbreviation run n := (run_process (LRUReplacer_init n) n "d" (λ _ m, map_to_list m) 10 zeros (ix_initial_hdr []) 0 (λ _, 0) any_slot []).
Abbreviation runs n := (run_processes (LRUReplacer_init n) n "d" (λ _ m, map_to_list m) 10 zeros (ix_initial_hdr []) 0 (λ _, 0) any_slot []).

Definition one_column (title : string) (rows : list string) (count : string) : string :=
  let line x := "| " +:+ x +:+ " |" +:+ nl in
  let sep := "+------------------+" +:+ nl in
  sep +:+ line title +:+ sep +:+ foldr (λ r t, line r +:+ t) "" rows +:+ sep +:+ count.

(** What a server stored, the next one finds. *)
Example rows_after_restart :
  (runs 2 [["create table t (id int);"; "insert into t values (7);"]; ["select * from t;"; "show tables;"]] machine).1 =
  Ret [[""; ""; "Bye." +:+ nl];
       [one_column "              id" ["               7"] ("Total record(s): 1" +:+ nl);
        one_column "          Tables" ["               t"] ""; "Bye." +:+ nl]].
Proof. vm_compute. reflexivity. Qed.

(** ** DROP TABLE

    [drop_table] closes the file of the table and leaves its pages in the pool.  The next file gets
    the same descriptor, so that two frames have the same page id; when the pool is closed, each is
    written to the file, and the last one stays.  In a pool of two frames the new table has the row
    [8] as long as the server runs, and the row [7] of the dropped table afterwards. *)

Definition dropping : list string :=
  ["create table a (id int);"; "insert into a values (1);"; "create table t (id int);"; "insert into t values (7);";
   "drop table t;"; "create table u (id int);"; "insert into u values (8);"; "select * from u;"].

Example dropped_rows_return :
  let '(shown, o) := run 2 dropping machine in
  shown = Ret ["" ; ""; ""; ""; ""; ""; ""; one_column "              id" ["               8"] ("Total record(s): 1" +:+ nl); "Bye." +:+ nl] ∧
  (run 2 ["select * from u;"] o).1 =
    Ret [one_column "              id" ["               7"] ("Total record(s): 1" +:+ nl); "Bye." +:+ nl].
Proof. vm_compute. split; reflexivity. Qed.

(** The frame of the dropped page can also be evicted while the server runs: the table of pages loses the
    page of the new table, which is then read from a file it has not been written to. *)
Definition evicting : list string :=
  ["create table t (id int);"; "insert into t values (7);"; "drop table t;"; "create table u (id int);";
   "insert into u values (8);"; "create table v (id int);"; "insert into v values (9);"; "insert into u values (10);";
   "create table x (id int);"; "insert into x values (11);"; "select * from u;"].

Example new_page_lost :
  (run 3 evicting machine).1 =
  Ret (replicate 10 "" ++ ["Error: DiskManager::read_page Error" +:+ nl; "Bye." +:+ nl]).
Proof. vm_compute. reflexivity. Qed.

(** ** Three sessions

    A table is made in one process, a row is stored and read in the next, and the table is dropped
    in the last.  The theorem about processes is applied to it. *)

Definition drop_tree : ast.TreeNode := ast.DropTable "t".

Definition sessions : list (list string) :=
  [[sql_text float_text create_tree]; [sql_text float_text insert_tree; sql_text float_text select_tree];
   [sql_text float_text drop_tree; sql_text float_text ast.ShowTables]].

Lemma restarted_created : restarted "d" created = created.
Proof. vm_compute. reflexivity. Qed.

Lemma one_db_ok : DbMeta_ok one_db.
Proof.
  split; [by eapply bool_decide_unpack; vm_compute|]. split; [repeat constructor|]. split; [by vm_compute|].
  eapply bool_decide_unpack. by vm_compute.
Qed.

(** Whatever is stored in the two frames, the server can be stopped and started again. *)
Lemma closes a data f : ready a data f → abs_db a = one_db → abs_env a = abs_env created →
  writable (abs_env a) (abs_db a) ∧ restartable "d" (abs_env a) (abs_db a) data.
Proof.
  intros [[Hi _ _ _ Hn _] _] Hdb He. rewrite Hdb, He in *. split.
  { split; [done| |vm_compute; discriminate|vm_compute; discriminate]. by eapply bool_decide_unpack; vm_compute. }
  assert (Ht : ∀ t, is_Some (data !! t) → t = "t").
  { intros t Ht%Hn%is_table_in. by apply list_elem_of_singleton in Ht. }
  split; try done.
  - apply one_db_ok.
  - repeat constructor.
  - intros t ->%Ht. done.
  - intros t x Hx. destruct (decide (num_pages (file_hdr_ x.1) <= 2)) as [H|H]; [vm_compute e_limit; unfold PAGE_SIZE; lia|].
    pose proof (ti_pages _ _ _ _ _ _ _ Hi t x 2 Hx ltac:(split; [vm_compute; discriminate|lia])) as Hp. by apply elem_of_singleton in Hp.
Qed.

(** The header of the table in the file is that of a new table. *)
Lemma header_stored shown o data : run 2 [sql_text float_text create_tree] machine = (Ret shown, o) →
  holds "d" created data o → ∃ fd, data !! "t" = Some (mkRmFileHandle fd (file_hdr_ first_handle), ∅).
Proof.
  intros Hrun [[_ _ _ _ _ Hsv] _ _ Ht _]. apply (f_equal (lookup "t")) in Ht. rewrite lookup_fmap in Ht.
  change (abs_tables created !! "t") with (Some (∅ : gmap Rid (list byte))) in Ht.
  destruct (data !! "t") as [[[fd h] m]|] eqn:E; [|done]. simpl in Ht. injection Ht as <-. exists fd. do 3 f_equal.
  destruct (Hsv _ _ E) as (c&Hc&Hm&Hok). simpl in Hm, Hok.
  assert (Hc' : (c ← os_files (run 2 [sql_text float_text create_tree] machine).2 !! (["d"; "t"] : path); mread c 0 sizeof_RmFileHdr) =
    Some (RmFileHdr_bytes (file_hdr_ first_handle))) by (vm_compute; reflexivity).
  rewrite Hrun in Hc'. cbn [snd] in Hc'. change (e_cwd (abs_env created) ++ ["t"]) with (["d"; "t"] : path) in Hc.
  rewrite Hc in Hc'. simpl in Hc'. rewrite Hm in Hc'. apply (inj Some) in Hc'.
  apply (f_equal bytes_RmFileHdr) in Hc'. rewrite bytes_RmFileHdr_bytes in Hc' by by eapply file_ok_int32.
  rewrite Hc'. vm_compute. reflexivity.
Qed.

(** In the next process the table is the first file again. *)
Lemma kept_one a data hd m : abs_db a = one_db → abs_env a = abs_env created → data !! "t" = Some (hd, m) →
  kept "d" a data = {[ "t" := (mkRmFileHandle 3 (file_hdr_ hd), m) ]}.
Proof. intros Hdb He Ht. unfold kept. rewrite Hdb, He. cbn [reopened tabs_ one_db fst]. rewrite Ht. vm_compute free_fd. apply insert_empty. Qed.

Lemma restarted_env a : abs_db a = one_db → abs_env a = abs_env created → abs_env (restarted "d" a) = abs_env created.
Proof. intros Hdb He. unfold restarted. cbn [abs_env]. rewrite Hdb, He. vm_compute. reflexivity. Qed.

(** Only CREATE TABLE and DROP TABLE change the catalogue and the open files. *)
Lemma step_keeps txn a t bytes a' : abs_step txn a t bytes a' →
  match t with ast.CreateTable _ _ | ast.DropTable _ => False | _ => True end → abs_db a' = abs_db a ∧ abs_env a' = abs_env a.
Proof.
  intros Hs Hne. destruct Hs as [t' q bs b _ Hq| | | | | |t err Href|]; [destruct Hq|..]; done.
Qed.

Lemma first_run_acceptable :
  acceptable_run (LRUReplacer_init 2) 2 "d" 10 zeros (ix_initial_hdr []) 0 (λ _, 0) any_slot
    (empty_database "d" machine) ∅ machine [sql_text float_text create_tree].
Proof.
  split; [by repeat constructor; vm_compute; discriminate|]. exists one_pages. split_and!; [vm_compute; done|done|].
  intros w Hw. assert (new_front w = empty_front) as -> by (unfold empty_front; by rewrite Hw).
  split.
  - apply (texts_cons _ _ _ _ _ _ _ _ empty_abs ∅); [apply create_fine|]. intros. apply texts_nil.
  - intros replies a' data' f' Habs Hs. inversion Habs as [|? a1 ? ? ? ? ? Htext Hnil]; subst. inversion Hnil; subst.
    apply create_step in Htext as ->. apply (closes created data' f'); [done|apply created_db|done].
Qed.

Lemma second_answered replies a' :
  abs_answers (λ _, 0) INVALID_TXN_ID created [sql_text float_text insert_tree; sql_text float_text select_tree] replies a' →
  abs_db a' = one_db ∧ abs_env a' = abs_env created.
Proof.
  intros Habs. inversion Habs as [|? a1 ? ? ? ? ? H1 H2]; subst. inversion H2 as [|? a2 ? ? ? ? ? H3 H4]; subst. inversion H4; subst.
  apply tree_step in H1; [|apply trees_ok]. apply tree_step in H3; [|apply trees_ok].
  destruct (step_keeps _ _ _ _ _ H1 I) as [Hdb1 He1]. destruct (step_keeps _ _ _ _ _ H3 I) as [Hdb3 He3].
  split; [rewrite Hdb3, Hdb1; apply created_db|exact (eq_trans He3 He1)].
Qed.

Lemma second_run_acceptable shown o data : run 2 [sql_text float_text create_tree] machine = (Ret shown, o) → holds "d" created data o →
  acceptable_run (LRUReplacer_init 2) 2 "d" 10 zeros (ix_initial_hdr []) 0 (λ _, 0) any_slot created data o
    [sql_text float_text insert_tree; sql_text float_text select_tree].
Proof.
  intros Hrun Ho. destruct (header_stored shown o data Hrun Ho) as [fd Ht].
  assert (Hkept : kept "d" created data = {[ "t" := (first_handle, ∅) ]}) by (apply (kept_one _ _ _ _ created_db eq_refl Ht)).
  unfold acceptable_run. rewrite restarted_created, Hkept.
  split; [by repeat constructor; vm_compute; discriminate|]. exists one_pages. split_and!; [vm_compute; done| |].
  { intros t x p [<- <-]%lookup_singleton_Some [H1 H2]. change (num_pages _) with 1 in H2. unfold RM_FIRST_RECORD_PAGE in H1. lia. }
  intros w _. split.
  - apply texts_cons; [by apply insert_fine, lookup_singleton_eq|]. intros b1 a1 data1 f1 _ [Hdb Hrows]%insert_step Hr1.
    apply texts_cons; [by apply select_fine|]. intros. apply texts_nil.
  - intros replies a' data' f' [Hdb He]%second_answered Hs. by apply (closes a' data' f' Hs).
Qed.

Lemma drop_step a bytes a' : abs_db a = one_db → abs_says a (sql_text float_text drop_tree) bytes a' → a' = remove_table "t" a.
Proof.
  intros Hdb H%tree_step; [|simpl; check_tree].
  inversion H as [t q ? ? Ha Hq| | | | |t Hidle|t err Href|]; subst; [|by destruct Hidle| |done].
  - injection Ha as <-. destruct Hq; discriminate.
  - inversion Href; subst; try done. match goal with H : is_table _ _ = false |- _ => by rewrite Hdb in H end.
Qed.

(** When the table is gone, so is everything that can keep the server from being started again. *)
Lemma closes_empty a data f : ready a data f → abs_db a = mkDbMeta "d" [] → abs_env a = env_closed "t" (abs_env created) →
  writable (abs_env a) (abs_db a) ∧ restartable "d" (abs_env a) (abs_db a) data.
Proof.
  intros [[_ _ _ _ Hn _] _] Hdb He. rewrite Hdb, He in *. split.
  { split; [done| |vm_compute; discriminate|vm_compute; discriminate]. by eapply bool_decide_unpack; vm_compute. }
  assert (Ht : ∀ t, ¬ is_Some (data !! t)) by by intros t ?%Hn.
  split; try done.
  - split_and!; [by eapply bool_decide_unpack; vm_compute|constructor|done|constructor].
  - intros t Hx. by destruct (Ht t).
  - intros t x Hx. destruct (Ht t). by eexists.
Qed.

Lemma third_run_acceptable a data o : holds "d" a data o → abs_db a = one_db → abs_env a = abs_env created →
  acceptable_run (LRUReplacer_init 2) 2 "d" 10 zeros (ix_initial_hdr []) 0 (λ _, 0) any_slot a data o
    [sql_text float_text drop_tree; sql_text float_text ast.ShowTables].
Proof.
  intros Ho Hdb He. destruct (proj2 (ho_names _ _ _ _ Ho "t")) as [[hd m] Ht]; [by rewrite Hdb|].
  pose proof (kept_one a data hd m Hdb He Ht) as Hkept. pose proof (restarted_env a Hdb He) as Henv.
  unfold acceptable_run. rewrite Hkept.
  split; [by repeat constructor; vm_compute; discriminate|]. exists one_pages. split_and!; [vm_compute; done| |].
  { intros t x p [<- <-]%lookup_singleton_Some [H1 H2]. simpl in H2 |- *.
    pose proof (rs_pages _ _ _ _ (ho_restartable _ _ _ _ Ho) "t" (hd, m) Ht) as Hlim. rewrite He in Hlim.
    change (e_limit _) with (2 * PAGE_SIZE) in Hlim. unfold PAGE_SIZE, RM_FIRST_RECORD_PAGE in *. simpl in Hlim.
    apply elem_of_singleton. f_equal. lia. }
  intros w Hw. pose proof (start_db_pool (BufferPoolManager_init 2 (LRUReplacer_init 2)) (ix_initial_hdr []) "d"
    (new_process (LRUReplacer_init 2) 2 o) eq_refl) as Hpool. rewrite Hw in Hpool. cbn [snd] in Hpool. split.
  - apply texts_cons.
    { split; [by apply sent_small; vm_compute|]. left. exists drop_tree. split; [apply tree_means; simpl; check_tree|].
      eapply ok_drop; [by apply lookup_singleton_eq|]. rewrite Henv. change (abs_db (restarted "d" a)) with (abs_db a). rewrite Hdb. split.
      - exists one_tab. by split.
      - intros p. cbn [new_front fr_session se_world w_sm]. by rewrite Hpool.
      - vm_compute. discriminate. }
    intros b1 a1 data1 f1 _ _ _. apply texts_cons; [|intros; apply texts_nil].
    split; [by apply sent_small; vm_compute|]. left. exists ast.ShowTables. split; [by apply tree_means; simpl; check_tree|apply ok_tables].
  - intros replies a' data' f' Habs Hs.
    inversion Habs as [|? a1 ? ? ? ? ? H1 H2]; subst. inversion H2 as [|? a2 ? ? ? ? ? H3 H4]; subst. inversion H4; subst.
    apply drop_step in H1 as ->; [|done]. apply tree_step in H3; [|by simpl; check_tree].
    destruct (step_keeps _ _ _ _ _ H3 I) as [Hdb3 He3].
    apply (closes_empty a' data' f' Hs); [rewrite Hdb3|rewrite He3]; unfold remove_table; cbn [abs_db abs_env].
    + change (abs_db (restarted "d" a)) with (abs_db a). by rewrite Hdb.
    + by rewrite Henv.
Qed.

Lemma processes_serve_database_witness :
  ∃ l a' data' o', runs 2 sessions machine = (Ret ((λ replies, (shown <$> replies) ++ ["Bye." +:+ nl]) <$> l), o') ∧
    runs_answered "d" (λ _, 0) (empty_database "d" machine) sessions l a' ∧ holds "d" a' data' o'.
Proof.
  apply (@processes_serve_database LRUReplacer _ LRU_ReplacerSpec (LRUReplacer_init 2) 2 (lru_inv_init 2) eq_refl eq_refl "d" (λ _ m, map_to_list m) ltac:(done)
    10 zeros zeros_junk (ix_initial_hdr []) 0 (λ _, 0) any_slot eq_refl eq_refl [] (empty_database "d" machine) ∅).
  - apply empty_begins, machine_creatable.
  - apply accept_cons; [apply first_run_acceptable|]. intros replies a' data' o' Hrun Habs Ho.
    assert (a' = created) as ->.
    { inversion Habs as [|? a1 ? ? ? ? ? Htext Hnil]; subst. inversion Hnil; subst. by apply create_step in Htext. }
    apply accept_cons; [by eapply second_run_acceptable|]. intros replies2 a2 data2 o2 _ Habs2 Ho2.
    rewrite restarted_created in Habs2. apply second_answered in Habs2 as [Hdb2 He2].
    apply accept_cons; [by apply third_run_acceptable|]. intros. apply accept_nil.
Defined.

(** What the users see. *)
Example sessions_shown : (runs 2 sessions machine).1 = Ret [["" ; "Bye." +:+ nl];
  [""; one_column "            name" ["            abcd"] ("Total record(s): 1" +:+ nl); "Bye." +:+ nl];
  [""; one_column "          Tables" [] ""; "Bye." +:+ nl]].
Proof. vm_compute. reflexivity. Qed.
